(** * jsonvectorizer: the schema tree, its four recursive passes and the
      sparse LIL insertion primitive

    A shallow embedding of [jsontype.pyx], [lil.pyx], [schema.pyx] and
    [jsonvectorizer.pyx].  Python objects that are mutated in place (a node's
    [type] set, its [properties] dict, the LIL rows) are modelled by explicit
    state passing: every method returns the updated node (or matrix).  The
    schema is a tree without sharing, so a functional update of a child is
    what the in-place mutation of that child amounts to.  A raised exception
    is the [Raise] case of [result]. *)

From Stdlib Require Import ZArith QArith Lia Ascii DecimalString.
From Equations Require Import Equations.
From stdpp Require Import gmap strings list sorting.

Set Warnings "-register-all,-clear-no-such-hyp".
Local Open Scope Z_scope.

(** ** Exceptions *)

Inductive exn : Type :=
| TypeError | ValueError | KeyError | IndexError | AttributeError | OverflowError.

Inductive result (A : Type) : Type :=
| Ok (a : A)
| Raise (e : exn).
Arguments Ok {A} a.
Arguments Raise {A} e.

Global Instance result_ret : MRet result := λ A a, Ok a.
Global Instance result_bind : MBind result := λ A B f m,
  match m with
  | Ok a => f a
  | Raise e => Raise e
  end.

Definition of_option {A} (e : exn) (o : option A) : result A :=
  match o with
  | Some a => Ok a
  | None => Raise e
  end.

Global Instance exn_eq_dec : EqDecision exn.
Proof. solve_decision. Defined.

Global Instance result_eq_dec {A} `{EqDecision A} : EqDecision (result A).
Proof. solve_decision. Defined.

(** ** C integers

    [cdef int] variables are 32-bit two's complement: arithmetic on them wraps
    ([wrap32]), and the conversion of a Python int that does not fit raises
    OverflowError ([to_cint]). *)

Definition wrap32 (z : Z) : Z := (z + 2 ^ 31) mod 2 ^ 32 - 2 ^ 31.

Definition to_cint (z : Z) : result Z :=
  if bool_decide (- 2 ^ 31 ≤ z < 2 ^ 31) then Ok z else Raise OverflowError.

(** ** jsontype.pxd / jsontype.pyx *)

(** [cdef enum JsonType]; the constructors are listed in the order of the
    enum, which is the order [sorted] uses on a set of types. *)
Inductive JsonType : Type :=
| OBJECT | ARRAY | JNULL | BOOLEAN | INTEGER | NUMBER | STRING | TIMESTAMP.

Global Instance JsonType_eq_dec : EqDecision JsonType.
Proof. solve_decision. Defined.

Definition JsonType_code (t : JsonType) : nat :=
  match t with
  | OBJECT => 0 | ARRAY => 1 | JNULL => 2 | BOOLEAN => 3
  | INTEGER => 4 | NUMBER => 5 | STRING => 6 | TIMESTAMP => 7
  end%nat.

Definition JsonType_of_code (n : nat) : option JsonType :=
  match n with
  | 0 => Some OBJECT | 1 => Some ARRAY | 2 => Some JNULL | 3 => Some BOOLEAN
  | 4 => Some INTEGER | 5 => Some NUMBER | 6 => Some STRING | 7 => Some TIMESTAMP
  | _ => None
  end%nat.

Global Instance JsonType_countable : Countable JsonType.
Proof. apply (inj_countable JsonType_code JsonType_of_code). by intros []. Defined.

Definition all_types : list JsonType :=
  [OBJECT; ARRAY; JNULL; BOOLEAN; INTEGER; NUMBER; STRING; TIMESTAMP].

(** [sorted(self.type)]: the members of the set in ascending enum order. *)
Definition sorted_types (s : gset JsonType) : list JsonType :=
  filter (λ t, t ∈ s) all_types.

(** The Python values a document is made of.  A float is modelled by the
    rational it denotes; [DUnicode] is a Python 2 [unicode] object and
    [DOther] stands for a value of any other Python type (tuple, bytes, a
    subclass of int, ...).  The keys of a [DDict] are of type [str]. *)
Inductive Doc : Type :=
| DNone
| DDict (kvs : list (string * Doc))
| DList (l : list Doc)
| DBool (b : bool)
| DInt (z : Z)
| DFloat (x : Q)
| DStr (s : string)
| DUnicode (s : string)
| DOther.

(** [type(doc)] *)
Inductive PyType : Type :=
| NoneType | dict_t | list_t | bool_t | int_t | float_t | str_t | unicode_t | other_t.

Global Instance PyType_eq_dec : EqDecision PyType.
Proof. solve_decision. Defined.

Definition py_type (doc : Doc) : PyType :=
  match doc with
  | DNone => NoneType
  | DDict _ => dict_t
  | DList _ => list_t
  | DBool _ => bool_t
  | DInt _ => int_t
  | DFloat _ => float_t
  | DStr _ => str_t
  | DUnicode _ => unicode_t
  | DOther => other_t
  end.

Definition is_None (doc : Doc) : bool :=
  match doc with DNone => true | _ => false end.

Definition str_of (doc : Doc) : string :=
  match doc with DStr s | DUnicode s => s | _ => "" end.

Section Classifier.
(** [sys.version_info.major] *)
Context (VERSION : Z).
(** [datetime.datetime.strptime(doc, "%Y-%m-%dT%H:%M:%SZ")] does not raise *)
Context (strptime_ok : string → bool).

Definition typeof (doc : Doc) : result JsonType :=
  if is_None doc then Ok JNULL
  else
    let json_type := py_type doc in
    if decide (json_type = dict_t) then Ok OBJECT
    else if decide (json_type = list_t) then Ok ARRAY
    else if decide (json_type = bool_t) then Ok BOOLEAN
    else if decide (json_type = int_t) then Ok NUMBER
    else if decide (json_type = float_t) then Ok NUMBER
    else if decide (json_type = str_t) then
      if strptime_ok (str_of doc) then Ok TIMESTAMP else Ok STRING
    else if bool_decide (VERSION = 2) && bool_decide (json_type = unicode_t)
    then Ok STRING
    else Raise TypeError.
End Classifier.

(** [str.lower()] on a string of bytes: the ASCII capitals become small
    letters.  The only other character Python lowers to an ASCII letter is
    the Kelvin sign, to [k], which none of the eight names contains. *)
Definition lower_ascii (c : ascii) : ascii :=
  let n := nat_of_ascii c in
  if ((65 <=? n) && (n <=? 90))%nat then ascii_of_nat (n + 32) else c.

Fixpoint lower (s : string) : string :=
  match s with
  | EmptyString => EmptyString
  | String c rest => String (lower_ascii c) (lower rest)
  end.

Definition str2type (json_type : string) : result JsonType :=
  let json_type := lower json_type in
  if decide (json_type = "object") then Ok OBJECT
  else if decide (json_type = "array") then Ok ARRAY
  else if decide (json_type = "null") then Ok JNULL
  else if decide (json_type = "boolean") then Ok BOOLEAN
  else if decide (json_type = "integer") then Ok INTEGER
  else if decide (json_type = "number") then Ok NUMBER
  else if decide (json_type = "timestamp") then Ok TIMESTAMP
  else if decide (json_type = "string") then Ok STRING
  else Raise ValueError.

Definition type2str (json_type : JsonType) : string :=
  match json_type with
  | OBJECT => "object"
  | ARRAY => "array"
  | JNULL => "null"
  | BOOLEAN => "boolean"
  | INTEGER => "integer"
  | NUMBER => "number"
  | TIMESTAMP => "timestamp"
  | STRING => "string"
  end.

(** ** lil.pyx: the sparse boolean LIL matrix

    A matrix is the pair [X.rows], [X.data] of scipy's [lil_matrix]: per row
    the list of set columns and the parallel list of values.  Row and list
    indices are naturals (the code never passes a negative one). *)
Module Lil.

(** The [while lo < hi] loop of [bisect_left]; [mid] is in range whenever
    [hi ≤ len(a)], the lookup is written out all the same. *)
Equations? bisect_loop (a : list Z) (x : Z) (lo hi : nat) : result nat
  by wf (hi - lo)%nat lt :=
  bisect_loop a x lo hi with decide (lo < hi)%nat => {
    | left _ with a !! (lo + (hi - lo) / 2)%nat => {
        | Some v =>
            if decide (v < x) then bisect_loop a x (lo + (hi - lo) / 2 + 1)%nat hi
            else bisect_loop a x lo (lo + (hi - lo) / 2)%nat
        | None => Raise IndexError };
    | right _ => Ok lo }.
Proof.
  - lia.
  - change ((Nat.divmod (hi - lo) 1 0 1).1) with ((hi - lo) / 2)%nat.
    assert ((hi - lo) / 2 < hi - lo)%nat by (apply Nat.div_lt; lia). lia.
Defined.

Definition bisect_left (a : list Z) (x : Z) : result nat :=
  let lo := 0%nat in
  let hi := length a in
  match (if decide (0 < hi)%nat then a !! (hi - 1)%nat else None) with
  | Some v => if decide (v < x) then Ok hi else bisect_loop a x lo hi
  | None => bisect_loop a x lo hi
  end.

(** [list.insert(pos, x)] *)
Definition list_insert_at {A} (pos : nat) (x : A) (l : list A) : list A :=
  take pos l ++ x :: drop pos l.

(** [data[pos] = True] *)
Definition list_assign {A} (pos : nat) (x : A) (l : list A) : result (list A) :=
  if decide (pos < length l)%nat then Ok (<[pos := x]> l) else Raise IndexError.

(** What [lil_insert] does to the row and its data once they are fetched. *)
Definition row_insert (row : list Z) (data : list bool) (j : Z)
  : result (list Z * list bool) :=
  pos ← bisect_left row j;
  if decide (pos = length row) then Ok (row ++ [j], data ++ [true])
  else
    v ← of_option IndexError (row !! pos);
    if decide (v ≠ j) then Ok (list_insert_at pos j row, list_insert_at pos true data)
    else data' ← list_assign pos true data; Ok (row, data').

Definition lil_insert (rows : list (list Z)) (datas : list (list bool))
    (i : nat) (j : Z) : result (list (list Z) * list (list bool)) :=
  row ← of_option IndexError (rows !! i);
  data ← of_option IndexError (datas !! i);
  '(row', data') ← row_insert row data j;
  Ok (<[i := row']> rows, <[i := data']> datas).

Fixpoint lil_set_col (rows : list (list Z)) (data : list (list bool))
    (rs : list nat) (col : Z) : result (list (list Z) * list (list bool)) :=
  match rs with
  | [] => Ok (rows, data)
  | r :: rs' =>
      '(rows', data') ← lil_insert rows data r col;
      lil_set_col rows' data' rs' col
  end.

Fixpoint lil_set (rows : list (list Z)) (data : list (list bool))
    (rs : list nat) (cols : list Z) : result (list (list Z) * list (list bool)) :=
  match rs with
  | [] => Ok (rows, data)
  | r :: rs' =>
      match cols with
      | [] => Raise IndexError
      | c :: cols' =>
          '(rows', data') ← lil_insert rows data r c;
          lil_set rows' data' rs' cols'
      end
  end.

End Lil.

(** ** Python containers and strings *)

(** A Python [dict] keeps its keys in insertion order: an association list
    whose keys are pairwise distinct. *)
Section Dict.
Context {K V : Type} `{EqDecision K}.

Fixpoint dict_get (d : list (K * V)) (k : K) : option V :=
  match d with
  | [] => None
  | (k', v) :: rest => if decide (k' = k) then Some v else dict_get rest k
  end.

(** [d[k] = v] *)
Fixpoint dict_set (d : list (K * V)) (k : K) (v : V) : list (K * V) :=
  match d with
  | [] => [(k, v)]
  | (k', v') :: rest =>
      if decide (k' = k) then (k, v) :: rest else (k', v') :: dict_set rest k v
  end.

(** [del d[k]]: the entry of [k] goes, the others keep their order. *)
Definition dict_del (d : list (K * V)) (k : K) : list (K * V) :=
  filter (λ kv, kv.1 ≠ k) d.

(** [k in d] *)
Definition dict_in (d : list (K * V)) (k : K) : bool :=
  match dict_get d k with Some _ => true | None => false end.

Definition dict_keys (d : list (K * V)) : list K := d.*1.
End Dict.

(** [d[k].append(i)] if [k in d], else [d[k] = [i]] *)
Definition dict_append {K A} `{EqDecision K}
    (d : list (K * list A)) (k : K) (i : A) : list (K * list A) :=
  match dict_get d k with
  | Some l => dict_set d k (l ++ [i])
  | None => dict_set d k [i]
  end.

(** [sorted] on a list of [str]: insertion sort by code point order. *)
Fixpoint insort (s : string) (l : list string) : list string :=
  match l with
  | [] => [s]
  | x :: rest => if String.leb s x then s :: l else x :: insort s rest
  end.

Definition sorted (l : list string) : list string := foldr insort [] l.

(** [sorted(d.items())] for a dict with [str] keys *)
Definition sorted_items {V} (d : list (string * V)) : list (string * V) :=
  omap (λ k, (k,.) <$> dict_get d k) (sorted (dict_keys d)).

(** [sep.join(l)] *)
Fixpoint join (sep : string) (l : list string) : string :=
  match l with
  | [] => ""
  | [s] => s
  | s :: rest => s +:+ sep +:+ join sep rest
  end.

(** [str(n)] for a non-negative int *)
Definition str_nat (n : nat) : string := NilEmpty.string_of_uint (Nat.to_uint n).

(** The double quote character, code 34 *)
Definition dquote : string := String "034"%char EmptyString.

(** An element of a node's [path]: a property name, ['any'], or the int
    [len(self.items)] that [add_item] appends in tuple mode. *)
Inductive Seg : Type :=
| SegStr (s : string)
| SegInt (i : nat).

(** [':'.join(self.path)]: [str.join] raises TypeError on an int element. *)
Definition join_path (p : list Seg) : result string :=
  strs ← mapM (λ seg, match seg with SegStr s => Ok s | SegInt _ => Raise TypeError end) p;
  Ok (join ":" strs).

(** [':'.join(map(str, self.path))] *)
Definition join_path_str (p : list Seg) : string :=
  join ":" (map (λ seg, match seg with SegStr s => s | SegInt i => str_nat i end) p).

(** ** schema.pyx and jsonvectorizer.pyx: the schema tree *)

(** [schema['type']] is a [str] or a list of [str]. *)
Inductive TypeRepr : Type :=
| TypeStr (s : string)
| TypeList (l : list string).

(** [schema['items']] is a [dict] or a list of [dict]. *)
Inductive ItemsRepr (A : Type) : Type :=
| ItemsDict (a : A)
| ItemsList (l : list A).
Arguments ItemsDict {A} a.
Arguments ItemsList {A} l.

(** [prune]'s [min_f]: an [int], or a [float] (modelled by a rational). *)
Inductive MinF : Type :=
| MInt (z : Z)
| MFloat (x : Q).

(** A rule of [fit]'s [vectorizers] list: the optional ['type'] (a [str] or a
    list of [str]), the optional ['pattern'], and ['vectorizer'] together
    with its ['args'] and ['kwargs']. *)
Record Rule (Factory : Type) : Type := mkRule {
  rule_type : option TypeRepr;
  rule_pattern : option string;
  rule_vectorizer : Factory }.
Arguments mkRule {Factory} _ _ _.
Arguments rule_type {Factory} _.
Arguments rule_pattern {Factory} _.
Arguments rule_vectorizer {Factory} _.

Section JsonVectorizer.

(** *** External collaborators *)

(** [sys.version_info.major], and whether [strptime] accepts a string *)
Context (VERSION : Z) (strptime_ok : string → bool).
(** [bool(re.search(pattern, s))] *)
Context (re_search : string → string → bool).
(** [int(min_f * total)] as binary64 arithmetic computes it *)
Context (int_of_float_times : Q → Z → Z).
(** Fitted extractors, and the classes with their arguments that make them:
    instantiating the class on its args and kwargs and calling
    [fit(values, n_total=n_total, path=path)] gives [None] or the fitted
    object; [vectorizer.feature_names_]; [vectorizer.transform(docs).nonzero()]
    as the list of (row, column). *)
Context {Vectorizer Factory : Type}.
Context (vec_fit : Factory → list Doc → Z → list Seg → option Vectorizer).
Context (vec_feature_names : Vectorizer → list string).
Context (vec_transform : Vectorizer → list Doc → list (nat * Z)).
(** Cython's [language_level]: at 2 the loop variable of a list comprehension
    is the variable of the enclosing function and keeps its last value (as in
    Python 2), at 3 it is local to the comprehension. *)
Context (comprehension_leaks : bool).

(** *** The node *)

(** The attributes of [Schema] followed by those of [JsonVectorizer].
    [required] is [None] until the first object is seen; [pos] and
    [n_features] are C ints. *)
Inductive Node : Type := mkNode {
  path : list Seg;
  tuple_items : bool;
  type : gset JsonType;
  required : option (gset string);
  properties : list (string * Node);
  items : list Node;
  vectorizers : list (JsonType * Vectorizer);
  pos : Z;
  feature_names : list string;
  counts : list (JsonType * Z);
  values : list (JsonType * list Doc);
  n_features : Z }.

Definition set_tuple_items (n : Node) (v : bool) : Node :=
  mkNode (path n) v (type n) (required n) (properties n) (items n)
    (vectorizers n) (pos n) (feature_names n) (counts n) (values n) (n_features n).
Definition set_type (n : Node) (v : gset JsonType) : Node :=
  mkNode (path n) (tuple_items n) v (required n) (properties n) (items n)
    (vectorizers n) (pos n) (feature_names n) (counts n) (values n) (n_features n).
Definition set_required (n : Node) (v : option (gset string)) : Node :=
  mkNode (path n) (tuple_items n) (type n) v (properties n) (items n)
    (vectorizers n) (pos n) (feature_names n) (counts n) (values n) (n_features n).
Definition set_properties (n : Node) (v : list (string * Node)) : Node :=
  mkNode (path n) (tuple_items n) (type n) (required n) v (items n)
    (vectorizers n) (pos n) (feature_names n) (counts n) (values n) (n_features n).
Definition set_items (n : Node) (v : list Node) : Node :=
  mkNode (path n) (tuple_items n) (type n) (required n) (properties n) v
    (vectorizers n) (pos n) (feature_names n) (counts n) (values n) (n_features n).
Definition set_vectorizers (n : Node) (v : list (JsonType * Vectorizer)) : Node :=
  mkNode (path n) (tuple_items n) (type n) (required n) (properties n) (items n)
    v (pos n) (feature_names n) (counts n) (values n) (n_features n).
Definition set_pos (n : Node) (v : Z) : Node :=
  mkNode (path n) (tuple_items n) (type n) (required n) (properties n) (items n)
    (vectorizers n) v (feature_names n) (counts n) (values n) (n_features n).
Definition set_feature_names (n : Node) (v : list string) : Node :=
  mkNode (path n) (tuple_items n) (type n) (required n) (properties n) (items n)
    (vectorizers n) (pos n) v (counts n) (values n) (n_features n).
Definition set_counts (n : Node) (v : list (JsonType * Z)) : Node :=
  mkNode (path n) (tuple_items n) (type n) (required n) (properties n) (items n)
    (vectorizers n) (pos n) (feature_names n) v (values n) (n_features n).
Definition set_values (n : Node) (v : list (JsonType * list Doc)) : Node :=
  mkNode (path n) (tuple_items n) (type n) (required n) (properties n) (items n)
    (vectorizers n) (pos n) (feature_names n) (counts n) v (n_features n).
Definition set_n_features (n : Node) (v : Z) : Node :=
  mkNode (path n) (tuple_items n) (type n) (required n) (properties n) (items n)
    (vectorizers n) (pos n) (feature_names n) (counts n) (values n) v.

(** The object [__cinit__] leaves before [__init__] runs. *)
Definition cinit : Node := mkNode [] false ∅ None [] [] [] 0 [] [] [] 0.

(** A method called on a child: [self.get_property(name).f(...)] and
    [self.get_item(index).f(...)].  [None] stands for the KeyError or
    IndexError of the lookup. *)
Section Child.
Context {A : Type} (f : Node → A).

Fixpoint get_property_with (props : list (string * Node)) (name : string)
  : option A :=
  match props with
  | [] => None
  | (k, child) :: rest =>
      if decide (k = name) then Some (f child) else get_property_with rest name
  end.

Fixpoint get_item_with (its : list Node) (index : nat) : option A :=
  match its, index with
  | [], _ => None
  | child :: _, O => Some (f child)
  | _ :: rest, S index' => get_item_with rest index'
  end.
End Child.

Definition get_property (n : Node) (name : string) : result Node :=
  of_option KeyError (get_property_with id (properties n) name).

Definition get_item (n : Node) (index : nat) : result Node :=
  of_option IndexError (get_item_with id (items n) index).

(** *** The persisted representation: the [dict] of [to_dict] and
    [from_dict], one optional field per key *)
Inductive Repr : Type := mkRepr {
  r_tuple_items : option bool;
  r_type : option TypeRepr;
  r_required : option (gset string);
  r_properties : option (list (string * Repr));
  r_items : option (ItemsRepr Repr);
  r_counts : option (list (string * Z));
  r_values : option (list (string * list Doc));
  r_pos : option Z;
  r_vectorizers : option (list (string * Vectorizer));
  r_feature_names : option (list string);
  r_n_features : option Z }.

(** [{}] *)
Definition empty_repr : Repr :=
  mkRepr None None None None None None None None None None None.

(** A dict comprehension [{k: v for k, v in kvs}] *)
Definition dict_of_items {K V} `{EqDecision K} (kvs : list (K * V)) : list (K * V) :=
  foldl (λ d kv, dict_set d kv.1 kv.2) [] kvs.

(** [{str2type(k): v for k, v in d.items()}] *)
Definition str2type_keys {V} (d : list (string * V)) : result (list (JsonType * V)) :=
  kvs ← mapM (λ kv, t ← str2type kv.1; Ok (t, kv.2)) d;
  Ok (dict_of_items kvs).

(** [{type2str(k): v for k, v in d.items()}] *)
Definition type2str_keys {V} (d : list (JsonType * V)) : list (string * V) :=
  dict_of_items (map (λ kv, (type2str kv.1, kv.2)) d).

(** *** Construction, [from_dict] and [to_dict] *)

Section Methods.
(** [type(self)(schema=schema, path=path, tuple_items=tuple_items)]: the
    constructor, which [add_property] and [add_item] call for the child;
    [init] below ties the knot. *)
Context (construct : Repr → list Seg → bool → result Node).

Definition add_property (self : Node) (name : string) (schema : Repr) : result Node :=
  let path := path self ++ [SegStr name] in
  child ← construct schema path (tuple_items self);
  Ok (set_properties self (dict_set (properties self) name child)).

Definition add_item (self : Node) (schema : Repr) : result Node :=
  let path := path self in
  let path :=
    path ++ (if tuple_items self then [SegInt (length (items self))] else [SegStr "any"]) in
  item ← construct schema path (tuple_items self);
  Ok (set_items self (items self ++ [item])).

(** [for json_type in schema['type']: self.type.add(str2type(json_type))] *)
Fixpoint add_types (self : Node) (names : list string) : result Node :=
  match names with
  | [] => Ok self
  | json_type :: rest =>
      t ← str2type json_type;
      add_types (set_type self ({[t]} ∪ type self)) rest
  end.

(** [for key, value in schema['properties'].items(): self.add_property(key, value)] *)
Fixpoint add_properties (kvs : list (string * Repr)) (self : Node) : result Node :=
  match kvs with
  | [] => Ok self
  | (key, value) :: rest => self ← add_property self key value; add_properties rest self
  end.

(** [for item in schema['items']: self.add_item(item)] *)
Fixpoint add_items (l : list Repr) (self : Node) : result Node :=
  match l with
  | [] => Ok self
  | item :: rest => self ← add_item self item; add_items rest self
  end.

Definition Schema_from_dict (self : Node) (schema : Repr) : result Node :=
  tuple_items ← of_option KeyError (r_tuple_items schema);
  let self := set_tuple_items self tuple_items in
  self ← match r_type schema with
         | Some (TypeStr s) => t ← str2type s; Ok (set_type self ({[t]} ∪ type self))
         | Some (TypeList l) => add_types self l
         | None => Ok self
         end;
  let self := match r_required schema with
              | Some req => set_required self (Some req)
              | None => self
              end in
  self ← match r_properties schema with
         | Some props => add_properties props self
         | None => Ok self
         end;
  match r_items schema with
  | Some (ItemsDict item) => add_item self item
  | Some (ItemsList l) => add_items l self
  | None => Ok self
  end.

Definition from_dict (self : Node) (schema : Repr) : result Node :=
  self ← Schema_from_dict self schema;
  self ← match r_counts schema with
         | Some d => c ← str2type_keys d; Ok (set_counts self c)
         | None => Ok self
         end;
  self ← match r_values schema with
         | Some d => v ← str2type_keys d; Ok (set_values self v)
         | None => Ok self
         end;
  self ← match r_pos schema with
         | Some p => p ← to_cint p; Ok (set_pos self p)
         | None => Ok self
         end;
  self ← match r_vectorizers schema with
         | Some d => v ← str2type_keys d; Ok (set_vectorizers self v)
         | None => Ok self
         end;
  let self := match r_feature_names schema with
              | Some l => set_feature_names self l
              | None => self
              end in
  match r_n_features schema with
  | Some k => k ← to_cint k; Ok (set_n_features self k)
  | None => Ok self
  end.

End Methods.

(** [__cinit__] then [__init__]: the path is stored, ['tuple_items'] is
    defaulted in the dict, and [from_dict] restores the rest. *)
Fixpoint init (schema : Repr) (path : list Seg) (tuple_items : bool) {struct schema}
  : result Node :=
  let self := mkNode path false ∅ None [] [] [] 0 [] [] [] 0 in
  let schema_tuple_items := default tuple_items (r_tuple_items schema) in
  from_dict init self
    (mkRepr (Some schema_tuple_items) (r_type schema) (r_required schema)
       (r_properties schema) (r_items schema) (r_counts schema) (r_values schema)
       (r_pos schema) (r_vectorizers schema) (r_feature_names schema)
       (r_n_features schema)).

Section ToDict.
(** The [to_dict] the children answer to (a [cdef] method, hence virtual). *)
Context (to_dict : Node → Repr).

Definition Schema_to_dict (self : Node) : Repr :=
  let schema := mkRepr (Some (tuple_items self)) None None None None None None None None None None in
  let schema_type :=
    if decide (type self ≠ ∅) then Some (TypeList (map type2str (sorted_types (type self))))
    else None in
  let schema_required := required self in
  let schema_properties :=
    if decide (properties self ≠ [])
    then Some (dict_of_items
                 (omap (λ name, (name,.) <$> get_property_with to_dict (properties self) name)
                    (dict_keys (properties self))))
    else None in
  let schema_items :=
    if decide (items self ≠ [])
    then Some (ItemsList
                 (omap (λ i, get_item_with to_dict (items self) i)
                    (seq 0 (length (items self)))))
    else None in
  mkRepr (r_tuple_items schema) schema_type schema_required schema_properties
    schema_items None None None None None None.

End ToDict.

Fixpoint to_dict (self : Node) : Repr :=
  let schema := Schema_to_dict to_dict self in
  mkRepr (r_tuple_items schema) (r_type schema) (r_required schema)
    (r_properties schema) (r_items schema)
    (if decide (counts self ≠ []) then Some (type2str_keys (counts self)) else None)
    (if decide (values self ≠ []) then Some (type2str_keys (values self)) else None)
    (Some (pos self))
    (if decide (vectorizers self ≠ []) then Some (type2str_keys (vectorizers self)) else None)
    (if decide (feature_names self ≠ []) then Some (feature_names self) else None)
    (Some (n_features self)).

(** *** Learning: [extend] *)

(** [doc.keys()], [doc.items()] and [len(doc)]; the TypeError marks a
    document that is not of the type its classification says. *)
Definition doc_items (doc : Doc) : result (list (string * Doc)) :=
  match doc with DDict kvs => Ok kvs | _ => Raise TypeError end.

Definition doc_list (doc : Doc) : result (list Doc) :=
  match doc with DList l => Ok l | _ => Raise TypeError end.

(** [for key in doc: if key not in self.properties: self.add_property(key, {})];
    the [VERSION == 2] re-encoding concerns [unicode] keys only. *)
Fixpoint add_missing_properties (self : Node) (keys : list string) : result Node :=
  match keys with
  | [] => Ok self
  | key :: rest =>
      self ← (if dict_in (properties self) key then Ok self
              else add_property init self key empty_repr);
      add_missing_properties self rest
  end.

(** [while len(self.items) < len(doc): self.add_item({})]; each turn makes
    [items] one longer, so the loop runs [len(doc) - len(self.items)] times. *)
Fixpoint add_items_while (turns : nat) (self : Node) : result Node :=
  match turns with
  | O => Ok self
  | S turns' => self ← add_item init self empty_repr; add_items_while turns' self
  end.

Definition Schema_extend_self (self : Node) (doc : Doc) (json_type : JsonType)
  : result Node :=
  let self := set_type self ({[json_type]} ∪ type self) in
  if decide (json_type = OBJECT) then
    kvs ← doc_items doc;
    self ← add_missing_properties self (dict_keys kvs);
    let keys : gset string := list_to_set (dict_keys kvs) in
    match required self with
    | None => Ok (set_required self (Some keys))
    | Some req => Ok (set_required self (Some (req ∩ keys)))
    end
  else if decide (json_type = ARRAY) then
    l ← doc_list doc;
    if tuple_items self then add_items_while (length l - length (items self)) self
    else if decide (items self = []) then add_item init self empty_repr
    else Ok self
  else Ok self.

Definition _extend_self (self : Node) (doc : Doc) (json_type : JsonType)
  : result Node :=
  self ← Schema_extend_self self doc json_type;
  let self :=
    set_counts self
      (dict_set (counts self) json_type (default 0 (dict_get (counts self) json_type) + 1)) in
  if bool_decide (json_type ≠ OBJECT) && bool_decide (json_type ≠ ARRAY)
     && bool_decide (json_type ≠ JNULL)
  then Ok (set_values self (dict_append (values self) json_type doc))
  else Ok self.

Section ExtendLoops.
(** [child._extend(value)], the child given last *)
Context (child_extend : Doc → Node → result Node).

(** [for key, value in doc.items(): self.get_property(key)._extend(value)];
    the child is extended in place: the updated child takes its place in the
    parent. *)
Fixpoint extend_properties (kvs : list (string * Doc)) (self : Node) {struct kvs}
  : result Node :=
  match kvs with
  | [] => Ok self
  | (key, value) :: rest =>
      child ← get_property self key;
      child ← child_extend value child;
      extend_properties rest (set_properties self (dict_set (properties self) key child))
  end.

(** The two loops over the elements of an array, [get_item(i)] with the
    position in tuple mode and [get_item(0)] otherwise, as one loop over
    [index]. *)
Fixpoint extend_items (l : list Doc) (i : nat) (self : Node) {struct l} : result Node :=
  match l with
  | [] => Ok self
  | item :: rest =>
      let index := if tuple_items self then i else 0%nat in
      child ← get_item self index;
      child ← child_extend item child;
      extend_items rest (S i) (set_items self (<[index := child]> (items self)))
  end.
End ExtendLoops.

Fixpoint _extend (doc : Doc) (self : Node) {struct doc} : result Node :=
  json_type ← typeof VERSION strptime_ok doc;
  self ← _extend_self self doc json_type;
  if decide (json_type = OBJECT) then
    match doc with
    | DDict kvs => extend_properties _extend kvs self
    | _ => Raise TypeError
    end
  else if decide (json_type = ARRAY) then
    match doc with
    | DList l => extend_items _extend l 0%nat self
    | _ => Raise TypeError
    end
  else Ok self.

Fixpoint extend (self : Node) (docs : list Doc) : result Node :=
  match docs with
  | [] => Ok self
  | doc :: rest => self ← _extend doc self; extend self rest
  end.

(** *** [find_nodes] *)

(** The first loop of [find_nodes]: whether one of the patterns is found in
    [':'.join(self.path)]; the path is joined for each pattern tried, and
    the loop stops at the first match. *)
Fixpoint find_self (p : list Seg) (patterns : list string) : result bool :=
  match patterns with
  | [] => Ok false
  | pattern :: rest =>
      s ← join_path p;
      if re_search pattern s then Ok true else find_self p rest
  end.

Section FindLoops.
(** [child.find_nodes(patterns)] *)
Context (child_find : Node → result (list (list Seg))).

(** [for name in sorted(self.properties)] of [find_nodes] *)
Fixpoint find_properties (props : list (string * Node)) (names : list string)
    (paths : list (list Seg)) {struct names} : result (list (list Seg)) :=
  match names with
  | [] => Ok paths
  | name :: rest =>
      r ← of_option KeyError (get_property_with child_find props name);
      child_paths ← r;
      find_properties props rest (paths ++ child_paths)
  end.

(** [for i in range(len(self.items))] of [find_nodes] *)
Fixpoint find_items (its : list Node) (indices : list nat)
    (paths : list (list Seg)) {struct indices} : result (list (list Seg)) :=
  match indices with
  | [] => Ok paths
  | i :: rest =>
      r ← of_option IndexError (get_item_with child_find its i);
      child_paths ← r;
      find_items its rest (paths ++ child_paths)
  end.
End FindLoops.

Fixpoint find_nodes (self : Node) (patterns : list string) {struct self}
  : result (list (list Seg)) :=
  here ← find_self (path self) patterns;
  let paths := if here : bool then [path self] else [] in
  paths ← find_properties (λ child, find_nodes child patterns) (properties self)
            (sorted (dict_keys (properties self))) paths;
  find_items (λ child, find_nodes child patterns) (items self)
    (seq 0 (length (items self))) paths.

(** *** Documents that [extend] accepts *)

(** Every value of the document, nested ones included, has a JSON type. *)
Fixpoint classifiable (doc : Doc) : bool :=
  match typeof VERSION strptime_ok doc with
  | Ok _ =>
      match doc with
      | DDict kvs => forallb (λ kv, classifiable kv.2) kvs
      | DList l => forallb classifiable l
      | _ => true
      end
  | Raise _ => false
  end.

(** The number of documents of [docs] that [typeof] classifies as [t]. *)
Definition count_of_type (t : JsonType) (docs : list Doc) : nat :=
  length (filter (λ doc, typeof VERSION strptime_ok doc = Ok t) docs).

(** *** Pruning *)

(** [hasmatch(s, patterns)] *)
Fixpoint hasmatch (s : string) (patterns : list string) : bool :=
  match patterns with
  | [] => false
  | pattern :: rest => if re_search pattern s then true else hasmatch s rest
  end.

(** [sum(self.counts.values())] *)
Definition sum_counts (counts : list (JsonType * Z)) : Z :=
  foldr (λ kv acc, kv.2 + acc) 0 counts.

(** The body of the loop of [_prune_self] for one [json_type]. *)
Definition _prune_self_step (path : string) (min_f : Z) (json_type : JsonType)
    (st : list string * Node) : result (list string * Node) :=
  let '(paths, self) := st in
  c ← of_option KeyError (dict_get (counts self) json_type);
  if decide (c < min_f) then
    let paths := paths ++ [path +:+ " -> " +:+ type2str json_type] in
    let self := set_type self (type self ∖ {[json_type]}) in
    let self := set_counts self (dict_del (counts self) json_type) in
    let self :=
      if dict_in (values self) json_type
      then set_values self (dict_del (values self) json_type) else self in
    if decide (json_type = OBJECT) then
      let self := set_properties self [] in
      match required self with
      | Some _ => Ok (paths, set_required self (Some ∅))
      | None => Raise AttributeError
      end
    else if decide (json_type = ARRAY) then Ok (paths, set_items self [])
    else Ok (paths, self)
  else Ok (paths, self).

Definition _prune_self (self : Node) (min_f : Z) : result (list string * Node) :=
  path ← join_path (path self);
  '(paths, self) ←
    foldl (λ st json_type, st ← st; _prune_self_step path min_f json_type st)
      (Ok ([], self)) (sorted_types (type self));
  if decide (type self ≠ ∅) then Ok (paths, self) else Ok ([path], self).

(** The public [prune] up to its call of [_prune]: a float [min_f] becomes
    [int(min_f * sum(self.counts.values()))], and the argument is converted
    to the [int min_f] of [_prune]. *)
Definition prune_entry {A} (self_counts : list (JsonType * Z)) (min_f : MinF)
    (_prune : Z → result A) : result A :=
  let min_f :=
    match min_f with
    | MFloat x => int_of_float_times x (sum_counts self_counts)
    | MInt z => z
    end in
  min_f ← to_cint min_f;
  _prune min_f.

(** What the two loops of [_prune] do with one child: [drop], and the
    recorded paths.  [child_prune] is [child.prune(patterns=patterns,
    min_f=min_f)]; the child comes back as its pruning left it. *)
Definition prune_child (child_prune : Node → result (list string * Node))
    (patterns : list string) (paths : list string) (child : Node)
  : result (list string * bool * Node) :=
  path ← join_path (path child);
  let drop := hasmatch path patterns in
  if drop then Ok (paths ++ [path], drop, child)
  else
    '(child_paths, child) ← child_prune child;
    let drop := bool_decide (type child = ∅) in
    Ok (paths ++ child_paths, drop, child).

Section PruneLoops.
(** One child's turn, given the paths recorded so far. *)
Context (child_step : list string → Node → result (list string * bool * Node)).

(** [for name in sorted(self.properties)] of [_prune]; [props0] is the dict
    the children are fetched from. *)
Fixpoint prune_properties (props0 : list (string * Node)) (names : list string)
    (paths : list string) (self : Node) {struct names} : result (list string * Node) :=
  match names with
  | [] => Ok (paths, self)
  | name :: rest =>
      r ← of_option KeyError (get_property_with (child_step paths) props0 name);
      '(paths, drop, property_) ← r;
      if drop : bool then
        let self := set_properties self (dict_del (properties self) name) in
        match required self with
        | Some req =>
            if decide (name ∈ req)
            then prune_properties props0 rest paths (set_required self (Some (req ∖ {[name]})))
            else prune_properties props0 rest paths self
        | None => Raise TypeError
        end
      else
        prune_properties props0 rest paths
          (set_properties self (dict_set (properties self) name property_))
  end.

(** [for i in reversed(range(len(self.items)))] of [_prune] *)
Fixpoint prune_items (items0 : list Node) (indices : list nat)
    (paths : list string) (self : Node) {struct indices} : result (list string * Node) :=
  match indices with
  | [] => Ok (paths, self)
  | i :: rest =>
      r ← of_option IndexError (get_item_with (child_step paths) items0 i);
      '(paths, drop, item) ← r;
      if drop : bool then prune_items items0 rest paths (set_items self (delete i (items self)))
      else prune_items items0 rest paths (set_items self (<[i := item]> (items self)))
  end.
End PruneLoops.

(** The children are looked up in the node the call started from: the
    self step leaves [properties] and [items] alone or clears them, and each
    turn of a loop touches the entry of its own child only. *)
Fixpoint _prune (self0 : Node) (patterns : list string) (min_f : Z) {struct self0}
  : result (list string * Node) :=
  let child_prune := λ child : Node,
    prune_entry (counts child) (MInt min_f) (_prune child patterns) in
  '(paths, self) ← _prune_self self0 min_f;
  '(paths, self) ←
    prune_properties (prune_child child_prune patterns) (properties self0)
      (sorted (dict_keys (properties self))) paths self;
  prune_items (prune_child child_prune patterns) (items self0)
    (reverse (seq 0 (length (items self)))) paths self.

Definition prune (self : Node) (patterns : list string) (min_f : MinF)
  : result (list string * Node) :=
  prune_entry (counts self) min_f (_prune self patterns).

(** *** Fitting and position assignment *)

(** [get_vectorizer(vectorizers, json_type, path)] *)
Fixpoint get_vectorizer (vectorizers : list (Rule Factory)) (json_type : JsonType)
    (path : string) : option Factory :=
  match vectorizers with
  | [] => None
  | d :: rest =>
      let type_ok :=
        match rule_type d with
        | Some (TypeStr s) => bool_decide (type2str json_type = s)
        | Some (TypeList l) => bool_decide (type2str json_type ∈ l)
        | None => true
        end in
      let pattern_ok :=
        match rule_pattern d with
        | Some pattern => re_search pattern path
        | None => true
        end in
      if type_ok && pattern_ok then Some (rule_vectorizer d)
      else get_vectorizer rest json_type path
  end.

(** The optional-property indicators of an object:
    [for name in sorted(self.properties): if name not in self.required: ...];
    the membership test on a [required] that is [None] raises TypeError. *)
Fixpoint property_feature_names (path : string) (required : option (gset string))
    (names : list string) : result (list string) :=
  match names with
  | [] => Ok []
  | name :: rest =>
      req ← of_option TypeError required;
      fns ← property_feature_names path required rest;
      if decide (name ∉ req)
      then Ok ((path +:+ " has property " +:+ dquote +:+ name +:+ dquote) :: fns)
      else Ok fns
  end.

(** The body of the second loop of [_fit_self] for one [json_type];
    [spath] is the local [path], the joined [self.path]. *)
Definition _fit_self_step (spath : string) (n_total : Z)
    (vectorizers_ : list (JsonType * Factory)) (ignore_patterns : list string)
    (json_type : JsonType) (self : Node) : result Node :=
  let self :=
    if decide (1 < size (type self))%nat
    then set_feature_names self
           (feature_names self ++ [spath +:+ " is " +:+ type2str json_type])
    else self in
  self ← (if decide (json_type = OBJECT) then
            fns ← property_feature_names spath (required self)
                    (sorted (dict_keys (properties self)));
            Ok (set_feature_names self (feature_names self ++ fns))
          else Ok self);
  let self :=
    if negb (hasmatch spath ignore_patterns) then
      match dict_get vectorizers_ json_type, dict_get (values self) json_type with
      | Some factory, Some vals =>
          match vec_fit factory vals n_total (path self) with
          | Some vectorizer =>
              let self :=
                set_vectorizers self (dict_set (vectorizers self) json_type vectorizer) in
              set_feature_names self
                (feature_names self
                 ++ map (λ fn, spath +:+ " " +:+ fn) (vec_feature_names vectorizer))
          | None => self
          end
      | _, _ => self
      end
    else self in
  if dict_in (values self) json_type
  then Ok (set_values self (dict_del (values self) json_type))
  else Ok self.

Definition _fit_self (self : Node) (pos : Z) (n_total : Z)
    (vectorizers : list (Rule Factory)) (ignore_patterns : list string)
  : result (Z * Node) :=
  let path := join_path_str (path self) in
  let vectorizers_ :=
    omap (λ json_type, (json_type,.) <$> get_vectorizer vectorizers json_type path)
      (sorted_types (type self)) in
  let self := set_pos self pos in
  self ← foldl (λ st json_type,
                  self ← st;
                  _fit_self_step path n_total vectorizers_ ignore_patterns json_type self)
           (Ok self) (sorted_types (type self));
  Ok (wrap32 (pos + Z.of_nat (length (feature_names self))), self).

(** The [feature_names_] property *)
Fixpoint feature_names_ (self : Node) : list string :=
  feature_names self
  ++ concat (omap (λ name, get_property_with feature_names_ (properties self) name)
               (sorted (dict_keys (properties self))))
  ++ concat (omap (λ i, get_item_with feature_names_ (items self) i)
               (seq 0 (length (items self)))).

Section FitLoops.
(** [child._fit(pos, n_total, vectorizers, ignore_patterns)] *)
Context (child_fit : Z → Node → result (Z * Node)).

(** [for name in sorted(self.properties)] of [_fit] *)
Fixpoint fit_properties (props0 : list (string * Node)) (names : list string)
    (pos : Z) (self : Node) {struct names} : result (Z * Node) :=
  match names with
  | [] => Ok (pos, self)
  | name :: rest =>
      r ← of_option KeyError (get_property_with (child_fit pos) props0 name);
      '(pos, child) ← r;
      fit_properties props0 rest pos
        (set_properties self (dict_set (properties self) name child))
  end.

(** [for i in range(len(self.items))] of [_fit] *)
Fixpoint fit_items (items0 : list Node) (indices : list nat)
    (pos : Z) (self : Node) {struct indices} : result (Z * Node) :=
  match indices with
  | [] => Ok (pos, self)
  | i :: rest =>
      r ← of_option IndexError (get_item_with (child_fit pos) items0 i);
      '(pos, item) ← r;
      fit_items items0 rest pos (set_items self (<[i := item]> (items self)))
  end.
End FitLoops.

(** As in [_prune], the children are fetched from the node the call started
    from; [_fit_self] leaves [properties] and [items] as they are. *)
Fixpoint _fit (self0 : Node) (pos : Z) (n_total : Z)
    (vectorizers : list (Rule Factory)) (ignore_patterns : list string) {struct self0}
  : result (Z * Node) :=
  let child_fit := λ (pos : Z) (child : Node),
    _fit child pos n_total vectorizers ignore_patterns in
  '(pos, self) ← _fit_self self0 pos n_total vectorizers ignore_patterns;
  '(pos, self) ←
    fit_properties child_fit (properties self0)
      (sorted (dict_keys (properties self))) pos self;
  '(pos, self) ←
    fit_items child_fit (items self0) (seq 0 (length (items self))) pos self;
  let self := set_n_features self (wrap32 (Z.of_nat (length (feature_names_ self)))) in
  Ok (pos, self).

Definition fit (self : Node) (docs : list Doc) (vectorizers : list (Rule Factory))
    (ignore_patterns : list string) : result Node :=
  self ← extend self docs;
  '(_, self) ← _fit self 0 (sum_counts (counts self)) vectorizers ignore_patterns;
  Ok self.

(** *** Transform *)

(** [X.rows] and [X.data] *)
Definition Matrix : Type := list (list Z) * list (list bool).

(** [indices[indices_]]: numpy indexing by a list of positions *)
Definition take_indices {A} (indices : list A) (indices_ : list nat) : result (list A) :=
  mapM (λ i, of_option IndexError (indices !! i)) indices_.

(** [lil_set_col(X_rows, X_data, indices[indices_by[key]], pos)] when [key]
    is in the dict *)
Definition set_col_if_in {K} `{EqDecision K} (X : Matrix) (indices : list nat)
    (indices_by : list (K * list nat)) (key : K) (pos : Z) : result Matrix :=
  match dict_get indices_by key with
  | Some indices_ =>
      rs ← take_indices indices indices_;
      Lil.lil_set_col X.1 X.2 rs pos
  | None => Ok X
  end.

(** The loop over [sorted(self.properties)] in [_transform_self] *)
Fixpoint transform_properties (required : option (gset string)) (indices : list nat)
    (indices_by_property : list (string * list nat)) (names : list string)
    (st : Z * Matrix) : result (Z * Matrix) :=
  match names with
  | [] => Ok st
  | name :: rest =>
      let '(pos, X) := st in
      req ← of_option TypeError required;
      if decide (name ∉ req) then
        X ← set_col_if_in X indices indices_by_property name pos;
        transform_properties required indices indices_by_property rest (wrap32 (pos + 1), X)
      else transform_properties required indices indices_by_property rest (pos, X)
  end.

(** The body of the loop of [_transform_self] for one [json_type]. *)
Definition _transform_self_step (self : Node) (docs : list Doc) (indices : list nat)
    (indices_by_type : list (JsonType * list nat))
    (indices_by_property : list (string * list nat))
    (json_type : JsonType) (st : Z * Matrix) : result (Z * Matrix) :=
  let '(pos, X) := st in
  '(pos, X) ← (if decide (1 < size (type self))%nat then
                 X ← set_col_if_in X indices indices_by_type json_type pos;
                 Ok (wrap32 (pos + 1), X)
               else Ok (pos, X));
  '(pos, X) ← (if decide (json_type = OBJECT) then
                 transform_properties (required self) indices indices_by_property
                   (sorted (dict_keys (properties self))) (pos, X)
               else Ok (pos, X));
  match dict_get (vectorizers self) json_type with
  | Some vectorizer =>
      X ← match dict_get indices_by_type json_type with
          | Some indices_ =>
              docs_ ← take_indices docs indices_;
              let nz := vec_transform vectorizer docs_ in
              let rs := nz.*1 in
              let cs := map wrap32 nz.*2 in
              rows_ ← take_indices indices indices_;
              rows_ ← take_indices rows_ rs;
              Lil.lil_set X.1 X.2 rows_ (map (λ c, wrap32 (pos + c)) cs)
          | None => Ok X
          end;
      Ok (wrap32 (pos + Z.of_nat (length (vec_feature_names vectorizer))), X)
  | None => Ok (pos, X)
  end.

Definition _transform_self (self : Node) (docs : list Doc) (X : Matrix)
    (indices : list nat) (indices_by_type : list (JsonType * list nat))
    (indices_by_property : list (string * list nat)) : result Matrix :=
  '(_, X) ← foldl (λ st json_type,
                     st ← st;
                     _transform_self_step self docs indices indices_by_type
                       indices_by_property json_type st)
              (Ok (pos self, X)) (sorted_types (type self));
  Ok X.

(** The first loop of [_transform]: the documents by type, those of a type
    that is not in [self.type] left out. *)
Fixpoint partition_by_type (self_type : gset JsonType) (docs : list Doc) (i : nat)
    (indices_by_type : list (JsonType * list nat))
  : result (list (JsonType * list nat)) :=
  match docs with
  | [] => Ok indices_by_type
  | doc :: rest =>
      json_type ← typeof VERSION strptime_ok doc;
      partition_by_type self_type rest (S i)
        (if decide (json_type ∈ self_type) then dict_append indices_by_type json_type i
         else indices_by_type)
  end.

(** The second loop: the objects by the declared properties they have. *)
Fixpoint partition_by_property (self : Node) (docs : list Doc) (object_indices : list nat)
    (indices_by_property : list (string * list nat))
  : result (list (string * list nat)) :=
  match object_indices with
  | [] => Ok indices_by_property
  | i :: rest =>
      doc ← of_option IndexError (docs !! i);
      kvs ← doc_items doc;
      partition_by_property self docs rest
        (foldl (λ d name, if dict_in (properties self) name then dict_append d name i else d)
           indices_by_property (dict_keys kvs))
  end.

(** The third loop: the arrays by item position. *)
Fixpoint partition_by_item (self : Node) (docs : list Doc) (array_indices : list nat)
    (indices_by_item : list (list nat)) : result (list (list nat)) :=
  match array_indices with
  | [] => Ok indices_by_item
  | i :: rest =>
      doc ← of_option IndexError (docs !! i);
      l ← doc_list doc;
      partition_by_item self docs rest
        (foldl (λ d j,
                  if decide (j * (if tuple_items self then 1 else 0) < length (items self))%nat
                  then if decide (j < length d)%nat then alter (λ ind, ind ++ [i]) j d
                       else d ++ [[i]]
                  else d)
           indices_by_item (seq 0 (length l)))
  end.

(** The C variable [i] after [for i in l], and after a comprehension
    [[... for i in l]] *)
Definition after_for (i : nat) (l : list nat) : nat := default i (last l).

Definition after_comprehension (i : nat) (l : list nat) : nat :=
  if comprehension_leaks then after_for i l else i.

(** One turn of the last loop of [_transform] up to its recursive call:
    [docs_], the new value of [i], the index handed to [get_item], and
    [indices[indices_]]. *)
Definition item_call (self : Node) (docs : list Doc) (indices : list nat)
    (i : nat) (j : nat) (indices_ : list nat)
  : result (list Doc * nat * nat * list nat) :=
  docs_ ← mapM (λ i, doc ← of_option IndexError (docs !! i);
                     l ← doc_list doc;
                     of_option IndexError (l !! j)) indices_;
  let i := after_comprehension i indices_ in
  rows_ ← take_indices indices indices_;
  Ok (docs_, i, if tuple_items self then i else 0%nat, rows_).

Section TransformLoops.
(** [child._transform(docs_, X_rows, X_data, rows_)] *)
Context (child_transform : list Doc → Matrix → list nat → Node → result Matrix).

(** [for name, indices_ in sorted(indices_by_property.items())] *)
Fixpoint transform_children_by_property (self : Node) (docs : list Doc) (indices : list nat)
    (l : list (string * list nat)) (i : nat) (X : Matrix) {struct l}
  : result (nat * Matrix) :=
  match l with
  | [] => Ok (i, X)
  | (name, indices_) :: rest =>
      docs_ ← mapM (λ i, doc ← of_option IndexError (docs !! i);
                         kvs ← doc_items doc;
                         of_option KeyError (dict_get kvs name)) indices_;
      let i := after_comprehension i indices_ in
      rows_ ← take_indices indices indices_;
      r ← of_option KeyError
            (get_property_with (child_transform docs_ X rows_) (properties self) name);
      X ← r;
      transform_children_by_property self docs indices rest i X
  end.

(** [for j, indices_ in enumerate(indices_by_item)] *)
Fixpoint transform_children_by_item (self : Node) (docs : list Doc) (indices : list nat)
    (l : list (list nat)) (j : nat) (i : nat) (X : Matrix) {struct l} : result Matrix :=
  match l with
  | [] => Ok X
  | indices_ :: rest =>
      '(docs_, i, index, rows_) ← item_call self docs indices i j indices_;
      r ← of_option IndexError
            (get_item_with (child_transform docs_ X rows_) (items self) index);
      X ← r;
      transform_children_by_item self docs indices rest (S j) i X
  end.
End TransformLoops.

(** [i] is the [cdef int i] of the source, followed through the loops and
    comprehensions that assign it (it starts uninitialised, 0 here). *)
Fixpoint _transform (self : Node) (docs : list Doc) (X : Matrix) (indices : list nat)
    {struct self} : result Matrix :=
  let child_transform := λ docs_ X rows_ (child : Node), _transform child docs_ X rows_ in
  let i := 0%nat in
  indices_by_type ← partition_by_type (type self) docs 0 [];
  let i := after_for i (seq 0 (length docs)) in
  '(indices_by_property, i) ←
    match dict_get indices_by_type OBJECT with
    | Some object_indices =>
        d ← partition_by_property self docs object_indices [];
        Ok (d, after_for i object_indices)
    | None => Ok ([], i)
    end;
  '(indices_by_item, i) ←
    match dict_get indices_by_type ARRAY with
    | Some array_indices =>
        d ← partition_by_item self docs array_indices [];
        Ok (d, after_for i array_indices)
    | None => Ok ([], i)
    end;
  X ← _transform_self self docs X indices indices_by_type indices_by_property;
  '(i, X) ←
    (if dict_in indices_by_type OBJECT then
       transform_children_by_property child_transform self docs indices
         (sorted_items indices_by_property) i X
     else Ok (i, X));
  if dict_in indices_by_type ARRAY then
    transform_children_by_item child_transform self docs indices indices_by_item 0%nat i X
  else Ok X.

(** [sp.lil_matrix((len(docs), self.n_features), dtype=bool)] starts with
    one empty row per document; the number of columns is part of the shape
    only. *)
Definition transform (self : Node) (docs : list Doc) : result Matrix :=
  let X : Matrix := (replicate (length docs) [], replicate (length docs) []) in
  let indices := seq 0 (length docs) in
  _transform self docs X indices.

End JsonVectorizer.

Arguments Node : clear implicits.
Arguments Repr : clear implicits.

(** ** Documents *)

(** [set(doc.keys())] of an object *)
Definition doc_keys (doc : Doc) : gset string :=
  match doc with
  | DDict kvs => list_to_set (dict_keys kvs)
  | _ => ∅
  end.


(** [len(doc)] for the arrays among [docs] *)
Definition array_lengths (docs : list Doc) : list nat :=
  omap (λ doc, match doc with DList l => Some (length l) | _ => None end) docs.

(** The sum of a list of integers *)
Definition sumZ (l : list Z) : Z := foldr Z.add 0 l.

(** ** Predicates on trees *)

Section Tree.
Context {Vectorizer : Type}.

(** The child nodes: the values of [properties], then [items]. *)
Definition children (n : Node Vectorizer) : list (Node Vectorizer) :=
  (properties n).*2 ++ items n.

(** [P] holds at every node of the tree. *)
Inductive all_nodes (P : Node Vectorizer → Prop) (n : Node Vectorizer) : Prop :=
| all_nodes_intro : P n → Forall (all_nodes P) (children n) → all_nodes P n.

(** The representation invariant of the association lists: a [dict] has
    each key once. *)
Definition valid_dicts (n : Node Vectorizer) : Prop :=
  NoDup (dict_keys (properties n)) ∧ NoDup (dict_keys (counts n)).

Definition valid : Node Vectorizer → Prop := all_nodes valid_dicts.

(** The nodes in the order [_fit] and [feature_names_] visit them: the node,
    then its properties by sorted name, then its items by index. *)
Fixpoint preorder (self : Node Vectorizer) : list (Node Vectorizer) :=
  self
  :: concat (omap (λ name, get_property_with preorder (properties self) name)
               (sorted (dict_keys (properties self))))
  ++ concat (omap (λ i, get_item_with preorder (items self) i)
               (seq 0 (length (items self)))).

(** The children in that order. *)
Definition ordered_children (self : Node Vectorizer) : list (Node Vectorizer) :=
  omap (λ name, dict_get (properties self) name) (sorted (dict_keys (properties self)))
  ++ items self.

(** A node at which the self step of [_prune] with threshold [min_f] finds
    nothing to drop and nothing to report: its type set is not empty, each
    of its types has a recorded count of at least [min_f], and its path
    joins (no int element). *)
Definition keeps_all (min_f : Z) (n : Node Vectorizer) : Prop :=
  type n ≠ ∅
  ∧ (∀ t, t ∈ type n → ∃ c, dict_get (counts n) t = Some c ∧ min_f ≤ c)
  ∧ (∃ s, join_path (path n) = Ok s).

(** Every type of the node has a recorded count of at least [k]. *)
Definition count_reaches (k : Z) (n : Node Vectorizer) : Prop :=
  ∀ t, t ∈ type n → ∃ c, dict_get (counts n) t = Some c ∧ k ≤ c.

(** The nodes of the list [l], taken in order from column [p]: each has as
    [pos] the number of feature names of the nodes before it, counted from
    [p]; its [n_features] is the length of its [feature_names_], which is
    the number of its local names plus the [n_features] of its children. *)
Definition positioned (p : Z) (l : list (Node Vectorizer)) : Prop :=
  ∀ i m, l !! i = Some m →
    pos m = p + Z.of_nat (length (concat (feature_names <$> take i l)))
    ∧ n_features m = Z.of_nat (length (feature_names_ m))
    ∧ n_features m
      = Z.of_nat (length (feature_names m)) + sumZ (n_features <$> ordered_children m).

(** The values a C int holds; [pos] and [n_features] are C ints. *)
Definition in_cint (z : Z) : Prop := - 2 ^ 31 ≤ z < 2 ^ 31.

Definition cints (n : Node Vectorizer) : Prop :=
  in_cint (pos n) ∧ in_cint (n_features n).

(** Two trees agree, at every node, on the type set, the counts, the
    required set, the property names and the number of items. *)
Inductive same_shape (n n' : Node Vectorizer) : Prop :=
| same_shape_intro :
    type n' = type n →
    counts n' = counts n →
    required n' = required n →
    dict_keys (properties n') = dict_keys (properties n) →
    length (items n') = length (items n) →
    Forall2 same_shape (properties n).*2 (properties n').*2 →
    Forall2 same_shape (items n) (items n') →
    same_shape n n'.

(** What [extend] keeps of the bookkeeping of a node: the types are the
    keys of [counts], every count is at least 1, the integer type does not
    occur, and samples are kept for the scalar types of the node only. *)
Definition counts_ok (n : Node Vectorizer) : Prop :=
  (∀ t, t ∈ type n ↔ t ∈ dict_keys (counts n))
  ∧ (∀ t c, dict_get (counts n) t = Some c → 1 ≤ c)
  ∧ (INTEGER ∉ type n)
  ∧ (∀ t, t ∈ dict_keys (values n) → t ∈ type n ∧ t ≠ OBJECT ∧ t ≠ ARRAY ∧ t ≠ JNULL).

(** What [extend] keeps of the structure of a node: [required] is set
    exactly when the node has seen an object and lists property names only;
    properties exist only under the object type and items only under the
    array type; with shared arrays there is at most one item. *)
Definition structure_ok (n : Node Vectorizer) : Prop :=
  (is_Some (required n) ↔ OBJECT ∈ type n)
  ∧ (∀ req k, required n = Some req → k ∈ req → k ∈ dict_keys (properties n))
  ∧ (properties n ≠ [] → OBJECT ∈ type n)
  ∧ (items n ≠ [] → ARRAY ∈ type n)
  ∧ (tuple_items n = false → (length (items n) ≤ 1)%nat).

(** The children of a node as [add_property] and [add_item] make them: the
    path of a child is the path of the node followed by the property name,
    by the index of the item in tuple mode, or by ['any'] with shared
    arrays, and a child has the [tuple_items] of the node. *)
Definition linked (n : Node Vectorizer) : Prop :=
  Forall (λ kv, path kv.2 = path n ++ [SegStr kv.1] ∧ tuple_items kv.2 = tuple_items n)
    (properties n)
  ∧ ∀ i c, items n !! i = Some c →
      path c = path n ++ [if tuple_items n then SegInt i else SegStr "any"]
      ∧ tuple_items c = tuple_items n.

(** What [_fit] leaves of a tree [n] in [n']: at every node the path, the
    array mode, the types, the counts and the required set are those of
    [n], the samples that are left belong to no type of the node, the
    feature names [n] had come first, and the children are those of [n],
    under the same names and at the same indices, fitted. *)
Inductive fitted_of (n n' : Node Vectorizer) : Prop :=
| fitted_of_intro :
    path n' = path n →
    tuple_items n' = tuple_items n →
    type n' = type n →
    counts n' = counts n →
    required n' = required n →
    (∀ t, t ∈ dict_keys (values n') → t ∈ dict_keys (values n) ∧ t ∉ type n) →
    feature_names n `prefix_of` feature_names n' →
    Forall2 (λ kv kv', kv.1 = kv'.1 ∧ fitted_of kv.2 kv'.2) (properties n) (properties n') →
    Forall2 fitted_of (items n) (items n') →
    fitted_of n n'.

(** A node that [to_dict] writes in full: the four dicts have each key once,
    [pos] and [n_features] are C ints, and the children have the paths and
    the array mode the node gives them. *)
Definition storable (m : Node Vectorizer) : Prop :=
  NoDup (dict_keys (properties m)) ∧ NoDup (dict_keys (counts m))
  ∧ NoDup (dict_keys (values m)) ∧ NoDup (dict_keys (vectorizers m))
  ∧ cints m ∧ linked m.

(** The number of columns [_transform_self] passes over for one type of a
    node: the type indicator of a node with several types, the indicators
    of the properties that are not required under the object type, and the
    columns of the extractor fitted for the type.  [vec_names] gives the
    feature names of an extractor. *)
Definition step_width (vec_names : Vectorizer → list string) (self : Node Vectorizer)
    (t : JsonType) : Z :=
  (if decide (1 < size (type self))%nat then 1 else 0)
  + (if decide (t = OBJECT)
     then Z.of_nat (length (filter (λ name, name ∉ default ∅ (required self))
                              (sorted (dict_keys (properties self)))))
     else 0)
  + match dict_get (vectorizers self) t with
    | Some v => Z.of_nat (length (vec_names v))
    | None => 0
    end.

(** The columns of a node: those of its types, in ascending type order. *)
Definition local_width (vec_names : Vectorizer → list string) (self : Node Vectorizer) : Z :=
  sumZ (step_width vec_names self <$> sorted_types (type self)).

End Tree.

(** ** The steps of the child loops *)

Section Steps.
Context (re_search : string → string → bool).
Context (int_of_float_times : Q → Z → Z).
Context {Vectorizer : Type}.

(** The turn of one child in the loops of [_prune], without the
    bookkeeping: the paths it records and the child that stays, [None] when
    it is dropped.  A child whose path matches is dropped and recorded
    without a recursive call; otherwise it is pruned, and dropped when no
    type is left. *)
Definition child_outcome (patterns : list string) (min_f : Z) (child : Node Vectorizer)
  : result (list string * option (Node Vectorizer)) :=
  path ← join_path (path child);
  if hasmatch re_search path patterns then Ok ([path], None)
  else
    '(child_paths, child') ← prune re_search int_of_float_times child patterns (MInt min_f);
    Ok (child_paths, if bool_decide (type child' = ∅) then None else Some child').

(** The children fitted one after the other, each starting at the position
    the one before returned. *)
Inductive fit_chain (f : Z → Node Vectorizer → result (Z * Node Vectorizer))
  : Z → list (Node Vectorizer) → list (Node Vectorizer) → Z → Prop :=
| fit_chain_nil p : fit_chain f p [] [] p
| fit_chain_cons p c cs q c' cs' r :
    f p c = Ok (q, c') → fit_chain f q cs cs' r →
    fit_chain f p (c :: cs) (c' :: cs') r.

(** A path that [':'.join] accepts: every element is a [str]. *)
Definition str_path (p : list Seg) : bool :=
  forallb (λ seg, match seg with SegStr _ => true | SegInt _ => false end) p.

(** One of the patterns is found in the joined path. *)
Definition path_matches (patterns : list string) (p : list Seg) : bool :=
  match join_path p with
  | Ok s => hasmatch re_search s patterns
  | Raise _ => false
  end.

(** What [prune] with the int threshold [k] leaves at a node: only types
    whose count reaches [k], a path made of strings, and no child that has
    an empty type set or a path in which a pattern is found. *)
Definition pruned_ok (patterns : list string) (k : Z) (m : Node Vectorizer) : Prop :=
  count_reaches k m
  ∧ str_path (path m) = true
  ∧ Forall (λ c, type c ≠ ∅ ∧ path_matches patterns (path c) = false) (children m).

(** The test of the self step of [_prune] at the type [t] of [n], read the
    other way round: [self.counts[t] < k] fails. *)
Definition reaches (k : Z) (n : Node Vectorizer) (t : JsonType) : bool :=
  match dict_get (counts n) t with
  | Some c => bool_decide (k ≤ c)
  | None => false
  end.

(** The types of [n] that pass that test. *)
Definition types_reaching (k : Z) (n : Node Vectorizer) : gset JsonType :=
  filter (λ t, reaches k n t) (type n).

(** The self step with threshold [k] removes the type [t] of [n]; for
    [t = OBJECT] it then clears [properties], for [t = ARRAY] [items]. *)
Definition cleared (k : Z) (n : Node Vectorizer) (t : JsonType) : bool :=
  bool_decide (t ∈ type n) && negb (reaches k n t).

(** A child that a loop of [_prune] with threshold [k] leaves in place: no
    pattern is found in its path, and one of its types passes the test with
    [k]. *)
Definition stays (patterns : list string) (k : Z) (c : Node Vectorizer) : bool :=
  negb (path_matches patterns (path c)) && bool_decide (types_reaching k c ≠ ∅).

(** [n'] is [n] with the one threshold [k] applied at [n] and at every node
    below it: [n'] has exactly the types of [n] whose count is at least [k],
    with the counts they had; unless the self step cleared the container, a
    property of [n] is a property of [n'] exactly when it [stays], and the
    items of [n'] are the items of [n] that stay, in their order; every
    child of [n'] is that child of [n] with [k] applied in the same way. *)
Inductive pruned_with (patterns : list string) (k : Z)
  : Node Vectorizer → Node Vectorizer → Prop :=
| pruned_with_intro n n' :
    type n' = types_reaching k n →
    (∀ t, t ∈ type n' → dict_get (counts n') t = dict_get (counts n) t) →
    (∀ name c, dict_get (properties n) name = Some c →
       (is_Some (dict_get (properties n') name)
        ↔ cleared k n OBJECT = false ∧ stays patterns k c = true)) →
    (∀ name c', dict_get (properties n') name = Some c' →
       ∃ c, dict_get (properties n) name = Some c ∧ pruned_with patterns k c c') →
    Forall2 (pruned_with patterns k)
      (if cleared k n ARRAY then [] else filter (λ c, stays patterns k c) (items n))
      (items n') →
    pruned_with patterns k n n'.

End Steps.

(** ** Predicates on LIL matrices *)

(** A row of a LIL matrix with its data: the columns strictly ascending,
    one value per column. *)
Definition row_ok (row : list Z) (data : list bool) : Prop :=
  StronglySorted Z.lt row ∧ length data = length row.

(** [rows'] is [rows] with the entries [entries] (row, column) added: as
    many rows, and each row has the columns it had and those added to it. *)
Definition rows_extended (rows rows' : list (list Z)) (entries : list (nat * Z)) : Prop :=
  length rows' = length rows
  ∧ ∀ r row, rows !! r = Some row →
      ∃ row', rows' !! r = Some row' ∧ ∀ c, c ∈ row' ↔ c ∈ row ∨ (r, c) ∈ entries.

(** A matrix as [transform] keeps it: every row strictly ascending with one
    value per column, and every value [True]. *)
Definition matrix_ok (X : Matrix) : Prop :=
  Forall2 row_ok X.1 X.2 ∧ Forall (Forall (λ b, b = true)) X.2.

(** [X'] is [X] with columns added in rows that satisfy [P] only: as many
    rows, every row keeps its columns, and a row outside [P] is as it
    was. *)
Definition grows_within (P : nat → Prop) (X X' : Matrix) : Prop :=
  length X'.1 = length X.1
  ∧ ∀ r row, X.1 !! r = Some row →
      ∃ row', X'.1 !! r = Some row' ∧ (∀ c, c ∈ row → c ∈ row') ∧ (¬ P r → row' = row).

(** Every column of the matrix is in [[lo, hi)]. *)
Definition cols_in (lo hi : Z) (X : Matrix) : Prop :=
  Forall (Forall (λ c, lo ≤ c < hi)) X.1.

(** A child call that returns, on documents that classify and with row
    indices of the matrix, and leaves a well formed matrix of the same
    height. *)
Definition child_returns {Vectorizer : Type} (VERSION : Z) (strptime_ok : string → bool)
    (f : list Doc → Matrix → list nat → Node Vectorizer → result Matrix)
    (child : Node Vectorizer) : Prop :=
  ∀ docs_ X0 rows_,
    Forall (λ d, classifiable VERSION strptime_ok d = true) docs_ →
    matrix_ok X0 → length rows_ = length docs_ →
    Forall (λ r, (r < length X0.1)%nat) rows_ →
    ∃ X1, f docs_ X0 rows_ child = Ok X1 ∧ matrix_ok X1 ∧ length X1.1 = length X0.1.

(** ** A concrete setting for the examples

    Python 3, a [strptime] that accepts nothing, patterns that match
    nothing, no extractor classes, and a float product that is exact (as the
    binary64 product is for the dyadic values used below). *)

Definition py3 : Z := 3.

Definition no_timestamp : string → bool := λ _, false.

Definition no_match : string → string → bool := λ _ _, false.

Definition exact_int_of_float_times (x : Q) (total : Z) : Z :=
  let p := (x * inject_Z total)%Q in Z.quot (Qnum p) (Z.pos (Qden p)).

Definition no_fit : Empty_set → list Doc → Z → list Seg → option Empty_set :=
  λ factory _ _ _, match factory with end.

Definition no_feature_names : Empty_set → list string :=
  λ vectorizer, match vectorizer with end.

Definition no_transform : Empty_set → list Doc → list (nat * Z) :=
  λ vectorizer _, match vectorizer with end.

(** [JsonVectorizer(tuple_items=tuple_items)] *)
Definition new_root (tuple_items : bool) : result (Node Empty_set) :=
  init empty_repr [SegStr "root"] tuple_items.

(** [JsonVectorizer(tuple_items=tuple_items).fit(docs)] *)
Definition fitted (tuple_items : bool) (docs : list Doc) : result (Node Empty_set) :=
  root ← new_root tuple_items;
  fit py3 no_timestamp no_match no_fit no_feature_names root docs [] [].

(** [JsonVectorizer(tuple_items=tuple_items)] extended with [docs], the
    root itself when an exception is raised *)
Definition learned (tuple_items : bool) (docs : list Doc) : Node Empty_set :=
  match new_root tuple_items ≫= λ root, extend py3 no_timestamp root docs with
  | Ok root => root
  | Raise _ => cinit
  end.

(** The schema of [[{"a": 1, "b": "x"}, {"a": 2}]], arrays shared *)
Definition sample_objects : Node Empty_set :=
  Eval vm_compute in
    learned false [DDict [("a", DInt 1); ("b", DStr "x")]; DDict [("a", DInt 2)]].

(** The schema of [[[]]], arrays shared: [items[0]] exists and has seen
    nothing *)
Definition sample_empty_array : Node Empty_set :=
  Eval vm_compute in learned false [DList []].

(** A schema given as a dict, arrays shared, with two item schemas:
    [{'type': ['array'], 'counts': {'array': 5},
      'items': [{'type': ['null', 'string'], 'counts': {'null': 5, 'string': 1}},
                {'type': ['null', 'number'], 'counts': {'null': 5, 'number': 1}}]}] *)
Definition two_items_repr : Repr Empty_set :=
  let leaf (t : string) :=
    mkRepr None (Some (TypeList ["null"; t])) None None None
      (Some [("null", 5); (t, 1)]) None None None None None in
  mkRepr None (Some (TypeList ["array"])) None None
    (Some (ItemsList [leaf "string"; leaf "number"]))
    (Some [("array", 5)]) None None None None None.

Definition sample_two_items : Node Empty_set :=
  Eval vm_compute in
    match init two_items_repr [SegStr "root"] false with
    | Ok root => root
    | Raise _ => cinit
    end.

(** The schema of [[{"a": "x"}, {"a": 1}, {}, {}]], arrays shared: the root
    has seen four objects, the property [a] one string and one number *)
Definition sample_sparse_property : Node Empty_set :=
  Eval vm_compute in
    learned false [DDict [("a", DStr "x")]; DDict [("a", DInt 1)]; DDict []; DDict []].

(** The schema of [[{"a": 1, "b": 1}, {"a": 2, "b": "x"}, {}, {}]], arrays
    shared: the root has seen four objects, the property [a] two numbers,
    the property [b] one number and one string *)
Definition sample_two_properties : Node Empty_set :=
  Eval vm_compute in
    learned false [DDict [("a", DInt 1); ("b", DInt 1)];
                   DDict [("a", DInt 2); ("b", DStr "x")]; DDict []; DDict []].


(** [JsonVectorizer(tuple_items=True).fit([[1, "a"], ["b", 2]])]: both item
    schemas are polymorphic, so each has two type indicators *)
Definition sample_tuple_docs : list Doc :=
  [DList [DInt 1; DStr "a"]; DList [DStr "b"; DInt 2]].

Definition sample_tuple_fitted : Node Empty_set :=
  Eval vm_compute in
    match fitted true sample_tuple_docs with
    | Ok root => root
    | Raise _ => cinit
    end.

(** [JsonVectorizer(tuple_items=True).fit([[1]])]: one item schema *)
Definition sample_tuple_one : Node Empty_set :=
  Eval vm_compute in
    match fitted true [DList [DInt 1]] with
    | Ok root => root
    | Raise _ => cinit
    end.

(** What the two items of [sample_two_items] record and leave at threshold 2 *)
Definition two_items_outcomes : list (list string * option (Node Empty_set)) :=
  Eval vm_compute in
    match mapM (child_outcome no_match exact_int_of_float_times [] 2)
            (items sample_two_items) with
    | Ok outcomes => outcomes
    | Raise _ => []
    end.

(** [sample_sparse_property] after [prune(min_f=0.5)] *)
Definition sparse_property_pruned : list string * Node Empty_set :=
  Eval vm_compute in
    match prune no_match exact_int_of_float_times sample_sparse_property []
            (MFloat (1 # 2)) with
    | Ok r => r
    | Raise _ => ([], cinit)
    end.

(** [sample_two_properties] after [prune(min_f=0.5)] *)
Definition two_properties_pruned : list string * Node Empty_set :=
  Eval vm_compute in
    match prune no_match exact_int_of_float_times sample_two_properties []
            (MFloat (1 # 2)) with
    | Ok r => r
    | Raise _ => ([], cinit)
    end.

(** The schema of [[[1, "a"], ["b", 2]]] in tuple mode *)
Definition sample_tuple_learned : Node Empty_set :=
  Eval vm_compute in learned true sample_tuple_docs.

(** The two documents [sample_objects] was learned from *)
Definition sample_object_docs : list Doc :=
  [DDict [("a", DInt 1); ("b", DStr "x")]; DDict [("a", DInt 2)]].

(** A search that finds a pattern in the string equal to it only *)
Definition whole_match : string → string → bool :=
  λ pattern s, bool_decide (pattern = s).

(** A stand-in for an extractor class: fitted on any samples it has the one
    feature ["seen"], and it sets this feature for every document it is
    given. *)
Definition seen_fit : unit → list Doc → Z → list Seg → option unit :=
  λ _ _ _ _, Some tt.

Definition seen_feature_names : unit → list string := λ _, ["seen"].

Definition seen_transform : unit → list Doc → list (nat * Z) :=
  λ _ docs, (λ r, (r, 0)) <$> seq 0 (length docs).

(** [JsonVectorizer().fit([1, "a", 2], vectorizers=[{'type': 'number',
    'vectorizer': Seen}])] *)
Definition sample_seen_docs : list Doc := [DInt 1; DStr "a"; DInt 2].

Definition sample_seen_rules : list (Rule unit) :=
  [mkRule (Some (TypeStr "number")) None tt].

Definition sample_seen_fitted : Node unit :=
  Eval vm_compute in
    match fit py3 no_timestamp no_match seen_fit seen_feature_names
            (mkNode [SegStr "root"] false ∅ None [] [] [] 0 [] [] [] 0)
            sample_seen_docs sample_seen_rules [] with
    | Ok root => root
    | Raise _ => cinit
    end.

(** ** Lemmas on the containers *)

Example bisect_left_ex : Lil.bisect_left [1; 3; 5; 7] 4 = Ok 2%nat.
Proof. reflexivity. Qed.

Example lil_insert_ex :
  Lil.lil_insert [[1; 5]; []] [[true; true]; []] 0 3
  = Ok ([[1; 3; 5]; []], [[true; true; true]; []]).
Proof. reflexivity. Qed.

Example str2type_capitals : str2type "Object" = Ok OBJECT.
Proof. reflexivity. Qed.

Example join_path_ex : join_path [SegStr "root"; SegStr "a"] = Ok "root:a".
Proof. reflexivity. Qed.

Example join_path_int : join_path [SegStr "root"; SegInt 0] = Raise TypeError.
Proof. reflexivity. Qed.

Example join_path_str_ex : join_path_str [SegStr "root"; SegInt 10] = "root:10".
Proof. reflexivity. Qed.

Example sorted_ex : sorted ["b"; "ab"; "a"; "B"] = ["B"; "a"; "ab"; "b"].
Proof. reflexivity. Qed.

Lemma bind_Ok {A B} (m : result A) (f : A → result B) (b : B) :
  m ≫= f = Ok b ↔ ∃ a, m = Ok a ∧ f a = Ok b.
Proof. destruct m; simpl; naive_solver. Qed.

Lemma dict_get_Some_elem {K V} `{EqDecision K} (d : list (K * V)) k v :
  dict_get d k = Some v → (k, v) ∈ d.
Proof.
  induction d as [|[k' v'] d IH]; simpl; [done|].
  case_decide; intros; simplify_eq; [left|right; auto].
Qed.

Lemma dict_get_Some_keys {K V} `{EqDecision K} (d : list (K * V)) k :
  is_Some (dict_get d k) ↔ k ∈ dict_keys d.
Proof.
  unfold dict_keys. induction d as [|[k' v'] d IH]; simpl.
  - split; [by intros [? ?]|by intros ?%elem_of_nil].
  - case_decide; subst; [split; [left|eauto]|].
    rewrite IH, elem_of_cons. naive_solver.
Qed.

Lemma dict_get_set {K V} `{EqDecision K} (d : list (K * V)) k k' v :
  dict_get (dict_set d k v) k' = if decide (k = k') then Some v else dict_get d k'.
Proof.
  induction d as [|[k0 v0] d IH]; simpl.
  - by repeat case_decide.
  - repeat (case_decide; simpl; simplify_eq); try done.
    all: rewrite IH; by repeat case_decide.
Qed.

Lemma dict_get_del {K V} `{EqDecision K} (d : list (K * V)) k k' :
  dict_get (dict_del d k) k' = if decide (k = k') then None else dict_get d k'.
Proof.
  unfold dict_del. induction d as [|[k0 v0] d IH]; simpl.
  - by case_decide.
  - rewrite filter_cons. simpl. repeat (case_decide; simpl; simplify_eq); try done.
    all: rewrite IH; by repeat case_decide.
Qed.

Lemma dict_set_id {K V} `{EqDecision K} (d : list (K * V)) k v :
  dict_get d k = Some v → dict_set d k v = d.
Proof.
  induction d as [|[k0 v0] d IH]; simpl; [done|].
  case_decide; intros; simplify_eq; [done|]. by rewrite IH.
Qed.

Lemma dict_keys_set {K V} `{EqDecision K} (d : list (K * V)) k v :
  dict_keys (dict_set d k v)
  = if decide (k ∈ dict_keys d) then dict_keys d else dict_keys d ++ [k].
Proof.
  unfold dict_keys. induction d as [|[k0 v0] d IH]; csimpl.
  - by rewrite ?decide_False by apply not_elem_of_nil.
  - destruct (decide (k0 = k)) as [->|Hne]; csimpl.
    + by rewrite decide_True by left.
    + rewrite IH. destruct (decide (k ∈ d.*1)) as [Hin|Hin].
      * by rewrite decide_True by (by right).
      * rewrite decide_False; [done|]. by intros [?|?]%elem_of_cons.
Qed.

Lemma dict_keys_set_NoDup {K V} `{EqDecision K} (d : list (K * V)) k v :
  NoDup (dict_keys d) → NoDup (dict_keys (dict_set d k v)).
Proof.
  intros Hd. rewrite dict_keys_set. case_decide; [done|].
  apply NoDup_app. split_and!; [done| |apply NoDup_singleton].
  intros x Hx ->%list_elem_of_singleton. done.
Qed.

Lemma dict_keys_del_NoDup {K V} `{EqDecision K} (d : list (K * V)) k :
  NoDup (dict_keys d) → NoDup (dict_keys (dict_del d k)).
Proof.
  unfold dict_keys, dict_del. induction d as [|[k0 v0] d IH]; simpl; [done|].
  intros [Hk0 Hd]%NoDup_cons. rewrite filter_cons. simpl.
  case_decide; [|auto]. simpl. apply NoDup_cons. split; [|auto].
  intros [[k1 v1] [-> [? ?]%list_elem_of_filter]]%list_elem_of_fmap. simpl in *.
  apply Hk0, list_elem_of_fmap. by exists (k1, v1).
Qed.

Lemma insort_elem (s x : string) (l : list string) :
  x ∈ insort s l ↔ x = s ∨ x ∈ l.
Proof.
  induction l as [|y l IH]; simpl; [set_solver|].
  destruct (String.leb s y); [set_solver|]. rewrite !elem_of_cons, IH. naive_solver.
Qed.

Lemma sorted_elem (x : string) (l : list string) : x ∈ sorted l ↔ x ∈ l.
Proof.
  unfold sorted. induction l as [|y l IH]; simpl; [done|].
  rewrite insort_elem, IH. set_solver.
Qed.

Lemma foldl_Raise {S T} (step : T → S → result S) (ts : list T) (e : exn) :
  foldl (λ st t, st ← st; step t st) (Raise e) ts = Raise e.
Proof. by induction ts. Qed.

(** A loop written as a fold over [result]: an invariant indexed by the
    elements already visited. *)
Lemma foldl_result_inv {S T} (step : T → S → result S) (I : list T → S → Prop)
    (ts : list T) (st0 st' : S) :
  I [] st0 →
  (∀ done t st st', I done st → step t st = Ok st' → I (done ++ [t]) st') →
  foldl (λ st t, st ← st; step t st) (Ok st0) ts = Ok st' → I ts st'.
Proof.
  intros H0 Hstep.
  assert (∀ done st, I done st →
    foldl (λ st t, st ← st; step t st) (Ok st) ts = Ok st' → I (done ++ ts) st') as Hgen.
  { induction ts as [|t ts IH]; intros done st Hst; simpl.
    - rewrite app_nil_r. by intros [= <-].
    - destruct (step t st) as [st1|e] eqn:Hs; simpl.
      + intros Hf. replace (done ++ t :: ts) with ((done ++ [t]) ++ ts)
          by by rewrite <- app_assoc.
        eapply IH; [|done]. by eapply Hstep.
      + by rewrite foldl_Raise. }
  apply (Hgen [] st0 H0).
Qed.

Lemma foldl_result_inv_split {S T} (step : T → S → result S) (I : list T → S → Prop)
    (ts : list T) (st0 st' : S) :
  I [] st0 →
  (∀ done t rest st st',
     ts = done ++ t :: rest → I done st → step t st = Ok st' → I (done ++ [t]) st') →
  foldl (λ st t, st ← st; step t st) (Ok st0) ts = Ok st' → I ts st'.
Proof.
  intros H0 Hstep.
  assert (∀ rest done st, ts = done ++ rest → I done st →
    foldl (λ st t, st ← st; step t st) (Ok st) rest = Ok st' → I ts st') as Hgen.
  { induction rest as [|t rest IH]; intros done st Hts Hst; simpl.
    - rewrite app_nil_r in Hts. subst done. by intros [= <-].
    - destruct (step t st) as [st1|e] eqn:Hs; simpl.
      + apply (IH (done ++ [t])); [by rewrite <- app_assoc|]. by eapply Hstep.
      + by rewrite foldl_Raise. }
  by apply (Hgen ts [] st0).
Qed.

Lemma insort_Permutation (s : string) (l : list string) : insort s l ≡ₚ s :: l.
Proof.
  induction l as [|y l IH]; simpl; [done|].
  destruct (String.leb s y); [done|]. rewrite IH. apply Permutation_swap.
Qed.

Lemma sorted_Permutation (l : list string) : sorted l ≡ₚ l.
Proof.
  unfold sorted. induction l as [|y l IH]; simpl; [done|].
  by rewrite insort_Permutation, IH.
Qed.

Lemma dict_get_elem_NoDup {K V} `{EqDecision K} (d : list (K * V)) k v :
  NoDup (dict_keys d) → (k, v) ∈ d → dict_get d k = Some v.
Proof.
  unfold dict_keys. induction d as [|[k0 v0] d IH]; csimpl; [by intros _ ?%elem_of_nil|].
  intros [Hk0 Hd]%NoDup_cons [[= -> ->]|Hin]%elem_of_cons.
  - by rewrite decide_True.
  - rewrite decide_False; [by apply IH|]. intros ->. apply Hk0.
    apply list_elem_of_fmap. by exists (k, v).
Qed.

Lemma str2type_type2str (t : JsonType) : str2type (type2str t) = Ok t.
Proof. by destruct t. Qed.

Lemma type2str_inj (t1 t2 : JsonType) : type2str t1 = type2str t2 → t1 = t2.
Proof.
  intros H. assert (Ok t1 = Ok t2) as [= ->]; [|done].
  by rewrite <- (str2type_type2str t1), H, str2type_type2str.
Qed.

Lemma list_to_set_sorted_types (s : gset JsonType) : list_to_set (sorted_types s) = s.
Proof.
  apply set_eq. intros t. rewrite elem_of_list_to_set. unfold sorted_types.
  rewrite list_elem_of_filter. split; [by intros [? _]|]. intros Ht. split; [done|].
  unfold all_types. destruct t; set_solver.
Qed.

Lemma dict_set_fresh {K V} `{EqDecision K} (d : list (K * V)) k v :
  k ∉ dict_keys d → dict_set d k v = d ++ [(k, v)].
Proof.
  induction d as [|[k' v'] d IH]; simpl; [done|]. intros Hk.
  apply not_elem_of_cons in Hk as [Hne Hk]. case_decide; [congruence|].
  by rewrite IH.
Qed.

Lemma dict_of_items_NoDup {K V} `{EqDecision K} (kvs : list (K * V)) :
  NoDup (dict_keys kvs) → dict_of_items kvs = kvs.
Proof.
  unfold dict_of_items.
  enough (∀ d, NoDup (dict_keys (d ++ kvs)) →
               foldl (λ d kv, dict_set d kv.1 kv.2) d kvs = d ++ kvs) as H
    by (intros Hnd; by apply (H [])).
  induction kvs as [|[k v] kvs IH]; intros d Hnd; simpl.
  - by rewrite app_nil_r.
  - unfold dict_keys in *. rewrite dict_set_fresh.
    + rewrite IH; rewrite <- app_assoc; [done|]. exact Hnd.
    + rewrite fmap_app in Hnd. apply NoDup_app in Hnd as (_ & Hd & _).
      intros Hin. apply (Hd _ Hin). simpl. left.
Qed.

Lemma Forall_dict_set_entry {K V} `{EqDecision K} (Q : K * V → Prop)
    (d : list (K * V)) k v :
  Forall Q d → Q (k, v) → Forall Q (dict_set d k v).
Proof.
  intros Hd Hv. induction Hd as [|[k0 v0] d H0 Hd IH]; simpl.
  - by repeat constructor.
  - case_decide; constructor; auto.
Qed.

Lemma Forall_dict_of_items {K V} `{EqDecision K} (Q : K * V → Prop)
    (kvs : list (K * V)) :
  Forall Q kvs → Forall Q (dict_of_items kvs).
Proof.
  unfold dict_of_items.
  enough (∀ d, Forall Q d → Forall Q kvs →
               Forall Q (foldl (λ d kv, dict_set d kv.1 kv.2) d kvs)) as H
    by (apply H; constructor).
  induction kvs as [|[k v] kvs IH]; intros d Hd Hk; simpl; [done|].
  apply Forall_cons in Hk as [Hkv Hk]. apply IH; [|done].
  by apply Forall_dict_set_entry.
Qed.

(** Reading back the keys that [type2str] wrote. *)
Lemma mapM_str2type {V} (l : list (JsonType * V)) :
  mapM (λ kv : string * V, t ← str2type kv.1; Ok (t, kv.2))
    (map (λ kv, (type2str kv.1, kv.2)) l) = Ok l.
Proof.
  induction l as [|[t v] l IH]; simpl; [done|].
  rewrite str2type_type2str. simpl. by rewrite IH.
Qed.

Lemma mapM_str2type_total {V} (d : list (string * V)) :
  Forall (λ kv, ∃ t, kv.1 = type2str t) d →
  ∃ r, mapM (λ kv : string * V, t ← str2type kv.1; Ok (t, kv.2)) d = Ok r.
Proof.
  induction 1 as [|[k v] d [t Ht] _ [r IH]]; simpl; [by eexists|].
  simpl in Ht. rewrite Ht, str2type_type2str. simpl. rewrite IH. by eexists.
Qed.

Lemma str2type_keys_type2str_keys {V} (d : list (JsonType * V)) :
  NoDup (dict_keys d) → str2type_keys (type2str_keys d) = Ok d.
Proof.
  intros Hnd. unfold str2type_keys, type2str_keys.
  rewrite dict_of_items_NoDup.
  - rewrite mapM_str2type. simpl. by rewrite dict_of_items_NoDup.
  - unfold dict_keys in *.
    assert ((map (λ kv : JsonType * V, (type2str kv.1, kv.2)) d).*1 = type2str <$> d.*1)
      as -> by (clear Hnd; induction d as [|[? ?] d IH]; csimpl; by rewrite ?IH).
    apply NoDup_fmap_2; [|done]. intros ? ?. apply type2str_inj.
Qed.

Lemma str2type_keys_total {V} (d : list (JsonType * V)) :
  ∃ r, str2type_keys (type2str_keys d) = Ok r.
Proof.
  unfold str2type_keys, type2str_keys.
  destruct (mapM_str2type_total
              (dict_of_items (map (λ kv : JsonType * V, (type2str kv.1, kv.2)) d)))
    as [r Hr].
  - apply Forall_dict_of_items, Forall_forall.
    intros kv ([t v] & -> & _)%list_elem_of_fmap. by exists t.
  - rewrite Hr. by eexists.
Qed.

Lemma Forall_exists_Forall2 {A B} (R : A → B → Prop) (l : list A) :
  Forall (λ x, ∃ y, R x y) l → ∃ k, Forall2 R l k.
Proof.
  induction 1 as [|x l [y Hy] _ [k Hk]]; [by exists []|].
  exists (y :: k). by constructor.
Qed.

(** ** Properties *)

Section Properties.

Set Default Proof Using "Type".

Context (VERSION : Z) (strptime_ok : string → bool).
Context (re_search : string → string → bool).
Context (int_of_float_times : Q → Z → Z).
Context {Vectorizer Factory : Type}.
Context (vec_fit : Factory → list Doc → Z → list Seg → option Vectorizer).
Context (vec_feature_names : Vectorizer → list string).
Context (vec_transform : Vectorizer → list Doc → list (nat * Z)).
Context (comprehension_leaks : bool).

(** The collaborators a goal does not mention are put aside before a solver
    that scans the whole context runs. *)
Local Ltac tidy :=
  try clear VERSION; try clear strptime_ok; try clear re_search;
  try clear int_of_float_times; try clear vec_fit; try clear vec_feature_names;
  try clear vec_transform; try clear comprehension_leaks.

Local Abbreviation Node := (Node Vectorizer).
Local Abbreviation Repr := (Repr Vectorizer).
Local Abbreviation typeof := (typeof VERSION strptime_ok).
Local Abbreviation _extend := (_extend VERSION strptime_ok).
Local Abbreviation extend := (extend VERSION strptime_ok).
Local Abbreviation _extend_self := (@_extend_self Vectorizer).
Local Abbreviation Schema_extend_self := (@Schema_extend_self Vectorizer).
Local Abbreviation hasmatch := (hasmatch re_search).
Local Abbreviation prune_entry := (prune_entry int_of_float_times).
Local Abbreviation prune_child := (prune_child re_search).
Local Abbreviation _prune := (_prune re_search int_of_float_times).
Local Abbreviation prune := (prune re_search int_of_float_times).
Local Abbreviation child_outcome := (child_outcome re_search int_of_float_times).
Local Abbreviation _fit_self_step := (_fit_self_step re_search vec_fit vec_feature_names).
Local Abbreviation _fit_self := (_fit_self re_search vec_fit vec_feature_names).
Local Abbreviation _fit := (_fit re_search vec_fit vec_feature_names).
Local Abbreviation fit := (fit VERSION strptime_ok re_search vec_fit vec_feature_names).

(** *** The classifier *)

(** C10: [typeof] never answers [INTEGER]; an [int] that is not a [bool] and
    a [float] are [NUMBER], and a [bool] is [BOOLEAN]: the test for [bool]
    comes before the test for [int]. *)
Theorem typeof_never_integer :
  (∀ doc, typeof doc ≠ Ok INTEGER)
  ∧ (∀ z, typeof (DInt z) = Ok NUMBER)
  ∧ (∀ x, typeof (DFloat x) = Ok NUMBER)
  ∧ (∀ b, typeof (DBool b) = Ok BOOLEAN).
Proof.
  split; [|done].
  intros doc. unfold typeof.
  destruct doc; simpl; repeat case_decide; try done;
    repeat case_match; done.
Qed.

(** *** Nodes *)

Lemma Node_ind' (P : Node → Prop) :
  (∀ n, Forall (λ kv, P kv.2) (properties n) → Forall P (items n) → P n) →
  ∀ n, P n.
Proof.
  intros H. fix IH 1. intros n. apply H.
  - destruct n as [? ? ? ? props ? ? ? ? ? ? ?]. simpl.
    induction props as [|[k c] props IHp]; constructor; [apply IH|apply IHp].
  - destruct n as [? ? ? ? ? its ? ? ? ? ? ?]. simpl.
    induction its as [|c its IHi]; constructor; [apply IH|apply IHi].
Qed.

Lemma get_property_with_get {A} (f : Node → A) (props : list (string * Node)) name :
  get_property_with f props name = f <$> dict_get props name.
Proof.
  induction props as [|[k c] props IH]; simpl; [done|]. by case_decide.
Qed.

Lemma get_item_with_lookup {A} (f : Node → A) (its : list Node) i :
  get_item_with f its i = f <$> its !! i.
Proof.
  revert i. induction its as [|c its IH]; intros [|i]; simpl; auto.
Qed.

Lemma all_nodes_here P (n : Node) : all_nodes P n → P n.
Proof. by intros [? ?]. Qed.

Lemma all_nodes_property P (n : Node) name child :
  all_nodes P n → dict_get (properties n) name = Some child → all_nodes P child.
Proof.
  intros [_ Hc] Hget. rewrite Forall_forall in Hc. apply Hc.
  unfold children. apply elem_of_app. left.
  apply list_elem_of_fmap. exists (name, child). split; [done|].
  by apply dict_get_Some_elem.
Qed.

Lemma all_nodes_item P (n : Node) i child :
  all_nodes P n → items n !! i = Some child → all_nodes P child.
Proof.
  intros [_ Hc] Hget. rewrite Forall_forall in Hc. apply Hc.
  unfold children. apply elem_of_app. right. by eapply list_elem_of_lookup_2.
Qed.

(** *** Learning *)

Lemma _extend_unfold (doc : Doc) (self : Node) :
  _extend doc self =
  json_type ← typeof doc;
  self ← _extend_self self doc json_type;
  if decide (json_type = OBJECT) then
    match doc with
    | DDict kvs => extend_properties _extend kvs self
    | _ => Raise TypeError
    end
  else if decide (json_type = ARRAY) then
    match doc with
    | DList l => extend_items _extend l 0%nat self
    | _ => Raise TypeError
    end
  else Ok self.
Proof. by destruct doc. Qed.

Lemma init_empty (p : list Seg) (ti : bool) :
  init (Vectorizer:=Vectorizer) empty_repr p ti
  = Ok (mkNode p ti ∅ None [] [] [] 0 [] [] [] 0).
Proof. reflexivity. Qed.

Lemma add_missing_properties_required (self : Node) (keys : list string) (self' : Node) :
  add_missing_properties self keys = Ok self' → required self' = required self.
Proof.
  revert self. induction keys as [|key keys IH]; intros self; simpl.
  - by intros [= <-].
  - destruct (dict_in (properties self) key); simpl; [apply IH|].
    unfold add_property. cbv zeta. rewrite ?init_empty. simpl. intros Hrest.
    by rewrite (IH _ Hrest).
Qed.

Lemma add_items_while_required (turns : nat) (self self' : Node) :
  add_items_while turns self = Ok self' → required self' = required self.
Proof.
  revert self. induction turns as [|turns IH]; intros self; simpl.
  - by intros [= <-].
  - unfold add_item. cbv zeta. rewrite ?init_empty. simpl. intros Hrest.
    by rewrite (IH _ Hrest).
Qed.

Lemma extend_properties_required (f : Doc → Node → result Node)
    (kvs : list (string * Doc)) (self self' : Node) :
  extend_properties f kvs self = Ok self' → required self' = required self.
Proof.
  revert self. induction kvs as [|[key value] kvs IH]; intros self; simpl.
  - by intros [= <-].
  - intros (child & _ & (child' & _ & Hrest)%bind_Ok)%bind_Ok.
    by rewrite (IH _ Hrest).
Qed.

Lemma extend_items_required (f : Doc → Node → result Node)
    (l : list Doc) (i : nat) (self self' : Node) :
  extend_items f l i self = Ok self' → required self' = required self.
Proof.
  revert i self. induction l as [|item l IH]; intros i self; simpl.
  - by intros [= <-].
  - intros (child & _ & (child' & _ & Hrest)%bind_Ok)%bind_Ok.
    by rewrite (IH _ _ Hrest).
Qed.

(** What one document does to [required]: an object intersects it with its
    keys, or sets it when it is still [None]; another document leaves it. *)
Lemma _extend_required (doc : Doc) (self self' : Node) :
  _extend doc self = Ok self' →
  required self' =
    if decide (py_type doc = dict_t)
    then Some (match required self with
               | None => doc_keys doc
               | Some req => req ∩ doc_keys doc
               end)
    else required self.
Proof.
  rewrite _extend_unfold. intros (t & Ht & (self1 & Hself & Hrest)%bind_Ok)%bind_Ok.
  unfold _extend_self in Hself. apply bind_Ok in Hself as (self0 & Hschema & Hself).
  assert (required self1 = required self0) as Hr1
    by (by destruct (_ && _); injection Hself as <-).
  unfold Schema_extend_self in Hschema.
  destruct doc; unfold typeof in Ht; simpl in Ht; try (injection Ht as <-);
    simpl in *; try (injection Hschema as <-); try (injection Hrest as <-);
    try done.
  - apply bind_Ok in Hschema as (self2 & Hmiss%add_missing_properties_required & Hret).
    simpl in Hmiss. rewrite (extend_properties_required _ _ _ _ Hrest), Hr1.
    rewrite Hmiss in Hret. by destruct (required self); injection Hret as <-.
  - rewrite (extend_items_required _ _ _ _ _ Hrest), Hr1.
    destruct (tuple_items self).
    + by rewrite (add_items_while_required _ _ _ Hschema).
    + destruct (decide (items self = [])); [|by injection Hschema as <-].
      unfold add_item in Hschema. cbv zeta in Hschema. rewrite ?init_empty in Hschema.
      by injection Hschema as <-.
  - destruct (strptime_ok s); injection Ht as <-; simpl in *;
      injection Hschema as <-; by injection Hrest as <-.
  - destruct (bool_decide (VERSION = 2)); [|done]. injection Ht as <-. simpl in *.
    injection Hschema as <-. by injection Hrest as <-.
  - by rewrite andb_false_r in Ht.
Qed.




(** **** [extend] keeps the dicts of the tree dicts *)

Lemma Doc_ind' (P : Doc → Prop) :
  P DNone →
  (∀ kvs, Forall (λ kv, P kv.2) kvs → P (DDict kvs)) →
  (∀ l, Forall P l → P (DList l)) →
  (∀ b, P (DBool b)) → (∀ z, P (DInt z)) → (∀ x, P (DFloat x)) →
  (∀ s, P (DStr s)) → (∀ s, P (DUnicode s)) → P DOther →
  ∀ doc, P doc.
Proof.
  intros HNone HDict HList HBool HInt HFloat HStr HUni HOther. fix IH 1.
  intros [|kvs|l|b|z|x|s|s|];
    [exact HNone| | |apply HBool|apply HInt|apply HFloat|apply HStr|apply HUni
    |exact HOther].
  - apply HDict. induction kvs as [|[k v] kvs IHk]; constructor; [apply IH|apply IHk].
  - apply HList. induction l as [|v l IHl]; constructor; [apply IH|apply IHl].
Qed.

Lemma all_nodes_children P (n : Node) :
  P n → Forall (λ kv, all_nodes P kv.2) (properties n) → Forall (all_nodes P) (items n) →
  all_nodes P n.
Proof.
  intros HP Hprops Hitems. constructor; [done|]. unfold children.
  apply Forall_app. split; [|done]. by apply Forall_fmap.
Qed.

Lemma all_nodes_inv P (n : Node) :
  all_nodes P n →
  P n ∧ Forall (λ kv, all_nodes P kv.2) (properties n) ∧ Forall (all_nodes P) (items n).
Proof.
  intros [HP Hc]. unfold children in Hc. apply Forall_app in Hc as [Hp Hi].
  rewrite Forall_fmap in Hp. split_and!; [done|exact Hp|done].
Qed.

Lemma Forall_dict_set {V} (Q : V → Prop) (d : list (string * V)) k v :
  Forall (λ kv, Q kv.2) d → Q v → Forall (λ kv, Q kv.2) (dict_set d k v).
Proof.
  intros Hd Hv. induction Hd as [|[k0 v0] d H0 Hd IH]; simpl.
  - by repeat constructor.
  - case_decide; constructor; auto.
Qed.

Lemma valid_fresh (p : list Seg) (ti : bool) :
  valid (mkNode (Vectorizer:=Vectorizer) p ti ∅ None [] [] [] 0 [] [] [] 0).
Proof. apply all_nodes_children; simpl; [split; constructor|constructor..]. Qed.

(** Replacing or adding a property, or an item, by a valid child. *)
Lemma valid_set_property (self : Node) (key : string) (child : Node) :
  valid self → valid child →
  valid (set_properties self (dict_set (properties self) key child)).
Proof.
  intros (Hd & Hp & Hi)%all_nodes_inv Hchild. destruct Hd as [Hnd Hcnt].
  apply all_nodes_children; simpl; [|by apply Forall_dict_set|done].
  split; simpl; [by apply dict_keys_set_NoDup|done].
Qed.

Lemma valid_set_item (self : Node) (index : nat) (child : Node) :
  valid self → valid child → valid (set_items self (<[index := child]> (items self))).
Proof.
  intros (Hd & Hp & Hi)%all_nodes_inv Hchild.
  apply all_nodes_children; simpl; [done|done|]. by apply Forall_insert.
Qed.

Lemma valid_add_item (self : Node) (child : Node) :
  valid self → valid child → valid (set_items self (items self ++ [child])).
Proof.
  intros (Hd & Hp & Hi)%all_nodes_inv Hchild.
  apply all_nodes_children; simpl; [done|done|].
  apply Forall_app. split; [done|by constructor].
Qed.

(** A change of the node's own fields that leaves the children and the
    keys of [counts] as dicts. *)
Lemma valid_same_children (self self' : Node) :
  valid self → properties self' = properties self → items self' = items self →
  NoDup (dict_keys (counts self')) → valid self'.
Proof.
  intros (Hd & Hp & Hi)%all_nodes_inv Hprops Hitems Hcnt. destruct Hd as [Hnd _].
  apply all_nodes_children; rewrite ?Hprops, ?Hitems; try done.
  split; [by rewrite Hprops|done].
Qed.

Lemma valid_property (self : Node) (key : string) (child : Node) :
  valid self → get_property self key = Ok child → valid child.
Proof.
  unfold get_property. rewrite get_property_with_get.
  intros Hv Hget. destruct (dict_get (properties self) key) as [c|] eqn:Hc; [|done].
  injection Hget as <-. by eapply all_nodes_property.
Qed.

Lemma valid_item (self : Node) (index : nat) (child : Node) :
  valid self → get_item self index = Ok child → valid child.
Proof.
  unfold get_item. rewrite get_item_with_lookup.
  intros Hv Hget. destruct (items self !! index) as [c|] eqn:Hc; [|done].
  injection Hget as <-. by eapply all_nodes_item.
Qed.

Lemma add_missing_properties_valid (self : Node) (keys : list string) (self' : Node) :
  valid self → add_missing_properties self keys = Ok self' → valid self'.
Proof.
  revert self. induction keys as [|key keys IH]; intros self Hv; simpl.
  - by intros [= <-].
  - destruct (dict_in (properties self) key); simpl; [by apply IH|].
    unfold add_property. cbv zeta. rewrite ?init_empty. simpl.
    apply IH. apply valid_set_property; [done|apply valid_fresh].
Qed.

Lemma add_items_while_valid (turns : nat) (self self' : Node) :
  valid self → add_items_while turns self = Ok self' → valid self'.
Proof.
  revert self. induction turns as [|turns IH]; intros self Hv; simpl.
  - by intros [= <-].
  - unfold add_item. cbv zeta. rewrite ?init_empty. simpl.
    apply IH. apply valid_add_item; [done|apply valid_fresh].
Qed.

Lemma extend_properties_valid (f : Doc → Node → result Node)
    (kvs : list (string * Doc)) (self self' : Node) :
  Forall (λ kv, ∀ c c', valid c → f kv.2 c = Ok c' → valid c') kvs →
  valid self → extend_properties f kvs self = Ok self' → valid self'.
Proof.
  intros Hf. revert self. induction Hf as [|[key value] kvs Hv _ IH]; intros self Hs; simpl.
  - by intros [= <-].
  - intros (child & Hget & (child' & Hext & Hrest)%bind_Ok)%bind_Ok.
    apply (IH _ (valid_set_property _ _ _ Hs
                   (Hv _ _ (valid_property _ _ _ Hs Hget) Hext)) Hrest).
Qed.

Lemma extend_items_valid (f : Doc → Node → result Node)
    (l : list Doc) (i : nat) (self self' : Node) :
  Forall (λ v, ∀ c c', valid c → f v c = Ok c' → valid c') l →
  valid self → extend_items f l i self = Ok self' → valid self'.
Proof.
  intros Hf. revert i self. induction Hf as [|item l Hv _ IH]; intros i self Hs; simpl.
  - by intros [= <-].
  - intros (child & Hget & (child' & Hext & Hrest)%bind_Ok)%bind_Ok.
    apply (IH _ _ (valid_set_item _ _ _ Hs
                     (Hv _ _ (valid_item _ _ _ Hs Hget) Hext)) Hrest).
Qed.

Lemma valid_counts (self : Node) : valid self → NoDup (dict_keys (counts self)).
Proof. by intros [[_ ?] _]. Qed.

Lemma _extend_self_valid (self : Node) (doc : Doc) (t : JsonType) (self' : Node) :
  valid self → _extend_self self doc t = Ok self' → valid self'.
Proof.
  intros Hv. unfold _extend_self. intros (self0 & Hschema & Hself)%bind_Ok.
  assert (valid self0) as Hv0.
  { unfold Schema_extend_self in Hschema.
    assert (valid (set_type self ({[t]} ∪ type self))) as Hv1
      by (apply (valid_same_children self); [done..|simpl; by apply valid_counts]).
    destruct (decide (t = OBJECT)).
    - apply bind_Ok in Hschema as (kvs & _ & Hschema).
      apply bind_Ok in Hschema as (self2 & Hmiss & Hret).
      apply add_missing_properties_valid in Hmiss; [|done].
      destruct (required self2); injection Hret as <-;
        (apply (valid_same_children self2); [done..|simpl; by apply valid_counts]).
    - destruct (decide (t = ARRAY)); [|by injection Hschema as <-].
      apply bind_Ok in Hschema as (l & _ & Hschema).
      destruct (tuple_items _).
      + by eapply add_items_while_valid.
      + destruct (decide (items _ = [])); [|by injection Hschema as <-].
        unfold add_item in Hschema. cbv zeta in Hschema.
        rewrite ?init_empty in Hschema. simpl in Hschema. injection Hschema as <-.
        apply (valid_add_item (set_type self ({[t]} ∪ type self))); [done|].
        apply valid_fresh. }
  assert (valid (set_counts self0
                   (dict_set (counts self0) t (default 0 (dict_get (counts self0) t) + 1))))
    as Hv1.
  { apply (valid_same_children self0); [done..|]. simpl.
    by apply dict_keys_set_NoDup, valid_counts. }
  destruct (_ && _); injection Hself as <-; [|done].
  apply (valid_same_children _ _ Hv1); [done..|]. simpl.
  by apply dict_keys_set_NoDup, valid_counts.
Qed.

Lemma _extend_valid (doc : Doc) (self self' : Node) :
  valid self → _extend doc self = Ok self' → valid self'.
Proof.
  revert self self'. induction doc as [|kvs IH|l IH| | | | | |] using Doc_ind';
    intros self self' Hv; rewrite _extend_unfold;
    intros (t & Ht & (self1 & Hself & Hrest)%bind_Ok)%bind_Ok;
    apply _extend_self_valid in Hself; try done;
    (destruct (decide (t = OBJECT)); [|destruct (decide (t = ARRAY))]);
    try done; try (by injection Hrest as <-).
  - by eapply extend_properties_valid.
  - by eapply extend_items_valid.
Qed.

Lemma extend_valid (docs : list Doc) (self self' : Node) :
  valid self → extend self docs = Ok self' → valid self'.
Proof.
  revert self. induction docs as [|doc docs IH]; intros self Hv; simpl.
  - by intros [= <-].
  - intros (self1 & Hdoc & Hrest)%bind_Ok.
    apply (IH self1); [by eapply _extend_valid|done].
Qed.

Lemma extend_app (docs1 docs2 : list Doc) (self : Node) :
  extend self (docs1 ++ docs2) = self1 ← extend self docs1; extend self1 docs2.
Proof.
  revert self. induction docs1 as [|doc docs1 IH]; intros self; simpl; [done|].
  destruct (_extend doc self); simpl; [apply IH|done].
Qed.

(** *** Pruning *)

Lemma _prune_unfold (self0 : Node) (patterns : list string) (min_f : Z) :
  _prune self0 patterns min_f =
  let child_prune := λ child : Node,
    prune_entry (counts child) (MInt min_f) (_prune child patterns) in
  '(paths, self) ← _prune_self self0 min_f;
  '(paths, self) ←
    prune_properties (prune_child child_prune patterns) (properties self0)
      (sorted (dict_keys (properties self))) paths self;
  prune_items (prune_child child_prune patterns) (items self0)
    (reverse (seq 0 (length (items self)))) paths self.
Proof. by destruct self0. Qed.

Lemma set_properties_id (n : Node) : set_properties n (properties n) = n.
Proof. by destruct n. Qed.

Lemma set_items_id (n : Node) : set_items n (items n) = n.
Proof. by destruct n. Qed.

Lemma sorted_types_elem (s : gset JsonType) t : t ∈ sorted_types s → t ∈ s.
Proof. unfold sorted_types. by intros [? _]%list_elem_of_filter. Qed.

Lemma _prune_self_keeps_all (n : Node) (min_f : Z) :
  keeps_all min_f n → _prune_self n min_f = Ok ([], n).
Proof.
  intros (Hne & Hcounts & s & Hs). unfold _prune_self. rewrite Hs. simpl.
  assert (∀ ts, (∀ t, t ∈ ts → t ∈ type n) →
    foldl (λ st json_type, st ← st; _prune_self_step s min_f json_type st)
      (Ok ([], n)) ts = Ok ([], n)) as ->.
  { induction ts as [|t ts IH]; intros Hts; simpl; [done|].
    destruct (Hcounts t) as (c & -> & Hc); [apply Hts; left|]. simpl.
    rewrite decide_False by lia. apply IH. intros; apply Hts. by right. }
  - simpl. by rewrite decide_True.
  - apply sorted_types_elem.
Qed.

(** With no pattern and nothing to drop, a turn of either loop of [_prune]
    hands the child back. *)
Lemma prune_child_keeps (child_prune : Node → result (list string * Node))
    (paths : list string) (child : Node) (min_f : Z) :
  keeps_all min_f child → child_prune child = Ok ([], child) →
  prune_child child_prune [] paths child = Ok (paths, false, child).
Proof.
  intros (Hne & _ & s & Hs) Hrec. unfold prune_child. rewrite Hs. simpl.
  rewrite Hrec. simpl. rewrite app_nil_r. by rewrite bool_decide_eq_false_2.
Qed.

Lemma _prune_keeps_all (min_f : Z) (n : Node) :
  - 2 ^ 31 ≤ min_f < 2 ^ 31 →
  all_nodes (keeps_all min_f) n → _prune n [] min_f = Ok ([], n).
Proof.
  intros Hrange. induction n as [n IHp IHi] using Node_ind'. intros Hall.
  rewrite _prune_unfold. cbv zeta.
  rewrite _prune_self_keeps_all by by apply all_nodes_here. simpl.
  set (child_prune := λ child : Node,
    prune_entry (counts child) (MInt min_f) (_prune child [])).
  assert (∀ child, child ∈ children n →
    prune_child child_prune [] [] child = Ok ([], false, child)) as Hchild.
  { intros child Hin. destruct Hall as [_ Hall]. rewrite Forall_forall in Hall.
    apply (prune_child_keeps _ _ _ min_f); [by apply all_nodes_here, Hall|].
    unfold child_prune, prune_entry, to_cint.
    rewrite bool_decide_eq_true_2 by done. simpl.
    unfold children in Hin. apply elem_of_app in Hin as [Hin|Hin].
    - apply list_elem_of_fmap in Hin as ([k c] & -> & Hin).
      rewrite Forall_forall in IHp. apply (IHp _ Hin), Hall.
      apply elem_of_app. left. apply list_elem_of_fmap. by exists (k, c).
    - rewrite Forall_forall in IHi. apply (IHi _ Hin), Hall.
      apply elem_of_app. by right. }
  assert (∀ names, (∀ name, name ∈ names → name ∈ dict_keys (properties n)) →
    prune_properties (prune_child child_prune []) (properties n) names [] n
    = Ok ([], n)) as ->.
  { induction names as [|name names IH]; intros Hnames; simpl; [done|].
    destruct (proj2 (dict_get_Some_keys (properties n) name)) as [child Hget];
      [apply Hnames; left|].
    rewrite get_property_with_get, Hget. simpl.
    rewrite Hchild. 2:{ apply elem_of_app. left. apply list_elem_of_fmap.
                        exists (name, child). split; [done|by apply dict_get_Some_elem]. }
    simpl. rewrite dict_set_id, set_properties_id by done.
    apply IH. intros; apply Hnames. by right. }
  2:{ intros name. apply sorted_elem. }
  simpl.
  assert (∀ indices, (∀ i, i ∈ indices → (i < length (items n))%nat) →
    prune_items (prune_child child_prune []) (items n) indices [] n
    = Ok ([], n)) as ->; [|done|].
  { induction indices as [|i indices IH]; intros Hind; simpl; [done|].
    destruct (lookup_lt_is_Some_2 (items n) i) as [child Hget]; [apply Hind; left|].
    rewrite get_item_with_lookup, Hget. simpl.
    rewrite Hchild. 2:{ apply elem_of_app. right. by eapply list_elem_of_lookup_2. }
    simpl. rewrite list_insert_id, set_items_id by done.
    apply IH. intros; apply Hind. by right. }
  intros i Hi%elem_of_reverse%elem_of_seq. lia.
Qed.

(** What the self step of [_prune] leaves: the children untouched or
    cleared, and only types whose count reaches [min_f]. *)
Lemma _prune_self_spec (n : Node) (min_f : Z) (paths : list string) (n1 : Node) :
  _prune_self n min_f = Ok (paths, n1) →
  (properties n1 = properties n ∨ properties n1 = [])
  ∧ (items n1 = items n ∨ items n1 = [])
  ∧ (∀ t, t ∈ type n1 → ∃ c, dict_get (counts n1) t = Some c ∧ min_f ≤ c)
  ∧ (properties n1 ≠ [] → is_Some (required n) → is_Some (required n1)).
Proof.
  unfold _prune_self. intros (s & Hs & Hrest)%bind_Ok.
  apply bind_Ok in Hrest as ([paths' st] & Hfold & Hret).
  assert (st = n1) as -> by (by case_decide; simplify_eq).
  clear Hret Hs.
  set (I := λ (done : list JsonType) (ps : list string * Node),
    (properties ps.2 = properties n ∨ properties ps.2 = [])
    ∧ (items ps.2 = items n ∨ items ps.2 = [])
    ∧ (∀ t, t ∈ type ps.2 → t ∈ done →
         ∃ c, dict_get (counts ps.2) t = Some c ∧ min_f ≤ c)
    ∧ (properties ps.2 ≠ [] → is_Some (required n) → is_Some (required ps.2))
    ∧ type ps.2 ⊆ type n).
  assert (I (sorted_types (type n)) (paths', n1)) as (Hp & Hi & Hc & Hr & Hsub).
  { apply (foldl_result_inv (_prune_self_step s min_f) I _ ([], n)); [| |done].
    - unfold I. simpl. split_and!; auto. by intros t _ ?%elem_of_nil.
    - clear Hfold. intros done t [ps st] [ps' st'] (Hp & Hi & Hc & Hr & Hsub) Hstep.
      unfold _prune_self_step in Hstep. simpl in *.
      apply bind_Ok in Hstep as (c & Hget & Hstep).
      destruct (dict_get (counts st) t) as [c'|] eqn:Hcount; [|done].
      injection Hget as ->.
      destruct (decide (c < min_f)) as [Hlt|Hge].
      + assert (∀ st0 : Node,
          type st0 = type st ∖ {[t]} → counts st0 = dict_del (counts st) t →
          ∀ t0, t0 ∈ type st0 → t0 ∈ done ++ [t] →
          ∃ c0, dict_get (counts st0) t0 = Some c0 ∧ min_f ≤ c0) as Hkeep.
        { intros st0 Ht Hcs t0 Ht0 Hdone. rewrite Ht in Ht0. rewrite Hcs.
          apply elem_of_difference in Ht0 as [Ht0 Hne].
          rewrite dict_get_del, decide_False by (tidy; set_solver).
          apply Hc; [done|]. apply elem_of_app in Hdone as [?|?]; [done|].
          tidy; set_solver. }
        set (st1 := if dict_in (values st) t
                    then set_values (set_counts (set_type st (type st ∖ {[t]}))
                                       (dict_del (counts st) t))
                           (dict_del (values st) t)
                    else set_counts (set_type st (type st ∖ {[t]}))
                           (dict_del (counts st) t)) in *.
        assert (type st1 = type st ∖ {[t]} ∧ counts st1 = dict_del (counts st) t
                ∧ properties st1 = properties st ∧ items st1 = items st
                ∧ required st1 = required st) as (Ht1 & Hc1 & Hp1 & Hi1 & Hr1)
          by (unfold st1; by destruct (dict_in (values st) t)).
        clearbody st1.
        assert (type st1 ⊆ type n) by (rewrite Ht1; tidy; set_solver).
        destruct (decide (t = OBJECT)).
        * destruct (required st1) eqn:Hreq; [|done]. injection Hstep as <- <-.
          unfold I. simpl. rewrite ?Hi1.
          split_and!; auto; try done; by apply Hkeep.
        * destruct (decide (t = ARRAY)); injection Hstep as <- <-;
            unfold I; simpl; rewrite ?Hp1, ?Hi1, ?Hr1;
            split_and!; auto; try done; by apply Hkeep.
      + injection Hstep as <- <-. unfold I. simpl. split_and!; auto.
        intros t0 Ht0 [Hdone| ->%list_elem_of_singleton]%elem_of_app; [by apply Hc|].
        exists c. split; [done|lia]. }
  simpl in *. split_and!; auto.
  intros t Ht. apply Hc; [done|]. unfold sorted_types.
  apply list_elem_of_filter. split; [by apply Hsub|]. destruct t; tidy; set_solver.
Qed.

Lemma prune_child_outcome (patterns : list string) (min_f : Z) (paths : list string)
    (child : Node) (o : list string * option Node) :
  child_outcome patterns min_f child = Ok o →
  ∃ drop child',
    prune_child (λ c, prune c patterns (MInt min_f)) patterns paths child
    = Ok (paths ++ o.1, drop, child')
    ∧ o.2 = if drop : bool then None else Some child'.
Proof.
  unfold child_outcome, prune_child. intros (s & -> & Hrest)%bind_Ok. simpl.
  destruct (hasmatch s patterns).
  - injection Hrest as <-. by exists true, child.
  - apply bind_Ok in Hrest as ([ps c'] & -> & [= <-]). simpl.
    exists (bool_decide (type c' = ∅)), c'. split; [done|]. by case_bool_decide.
Qed.

Lemma prune_properties_spec (patterns : list string) (min_f : Z)
    (props0 : list (string * Node)) (names : list string)
    (outcomes : list (list string * option Node)) (paths : list string) (self : Node) :
  NoDup names →
  Forall2 (λ name o, ∃ child, dict_get props0 name = Some child
                              ∧ child_outcome patterns min_f child = Ok o)
    names outcomes →
  (Exists (λ o, o.2 = None) outcomes → is_Some (required self)) →
  ∃ self',
    prune_properties (prune_child (λ c, prune c patterns (MInt min_f)) patterns)
      props0 names paths self
    = Ok (paths ++ concat outcomes.*1, self')
    ∧ Forall2 (λ name o, dict_get (properties self') name = o.2) names outcomes
    ∧ (∀ k, k ∉ names → dict_get (properties self') k = dict_get (properties self) k)
    ∧ (NoDup (dict_keys (properties self)) → NoDup (dict_keys (properties self')))
    ∧ items self' = items self ∧ type self' = type self ∧ counts self' = counts self.
Proof.
  intros Hnd Hall. revert paths self Hnd.
  induction Hall as [|name o names outcomes (child & Hget & Ho) Hall IH];
    intros paths self Hnd Hreq.
  - exists self. simpl. rewrite app_nil_r. split_and!; auto.
  - apply NoDup_cons in Hnd as [Hname Hnd]. simpl.
    rewrite get_property_with_get, Hget. simpl.
    destruct (prune_child_outcome patterns min_f paths child o Ho)
      as (drop & child' & -> & Ho2). simpl.
    assert (∀ self2 : Node,
      (Exists (λ o, o.2 = None) outcomes → is_Some (required self2)) →
      items self2 = items self → type self2 = type self →
      counts self2 = counts self →
      (NoDup (dict_keys (properties self)) → NoDup (dict_keys (properties self2))) →
      (∀ k, dict_get (properties self2) k
            = if decide (name = k) then o.2 else dict_get (properties self) k) →
      ∃ self',
        prune_properties (prune_child (λ c, prune c patterns (MInt min_f)) patterns)
          props0 names (paths ++ o.1) self2
        = Ok (paths ++ o.1 ++ concat outcomes.*1, self')
        ∧ Forall2 (λ name o, dict_get (properties self') name = o.2)
            (name :: names) (o :: outcomes)
        ∧ (∀ k, k ∉ name :: names →
             dict_get (properties self') k = dict_get (properties self) k)
        ∧ (NoDup (dict_keys (properties self)) → NoDup (dict_keys (properties self')))
        ∧ items self' = items self ∧ type self' = type self
        ∧ counts self' = counts self) as Hnext.
    { intros self2 Hr2 Hi2 Ht2 Hc2 Hnd2 Hlook.
      destruct (IH (paths ++ o.1) self2 Hnd Hr2)
        as (self' & -> & Hf & Hother & Hnd' & Hi' & Ht' & Hc').
      exists self'. rewrite <- app_assoc. split_and!; auto; try congruence.
      - constructor; [|done]. rewrite (Hother name Hname), Hlook.
        by rewrite decide_True.
      - intros k [Hk1 Hk2]%not_elem_of_cons. rewrite (Hother k Hk2), Hlook.
        by rewrite decide_False. }
    destruct drop.
    + destruct Hreq as [req Hr]; [by left|]. simpl. rewrite Hr.
      assert (∀ k, dict_get (dict_del (properties self) name) k
                   = if decide (name = k) then o.2 else dict_get (properties self) k)
        by (intros k; by rewrite dict_get_del, Ho2).
      destruct (decide (name ∈ req)); apply Hnext; simpl; auto;
        try (by rewrite Hr); intros; by apply dict_keys_del_NoDup.
    + apply Hnext; simpl; try done.
      all: try (intros ?; apply Hreq; by right).
      all: try (intros; by apply dict_keys_set_NoDup).
      intros k. by rewrite dict_get_set, Ho2.
Qed.

Lemma prune_items_spec (patterns : list string) (min_f : Z) (items0 : list Node)
    (n : nat) (outcomes : list (list string * option Node)) (paths : list string)
    (self : Node) (tail : list Node) :
  Forall2 (λ child o, child_outcome patterns min_f child = Ok o) (take n items0) outcomes →
  length outcomes = n →
  items self = take n items0 ++ tail →
  ∃ self',
    prune_items (prune_child (λ c, prune c patterns (MInt min_f)) patterns)
      items0 (reverse (seq 0 n)) paths self
    = Ok (paths ++ concat (reverse outcomes).*1, self')
    ∧ items self' = omap snd outcomes ++ tail
    ∧ properties self' = properties self ∧ type self' = type self
    ∧ counts self' = counts self.
Proof.
  revert outcomes paths self tail.
  induction n as [|n IH]; intros outcomes paths self tail Hall Hlen Hitems.
  - destruct outcomes; [|done]. exists self. simpl. rewrite app_nil_r.
    split_and!; auto.
  - assert (length (take (S n) items0) = S n) as Htake
      by (by rewrite (Forall2_length _ _ _ Hall)).
    rewrite length_take in Htake.
    destruct (lookup_lt_is_Some_2 items0 n) as [child Hchild]; [lia|].
    rewrite (take_S_r _ _ _ Hchild) in Hall, Hitems.
    apply Forall2_app_inv_l in Hall as (outs & olast & Houts & Hlast & ->).
    apply Forall2_cons_inv_l in Hlast as (o & ? & Ho & ->%Forall2_nil_inv_l & ->).
    rewrite length_app in Hlen. simpl in Hlen.
    rewrite seq_S, reverse_snoc. simpl.
    rewrite get_item_with_lookup, Hchild. simpl.
    destruct (prune_child_outcome patterns min_f paths child o Ho)
      as (drop & child' & -> & Ho2). simpl.
    rewrite <- app_assoc in Hitems. simpl in Hitems.
    assert (length (take n items0) = n) as Hn by (rewrite length_take; lia).
    rewrite reverse_snoc, fmap_cons, omap_app. simpl. rewrite Ho2.
    destruct drop.
    + destruct (IH outs (paths ++ o.1) (set_items self (delete n (items self))) tail)
        as (self' & -> & Hi' & Hrest); [done|lia| |].
      { simpl. rewrite Hitems. rewrite <- Hn at 1. by rewrite delete_middle. }
      exists self'. rewrite <- app_assoc, app_nil_r.
      simpl in Hrest. by destruct Hrest as (? & ? & ?).
    + destruct (IH outs (paths ++ o.1)
                  (set_items self (<[n := child']> (items self))) (child' :: tail))
        as (self' & -> & Hi' & Hrest); [done|lia| |].
      { simpl. rewrite Hitems. rewrite <- Hn at 1.
        by rewrite insert_app_r_alt, Nat.sub_diag by lia. }
      exists self'. rewrite <- !app_assoc.
      simpl in Hrest. by destruct Hrest as (? & ? & ?).
Qed.

(** A loop of [_prune] that returns has had an outcome for every child. *)
Lemma prune_child_outcome_exists (patterns : list string) (min_f : Z)
    (paths : list string) (child : Node) r :
  prune_child (λ c, prune c patterns (MInt min_f)) patterns paths child = Ok r →
  ∃ o, child_outcome patterns min_f child = Ok o.
Proof.
  unfold child_outcome, prune_child. intros (s & -> & Hrest)%bind_Ok. simpl.
  destruct (hasmatch s patterns); [eauto|].
  apply bind_Ok in Hrest as ([ps c'] & -> & _). simpl. eauto.
Qed.

Lemma prune_properties_outcomes (patterns : list string) (min_f : Z)
    (props0 : list (string * Node)) (names : list string) (paths : list string)
    (self : Node) r :
  prune_properties (prune_child (λ c, prune c patterns (MInt min_f)) patterns)
    props0 names paths self = Ok r →
  ∃ outcomes,
    Forall2 (λ name o, ∃ child, dict_get props0 name = Some child
                                ∧ child_outcome patterns min_f child = Ok o)
      names outcomes
    ∧ (Exists (λ o, o.2 = None) outcomes → is_Some (required self)).
Proof.
  revert paths self. induction names as [|name names IH]; intros paths self Hloop;
    simpl in Hloop.
  - exists []. split; [constructor|]. by intros ?%Exists_nil.
  - apply bind_Ok in Hloop as (r0 & Hget & Hloop).
    rewrite get_property_with_get in Hget.
    destruct (dict_get props0 name) as [child|] eqn:Hchild; [|done].
    injection Hget as <-.
    apply bind_Ok in Hloop as ([[ps drop] c'] & Hstep & Hloop). simpl in Hloop.
    destruct (prune_child_outcome_exists _ _ _ _ _ Hstep) as [o Ho].
    destruct (prune_child_outcome patterns min_f paths child o Ho)
      as (drop' & c'' & Hstep' & Ho2).
    rewrite Hstep in Hstep'. injection Hstep' as -> -> ->.
    destruct drop'.
    + destruct (required self) as [req|] eqn:Hr; [|done].
      assert (∃ outs,
        Forall2 (λ name o, ∃ child, dict_get props0 name = Some child
                                    ∧ child_outcome patterns min_f child = Ok o)
          names outs) as [outs Hall].
      { destruct (decide (name ∈ req)); apply IH in Hloop as (outs & ? & _); eauto. }
      exists (o :: outs). split; [constructor; eauto|]. by intros _.
    + apply IH in Hloop as (outs & Hall & Hex). simpl in Hex.
      exists (o :: outs). split; [constructor; eauto|].
      intros [Hhead|Htail]%Exists_cons; [congruence|auto].
Qed.

Lemma prune_items_outcomes (patterns : list string) (min_f : Z)
    (items0 : list Node) (indices : list nat) (paths : list string) (self : Node) r :
  prune_items (prune_child (λ c, prune c patterns (MInt min_f)) patterns)
    items0 indices paths self = Ok r →
  Forall (λ i, ∃ child o, items0 !! i = Some child
                          ∧ child_outcome patterns min_f child = Ok o) indices.
Proof.
  revert paths self. induction indices as [|i indices IH]; intros paths self Hloop;
    simpl in Hloop; [constructor|].
  apply bind_Ok in Hloop as (r0 & Hget & Hloop).
  rewrite get_item_with_lookup in Hget.
  destruct (items0 !! i) as [child|] eqn:Hchild; [|done].
  injection Hget as <-.
  apply bind_Ok in Hloop as ([[ps drop] c'] & Hstep & Hloop). simpl in Hloop.
  destruct (prune_child_outcome_exists _ _ _ _ _ Hstep) as [o Ho].
  constructor; [eauto|]. destruct drop; eauto.
Qed.

Lemma child_outcome_kept (patterns : list string) (k : Z) (child : Node)
    (ps : list string) (child' : Node) :
  child_outcome patterns k child = Ok (ps, Some child') →
  _prune child patterns k = Ok (ps, child').
Proof.
  unfold child_outcome. intros (s & _ & Hrest)%bind_Ok.
  destruct (hasmatch s patterns); [done|].
  apply bind_Ok in Hrest as ([ps0 c0] & Hprune & Hret). simpl in Hret.
  case_bool_decide; [done|]. injection Hret as -> ->.
  unfold prune, prune_entry, to_cint in Hprune. by case_bool_decide.
Qed.

(** Whatever [_prune] with threshold [k] leaves, at any depth, has only
    types whose count reaches [k]: no node of the tree has another
    threshold. *)
Lemma _prune_threshold (patterns : list string) (k : Z) (n : Node) :
  valid n → ∀ paths n', _prune n patterns k = Ok (paths, n') →
  all_nodes (count_reaches k) n'.
Proof.
  induction n as [n IHp IHi] using Node_ind'. intros Hvalid paths n' Hprune.
  rewrite _prune_unfold in Hprune. cbv zeta in Hprune.
  change (λ child : Node, prune_entry (counts child) (MInt k) (_prune child patterns))
    with (λ c : Node, prune c patterns (MInt k)) in Hprune.
  apply bind_Ok in Hprune as ([p0 n1] & Hself & Hrest). simpl in Hrest.
  apply bind_Ok in Hrest as ([p1 n2] & Hprops & Hitems). simpl in Hitems.
  destruct (_prune_self_spec _ _ _ _ Hself) as (Hp & Hi & Hcount & _).
  pose proof (all_nodes_here _ _ Hvalid) as [Hnd _].
  assert (NoDup (dict_keys (properties n1))) as Hnd1
    by (destruct Hp as [->| ->]; [done|constructor]).
  destruct (prune_properties_outcomes _ _ _ _ _ _ _ Hprops) as (pouts & Hpouts & Hex).
  destruct (prune_properties_spec patterns k (properties n)
              (sorted (dict_keys (properties n1))) pouts p0 n1)
    as (n2' & Hprops' & Hlook & Hother & Hnd2 & Hi2 & Ht2 & Hc2);
    [by rewrite sorted_Permutation|done|done|].
  rewrite Hprops in Hprops'. injection Hprops' as _ <-.
  assert (length (items n2) ≤ length (items n))%nat as Hlen
    by (rewrite Hi2; destruct Hi as [->| ->]; simpl; lia).
  assert (items n2 = take (length (items n2)) (items n)) as Htake.
  { rewrite Hi2. destruct Hi as [->| ->]; [by rewrite firstn_all|done]. }
  pose proof (prune_items_outcomes _ _ _ _ _ _ _ Hitems) as Hiouts.
  rewrite Forall_forall in Hiouts.
  destruct (Forall_exists_Forall2
              (λ child o, child_outcome patterns k child = Ok o)
              (take (length (items n2)) (items n))) as [iouts Hiouts'].
  { apply Forall_lookup_2. intros i child [Hchild Hlt]%lookup_take_Some.
    destruct (Hiouts i) as (child' & o & Hchild' & Ho); [|by exists o; congruence].
    apply elem_of_reverse, elem_of_seq. lia. }
  destruct (prune_items_spec patterns k (items n) (length (items n2)) iouts p1 n2 [])
    as (n'' & Hitems' & Hin' & Hpn' & Htn' & Hcn'); [done| |by rewrite app_nil_r|].
  { rewrite <- (Forall2_length _ _ _ Hiouts'), length_take. lia. }
  rewrite Hitems in Hitems'. injection Hitems' as _ <-.
  rewrite app_nil_r in Hin'.
  constructor.
  - unfold count_reaches. rewrite Htn', Hcn', Ht2, Hc2. exact Hcount.
  - unfold children. apply Forall_app. split.
    + rewrite Hpn'. apply Forall_forall.
      intros ? ([name c'] & -> & Hin)%list_elem_of_fmap. simpl.
      assert (dict_get (properties n2) name = Some c') as Hget
        by (apply dict_get_elem_NoDup; auto).
      destruct (decide (name ∈ sorted (dict_keys (properties n1)))) as [Hname|Hname].
      * apply list_elem_of_lookup in Hname as [j Hj].
        destruct (Forall2_lookup_l _ _ _ _ _ Hpouts Hj)
          as ([ps oc] & Ho & child & Hchild & Hout).
        pose proof (Forall2_lookup_lr _ _ _ _ _ _ Hlook Hj Ho) as Hl.
        simpl in Hl. rewrite Hget in Hl. subst oc.
        apply child_outcome_kept in Hout.
        rewrite Forall_forall in IHp.
        apply (IHp (name, child) (dict_get_Some_elem _ _ _ Hchild)
                 (all_nodes_property _ _ _ _ Hvalid Hchild) _ _ Hout).
      * rewrite (Hother name Hname) in Hget.
        destruct Hname. apply sorted_elem, dict_get_Some_keys. eauto.
    + rewrite Hin'. apply Forall_forall.
      intros c' ([ps oc] & Ho & Hoc)%list_elem_of_omap. simpl in Hoc. subst oc.
      apply list_elem_of_lookup in Ho as [j Hj].
      destruct (Forall2_lookup_r _ _ _ _ _ Hiouts' Hj) as (child & Hchild & Hout).
      apply lookup_take_Some in Hchild as [Hchild _].
      apply child_outcome_kept in Hout.
      rewrite Forall_forall in IHi.
      apply (IHi child (list_elem_of_lookup_2 _ _ _ Hchild)
               (all_nodes_item _ _ _ _ Hvalid Hchild) _ _ Hout).
Qed.

(** C8 (amended): after the self step, [_prune] takes the properties by
    sorted name and then the items by DESCENDING index (the last item
    first), and appends what each records in that order; a child whose path
    matches a pattern is dropped and recorded without a recursive call,
    another one is pruned and dropped only if no type is left
    ([child_outcome]).  The items that stay keep their order. *)
Theorem prune_children_order (self : Node) (patterns : list string) (min_f : Z)
    (paths0 : list string) (self1 : Node)
    (prop_outcomes item_outcomes : list (list string * option Node)) :
  NoDup (dict_keys (properties self)) →
  _prune_self self min_f = Ok (paths0, self1) →
  (properties self1 ≠ [] → is_Some (required self1)) →
  Forall2 (λ name o, ∃ child, dict_get (properties self1) name = Some child
                              ∧ child_outcome patterns min_f child = Ok o)
    (sorted (dict_keys (properties self1))) prop_outcomes →
  Forall2 (λ child o, child_outcome patterns min_f child = Ok o)
    (items self1) item_outcomes →
  ∃ self',
    _prune self patterns min_f
    = Ok (paths0 ++ concat prop_outcomes.*1 ++ concat (reverse item_outcomes).*1, self')
    ∧ Forall2 (λ name o, dict_get (properties self') name = o.2)
        (sorted (dict_keys (properties self1))) prop_outcomes
    ∧ items self' = omap snd item_outcomes.
Proof.
  intros Hnd Hself Hreq Hprops Hitems.
  destruct (_prune_self_spec _ _ _ _ Hself) as (Hp & Hi & _ & _).
  rewrite _prune_unfold. cbv zeta. rewrite Hself. simpl.
  change (λ child : Node, prune_entry (counts child) (MInt min_f) (_prune child patterns))
    with (λ c : Node, prune c patterns (MInt min_f)).
  destruct (prune_properties_spec patterns min_f (properties self)
              (sorted (dict_keys (properties self1))) prop_outcomes paths0 self1)
    as (self2 & -> & Hlook & _ & _ & Hi2 & _).
  { rewrite sorted_Permutation. destruct Hp as [->| ->]; [done|constructor]. }
  { destruct Hp as [Hp|Hp]; [by rewrite <- Hp|].
    rewrite Hp in Hprops |- *. by apply Forall2_nil_inv_l in Hprops as ->. }
  { intros Hex. apply Hreq. intros Hnil. rewrite Hnil in Hprops.
    apply Forall2_nil_inv_l in Hprops as ->. by apply Exists_nil in Hex. }
  simpl.
  destruct (prune_items_spec patterns min_f (items self) (length (items self2))
              item_outcomes (paths0 ++ concat prop_outcomes.*1) self2 [])
    as (self' & -> & Hi' & Hp' & _).
  { rewrite Hi2. destruct Hi as [Hi|Hi]; [by rewrite <- Hi, firstn_all|].
    by rewrite Hi in Hitems |- *. }
  { rewrite Hi2. symmetry. by eapply Forall2_length. }
  { rewrite Hi2, app_nil_r. destruct Hi as [Hi|Hi]; [by rewrite <- Hi, firstn_all|].
    by rewrite Hi. }
  exists self'. rewrite <- app_assoc. rewrite app_nil_r in Hi'. rewrite Hp'.
  by split_and!.
Qed.

(** *** Fitting *)

Lemma omap_get_property_with {A} (f : Node → A) (props : list (string * Node))
    (names : list string) :
  omap (λ name, get_property_with f props name) names
  = f <$> omap (λ name, dict_get props name) names.
Proof.
  induction names as [|name names IH]; csimpl; [done|].
  rewrite get_property_with_get, IH. by destruct (dict_get props name).
Qed.

Lemma omap_get_item_with_drop {A} (f : Node → A) (its : list Node) (k : nat) :
  omap (λ i, get_item_with f its i) (seq k (length its - k)) = f <$> drop k its.
Proof.
  remember (length its - k)%nat as m eqn:Hm. revert k Hm.
  induction m as [|m IH]; intros k Hm; csimpl.
  - by rewrite drop_ge by lia.
  - destruct (lookup_lt_is_Some_2 its k) as [x Hx]; [lia|].
    rewrite get_item_with_lookup, Hx, (drop_S _ _ _ Hx). csimpl. f_equal.
    apply IH. lia.
Qed.

Lemma omap_get_item_with {A} (f : Node → A) (its : list Node) :
  omap (λ i, get_item_with f its i) (seq 0 (length its)) = f <$> its.
Proof.
  pose proof (omap_get_item_with_drop f its 0) as H.
  by rewrite Nat.sub_0_r, drop_0 in H.
Qed.

Lemma preorder_unfold (n : Node) :
  preorder n = n :: concat (preorder <$> ordered_children n).
Proof.
  destruct n as [? ? ? ? props its ? ? ? ? ? ?]. unfold ordered_children. simpl.
  rewrite omap_get_property_with, omap_get_item_with.
  by rewrite fmap_app, concat_app.
Qed.

Lemma feature_names__unfold (n : Node) :
  feature_names_ n = feature_names n ++ concat (feature_names_ <$> ordered_children n).
Proof.
  destruct n as [? ? ? ? props its ? ? ? ? ? ?]. unfold ordered_children. simpl.
  rewrite omap_get_property_with, omap_get_item_with.
  by rewrite fmap_app, concat_app.
Qed.

Lemma ordered_children_children (n c : Node) :
  c ∈ ordered_children n → c ∈ children n.
Proof.
  unfold ordered_children, children. rewrite !elem_of_app.
  intros [(name & _ & Hget)%list_elem_of_omap|?]; [left|by right].
  apply list_elem_of_fmap. exists (name, c). split; [done|by apply dict_get_Some_elem].
Qed.

(** The flat list of [feature_names_] is the local lists in pre-order. *)
Lemma feature_names__preorder (n : Node) :
  feature_names_ n = concat (feature_names <$> preorder n).
Proof.
  induction n as [n IHp IHi] using Node_ind'.
  rewrite feature_names__unfold, preorder_unfold. simpl. f_equal.
  assert (Forall (λ c, feature_names_ c = concat (feature_names <$> preorder c))
            (ordered_children n)) as Hall.
  { apply Forall_forall. intros c Hc%ordered_children_children.
    unfold children in Hc. apply elem_of_app in Hc as [Hc|Hc].
    - apply list_elem_of_fmap in Hc as ([k c'] & -> & Hin).
      rewrite Forall_forall in IHp. apply (IHp _ Hin).
    - rewrite Forall_forall in IHi. by apply IHi. }
  induction Hall as [|c cs Hc _ IH]; csimpl; [done|].
  by rewrite fmap_app, concat_app, Hc, IH.
Qed.

Lemma wrap32_small (z : Z) : - 2 ^ 31 ≤ z < 2 ^ 31 → wrap32 z = z.
Proof. intros Hz. unfold wrap32. rewrite Z.mod_small; lia. Qed.

Lemma _fit_unfold (self0 : Node) (p n_total : Z) (rules : list (Rule Factory))
    (ignore_patterns : list string) :
  _fit self0 p n_total rules ignore_patterns =
  let child_fit := λ (pos : Z) (child : Node),
    _fit child pos n_total rules ignore_patterns in
  '(pos, self) ← _fit_self self0 p n_total rules ignore_patterns;
  '(pos, self) ←
    fit_properties child_fit (properties self0)
      (sorted (dict_keys (properties self))) pos self;
  '(pos, self) ←
    fit_items child_fit (items self0) (seq 0 (length (items self))) pos self;
  let self := set_n_features self (wrap32 (Z.of_nat (length (feature_names_ self)))) in
  Ok (pos, self).
Proof. by destruct self0. Qed.

(** The fit step of a node: it stores [pos], leaves the children alone, and
    returns [pos] plus the number of the node's local feature names (as a C
    int). *)
Lemma _fit_self_spec (n : Node) (p n_total : Z) (rules : list (Rule Factory))
    (ignore_patterns : list string) (ret : Z) (n1 : Node) :
  _fit_self n p n_total rules ignore_patterns = Ok (ret, n1) →
  pos n1 = p ∧ properties n1 = properties n ∧ items n1 = items n
  ∧ ret = wrap32 (p + Z.of_nat (length (feature_names n1))).
Proof.
  unfold _fit_self. cbv zeta. intros (st & Hfold & [= <- <-])%bind_Ok.
  assert (pos st = p ∧ properties st = properties n ∧ items st = items n)
    as (? & ? & ?); [|by split_and!].
  apply (foldl_result_inv _
           (λ _ st, pos st = p ∧ properties st = properties n ∧ items st = items n))
    in Hfold; [done|done|].
  clear. intros _ t st st' (Hp & Hprops & Hitems) Hstep.
  unfold _fit_self_step in Hstep.
  apply bind_Ok in Hstep as (st1 & Hobj & Hstep).
  assert (pos st1 = p ∧ properties st1 = properties n ∧ items st1 = items n)
    as (Hp1 & Hprops1 & Hitems1).
  { destruct (decide (t = OBJECT));
      [apply bind_Ok in Hobj as (fns & _ & [= <-])|injection Hobj as <-];
      by destruct (decide (1 < size (type st))%nat). }
  clear Hobj.
  destruct (negb _); [|by destruct (dict_in _ _); injection Hstep as <-].
  destruct (dict_get _ t) as [factory|];
    [|by destruct (dict_in _ _); injection Hstep as <-].
  destruct (dict_get (values st1) t) as [vals|];
    [|by destruct (dict_in _ _); injection Hstep as <-].
  destruct (vec_fit _ _ _ _); by destruct (dict_in _ _); injection Hstep as <-.
Qed.

Lemma fit_chain_app (f : Z → Node → result (Z * Node)) p cs1 cs1' q cs2 cs2' r :
  fit_chain f p cs1 cs1' q → fit_chain f q cs2 cs2' r →
  fit_chain f p (cs1 ++ cs2) (cs1' ++ cs2') r.
Proof. induction 1; simpl; [done|]. intros. econstructor; eauto. Qed.

Lemma fit_properties_spec (f : Z → Node → result (Z * Node))
    (props0 : list (string * Node)) (names : list string) (p : Z) (self : Node)
    (ret : Z) (self' : Node) :
  NoDup names → (∀ name, name ∈ names → name ∈ dict_keys (properties self)) →
  fit_properties f props0 names p self = Ok (ret, self') →
  ∃ cs cs',
    Forall2 (λ name c, dict_get props0 name = Some c) names cs
    ∧ fit_chain f p cs cs' ret
    ∧ Forall2 (λ name c', dict_get (properties self') name = Some c') names cs'
    ∧ (∀ k, k ∉ names → dict_get (properties self') k = dict_get (properties self) k)
    ∧ dict_keys (properties self') = dict_keys (properties self)
    ∧ items self' = items self ∧ pos self' = pos self
    ∧ feature_names self' = feature_names self.
Proof.
  revert p self. induction names as [|name names IH]; intros p self Hnd Hkeys; simpl.
  - intros [= <- <-]. exists [], []. split_and!; try done; constructor.
  - apply NoDup_cons in Hnd as [Hname Hnd].
    intros (r0 & Hget & ([q c'] & Hf & Hrest)%bind_Ok)%bind_Ok. simpl in Hrest.
    rewrite get_property_with_get in Hget.
    destruct (dict_get props0 name) as [c|] eqn:Hc; [|done]. injection Hget as <-.
    assert (dict_keys (dict_set (properties self) name c') = dict_keys (properties self))
      as Hsame by (rewrite dict_keys_set, decide_True; [done|apply Hkeys; left]).
    apply IH in Hrest as (cs & cs' & Hcs & Hchain & Hcs' & Hother & Hk & Hi & Hp & Hfn);
      [|done|simpl; rewrite Hsame; intros; apply Hkeys; by right].
    simpl in *. exists (c :: cs), (c' :: cs').
    split_and!; try done; try congruence.
    + by constructor.
    + by econstructor.
    + constructor; [|done]. rewrite (Hother name Hname), dict_get_set.
      by rewrite decide_True.
    + intros k [Hk1 Hk2]%not_elem_of_cons. rewrite (Hother k Hk2), dict_get_set.
      by rewrite decide_False.
Qed.

Lemma fit_items_spec (f : Z → Node → result (Z * Node)) (items0 : list Node)
    (m k : nat) (p : Z) (self : Node) (done_ : list Node) (ret : Z) (self' : Node) :
  length done_ = k → (k + m)%nat = length items0 →
  items self = done_ ++ drop k items0 →
  fit_items f items0 (seq k m) p self = Ok (ret, self') →
  ∃ cs',
    fit_chain f p (drop k items0) cs' ret
    ∧ items self' = done_ ++ cs'
    ∧ properties self' = properties self ∧ pos self' = pos self
    ∧ feature_names self' = feature_names self.
Proof.
  revert k p self done_. induction m as [|m IH]; intros k p self done_ Hk Hlen Hitems; simpl.
  - intros [= <- <-]. exists []. rewrite drop_ge by lia.
    rewrite drop_ge, app_nil_r in Hitems by lia. rewrite app_nil_r.
    split_and!; try done. constructor.
  - intros (r0 & Hget & ([q c'] & Hf & Hrest)%bind_Ok)%bind_Ok. simpl in Hrest.
    rewrite get_item_with_lookup in Hget.
    destruct (items0 !! k) as [c|] eqn:Hc; [|done]. injection Hget as <-.
    rewrite (drop_S _ _ _ Hc) in Hitems |- *.
    apply (IH (S k) q _ (done_ ++ [c'])) in Hrest
      as (cs' & Hchain & Hi & Hprops & Hp & Hfn).
    + exists (c' :: cs'). simpl in *. rewrite <- app_assoc in Hi.
      split_and!; try done. by econstructor.
    + rewrite length_app. simpl. lia.
    + lia.
    + simpl. rewrite Hitems, <- app_assoc. simpl. rewrite <- Hk.
      by rewrite insert_app_r_alt, Nat.sub_diag by lia.
Qed.

Lemma omap_Forall2_Some {A B} (f : A → option B) (l : list A) (k : list B) :
  Forall2 (λ x y, f x = Some y) l k → omap f l = k.
Proof. induction 1 as [|x y l k Hxy _ IH]; csimpl; [done|]. by rewrite Hxy, IH. Qed.

Lemma positioned_app (p : Z) (l1 l2 : list Node) :
  positioned p l1 →
  positioned (p + Z.of_nat (length (concat (feature_names <$> l1)))) l2 →
  positioned p (l1 ++ l2).
Proof.
  intros H1 H2 i m [Hi|[Hge Hi]]%lookup_app_Some.
  - rewrite take_app_le by (apply lookup_lt_Some in Hi; lia). by apply H1.
  - destruct (H2 _ _ Hi) as (Hp & Hrest). split; [|done].
    rewrite Hp, take_app_ge, fmap_app, concat_app, length_app by done. lia.
Qed.

Lemma sumZ_n_features (cs : list Node) :
  Forall (λ c, n_features c = Z.of_nat (length (feature_names_ c))) cs →
  sumZ (n_features <$> cs) = Z.of_nat (length (concat (feature_names_ <$> cs))).
Proof.
  induction 1 as [|c cs Hc _ IH]; csimpl; [done|].
  rewrite length_app, Hc, IH. lia.
Qed.

(** The children of a node, fitted in turn from [p], given what C2 says of
    each of them. *)
Lemma fit_chain_positioned (f : Z → Node → result (Z * Node)) (p : Z)
    (cs cs' : list Node) (ret : Z) :
  fit_chain f p cs cs' ret →
  Forall (λ c, ∀ p ret c', f p c = Ok (ret, c') → 0 ≤ p →
               p + Z.of_nat (length (feature_names_ c')) < 2 ^ 31 →
               ret = p + Z.of_nat (length (feature_names_ c'))
               ∧ positioned p (preorder c')) cs →
  0 ≤ p → p + Z.of_nat (length (concat (feature_names_ <$> cs'))) < 2 ^ 31 →
  ret = p + Z.of_nat (length (concat (feature_names_ <$> cs')))
  ∧ positioned p (concat (preorder <$> cs'))
  ∧ Forall (λ c', n_features c' = Z.of_nat (length (feature_names_ c'))) cs'.
Proof.
  induction 1 as [p|p c cs q c' cs' r Hf Hchain IH]; intros Hall Hp Hbound; csimpl in *.
  - split_and!; [lia| |constructor]. by intros i m ?.
  - apply Forall_cons in Hall as [Hc Hcs]. rewrite length_app in Hbound.
    destruct (Hc _ _ _ Hf Hp) as [-> Hpos]; [lia|].
    destruct (IH Hcs) as (-> & Hrest & Hn); [lia|lia|].
    split_and!.
    + rewrite length_app. lia.
    + apply positioned_app; [done|]. by rewrite <- feature_names__preorder.
    + constructor; [|done]. apply (Hpos 0%nat c'). by rewrite preorder_unfold.
Qed.

Lemma feature_names__set_n_features (n : Node) (v : Z) :
  feature_names_ (set_n_features n v) = feature_names_ n.
Proof. by rewrite !feature_names__unfold. Qed.

Lemma _fit_spec (n_total : Z) (rules : list (Rule Factory)) (ign : list string)
    (n : Node) :
  valid n → ∀ p ret n', _fit n p n_total rules ign = Ok (ret, n') →
  0 ≤ p → p + Z.of_nat (length (feature_names_ n')) < 2 ^ 31 →
  ret = p + Z.of_nat (length (feature_names_ n')) ∧ positioned p (preorder n').
Proof.
  induction n as [n IHp IHi] using Node_ind'. intros Hvalid p ret n' Hfit Hp Hbound.
  rewrite _fit_unfold in Hfit. cbv zeta in Hfit.
  apply bind_Ok in Hfit as ([q0 n1] & Hself & Hfit). simpl in Hfit.
  apply bind_Ok in Hfit as ([q1 n2] & Hprops & Hfit). simpl in Hfit.
  apply bind_Ok in Hfit as ([q2 n3] & Hitems & Hfit). simpl in Hfit.
  injection Hfit as <- <-.
  destruct (_fit_self_spec _ _ _ _ _ _ _ Hself) as (Hpos1 & Hprops1 & Hitems1 & ->).
  pose proof (all_nodes_here _ _ Hvalid) as [Hnd _].
  apply fit_properties_spec in Hprops
    as (cs & cs' & Hcs & Hchain1 & Hcs' & _ & Hkeys2 & Hitems2 & Hpos2 & Hfn2);
    [|by rewrite sorted_Permutation, Hprops1
     |intros name Hn; exact (proj1 (sorted_elem _ _) Hn)].
  apply (fit_items_spec _ _ _ 0 _ _ []) in Hitems
    as (is' & Hchain2 & Hitems3 & Hprops3 & Hpos3 & Hfn3);
    [|done|by rewrite Hitems2, Hitems1|by rewrite drop_0, Hitems2, Hitems1].
  rewrite drop_0 in Hchain2. simpl in Hitems3.
  pose proof (fit_chain_app _ _ _ _ _ _ _ _ Hchain1 Hchain2) as Hchain.
  rewrite feature_names__set_n_features in Hbound |- *.
  rewrite (wrap32_small (Z.of_nat (length (feature_names_ n3)))) by lia.
  assert (ordered_children n3 = cs' ++ is') as Hoc.
  { unfold ordered_children. rewrite Hprops3, Hkeys2, Hitems3. f_equal.
    by apply omap_Forall2_Some. }
  assert (feature_names n3 = feature_names n1) as Hfn by congruence.
  assert (Z.of_nat (length (feature_names_ n3))
          = Z.of_nat (length (feature_names n1))
            + Z.of_nat (length (concat (feature_names_ <$> cs' ++ is')))) as Htotal
    by (rewrite feature_names__unfold, Hoc, Hfn, length_app; lia).
  rewrite wrap32_small in Hchain by lia.
  destruct (fit_chain_positioned _ _ _ _ _ Hchain) as (-> & Hposd & Hnf); [|lia|lia|].
  { apply Forall_app. split.
    - apply Forall_forall. intros c [j Hj]%list_elem_of_lookup.
      destruct (Forall2_lookup_r _ _ _ _ _ Hcs Hj) as (name & _ & Hget).
      rewrite Forall_forall in IHp. intros p0 ret0 c0 Hfit0.
      apply (IHp (name, c) (dict_get_Some_elem _ _ _ Hget)
               (all_nodes_property _ _ _ _ Hvalid Hget) _ _ _ Hfit0).
    - apply Forall_forall. intros c [j Hj]%list_elem_of_lookup.
      rewrite Forall_forall in IHi. intros p0 ret0 c0 Hfit0.
      apply (IHi c (list_elem_of_lookup_2 _ _ _ Hj)
               (all_nodes_item _ _ _ _ Hvalid Hj) _ _ _ Hfit0). }
  split; [lia|].
  rewrite preorder_unfold.
  change (ordered_children (set_n_features n3 _)) with (ordered_children n3).
  rewrite Hoc. apply (positioned_app p [_]).
  - intros [|i] m Hi; [|done]. injection Hi as <-.
    rewrite feature_names__set_n_features.
    change (ordered_children (set_n_features n3 _)) with (ordered_children n3).
    simpl. rewrite Hoc, (sumZ_n_features _ Hnf), Hfn. split_and!; lia.
  - simpl. by rewrite app_nil_r, Hfn.
Qed.

(** C2: after [fit] on a root built by [extend] (with fewer than 2^31
    feature names in all, so that no C int wraps), every node's [pos] is the
    number of feature names of the nodes before it in pre-order (local names
    first, then the properties by sorted name, then the items by index), that
    is the index in the root's [feature_names_] at which its local block
    starts; the fit step of a node returns its position plus the number of
    its local names; and a node's [n_features] is the number of its local
    names plus the [n_features] of its children. *)
Theorem fit_positions (tuple_mode : bool) (docs0 docs : list Doc)
    (rules : list (Rule Factory)) (ign : list string) (root0 root root' : Node) :
  init empty_repr [SegStr "root"] tuple_mode = Ok root0 →
  extend root0 docs0 = Ok root →
  fit root docs rules ign = Ok root' →
  Z.of_nat (length (feature_names_ root')) < 2 ^ 31 →
  feature_names_ root' = concat (feature_names <$> preorder root')
  ∧ (∀ before m after, preorder root' = before ++ m :: after →
       pos m = Z.of_nat (length (concat (feature_names <$> before)))
       ∧ n_features m
         = Z.of_nat (length (feature_names m)) + sumZ (n_features <$> ordered_children m)
       ∧ n_features m = Z.of_nat (length (feature_names_ m)))
  ∧ (∀ u p n_total ret u',
       _fit_self u p n_total rules ign = Ok (ret, u') →
       0 ≤ p → p + Z.of_nat (length (feature_names u')) < 2 ^ 31 →
       pos u' = p ∧ ret = p + Z.of_nat (length (feature_names u'))).
Proof.
  intros Hinit Hroot Hfit Hbound.
  rewrite init_empty in Hinit. injection Hinit as <-.
  split; [apply feature_names__preorder|]. split.
  - unfold fit in Hfit. apply bind_Ok in Hfit as (self & Hext & Hfit).
    apply bind_Ok in Hfit as ([ret self'] & Hfit & [= <-]).
    assert (valid self) as Hvalid.
    { eapply extend_valid; [|exact Hext]. eapply extend_valid; [|exact Hroot].
      apply valid_fresh. }
    destruct (_fit_spec _ _ _ _ Hvalid _ _ _ Hfit) as [_ Hpos]; [done|lia|].
    intros before m after Hsplit.
    destruct (Hpos (length before) m) as (Hp & Hn & Hsum).
    { rewrite Hsplit. by rewrite list_lookup_middle. }
    rewrite Hsplit, take_app_length in Hp. split_and!; [lia|done|done].
  - intros u p n_total ret u' Hself Hp Hlen.
    destruct (_fit_self_spec _ _ _ _ _ _ _ Hself) as (Hpos & _ & _ & ->).
    split; [done|]. apply wrap32_small. lia.
Qed.

(** *** Persistence: [to_dict] and [from_dict] *)

(** [extend] leaves [pos] and [n_features] as the constructor set them. *)
Lemma cints_fresh (p : list Seg) (ti : bool) :
  all_nodes cints (mkNode (Vectorizer:=Vectorizer) p ti ∅ None [] [] [] 0 [] [] [] 0).
Proof.
  apply all_nodes_children; simpl; [|constructor..].
  unfold cints, in_cint. simpl. lia.
Qed.

Lemma cints_set_property (self : Node) (key : string) (child : Node) :
  all_nodes cints self → all_nodes cints child →
  all_nodes cints (set_properties self (dict_set (properties self) key child)).
Proof.
  intros (Hd & Hp & Hi)%all_nodes_inv Hchild.
  apply all_nodes_children; simpl; [done|by apply Forall_dict_set|done].
Qed.

Lemma cints_set_item (self : Node) (index : nat) (child : Node) :
  all_nodes cints self → all_nodes cints child →
  all_nodes cints (set_items self (<[index := child]> (items self))).
Proof.
  intros (Hd & Hp & Hi)%all_nodes_inv Hchild.
  apply all_nodes_children; simpl; [done|done|]. by apply Forall_insert.
Qed.

Lemma cints_add_item (self : Node) (child : Node) :
  all_nodes cints self → all_nodes cints child →
  all_nodes cints (set_items self (items self ++ [child])).
Proof.
  intros (Hd & Hp & Hi)%all_nodes_inv Hchild.
  apply all_nodes_children; simpl; [done|done|].
  apply Forall_app. split; [done|by constructor].
Qed.

Lemma cints_same_children (self self' : Node) :
  all_nodes cints self → properties self' = properties self → items self' = items self →
  pos self' = pos self → n_features self' = n_features self → all_nodes cints self'.
Proof.
  intros (Hd & Hp & Hi)%all_nodes_inv Hprops Hitems Hpos Hnf.
  apply all_nodes_children; rewrite ?Hprops, ?Hitems; try done.
  unfold cints. by rewrite Hpos, Hnf.
Qed.

Lemma all_nodes_get_property P (self : Node) (key : string) (child : Node) :
  all_nodes P self → get_property self key = Ok child → all_nodes P child.
Proof.
  unfold get_property. rewrite get_property_with_get.
  intros Hv Hget. destruct (dict_get (properties self) key) as [c|] eqn:Hc; [|done].
  injection Hget as <-. by eapply all_nodes_property.
Qed.

Lemma all_nodes_get_item P (self : Node) (index : nat) (child : Node) :
  all_nodes P self → get_item self index = Ok child → all_nodes P child.
Proof.
  unfold get_item. rewrite get_item_with_lookup.
  intros Hv Hget. destruct (items self !! index) as [c|] eqn:Hc; [|done].
  injection Hget as <-. by eapply all_nodes_item.
Qed.

Lemma add_missing_properties_cints (self : Node) (keys : list string) (self' : Node) :
  all_nodes cints self → add_missing_properties self keys = Ok self' →
  all_nodes cints self'.
Proof.
  revert self. induction keys as [|key keys IH]; intros self Hv; simpl.
  - by intros [= <-].
  - destruct (dict_in (properties self) key); simpl; [by apply IH|].
    unfold add_property. cbv zeta. rewrite ?init_empty. simpl.
    apply IH. apply cints_set_property; [done|apply cints_fresh].
Qed.

Lemma add_items_while_cints (turns : nat) (self self' : Node) :
  all_nodes cints self → add_items_while turns self = Ok self' → all_nodes cints self'.
Proof.
  revert self. induction turns as [|turns IH]; intros self Hv; simpl.
  - by intros [= <-].
  - unfold add_item. cbv zeta. rewrite ?init_empty. simpl.
    apply IH. apply cints_add_item; [done|apply cints_fresh].
Qed.

Lemma extend_properties_cints (f : Doc → Node → result Node)
    (kvs : list (string * Doc)) (self self' : Node) :
  Forall (λ kv, ∀ c c', all_nodes cints c → f kv.2 c = Ok c' → all_nodes cints c') kvs →
  all_nodes cints self → extend_properties f kvs self = Ok self' → all_nodes cints self'.
Proof.
  intros Hf. revert self. induction Hf as [|[key value] kvs Hv _ IH]; intros self Hs; simpl.
  - by intros [= <-].
  - intros (child & Hget & (child' & Hext & Hrest)%bind_Ok)%bind_Ok.
    apply (IH _ (cints_set_property _ _ _ Hs
                   (Hv _ _ (all_nodes_get_property _ _ _ _ Hs Hget) Hext)) Hrest).
Qed.

Lemma extend_items_cints (f : Doc → Node → result Node)
    (l : list Doc) (i : nat) (self self' : Node) :
  Forall (λ v, ∀ c c', all_nodes cints c → f v c = Ok c' → all_nodes cints c') l →
  all_nodes cints self → extend_items f l i self = Ok self' → all_nodes cints self'.
Proof.
  intros Hf. revert i self. induction Hf as [|item l Hv _ IH]; intros i self Hs; simpl.
  - by intros [= <-].
  - intros (child & Hget & (child' & Hext & Hrest)%bind_Ok)%bind_Ok.
    apply (IH _ _ (cints_set_item _ _ _ Hs
                     (Hv _ _ (all_nodes_get_item _ _ _ _ Hs Hget) Hext)) Hrest).
Qed.

Lemma _extend_self_cints (self : Node) (doc : Doc) (t : JsonType) (self' : Node) :
  all_nodes cints self → _extend_self self doc t = Ok self' → all_nodes cints self'.
Proof.
  intros Hv. unfold _extend_self. intros (self0 & Hschema & Hself)%bind_Ok.
  assert (all_nodes cints self0) as Hv0.
  { unfold Schema_extend_self in Hschema.
    assert (all_nodes cints (set_type self ({[t]} ∪ type self))) as Hv1
      by (by apply (cints_same_children self)).
    destruct (decide (t = OBJECT)).
    - apply bind_Ok in Hschema as (kvs & _ & Hschema).
      apply bind_Ok in Hschema as (self2 & Hmiss & Hret).
      apply add_missing_properties_cints in Hmiss; [|done].
      destruct (required self2); injection Hret as <-;
        by apply (cints_same_children self2).
    - destruct (decide (t = ARRAY)); [|by injection Hschema as <-].
      apply bind_Ok in Hschema as (l & _ & Hschema).
      destruct (tuple_items _).
      + by eapply add_items_while_cints.
      + destruct (decide (items _ = [])); [|by injection Hschema as <-].
        unfold add_item in Hschema. cbv zeta in Hschema.
        rewrite ?init_empty in Hschema. simpl in Hschema. injection Hschema as <-.
        apply (cints_add_item (set_type self ({[t]} ∪ type self))); [done|].
        apply cints_fresh. }
  destruct (_ && _); injection Hself as <-; by apply (cints_same_children self0).
Qed.

Lemma _extend_cints (doc : Doc) (self self' : Node) :
  all_nodes cints self → _extend doc self = Ok self' → all_nodes cints self'.
Proof.
  revert self self'. induction doc as [|kvs IH|l IH| | | | | |] using Doc_ind';
    intros self self' Hv; rewrite _extend_unfold;
    intros (t & Ht & (self1 & Hself & Hrest)%bind_Ok)%bind_Ok;
    apply _extend_self_cints in Hself; try done;
    (destruct (decide (t = OBJECT)); [|destruct (decide (t = ARRAY))]);
    try done; try (by injection Hrest as <-).
  - by eapply extend_properties_cints.
  - by eapply extend_items_cints.
Qed.

Lemma extend_cints (docs : list Doc) (self self' : Node) :
  all_nodes cints self → extend self docs = Ok self' → all_nodes cints self'.
Proof.
  revert self. induction docs as [|doc docs IH]; intros self Hv; simpl.
  - by intros [= <-].
  - intros (self1 & Hdoc & Hrest)%bind_Ok.
    apply (IH self1); [by eapply _extend_cints|done].
Qed.

(** The dict [to_dict] returns, key by key. *)
Lemma to_dict_unfold (n : Node) :
  to_dict n
  = mkRepr (Some (tuple_items n))
      (if decide (type n ≠ ∅) then Some (TypeList (map type2str (sorted_types (type n))))
       else None)
      (required n)
      (if decide (properties n ≠ [])
       then Some (dict_of_items
                    (omap (λ name, (name,.) <$> get_property_with to_dict (properties n) name)
                       (dict_keys (properties n))))
       else None)
      (if decide (items n ≠ []) then Some (ItemsList (to_dict <$> items n)) else None)
      (if decide (counts n ≠ []) then Some (type2str_keys (counts n)) else None)
      (if decide (values n ≠ []) then Some (type2str_keys (values n)) else None)
      (Some (pos n))
      (if decide (vectorizers n ≠ []) then Some (type2str_keys (vectorizers n)) else None)
      (if decide (feature_names n ≠ []) then Some (feature_names n) else None)
      (Some (n_features n)).
Proof.
  destruct n as [? ? ? ? props its ? ? ? ? ? ?]. simpl.
  by rewrite omap_get_item_with.
Qed.

Lemma to_dict_properties {A} (f : Node → A) (props : list (string * Node)) :
  NoDup (dict_keys props) →
  omap (λ name, (name,.) <$> get_property_with f props name) (dict_keys props)
  = (λ kv, (kv.1, f kv.2)) <$> props.
Proof.
  intros Hnd.
  enough (∀ l, l ⊆ props →
            omap (λ name, (name,.) <$> get_property_with f props name) (dict_keys l)
            = (λ kv, (kv.1, f kv.2)) <$> l) as H by (by apply H).
  induction l as [|[k c] l IH]; intros Hl; csimpl; [done|].
  rewrite get_property_with_get.
  rewrite (dict_get_elem_NoDup props k c) by (done || apply Hl; left).
  csimpl. f_equal. apply IH. intros x Hx. apply Hl. by right.
Qed.

(** The constructor on a dict that has ['tuple_items']. *)
Lemma init_to_dict_eq (n : Node) (p : list Seg) (ti : bool) :
  init (to_dict n) p ti
  = from_dict init (mkNode p false ∅ None [] [] [] 0 [] [] [] 0) (to_dict n).
Proof. by rewrite to_dict_unfold. Qed.

Lemma add_types_type2str (self : Node) (l : list JsonType) :
  add_types self (map type2str l) = Ok (set_type self (list_to_set l ∪ type self)).
Proof.
  revert self. induction l as [|t l IH]; intros self; simpl.
  - f_equal. destruct self. unfold set_type. simpl. f_equal. tidy. set_solver.
  - rewrite str2type_type2str. simpl. rewrite IH. f_equal.
    unfold set_type. simpl. f_equal. tidy. set_solver.
Qed.

Lemma add_properties_spec (kvs : list (string * Repr)) (cs : list (string * Node))
    (self : Node) :
  Forall2 (λ kv c, kv.1 = c.1
                   ∧ ∀ p ti, ∃ c', init kv.2 p ti = Ok c' ∧ same_shape c.2 c') kvs cs →
  NoDup (dict_keys (properties self) ++ dict_keys kvs) →
  ∃ new, add_properties init kvs self = Ok (set_properties self (properties self ++ new))
         ∧ dict_keys new = dict_keys cs ∧ Forall2 same_shape cs.*2 new.*2.
Proof.
  intros H. revert self.
  induction H as [|[k r] [k' c] kvs cs [Hk Hc] _ IH]; intros self Hnd; simpl.
  - exists []. by rewrite app_nil_r, set_properties_id.
  - simpl in Hk, Hc. subst k'. unfold add_property. cbv zeta.
    destruct (Hc (path self ++ [SegStr k]) (tuple_items self)) as (c' & -> & Hsh).
    simpl. rewrite dict_set_fresh.
    2:{ apply NoDup_app in Hnd as (_ & Hd & _). intros Hin. apply (Hd _ Hin). left. }
    destruct (IH (set_properties self (properties self ++ [(k, c')])))
      as (new & Hnew & Hkeys & Hall).
    { simpl. unfold dict_keys in *. rewrite fmap_app, <- app_assoc. exact Hnd. }
    exists ((k, c') :: new). rewrite Hnew. simpl. split_and!.
    + by rewrite <- app_assoc.
    + unfold dict_keys in *. csimpl. by rewrite Hkeys.
    + by constructor.
Qed.

Lemma add_items_spec (l : list Repr) (cs : list Node) (self : Node) :
  Forall2 (λ r c, ∀ p ti, ∃ c', init r p ti = Ok c' ∧ same_shape c c') l cs →
  ∃ new, add_items init l self = Ok (set_items self (items self ++ new))
         ∧ Forall2 same_shape cs new.
Proof.
  intros H. revert self. induction H as [|r c l cs Hc _ IH]; intros self; simpl.
  - exists []. by rewrite app_nil_r, set_items_id.
  - unfold add_item. cbv zeta.
    destruct (Hc (path self
                  ++ (if tuple_items self then [SegInt (length (items self))]
                      else [SegStr "any"])) (tuple_items self)) as (c' & -> & Hsh).
    simpl.
    destruct (IH (set_items self (items self ++ [c']))) as (new & Hnew & Hall).
    exists (c' :: new). rewrite Hnew. simpl. split; [by rewrite <- app_assoc|].
    by constructor.
Qed.

(** The branches of [from_dict] on the keys [to_dict] wrote. *)
Lemma restore_type (ty : gset JsonType) (self : Node) :
  type self = ∅ →
  match
    (if decide (ty ≠ ∅) then Some (TypeList (map type2str (sorted_types ty))) else None)
  with
  | Some (TypeStr s) => t ← str2type s; Ok (set_type self ({[t]} ∪ type self))
  | Some (TypeList l) => add_types self l
  | None => Ok self
  end = Ok (set_type self ty).
Proof.
  intros Hself. destruct (decide (ty ≠ ∅)) as [Hne|He].
  - rewrite add_types_type2str, list_to_set_sorted_types, Hself. do 2 f_equal.
    tidy. set_solver.
  - apply dec_stable in He. subst ty. f_equal. destruct self. simpl in Hself.
    by subst.
Qed.

Lemma restore_properties (props : list (string * Node)) (self : Node) :
  NoDup (dict_keys props) →
  match
    (if decide (props ≠ [])
     then Some (dict_of_items
                  (omap (λ name, (name,.) <$> get_property_with to_dict props name)
                     (dict_keys props)))
     else None)
  with
  | Some kvs => add_properties init kvs self
  | None => Ok self
  end = add_properties init ((λ kv, (kv.1, to_dict kv.2)) <$> props) self.
Proof.
  intros Hnd. destruct (decide (props ≠ [])) as [Hne|He].
  - rewrite to_dict_properties, dict_of_items_NoDup; [done| |done].
    unfold dict_keys in *. by rewrite <- list_fmap_compose.
  - apply dec_stable in He. by subst props.
Qed.

Lemma restore_items (its : list Node) (self : Node) :
  match (if decide (its ≠ []) then Some (ItemsList (to_dict <$> its)) else None) with
  | Some (ItemsDict item) => add_item init self item
  | Some (ItemsList l) => add_items init l self
  | None => Ok self
  end = add_items init (to_dict <$> its) self.
Proof.
  destruct (decide (its ≠ [])) as [Hne|He]; [done|].
  apply dec_stable in He. by subst its.
Qed.

Lemma restore_counts (d : list (JsonType * Z)) (self : Node) :
  NoDup (dict_keys d) → counts self = [] →
  match (if decide (d ≠ []) then Some (type2str_keys d) else None) with
  | Some d' => c ← str2type_keys d'; Ok (set_counts self c)
  | None => Ok self
  end = Ok (set_counts self d).
Proof.
  intros Hnd Hself. destruct (decide (d ≠ [])) as [Hne|He].
  - by rewrite str2type_keys_type2str_keys.
  - apply dec_stable in He. subst d. f_equal. destruct self. simpl in Hself. by subst.
Qed.

(** Restoring the dict of a tree gives a tree of the same shape. *)
Lemma init_to_dict (n : Node) :
  valid n → all_nodes cints n →
  ∀ p ti, ∃ n', init (to_dict n) p ti = Ok n' ∧ same_shape n n'.
Proof.
  induction n as [n IHp IHi] using Node_ind'. intros Hv Hc p ti.
  apply all_nodes_inv in Hv as ([Hnd Hcnt] & Hvp & Hvi).
  apply all_nodes_inv in Hc as ([Hpos Hnf] & Hcp & Hci).
  rewrite init_to_dict_eq.
  assert (Forall2 (λ kv c, kv.1 = c.1
                           ∧ ∀ p ti, ∃ c', init kv.2 p ti = Ok c' ∧ same_shape c.2 c')
            ((λ kv, (kv.1, to_dict kv.2)) <$> properties n) (properties n)) as Hprops.
  { apply Forall2_fmap_l, Forall_Forall2_diag, Forall_forall. intros kv Hin.
    rewrite Forall_forall in IHp, Hvp, Hcp. split; [done|]. simpl.
    apply (IHp _ Hin); [by apply Hvp|by apply Hcp]. }
  assert (Forall2 (λ r c, ∀ p ti, ∃ c', init r p ti = Ok c' ∧ same_shape c c')
            (to_dict <$> items n) (items n)) as Hitems.
  { apply Forall2_fmap_l, Forall_Forall2_diag, Forall_forall. intros c Hin.
    rewrite Forall_forall in IHi, Hvi, Hci. simpl.
    apply (IHi _ Hin); [by apply Hvi|by apply Hci]. }
  clear IHp IHi Hvp Hvi Hcp Hci.
  set (self0 := mkNode p false ∅ None [] [] [] 0 [] [] [] 0).
  assert (∃ props' items',
            Schema_from_dict init self0 (to_dict n)
            = Ok (mkNode p (tuple_items n) (type n) (required n) props' items'
                    [] 0 [] [] [] 0)
            ∧ dict_keys props' = dict_keys (properties n)
            ∧ Forall2 same_shape (properties n).*2 props'.*2
            ∧ Forall2 same_shape (items n) items')
    as (props' & items' & HS & Hkeys & Hsp & Hsi).
  { unfold Schema_from_dict. rewrite to_dict_unfold.
    cbn [r_tuple_items r_type r_required r_properties r_items of_option mbind result_bind].
    rewrite restore_type by done. cbn [mbind result_bind].
    rewrite restore_properties by done.
    match goal with
    | |- context [add_properties init _ ?S] =>
        assert (S = mkNode p (tuple_items n) (type n) (required n) [] [] [] 0 [] [] [] 0)
          as -> by (by destruct (required n))
    end.
    destruct (add_properties_spec _ _
                (mkNode p (tuple_items n) (type n) (required n) [] [] [] 0 [] [] [] 0)
                Hprops) as (newp & -> & Hk & Hshp).
    { simpl. unfold dict_keys in *. by rewrite <- list_fmap_compose. }
    cbn [mbind result_bind]. rewrite restore_items.
    match goal with
    | |- context [add_items init _ ?S] =>
        destruct (add_items_spec _ _ S Hitems) as (newi & -> & Hshi)
    end.
    exists newp, newi. by split_and!. }
  unfold from_dict. rewrite HS. cbn [mbind result_bind].
  rewrite to_dict_unfold.
  cbn [r_counts r_values r_pos r_vectorizers r_feature_names r_n_features].
  rewrite restore_counts by done. cbn [mbind result_bind].
  unfold to_cint. rewrite !bool_decide_eq_true_2 by done.
  destruct (decide (values n ≠ []));
    [destruct (str2type_keys_total (values n)) as [vs ->]|];
    (destruct (decide (vectorizers n ≠ []));
     [destruct (str2type_keys_total (vectorizers n)) as [vz ->]|]);
    destruct (decide (feature_names n ≠ []));
    cbn [mbind result_bind]; (eexists; split; [reflexivity|]);
    (constructor; simpl;
     [done|done|done|done|by rewrite (Forall2_length _ _ _ Hsi)|done|done]).
Qed.

(** C3: for every tree built by [extend] on a new root (so over documents
    that all classify), the constructor called on [to_dict] of the tree, as
    [__reduce__] arranges and which runs [from_dict] on a new object, returns
    a tree that has at every node the same type set, the same counts, the
    same required set, the same property names and the same number of
    items. *)
Theorem from_dict_to_dict_same_shape (tuple_mode : bool) (docs : list Doc)
    (root0 root : Node) (p : list Seg) (ti : bool) :
  init empty_repr [SegStr "root"] tuple_mode = Ok root0 →
  extend root0 docs = Ok root →
  ∃ root',
    from_dict init (mkNode p false ∅ None [] [] [] 0 [] [] [] 0) (to_dict root) = Ok root'
    ∧ init (to_dict root) p ti = Ok root'
    ∧ same_shape root root'.
Proof.
  intros Hinit Hroot. rewrite init_empty in Hinit. injection Hinit as <-.
  assert (valid root) as Hvalid
    by (eapply extend_valid; [|exact Hroot]; apply valid_fresh).
  assert (all_nodes cints root) as Hcints
    by (eapply extend_cints; [|exact Hroot]; apply cints_fresh).
  destruct (init_to_dict root Hvalid Hcints p ti) as (root' & Hinit & Hshape).
  exists root'. split_and!; [|done..]. by rewrite <- (init_to_dict_eq _ _ ti).
Qed.

(** *** The sparse matrix primitive *)

(** In a strictly ascending list a later element is greater. *)
Lemma ascending_lookup (a : list Z) (i k : nat) (vi vk : Z) :
  StronglySorted Z.lt a → a !! i = Some vi → a !! k = Some vk → (i < k)%nat → vi < vk.
Proof.
  intros Hs Hi Hk Hlt.
  rewrite <- (take_drop k a) in Hs.
  apply (StronglySorted_app_1_elem_of _ _ _ vi vk) in Hs; [done| |].
  - apply list_elem_of_lookup. exists i. by rewrite lookup_take_lt.
  - apply list_elem_of_lookup. exists 0%nat. rewrite lookup_drop. by rewrite Nat.add_0_r.
Qed.

(** The loop of [bisect_left] keeps its invariant (everything before [lo] is
    below [x], nothing from [hi] on is) and ends at the insertion point. *)
Lemma bisect_loop_spec (a : list Z) (x : Z) (lo hi : nat) :
  StronglySorted Z.lt a →
  (lo ≤ hi ≤ length a)%nat →
  (∀ k v, a !! k = Some v → (k < lo)%nat → v < x) →
  (∀ k v, a !! k = Some v → (hi ≤ k)%nat → x ≤ v) →
  ∃ p, Lil.bisect_loop a x lo hi = Ok p ∧ (lo ≤ p ≤ hi)%nat
       ∧ (∀ k v, a !! k = Some v → (k < p)%nat → v < x)
       ∧ (∀ k v, a !! k = Some v → (p ≤ k)%nat → x ≤ v).
Proof.
  intros Hs. funelim (Lil.bisect_loop a x lo hi); intros Hb Hlo Hhi.
  - exists lo. split; [done|]. split; [lia|]. split; [done|].
    intros k v Hk Hle. apply (Hhi k v Hk). lia.
  - set (mid := (lo + (hi - lo) / 2)%nat) in *.
    assert ((hi - lo) / 2 < hi - lo)%nat by (apply Nat.div_lt; lia).
    destruct (decide (v < x)) as [Hv|Hv].
    + destruct (H Hv Hs) as (p & Hp & Hr & Hl & Hg); [lia| |done|].
      * intros k w Hk Hlt. destruct (decide (k = mid)) as [->|]; [congruence|].
        assert (w < v); [|lia]. apply (ascending_lookup a k mid); [done..|lia].
      * exists p. repeat split; [done|lia|lia|done|done].
    + destruct (H0 Hv Hs) as (p & Hp & Hr & Hl & Hg); [lia|done| |].
      * intros k w Hk Hle. destruct (decide (k = mid)) as [->|]; [assert (w = v) by congruence; lia|].
        assert (v < w); [|lia]. apply (ascending_lookup a mid k); [done..|lia].
      * exists p. repeat split; [done|lia|lia|done|done].
  - apply lookup_ge_None in Heq.
    assert ((hi - lo) / 2 < hi - lo)%nat by (apply Nat.div_lt; lia). lia.
Qed.

(** [bisect_left] finds the leftmost position whose element is not below
    [x]. *)
Lemma bisect_left_spec (a : list Z) (x : Z) :
  StronglySorted Z.lt a →
  ∃ p, Lil.bisect_left a x = Ok p ∧ (p ≤ length a)%nat
       ∧ (∀ k v, a !! k = Some v → (k < p)%nat → v < x)
       ∧ (∀ k v, a !! k = Some v → (p ≤ k)%nat → x ≤ v).
Proof.
  intros Hs. unfold Lil.bisect_left.
  assert (∃ p, Lil.bisect_loop a x 0 (length a) = Ok p ∧ (p ≤ length a)%nat
       ∧ (∀ k v, a !! k = Some v → (k < p)%nat → v < x)
       ∧ (∀ k v, a !! k = Some v → (p ≤ k)%nat → x ≤ v)) as Hloop.
  { destruct (bisect_loop_spec a x 0 (length a) Hs) as (p & ? & ? & ? & ?);
      [lia|intros; lia| |exists p; repeat split; [done|lia|done|done]].
    intros k v Hk Hle. apply lookup_lt_Some in Hk. lia. }
  destruct (decide (0 < length a)%nat) as [Hlen|Hlen]; [|done].
  destruct (a !! (length a - 1)%nat) as [v|] eqn:Hlast; [|done].
  destruct (decide (v < x)) as [Hv|Hv]; [|done].
  exists (length a). repeat split; [lia| |].
  - intros k w Hk _. destruct (decide (k = (length a - 1)%nat)) as [->|]; [congruence|].
    assert (w < v); [|lia].
    apply (ascending_lookup a k (length a - 1)); [done..|].
    apply lookup_lt_Some in Hk. lia.
  - intros k w Hk Hle. apply lookup_lt_Some in Hk. lia.
Qed.

(** What [lil_insert] does to one strictly ascending row. *)
Lemma row_insert_spec (row : list Z) (data : list bool) (j : Z) :
  StronglySorted Z.lt row → length data = length row →
  ∃ row' data',
    Lil.row_insert row data j = Ok (row', data')
    ∧ StronglySorted Z.lt row'
    ∧ length data' = length row'
    ∧ j ∈ row'
    ∧ (j ∈ row → row' = row)
    ∧ (j ∉ row → ∃ l1 l2, row = l1 ++ l2 ∧ row' = l1 ++ j :: l2)
    ∧ (∀ v, last row = Some v → v < j → row' = row ++ [j]).
Proof.
  intros Hs Hlen. unfold Lil.row_insert.
  destruct (bisect_left_spec row j Hs) as (p & -> & Hp & Hlt & Hge). simpl.
  assert (∀ v, v ∈ take p row → v < j) as Htake.
  { intros v [k Hk]%list_elem_of_lookup.
    destruct (decide (k < p)%nat); [|by rewrite lookup_take_ge in Hk by lia].
    rewrite lookup_take_lt in Hk by done. eauto. }
  assert (∀ v, v ∈ drop p row → j ≤ v) as Hdrop.
  { intros v [k Hk]%list_elem_of_lookup. rewrite lookup_drop in Hk.
    apply (Hge _ _ Hk). lia. }
  destruct (decide (p = length row)) as [->|Hne].
  - rewrite firstn_all in Htake.
    exists (row ++ [j]), (data ++ [true]). split; [done|].
    assert (j ∉ row) by (intros ?%Htake; lia).
    split_and!; [|by rewrite !length_app, Hlen|set_solver|done|
                   by exists row, []; rewrite app_nil_r
                   |done].
    apply StronglySorted_app. split_and!; [|done|repeat constructor].
    intros x1 x2 Hx1%Htake Hx2%list_elem_of_singleton. lia.
  - destruct (row !! p) as [v|] eqn:Hv; [|apply lookup_ge_None in Hv; lia]. simpl.
    assert (j ≤ v) by (apply (Hge p); [done|lia]).
    assert (StronglySorted Z.lt (take p row) ∧ StronglySorted Z.lt (drop p row)) as [Hs1 Hs2].
    { pose proof Hs as Hs'. rewrite <- (take_drop p row) in Hs'.
      apply StronglySorted_app in Hs'. tauto. }
    destruct (decide (v ≠ j)) as [Hvj|Hvj].
    + assert (∀ w, w ∈ drop p row → j < w) as Hdrop'.
      { intros w [k Hk]%list_elem_of_lookup. rewrite lookup_drop in Hk.
        destruct (decide (k = 0%nat)) as [->|].
        - rewrite Nat.add_0_r in Hk. assert (w = v) by congruence. lia.
        - assert (v < w); [|lia]. apply (ascending_lookup row p (p + k)); [done..|lia]. }
      assert (j ∉ row).
      { rewrite <- (take_drop p row). intros [?%Htake|?%Hdrop']%elem_of_app; lia. }
      exists (Lil.list_insert_at p j row), (Lil.list_insert_at p true data).
      unfold Lil.list_insert_at. split; [done|].
      split_and!; [| |set_solver|done|by exists (take p row), (drop p row); rewrite take_drop|].
      * apply StronglySorted_app. split_and!; [|done|].
        -- intros x1 x2 ?%Htake [->|?%Hdrop']%elem_of_cons; lia.
        -- constructor; [done|]. apply Forall_forall. intros w ?%Hdrop'. done.
      * rewrite !length_app. simpl. rewrite !length_take, !length_drop. lia.
      * intros w Hlast Hw. rewrite last_lookup in Hlast.
        assert (j < w); [|lia]. apply Hdrop', list_elem_of_lookup.
        exists (Nat.pred (length row) - p)%nat. rewrite lookup_drop, <- Hlast. f_equal. lia.
    + assert (v = j) as -> by (destruct (decide (v = j)); [done|by destruct Hvj]).
      unfold Lil.list_assign. rewrite decide_True by lia. simpl.
      assert (j ∈ row) by (apply list_elem_of_lookup; eauto).
      exists row, (<[p := true]> data). split; [done|].
      split_and!; [done|by rewrite length_insert|done|done|done|].
      intros w Hlast Hw. rewrite last_lookup in Hlast.
      destruct (decide (p = Nat.pred (length row))) as [->|];
        [assert (w = j) by congruence; lia|].
      assert (j < w); [|lia].
      apply (ascending_lookup row p (Nat.pred (length row))); [done..|lia].
Qed.

(** C9: on a row whose columns are strictly ascending, [lil_insert] of a
    column that is already there leaves the columns as they are, and of a new
    column puts it in place so that the columns stay strictly ascending (at
    the end when it exceeds the last one); inserting the same pair a second
    time changes no row. *)
Theorem lil_insert_sorted (rows : list (list Z)) (datas : list (list bool))
    (i : nat) (j : Z) (row : list Z) (data : list bool) :
  rows !! i = Some row → datas !! i = Some data →
  length data = length row → StronglySorted Z.lt row →
  ∃ row' data',
    Lil.lil_insert rows datas i j = Ok (<[i := row']> rows, <[i := data']> datas)
    ∧ StronglySorted Z.lt row'
    ∧ j ∈ row'
    ∧ (j ∈ row → row' = row)
    ∧ (j ∉ row → ∃ l1 l2, row = l1 ++ l2 ∧ row' = l1 ++ j :: l2)
    ∧ (∀ v, last row = Some v → v < j → row' = row ++ [j])
    ∧ (∃ data'', Lil.lil_insert (<[i := row']> rows) (<[i := data']> datas) i j
                 = Ok (<[i := row']> rows, <[i := data'']> datas)).
Proof.
  intros Hrow Hdata Hlen Hs.
  destruct (row_insert_spec row data j Hs Hlen)
    as (row' & data' & Hins & Hs' & Hlen' & Hin & Hsame & Hnew & Hlast).
  exists row', data'. unfold Lil.lil_insert at 1. rewrite Hrow, Hdata. simpl.
  rewrite Hins. simpl. split_and!; try done.
  destruct (row_insert_spec row' data' j Hs' Hlen')
    as (row'' & data'' & Hins' & _ & _ & _ & Hsame' & _).
  rewrite (Hsame' Hin) in Hins'.
  exists data''. unfold Lil.lil_insert.
  rewrite !list_lookup_insert_eq by (by eapply lookup_lt_Some). simpl.
  rewrite Hins'. simpl. by rewrite !list_insert_insert_eq.
Qed.

(** *** The sparse matrix as a whole *)

Lemma row_insert_elems (row : list Z) (data : list bool) (j : Z) :
  row_ok row data →
  ∃ row' data', Lil.row_insert row data j = Ok (row', data')
                ∧ row_ok row' data' ∧ ∀ c, c ∈ row' ↔ c ∈ row ∨ c = j.
Proof.
  intros [Hs Hlen].
  destruct (row_insert_spec row data j Hs Hlen)
    as (row' & data' & Hins & Hs' & Hlen' & Hin & Hsame & Hnew & _).
  exists row', data'. split_and!; [done|by split|].
  destruct (decide (j ∈ row)) as [Hj|Hj].
  - rewrite (Hsame Hj). intros c. split; [by left|]. by intros [?| ->].
  - destruct (Hnew Hj) as (l1 & l2 & -> & ->). intros c.
    rewrite !elem_of_app, elem_of_cons. tauto.
Qed.

Lemma rows_extended_refl (rows : list (list Z)) : rows_extended rows rows [].
Proof.
  split; [done|]. intros r row Hr. exists row. split; [done|].
  intros c. split; [by left|]. by intros [?|?%elem_of_nil].
Qed.

Lemma rows_extended_trans (a b c : list (list Z)) (e1 e2 : list (nat * Z)) :
  rows_extended a b e1 → rows_extended b c e2 → rows_extended a c (e1 ++ e2).
Proof.
  intros [Hl1 H1] [Hl2 H2]. split; [congruence|]. intros r row Hr.
  destruct (H1 r row Hr) as (row1 & Hr1 & Hc1).
  destruct (H2 r row1 Hr1) as (row2 & Hr2 & Hc2).
  exists row2. split; [done|]. intros x. rewrite Hc2, Hc1, elem_of_app. tauto.
Qed.

Lemma lil_insert_inv (rows : list (list Z)) (datas : list (list bool)) (i : nat) (j : Z)
    (rows' : list (list Z)) (datas' : list (list bool)) :
  Forall2 row_ok rows datas →
  Lil.lil_insert rows datas i j = Ok (rows', datas') →
  Forall2 row_ok rows' datas' ∧ rows_extended rows rows' [(i, j)] ∧ (i < length rows)%nat.
Proof.
  intros Hok. unfold Lil.lil_insert.
  destruct (rows !! i) as [row|] eqn:Hrow; [|done].
  destruct (datas !! i) as [data|] eqn:Hdata; [|done]. simpl.
  pose proof (Forall2_lookup_lr _ _ _ _ _ _ Hok Hrow Hdata) as Hrd.
  destruct (row_insert_elems row data j Hrd) as (row' & data' & -> & Hrd' & Hc).
  simpl. intros [= <- <-]. split_and!.
  - by apply Forall2_insert.
  - split; [by rewrite length_insert|]. intros r row0 Hr.
    destruct (decide (r = i)) as [->|Hne].
    + assert (row0 = row) as -> by congruence.
      exists row'. rewrite list_lookup_insert_eq by (by eapply lookup_lt_Some).
      split; [done|]. intros c. rewrite Hc, list_elem_of_singleton.
      split; (intros [?|?]; [by left|right]); congruence.
    + exists row0. rewrite list_lookup_insert_ne by done. split; [done|].
      intros c. split; [by left|]. intros [?|[= ? ?]%list_elem_of_singleton]; [done|].
      by destruct Hne.
  - by eapply lookup_lt_Some.
Qed.

Lemma lil_insert_total (rows : list (list Z)) (datas : list (list bool)) (i : nat) (j : Z) :
  Forall2 row_ok rows datas → (i < length rows)%nat →
  ∃ r, Lil.lil_insert rows datas i j = Ok r.
Proof.
  intros Hok Hi. unfold Lil.lil_insert.
  destruct (lookup_lt_is_Some_2 rows i Hi) as [row Hrow].
  destruct (Forall2_lookup_l _ _ _ _ _ Hok Hrow) as (data & Hdata & Hrd).
  rewrite Hrow, Hdata. simpl.
  destruct (row_insert_elems row data j Hrd) as (row' & data' & -> & _). simpl. by eexists.
Qed.

Lemma lil_set_col_inv (rows : list (list Z)) (datas : list (list bool)) (rs : list nat)
    (col : Z) (rows' : list (list Z)) (datas' : list (list bool)) :
  Forall2 row_ok rows datas →
  Lil.lil_set_col rows datas rs col = Ok (rows', datas') →
  Forall2 row_ok rows' datas' ∧ rows_extended rows rows' ((λ r, (r, col)) <$> rs)
  ∧ Forall (λ r, (r < length rows)%nat) rs.
Proof.
  revert rows datas. induction rs as [|r rs IH]; intros rows datas Hok; simpl.
  - intros [= <- <-]. split_and!; [done|apply rows_extended_refl|constructor].
  - intros ([rows1 datas1] & Hins & Hrest)%bind_Ok.
    destruct (lil_insert_inv _ _ _ _ _ _ Hok Hins) as (Hok1 & Hext1 & Hr).
    destruct (IH _ _ Hok1 Hrest) as (Hok' & Hext' & Hrs).
    split_and!; [done|exact (rows_extended_trans _ _ _ _ _ Hext1 Hext')|].
    constructor; [done|]. destruct Hext1 as [Hlen _]. by rewrite <- Hlen.
Qed.

Lemma lil_set_inv (rows : list (list Z)) (datas : list (list bool)) (rs : list nat)
    (cols : list Z) (rows' : list (list Z)) (datas' : list (list bool)) :
  Forall2 row_ok rows datas →
  Lil.lil_set rows datas rs cols = Ok (rows', datas') →
  Forall2 row_ok rows' datas' ∧ rows_extended rows rows' (zip rs cols)
  ∧ Forall (λ r, (r < length rows)%nat) rs ∧ (length rs ≤ length cols)%nat.
Proof.
  revert rows datas cols. induction rs as [|r rs IH]; intros rows datas cols Hok; simpl.
  - intros [= <- <-]. split_and!; [done|apply rows_extended_refl|constructor|lia].
  - destruct cols as [|c cols]; [done|].
    intros ([rows1 datas1] & Hins & Hrest)%bind_Ok.
    destruct (lil_insert_inv _ _ _ _ _ _ Hok Hins) as (Hok1 & Hext1 & Hr).
    destruct (IH _ _ _ Hok1 Hrest) as (Hok' & Hext' & Hrs & Hlen).
    split_and!; [done|exact (rows_extended_trans _ _ _ _ _ Hext1 Hext')| |simpl; lia].
    constructor; [done|]. destruct Hext1 as [Hl _]. by rewrite <- Hl.
Qed.

(** X3: on a strictly ascending list, [bisect_left] returns the leftmost
    insertion point: an index at most the length, with every element before
    it below [x] and every element from it on at least [x]. *)
Theorem bisect_left_leftmost (a : list Z) (x : Z) :
  StronglySorted Z.lt a →
  ∃ p, Lil.bisect_left a x = Ok p ∧ (p ≤ length a)%nat
       ∧ (∀ k v, a !! k = Some v → (k < p)%nat → v < x)
       ∧ (∀ k v, a !! k = Some v → (p ≤ k)%nat → x ≤ v).
Proof. apply bisect_left_spec. Qed.

(** X4: [lil_set_col] on a matrix whose rows are strictly ascending, with
    every row index in range: it returns, the rows stay strictly ascending
    with one value per column, and a row has afterwards the columns it had,
    and [col] when its index is among [rs]. *)
Theorem lil_set_col_spec (rows : list (list Z)) (datas : list (list bool))
    (rs : list nat) (col : Z) :
  Forall2 row_ok rows datas → Forall (λ r, (r < length rows)%nat) rs →
  ∃ rows' datas',
    Lil.lil_set_col rows datas rs col = Ok (rows', datas')
    ∧ Forall2 row_ok rows' datas'
    ∧ length rows' = length rows
    ∧ ∀ r row, rows !! r = Some row →
        ∃ row', rows' !! r = Some row' ∧ ∀ c, c ∈ row' ↔ c ∈ row ∨ (c = col ∧ r ∈ rs).
Proof.
  intros Hok Hrs.
  assert (∃ X, Lil.lil_set_col rows datas rs col = Ok X) as [[rows' datas'] HX].
  { revert rows datas Hok Hrs. induction rs as [|r rs IH]; intros rows datas Hok Hrs; simpl.
    - by eexists.
    - apply Forall_cons in Hrs as [Hr Hrs].
      destruct (lil_insert_total rows datas r col Hok Hr) as [[rows1 datas1] Hins].
      rewrite Hins. simpl.
      destruct (lil_insert_inv _ _ _ _ _ _ Hok Hins) as (Hok1 & [Hlen _] & _).
      apply IH; [done|]. by rewrite Hlen. }
  destruct (lil_set_col_inv _ _ _ _ _ _ Hok HX) as (Hok' & [Hlen Hext] & _).
  exists rows', datas'. split_and!; [done..|].
  intros r row Hr. destruct (Hext r row Hr) as (row' & Hr' & Hc).
  exists row'. split; [done|]. intros c. rewrite Hc, list_elem_of_fmap.
  split; (intros [?|H]; [by left|right]).
  - destruct H as (r' & [= -> ->] & ?). done.
  - destruct H as [-> ?]. by exists r.
Qed.

(** X5: [lil_set] on such a matrix, with every row index in range and at
    least as many columns as row indices: it returns, the rows stay strictly
    ascending, and a row has afterwards the columns it had and the columns
    paired with its index. *)
Theorem lil_set_spec (rows : list (list Z)) (datas : list (list bool))
    (rs : list nat) (cols : list Z) :
  Forall2 row_ok rows datas → Forall (λ r, (r < length rows)%nat) rs →
  (length rs ≤ length cols)%nat →
  ∃ rows' datas',
    Lil.lil_set rows datas rs cols = Ok (rows', datas')
    ∧ Forall2 row_ok rows' datas'
    ∧ length rows' = length rows
    ∧ ∀ r row, rows !! r = Some row →
        ∃ row', rows' !! r = Some row' ∧ ∀ c, c ∈ row' ↔ c ∈ row ∨ (r, c) ∈ zip rs cols.
Proof.
  intros Hok Hrs Hlen.
  assert (∃ X, Lil.lil_set rows datas rs cols = Ok X) as [[rows' datas'] HX].
  { revert rows datas cols Hok Hrs Hlen.
    induction rs as [|r rs IH]; intros rows datas cols Hok Hrs Hlen; simpl.
    - by eexists.
    - destruct cols as [|c cols]; [simpl in Hlen; lia|].
      apply Forall_cons in Hrs as [Hr Hrs].
      destruct (lil_insert_total rows datas r c Hok Hr) as [[rows1 datas1] Hins].
      rewrite Hins. simpl.
      destruct (lil_insert_inv _ _ _ _ _ _ Hok Hins) as (Hok1 & [Hl _] & _).
      apply IH; [done|by rewrite Hl|simpl in Hlen; lia]. }
  destruct (lil_set_inv _ _ _ _ _ _ Hok HX) as (Hok' & [Hl Hext] & _).
  by exists rows', datas'.
Qed.

(** X6: the bounds of the two setters, on a matrix whose rows are strictly
    ascending: [lil_set_col] with a row index that is not below the number
    of rows raises IndexError, and so does [lil_set] with fewer columns than
    row indices. *)
Theorem lil_set_bounds (rows : list (list Z)) (datas : list (list bool))
    (rs : list nat) (col : Z) (cols : list Z) :
  Forall2 row_ok rows datas →
  (Exists (λ r, (length rows ≤ r)%nat) rs →
   Lil.lil_set_col rows datas rs col = Raise IndexError)
  ∧ (Forall (λ r, (r < length rows)%nat) rs → (length cols < length rs)%nat →
     Lil.lil_set rows datas rs cols = Raise IndexError).
Proof.
  intros Hok. split.
  - intros Hex. revert rows datas Hok Hex.
    induction rs as [|r rs IH]; intros rows datas Hok Hex; [by apply Exists_nil in Hex|].
    simpl. destruct (decide (r < length rows)%nat) as [Hr|Hr].
    + destruct (lil_insert_total rows datas r col Hok Hr) as [[rows1 datas1] Hins].
      rewrite Hins. simpl.
      destruct (lil_insert_inv _ _ _ _ _ _ Hok Hins) as (Hok1 & [Hl _] & _).
      apply IH; [done|]. rewrite Hl. apply Exists_cons in Hex as [?|?]; [lia|done].
    + unfold Lil.lil_insert. rewrite (lookup_ge_None_2 rows r) by lia. done.
  - revert rows datas cols Hok.
    induction rs as [|r rs IH]; intros rows datas cols Hok Hrs Hlen; simpl in *; [lia|].
    destruct cols as [|c cols]; [done|].
    apply Forall_cons in Hrs as [Hr Hrs].
    destruct (lil_insert_total rows datas r c Hok Hr) as [[rows1 datas1] Hins].
    rewrite Hins. simpl.
    destruct (lil_insert_inv _ _ _ _ _ _ Hok Hins) as (Hok1 & [Hl _] & _).
    apply IH; [done|by rewrite Hl|simpl in Hlen; lia].
Qed.

Lemma StronglySorted_elem_eq (l1 l2 : list Z) :
  StronglySorted Z.lt l1 → StronglySorted Z.lt l2 → (∀ c, c ∈ l1 ↔ c ∈ l2) → l1 = l2.
Proof.
  intros Hs1. revert l2. induction Hs1 as [|a l1 Hs1 IH Ha]; intros l2 Hs2 Hc.
  - destruct l2 as [|b l2]; [done|]. exfalso. apply (elem_of_nil b), Hc. left.
  - destruct Hs2 as [|b l2 Hs2 Hb]; [exfalso; apply (elem_of_nil a), Hc; left|].
    rewrite Forall_forall in Ha, Hb.
    assert (a = b) as <-.
    { destruct (decide (a = b)) as [|Hne]; [done|]. exfalso.
      assert (a ∈ b :: l2) as [?|?%Hb]%elem_of_cons by (apply Hc; left); [congruence|].
      assert (b ∈ l1) as ?%Ha; [|lia].
      assert (b ∈ a :: l1) as [?|?]%elem_of_cons by (apply Hc; left); [congruence|done]. }
    f_equal. apply IH; [done|]. intros c. split; intros Hin.
    + assert (c ∈ a :: l2) as [->|?]%elem_of_cons by (apply Hc; by right); [|done].
      apply Ha in Hin. lia.
    + assert (c ∈ a :: l1) as [->|?]%elem_of_cons by (apply Hc; by right); [|done].
      apply Hb in Hin. lia.
Qed.

Lemma lil_insert_all_true (rows : list (list Z)) (datas : list (list bool)) (i : nat)
    (j : Z) (rows' : list (list Z)) (datas' : list (list bool)) :
  Lil.lil_insert rows datas i j = Ok (rows', datas') →
  Forall (Forall (λ b, b = true)) datas → Forall (Forall (λ b, b = true)) datas'.
Proof.
  unfold Lil.lil_insert. intros (row & _ & (data & Hdata & Hins)%bind_Ok)%bind_Ok Hall.
  apply bind_Ok in Hins as ([row' data'] & Hins & [= _ <-]).
  assert (Forall (λ b, b = true) data) as Hd.
  { destruct (datas !! i) as [d|] eqn:Hd; [|done]. injection Hdata as ->.
    rewrite Forall_forall in Hall. apply Hall. by eapply list_elem_of_lookup_2. }
  apply Forall_insert; [done|]. clear Hall Hdata.
  unfold Lil.row_insert in Hins. apply bind_Ok in Hins as (p & _ & Hins).
  destruct (decide (p = length row)).
  - injection Hins as _ <-. apply Forall_app. split; [done|by constructor].
  - apply bind_Ok in Hins as (v & _ & Hins). destruct (decide (v ≠ j)).
    + injection Hins as _ <-. unfold Lil.list_insert_at. apply Forall_app. split.
      * by apply Forall_take.
      * constructor; [done|by apply Forall_drop].
    + apply bind_Ok in Hins as (d' & Hd' & [= _ <-]). unfold Lil.list_assign in Hd'.
      case_decide; [|done]. injection Hd' as <-. by apply Forall_insert.
Qed.

Lemma all_true_data (rows : list (list Z)) (d d' : list (list bool)) :
  Forall2 row_ok rows d → Forall2 row_ok rows d' →
  Forall (Forall (λ b, b = true)) d → Forall (Forall (λ b, b = true)) d' → d = d'.
Proof.
  intros H. revert d'. induction H as [|row data rows d [_ Hlen] _ IH]; intros d' H'.
  - by apply Forall2_nil_inv_l in H' as ->.
  - apply Forall2_cons_inv_l in H' as (data' & d'' & [_ Hlen'] & H' & ->).
    intros [Ht Hd]%Forall_cons [Ht' Hd']%Forall_cons. f_equal; [|by apply IH].
    apply list_eq. intros k. destruct (data !! k) as [b|] eqn:Hb.
    + destruct (lookup_lt_is_Some_2 data' k) as [b' Hb'];
        [apply lookup_lt_Some in Hb; lia|].
      rewrite Hb'. rewrite Forall_forall in Ht, Ht'.
      rewrite (Ht b), (Ht' b'); [done|by eapply list_elem_of_lookup_2..].
    + symmetry. apply lookup_ge_None. apply lookup_ge_None in Hb. lia.
Qed.

(** X7: on a matrix whose rows are strictly ascending and whose values are
    all [True], two insertions in range give the same matrix in either
    order. *)
Theorem lil_insert_commute (rows : list (list Z)) (datas : list (list bool))
    (i1 i2 : nat) (j1 j2 : Z) :
  Forall2 row_ok rows datas → Forall (Forall (λ b, b = true)) datas →
  (i1 < length rows)%nat → (i2 < length rows)%nat →
  ('(rows1, datas1) ← Lil.lil_insert rows datas i1 j1; Lil.lil_insert rows1 datas1 i2 j2)
  = ('(rows2, datas2) ← Lil.lil_insert rows datas i2 j2; Lil.lil_insert rows2 datas2 i1 j1).
Proof.
  intros Hok Htrue Hi1 Hi2.
  assert (∀ a b ja jb, (a < length rows)%nat → (b < length rows)%nat →
            ∃ rows' datas',
              ('(rows1, datas1) ← Lil.lil_insert rows datas a ja;
               Lil.lil_insert rows1 datas1 b jb) = Ok (rows', datas')
              ∧ Forall2 row_ok rows' datas' ∧ Forall (Forall (λ b, b = true)) datas'
              ∧ rows_extended rows rows' [(a, ja); (b, jb)]) as Htwo.
  { intros a b ja jb Ha Hb.
    destruct (lil_insert_total rows datas a ja Hok Ha) as [[rows1 datas1] H1].
    destruct (lil_insert_inv _ _ _ _ _ _ Hok H1) as (Hok1 & Hext1 & _).
    assert (b < length rows1)%nat as Hb1 by (destruct Hext1 as [-> _]; done).
    destruct (lil_insert_total rows1 datas1 b jb Hok1 Hb1) as [[rows2 datas2] H2].
    destruct (lil_insert_inv _ _ _ _ _ _ Hok1 H2) as (Hok2 & Hext2 & _).
    exists rows2, datas2. rewrite H1. simpl. split_and!; [done|done| |].
    - eapply lil_insert_all_true; [exact H2|]. by eapply lil_insert_all_true.
    - exact (rows_extended_trans _ _ _ _ _ Hext1 Hext2). }
  destruct (Htwo i1 i2 j1 j2 Hi1 Hi2) as (ra & da & -> & Hoka & Hta & [Hla Hea]).
  destruct (Htwo i2 i1 j2 j1 Hi2 Hi1) as (rb & db & -> & Hokb & Htb & [Hlb Heb]).
  assert (ra = rb) as <-.
  { apply list_eq. intros r. destruct (rows !! r) as [row|] eqn:Hr.
    - destruct (Hea r row Hr) as (rowa & Hra & Hca).
      destruct (Heb r row Hr) as (rowb & Hrb & Hcb).
      destruct (Forall2_lookup_l _ _ _ _ _ Hoka Hra) as (? & _ & [Hs1 _]).
      destruct (Forall2_lookup_l _ _ _ _ _ Hokb Hrb) as (? & _ & [Hs2 _]).
      rewrite Hra, Hrb. f_equal.
      apply StronglySorted_elem_eq; [done..|]. intros c. rewrite Hca, Hcb.
      rewrite !elem_of_cons, !elem_of_nil. tauto.
    - apply lookup_ge_None in Hr.
      rewrite (lookup_ge_None_2 ra r), (lookup_ge_None_2 rb r) by lia. done. }
  f_equal. f_equal. by apply (all_true_data ra).
Qed.

(** *** The type names and the classifier *)

(** X1: [str2type] reads back every name [type2str] writes, and no two
    types share a name. *)
Theorem str2type_reads_type2str (t : JsonType) :
  str2type (type2str t) = Ok t ∧ ∀ t', type2str t = type2str t' → t = t'.
Proof. split; [by destruct t|]. intros t'. by destruct t, t'. Qed.

(** X2: [typeof] raises for the values whose Python type is none of
    [NoneType], [dict], [list], [bool], [int], [float], [str], and for
    [unicode] unless the interpreter is Python 2; the exception is TypeError,
    and every other value is classified. *)
Theorem typeof_raises (doc : Doc) :
  (typeof doc = Raise TypeError
   ↔ py_type doc = other_t ∨ (py_type doc = unicode_t ∧ VERSION ≠ 2))
  ∧ (∀ e, typeof doc = Raise e → e = TypeError).
Proof.
  unfold typeof. destruct doc; simpl; repeat case_decide; try done;
    try destruct (strptime_ok _);
    rewrite ?bool_decide_eq_true_2, ?bool_decide_eq_false_2 by done; simpl;
    (split; [split|]); try done;
    try (by intros [?|[? ?]]); try (by intros ? [= <-]); try (by right); by left.
Qed.

(** *** Learning: what [extend] keeps and what it records *)

Lemma add_missing_properties_frame (self : Node) (keys : list string) (self' : Node) :
  add_missing_properties self keys = Ok self' →
  self' = set_properties self (properties self')
  ∧ (∃ new, dict_keys (properties self') = dict_keys (properties self) ++ new)
  ∧ (∀ k, k ∈ dict_keys (properties self') ↔ k ∈ dict_keys (properties self) ∨ k ∈ keys).
Proof.
  tidy.
  revert self. induction keys as [|key keys IH]; intros self; simpl.
  - intros [= <-]. split_and!; [by rewrite set_properties_id|by exists []; rewrite app_nil_r|].
    intros k. rewrite elem_of_nil. tauto.
  - destruct (dict_in (properties self) key) eqn:Hin; simpl.
    + intros (-> & Hnew & Hk)%IH. split_and!; [done..|]. intros k.
      rewrite Hk, elem_of_cons. split; [tauto|]. intros [?|[->|?]]; [tauto| |tauto].
      left. apply dict_get_Some_keys. unfold dict_in in Hin.
      by destruct (dict_get (properties self) key).
    + unfold add_property. cbv zeta. rewrite ?init_empty. simpl.
      intros (-> & [new Hnew] & Hk)%IH. simpl in *.
      assert (key ∉ dict_keys (properties self)) as Hfresh.
      { intros [v Hv]%dict_get_Some_keys. unfold dict_in in Hin. by rewrite Hv in Hin. }
      rewrite dict_keys_set, decide_False in Hnew, Hk by done.
      split_and!; [done|by exists (key :: new); rewrite Hnew, <- app_assoc|].
      intros k. rewrite Hk, elem_of_app, list_elem_of_singleton, elem_of_cons. tauto.
Qed.

Lemma add_items_while_frame (turns : nat) (self self' : Node) :
  add_items_while turns self = Ok self' →
  self' = set_items self (items self')
  ∧ length (items self') = (length (items self) + turns)%nat.
Proof.
  tidy.
  revert self. induction turns as [|turns IH]; intros self; simpl.
  - intros [= <-]. split; [by rewrite set_items_id|lia].
  - unfold add_item. cbv zeta. rewrite ?init_empty. simpl.
    intros (-> & Hlen)%IH. simpl in *. split; [done|].
    rewrite Hlen, length_app. simpl. lia.
Qed.

Lemma extend_properties_frame (f : Doc → Node → result Node)
    (kvs : list (string * Doc)) (self self' : Node) :
  extend_properties f kvs self = Ok self' →
  self' = set_properties self (properties self')
  ∧ dict_keys (properties self') = dict_keys (properties self).
Proof.
  tidy.
  revert self. induction kvs as [|[key value] kvs IH]; intros self; simpl.
  - intros [= <-]. by rewrite set_properties_id.
  - intros (child & Hget & (child' & Hext & Hrest)%bind_Ok)%bind_Ok.
    apply IH in Hrest as (-> & Hkeys). simpl in *. split; [done|].
    rewrite Hkeys, dict_keys_set, decide_True; [done|].
    apply dict_get_Some_keys. unfold get_property in Hget.
    rewrite get_property_with_get in Hget.
    by destruct (dict_get (properties self) key).
Qed.

Lemma extend_items_frame (f : Doc → Node → result Node)
    (l : list Doc) (i : nat) (self self' : Node) :
  extend_items f l i self = Ok self' →
  self' = set_items self (items self') ∧ length (items self') = length (items self).
Proof.
  tidy.
  revert i self. induction l as [|item l IH]; intros i self; simpl.
  - intros [= <-]. by rewrite set_items_id.
  - intros (child & Hget & (child' & Hext & Hrest)%bind_Ok)%bind_Ok.
    apply IH in Hrest as (-> & Hlen). simpl in *. split; [done|].
    by rewrite Hlen, length_insert.
Qed.

(** One document at one node: what [_extend] leaves of the node it was
    called on and what it records there. *)
Lemma _extend_frame (doc : Doc) (self self' : Node) :
  _extend doc self = Ok self' →
  ∃ t, typeof doc = Ok t
       ∧ path self' = path self ∧ tuple_items self' = tuple_items self
       ∧ type self' = {[t]} ∪ type self
       ∧ counts self'
         = dict_set (counts self) t (default 0 (dict_get (counts self) t) + 1)
       ∧ values self'
         = (if bool_decide (t ≠ OBJECT) && bool_decide (t ≠ ARRAY) && bool_decide (t ≠ JNULL)
            then dict_append (values self) t doc else values self)
       ∧ vectorizers self' = vectorizers self ∧ pos self' = pos self
       ∧ feature_names self' = feature_names self
       ∧ n_features self' = n_features self
       ∧ (∃ new, dict_keys (properties self') = dict_keys (properties self) ++ new)
       ∧ (∀ k, k ∈ dict_keys (properties self')
               ↔ k ∈ dict_keys (properties self) ∨ k ∈ doc_keys doc)
       ∧ length (items self')
         = match doc with
           | DList l =>
               if tuple_items self then (length (items self) `max` length l)%nat
               else (length (items self) `max` 1)%nat
           | _ => length (items self)
           end.
Proof.
  tidy.
  rewrite _extend_unfold. intros (t & Ht & (self1 & Hself & Hrest)%bind_Ok)%bind_Ok.
  exists t. split; [done|].
  unfold _extend_self in Hself. apply bind_Ok in Hself as (self0 & Hschema & Hself).
  assert (path self0 = path self ∧ tuple_items self0 = tuple_items self
          ∧ type self0 = {[t]} ∪ type self ∧ counts self0 = counts self
          ∧ values self0 = values self ∧ vectorizers self0 = vectorizers self
          ∧ pos self0 = pos self ∧ feature_names self0 = feature_names self
          ∧ n_features self0 = n_features self
          ∧ (∃ new, dict_keys (properties self0) = dict_keys (properties self) ++ new)
          ∧ (∀ k, k ∈ dict_keys (properties self0)
                  ↔ k ∈ dict_keys (properties self) ∨ k ∈ doc_keys doc)
          ∧ length (items self0)
            = match doc with
              | DList l =>
                  if tuple_items self then (length (items self) `max` length l)%nat
                  else (length (items self) `max` 1)%nat
              | _ => length (items self)
              end
          ∧ (t = OBJECT → ∃ kvs, doc = DDict kvs)
          ∧ (t = ARRAY → ∃ l, doc = DList l)
          ∧ (t ≠ OBJECT → t ≠ ARRAY → properties self0 = properties self
                                       ∧ items self0 = items self)) as Hs0.
  { unfold Schema_extend_self in Hschema.
    assert (doc_keys doc = ∅ ∨ ∃ kvs, doc = DDict kvs) as Hkeys
      by (destruct doc; simpl; eauto).
    destruct (decide (t = OBJECT)) as [->|HnO].
    - apply bind_Ok in Hschema as (kvs & Hkvs & Hschema).
      destruct doc as [|kvs0| | | | | | |]; try done. injection Hkvs as <-.
      apply bind_Ok in Hschema as (self2 & Hmiss & Hret).
      apply add_missing_properties_frame in Hmiss as (Hfr & Hnew & Hk). simpl in *.
      assert (∀ k, k ∈ dict_keys (properties self2)
                   ↔ k ∈ dict_keys (properties self) ∨ k ∈ doc_keys (DDict kvs0)) as Hk'.
      { intros k. rewrite Hk. simpl. by rewrite elem_of_list_to_set. }
      destruct (required self2); injection Hret as <-; simpl;
        (split_and!; try done; eauto; try (by rewrite Hfr);
         try (by intros [? [=]]); by intros []).
    - destruct (decide (t = ARRAY)) as [->|HnA].
      + apply bind_Ok in Hschema as (l & Hl & Hschema).
        destruct doc as [| |l0| | | | | |]; try done. injection Hl as <-. simpl in Hschema.
        assert (∀ k, k ∈ dict_keys (properties self)
                     ↔ k ∈ dict_keys (properties self) ∨ k ∈ doc_keys (DList l0)) as Hk'
          by (intros k; simpl; rewrite elem_of_empty; tauto).
        destruct (tuple_items self) eqn:Hti.
        * apply add_items_while_frame in Hschema as (Hfr & Hlen). simpl in *.
          split_and!; try done; eauto; try (by rewrite Hfr);
            [exists []; by rewrite Hfr, app_nil_r|lia].
        * destruct (decide (items _ = [])) as [He|Hne]; simpl in *.
          -- unfold add_item in Hschema. cbv zeta in Hschema.
             rewrite ?init_empty in Hschema. simpl in Hschema. injection Hschema as <-.
             simpl. rewrite He.
             split_and!; try done; eauto; try (exists []; by rewrite app_nil_r);
               try (by intros [? [=]]).
          -- injection Hschema as <-. simpl.
             split_and!; try done; eauto; try (exists []; by rewrite app_nil_r);
               try (by intros [? [=]]).
             destruct (items self); [done|simpl; lia].
      + injection Hschema as <-. simpl.
        assert (∀ k, k ∈ dict_keys (properties self)
                     ↔ k ∈ dict_keys (properties self) ∨ k ∈ doc_keys doc) as Hk'.
        { intros k. destruct Hkeys as [->|[kvs ->]]; [rewrite elem_of_empty; tauto|].
          unfold typeof in Ht. simpl in Ht. by injection Ht as <-. }
        split_and!; try done; [by exists []; rewrite app_nil_r|].
        destruct doc; try done. unfold typeof in Ht. simpl in Ht. by injection Ht as <-. }
  destruct Hs0 as (Hp0 & Hti0 & Hty0 & Hc0 & Hv0 & Hvz0 & Hpos0 & Hfn0 & Hnf0 & Hnew0
                   & Hk0 & Hlen0 & HO & HA & Hleaf).
  assert (path self1 = path self ∧ tuple_items self1 = tuple_items self
          ∧ type self1 = {[t]} ∪ type self
          ∧ counts self1
            = dict_set (counts self) t (default 0 (dict_get (counts self) t) + 1)
          ∧ values self1
            = (if bool_decide (t ≠ OBJECT) && bool_decide (t ≠ ARRAY)
                  && bool_decide (t ≠ JNULL)
               then dict_append (values self) t doc else values self)
          ∧ vectorizers self1 = vectorizers self ∧ pos self1 = pos self
          ∧ feature_names self1 = feature_names self
          ∧ n_features self1 = n_features self
          ∧ properties self1 = properties self0 ∧ items self1 = items self0) as Hs1.
  { destruct (_ && _ && _); injection Hself as <-; simpl; rewrite ?Hc0, ?Hv0;
      by split_and!. }
  destruct Hs1 as (Hp1 & Hti1 & Hty1 & Hc1 & Hv1 & Hvz1 & Hpos1 & Hfn1 & Hnf1 & Hpr1 & Hit1).
  destruct (decide (t = OBJECT)) as [->|HnO].
  - destruct (HO eq_refl) as [kvs ->].
    apply extend_properties_frame in Hrest as (Hfr & Hkeys).
    rewrite Hkeys, Hpr1.
    simpl in Hv1. split_and!; try done; rewrite Hfr; simpl; congruence.
  - destruct (decide (t = ARRAY)) as [->|HnA].
    + destruct (HA eq_refl) as [l ->].
      apply extend_items_frame in Hrest as (Hfr & Hlen).
      rewrite Hlen, Hit1.
      simpl in Hv1, Hk0. split_and!; try done; rewrite Hfr; simpl; rewrite ?Hpr1;
        first [done|congruence].
    + injection Hrest as <-. rewrite Hpr1, Hit1. by split_and!.
Qed.

Lemma typeof_error_is_TypeError (doc : Doc) (e : exn) :
  typeof doc = Raise e → e = TypeError.
Proof.
  unfold typeof. destruct doc; simpl; repeat case_decide; try done;
    try destruct (strptime_ok _); try done;
    destruct (bool_decide _ && _); try done; by intros [= <-].
Qed.

Lemma add_missing_properties_total (self : Node) (keys : list string) :
  ∃ self', add_missing_properties self keys = Ok self'.
Proof.
  tidy. revert self. induction keys as [|key keys IH]; intros self; simpl; [by eexists|].
  destruct (dict_in (properties self) key); simpl; [apply IH|].
  unfold add_property. cbv zeta. rewrite ?init_empty. simpl. apply IH.
Qed.

Lemma add_items_while_total (turns : nat) (self : Node) :
  ∃ self', add_items_while turns self = Ok self'.
Proof.
  tidy. revert self. induction turns as [|turns IH]; intros self; simpl; [by eexists|].
  unfold add_item. cbv zeta. rewrite ?init_empty. simpl. apply IH.
Qed.

(** [_extend_self] returns on a document of the type it is given, and
    makes room for the children of the document. *)
Lemma _extend_self_total (self : Node) (doc : Doc) (t : JsonType) :
  typeof doc = Ok t →
  ∃ self1, _extend_self self doc t = Ok self1
           ∧ tuple_items self1 = tuple_items self
           ∧ (∀ kvs, doc = DDict kvs → t = OBJECT
                     ∧ ∀ k, k ∈ dict_keys kvs → k ∈ dict_keys (properties self1))
           ∧ (∀ l, doc = DList l → t = ARRAY
                   ∧ if tuple_items self then (length l ≤ length (items self1))%nat
                     else items self1 ≠ [])
           ∧ (t = OBJECT → ∃ kvs, doc = DDict kvs)
           ∧ (t = ARRAY → ∃ l, doc = DList l).
Proof.
  intros Ht. unfold _extend_self, Schema_extend_self.
  destruct doc as [|kvs|l|b|z|x|s|s|]; unfold typeof in Ht; simpl in Ht.
  all: try match type of Ht with
           | context [strptime_ok ?s] => destruct (strptime_ok s)
           end.
  all: try match type of Ht with
           | context [bool_decide ?P] => destruct (bool_decide P); simpl in Ht
           end.
  all: try done.
  all: injection Ht as <-.
  all: try (simpl; eexists;
            split_and!; [reflexivity|done|by intros ? [=]|by intros ? [=]|done|done]).
  - destruct (add_missing_properties_total (set_type self ({[OBJECT]} ∪ type self))
                (dict_keys kvs)) as [self2 Hmiss].
    simpl. rewrite Hmiss. simpl.
    apply add_missing_properties_frame in Hmiss as (Hfr & _ & Hk).
    destruct (required self2) eqn:Hreq; simpl;
      (eexists; split_and!;
       [reflexivity|simpl; by rewrite Hfr| |by intros ? [=]|eauto|done]);
      intros kvs' [= <-]; (split; [done|]); intros k Hin; simpl; apply Hk; by right.
  - simpl. destruct (tuple_items self) eqn:Htuple.
    + destruct (add_items_while_total (length l - length (items self))
                  (set_type self ({[ARRAY]} ∪ type self))) as [self2 Hadd].
      rewrite Hadd. simpl.
      apply add_items_while_frame in Hadd as (Hfr & Hlen). simpl in Hlen.
      eexists. split_and!; [reflexivity|simpl; by rewrite Hfr| by intros ? [=]| |done|eauto].
      intros l' [= <-]. split; [done|]. simpl. lia.
    + destruct (decide (items self = [])) as [He|Hne].
      * unfold add_item. cbv zeta. rewrite ?init_empty. simpl. rewrite Htuple. simpl.
        eexists. split_and!; [reflexivity|done|by intros ? [=]| |done|eauto].
        intros l' [= <-]. split; [done|]. simpl. by destruct (items self).
      * simpl.
        eexists. split_and!; [reflexivity|done|by intros ? [=]| |done|eauto].
        intros l' [= <-]. by split.
Qed.

Lemma extend_properties_outcome (f : Doc → Node → result Node) (ok : Doc → bool)
    (kvs : list (string * Doc)) (self : Node) :
  Forall (λ kv, ∀ c, if ok kv.2 then ∃ c', f kv.2 c = Ok c'
                       else f kv.2 c = Raise TypeError) kvs →
  (∀ k, k ∈ dict_keys kvs → k ∈ dict_keys (properties self)) →
  if forallb (λ kv, ok kv.2) kvs then ∃ self', extend_properties f kvs self = Ok self'
  else extend_properties f kvs self = Raise TypeError.
Proof.
  tidy. intros Hf. revert self.
  induction Hf as [|[key value] kvs Hv _ IH]; intros self Hkeys; simpl; [by eexists|].
  assert (key ∈ dict_keys (properties self)) as [child Hc]%dict_get_Some_keys
    by (apply Hkeys; left).
  unfold get_property. rewrite get_property_with_get, Hc. simpl.
  specialize (Hv child). simpl in Hv. destruct (ok value); simpl.
  - destruct Hv as [child' ->]. simpl. apply IH. intros k Hk. simpl.
    rewrite dict_keys_set. case_decide; [|apply elem_of_app; left]; apply Hkeys; by right.
  - by rewrite Hv.
Qed.

Lemma extend_items_outcome (f : Doc → Node → result Node) (ok : Doc → bool)
    (l : list Doc) (i : nat) (self : Node) :
  Forall (λ v, ∀ c, if ok v then ∃ c', f v c = Ok c' else f v c = Raise TypeError) l →
  (if tuple_items self then (i + length l ≤ length (items self))%nat
   else items self ≠ []) →
  if forallb ok l then ∃ self', extend_items f l i self = Ok self'
  else extend_items f l i self = Raise TypeError.
Proof.
  tidy. intros Hf. revert i self.
  induction Hf as [|item l Hv _ IH]; intros i self Hroom; simpl; [by eexists|].
  assert (∃ child, items self !! (if tuple_items self then i else 0%nat) = Some child)
    as [child Hc].
  { destruct (tuple_items self).
    - apply lookup_lt_is_Some_2. simpl in Hroom. lia.
    - destruct (items self); [done|by eexists]. }
  unfold get_item. rewrite get_item_with_lookup, Hc. simpl.
  specialize (Hv child). destruct (ok item); simpl.
  - destruct Hv as [child' ->]. simpl. apply IH. simpl.
    destruct (tuple_items self).
    + rewrite length_insert. simpl in Hroom. lia.
    + by destruct (items self).
  - by rewrite Hv.
Qed.

Lemma classifiable_unfold (doc : Doc) :
  classifiable VERSION strptime_ok doc
  = match typeof doc with
    | Ok _ =>
        match doc with
        | DDict kvs => forallb (λ kv, classifiable VERSION strptime_ok kv.2) kvs
        | DList l => forallb (classifiable VERSION strptime_ok) l
        | _ => true
        end
    | Raise _ => false
    end.
Proof. by destruct doc. Qed.

Lemma _extend_outcome (doc : Doc) (self : Node) :
  if classifiable VERSION strptime_ok doc then ∃ self', _extend doc self = Ok self'
  else _extend doc self = Raise TypeError.
Proof.
  revert self. induction doc as [|kvs IH|l IH| | | | | |] using Doc_ind'; intros self.
  all: rewrite classifiable_unfold, _extend_unfold.
  all: match goal with
       | |- context [typeof ?d ≫= _] =>
           destruct (typeof d) as [t|e] eqn:Ht;
           [|by rewrite (typeof_error_is_TypeError d e Ht)]
       end.
  all: destruct (_extend_self_total self _ t Ht) as (self1 & Hself & Hti & HO & HA & HiO & HiA).
  all: simpl; rewrite Hself; simpl.
  all: try (destruct (decide (t = OBJECT)) as [->|?]; [by destruct (HiO eq_refl)|];
            destruct (decide (t = ARRAY)) as [->|?]; [by destruct (HiA eq_refl)|];
            by eexists).
  - destruct (HO kvs eq_refl) as [-> Hkeys]. simpl.
    apply (extend_properties_outcome _ (classifiable VERSION strptime_ok)); [|done].
    eapply Forall_impl; [exact IH|]. intros kv Hkv c. apply Hkv.
  - destruct (HA l eq_refl) as [-> Hroom]. simpl.
    apply (extend_items_outcome _ (classifiable VERSION strptime_ok)).
    + eapply Forall_impl; [exact IH|]. intros v Hv c. apply Hv.
    + rewrite Hti. by destruct (tuple_items self).
Qed.

(** X8: [extend] returns exactly when every value of every document, nested
    ones included, has a JSON type; otherwise it raises TypeError. *)
Theorem extend_classifiable (self : Node) (docs : list Doc) :
  if forallb (classifiable VERSION strptime_ok) docs
  then ∃ self', extend self docs = Ok self'
  else extend self docs = Raise TypeError.
Proof.
  revert self. induction docs as [|doc docs IH]; intros self; simpl; [by eexists|].
  pose proof (_extend_outcome doc self) as Hdoc.
  destruct (classifiable VERSION strptime_ok doc); simpl.
  - destruct Hdoc as [self1 ->]. simpl. apply IH.
  - by rewrite Hdoc.
Qed.

(** **** Invariants of the nodes under [extend] *)

Lemma add_missing_properties_kids (Q : Node → Prop) (self : Node) (keys : list string)
    (self' : Node) :
  (∀ p ti, Q (mkNode p ti ∅ None [] [] [] 0 [] [] [] 0)) →
  add_missing_properties self keys = Ok self' →
  Forall (λ kv, all_nodes Q kv.2) (properties self) →
  Forall (λ kv, all_nodes Q kv.2) (properties self') ∧ items self' = items self.
Proof.
  tidy. intros Hfresh. revert self. induction keys as [|key keys IH]; intros self; simpl.
  - by intros [= <-].
  - destruct (dict_in (properties self) key); simpl; [apply IH|].
    unfold add_property. cbv zeta. rewrite ?init_empty. simpl.
    intros Hrest Hp. apply IH in Hrest; [done|]. simpl.
    apply Forall_dict_set; [done|]. apply all_nodes_children; [apply Hfresh|simpl; constructor..].
Qed.

Lemma add_items_while_kids (Q : Node → Prop) (turns : nat) (self self' : Node) :
  (∀ p ti, Q (mkNode p ti ∅ None [] [] [] 0 [] [] [] 0)) →
  add_items_while turns self = Ok self' →
  Forall (all_nodes Q) (items self) →
  Forall (all_nodes Q) (items self') ∧ properties self' = properties self.
Proof.
  tidy. intros Hfresh. revert self. induction turns as [|turns IH]; intros self; simpl.
  - by intros [= <-].
  - unfold add_item. cbv zeta. rewrite ?init_empty. simpl.
    intros Hrest Hi. apply IH in Hrest; [done|]. simpl.
    apply Forall_app. split; [done|]. constructor; [|constructor].
    apply all_nodes_children; [apply Hfresh|simpl; constructor..].
Qed.

Lemma _extend_self_kids (Q : Node → Prop) (self : Node) (doc : Doc) (t : JsonType)
    (self1 : Node) :
  (∀ p ti, Q (mkNode p ti ∅ None [] [] [] 0 [] [] [] 0)) →
  _extend_self self doc t = Ok self1 →
  Forall (λ kv, all_nodes Q kv.2) (properties self) → Forall (all_nodes Q) (items self) →
  Forall (λ kv, all_nodes Q kv.2) (properties self1) ∧ Forall (all_nodes Q) (items self1).
Proof.
  tidy. intros Hfresh. unfold _extend_self.
  intros (self0 & Hschema & Hself)%bind_Ok Hp Hi.
  assert (Forall (λ kv, all_nodes Q kv.2) (properties self0)
          ∧ Forall (all_nodes Q) (items self0)) as [Hp0 Hi0].
  { unfold Schema_extend_self in Hschema.
    destruct (decide (t = OBJECT)).
    - apply bind_Ok in Hschema as (kvs & _ & Hschema).
      apply bind_Ok in Hschema as (self2 & Hmiss & Hret).
      eapply add_missing_properties_kids in Hmiss as [Hp2 Hi2]; [|done..].
      simpl in Hi2. destruct (required self2); injection Hret as <-; simpl;
        by rewrite Hi2.
    - destruct (decide (t = ARRAY)); [|by injection Hschema as <-].
      apply bind_Ok in Hschema as (l & _ & Hschema).
      destruct (tuple_items _).
      + eapply add_items_while_kids in Hschema as [Hi2 Hp2]; [|done..].
        simpl in Hp2. by rewrite Hp2.
      + destruct (decide (items _ = [])); [|by injection Hschema as <-].
        unfold add_item in Hschema. cbv zeta in Hschema.
        rewrite ?init_empty in Hschema. simpl in Hschema. injection Hschema as <-.
        simpl. split; [done|]. apply Forall_app. split; [done|].
        constructor; [|constructor]. apply all_nodes_children; [apply Hfresh|simpl; constructor..]. }
  by destruct (_ && _); injection Hself as <-.
Qed.

Lemma extend_properties_kids (Q : Node → Prop) (f : Doc → Node → result Node)
    (kvs : list (string * Doc)) (self self' : Node) :
  Forall (λ kv, ∀ c c', all_nodes Q c → f kv.2 c = Ok c' → all_nodes Q c') kvs →
  extend_properties f kvs self = Ok self' →
  Forall (λ kv, all_nodes Q kv.2) (properties self) →
  Forall (λ kv, all_nodes Q kv.2) (properties self') ∧ items self' = items self.
Proof.
  tidy. intros Hf. revert self.
  induction Hf as [|[key value] kvs Hv _ IH]; intros self; simpl.
  - by intros [= <-].
  - intros (child & Hget & (child' & Hext & Hrest)%bind_Ok)%bind_Ok Hp.
    apply IH in Hrest; [done|]. simpl. apply Forall_dict_set; [done|].
    apply (Hv child); [|done].
    unfold get_property in Hget. rewrite get_property_with_get in Hget.
    destruct (dict_get (properties self) key) as [c|] eqn:Hc; [|done].
    injection Hget as <-. rewrite Forall_forall in Hp.
    apply (Hp (key, c)). by apply dict_get_Some_elem.
Qed.

Lemma extend_items_kids (Q : Node → Prop) (f : Doc → Node → result Node)
    (l : list Doc) (i : nat) (self self' : Node) :
  Forall (λ v, ∀ c c', all_nodes Q c → f v c = Ok c' → all_nodes Q c') l →
  extend_items f l i self = Ok self' →
  Forall (all_nodes Q) (items self) →
  Forall (all_nodes Q) (items self') ∧ properties self' = properties self.
Proof.
  tidy. intros Hf. revert i self.
  induction Hf as [|item l Hv _ IH]; intros i self; simpl.
  - by intros [= <-].
  - intros (child & Hget & (child' & Hext & Hrest)%bind_Ok)%bind_Ok Hi.
    apply IH in Hrest; [done|]. simpl. apply Forall_insert; [done|].
    apply (Hv child); [|done].
    unfold get_item in Hget. rewrite get_item_with_lookup in Hget.
    destruct (items self !! _) as [c|] eqn:Hc; [|done].
    injection Hget as <-. rewrite Forall_forall in Hi.
    apply Hi. by eapply list_elem_of_lookup_2.
Qed.

(** A property of single nodes that new nodes have and that [_extend] keeps
    at the node it is called on holds throughout the extended tree. *)
Lemma _extend_all_nodes (Q : Node → Prop) :
  (∀ p ti, Q (mkNode p ti ∅ None [] [] [] 0 [] [] [] 0)) →
  (∀ doc self self', Q self → _extend doc self = Ok self' → Q self') →
  ∀ doc self self', all_nodes Q self → _extend doc self = Ok self' → all_nodes Q self'.
Proof.
  intros Hfresh Hstep doc.
  induction doc as [|kvs IH|l IH| | | | | |] using Doc_ind'; intros self self' Hall Hext.
  all: pose proof (Hstep _ _ _ (all_nodes_here _ _ Hall) Hext) as HQ.
  all: apply all_nodes_inv in Hall as (_ & Hp & Hi).
  all: rewrite _extend_unfold in Hext.
  all: apply bind_Ok in Hext as (t & Ht & (self1 & Hself & Hrest)%bind_Ok).
  all: destruct (_extend_self_kids Q _ _ _ _ Hfresh Hself Hp Hi) as [Hp1 Hi1].
  all: apply all_nodes_children; [done|..].
  all: destruct (decide (t = OBJECT)); [|destruct (decide (t = ARRAY))]; try done.
  all: try (by injection Hrest as <-).
  - by destruct (extend_properties_kids Q _ _ _ _ IH Hrest Hp1).
  - destruct (extend_properties_kids Q _ _ _ _ IH Hrest Hp1) as [_ ->]. done.
  - destruct (extend_items_kids Q _ _ _ _ _ IH Hrest Hi1) as [_ ->]. done.
  - by destruct (extend_items_kids Q _ _ _ _ _ IH Hrest Hi1).
Qed.

Lemma extend_all_nodes (Q : Node → Prop) :
  (∀ p ti, Q (mkNode p ti ∅ None [] [] [] 0 [] [] [] 0)) →
  (∀ doc self self', Q self → _extend doc self = Ok self' → Q self') →
  ∀ docs self self', all_nodes Q self → extend self docs = Ok self' → all_nodes Q self'.
Proof.
  intros Hfresh Hstep docs. induction docs as [|doc docs IH]; intros self self' Hall; simpl.
  - by intros [= <-].
  - intros (self1 & Hdoc & Hrest)%bind_Ok.
    apply (IH self1); [|done]. by eapply _extend_all_nodes.
Qed.

Lemma typeof_shape (doc : Doc) (t : JsonType) :
  typeof doc = Ok t →
  (t = OBJECT ↔ py_type doc = dict_t) ∧ (t = ARRAY ↔ py_type doc = list_t)
  ∧ t ≠ INTEGER.
Proof.
  unfold typeof. destruct doc; simpl; repeat case_decide; try done;
    try destruct (strptime_ok _); try destruct (bool_decide _ && _); try done;
    intros [= <-]; by split_and!.
Qed.

Lemma dict_keys_set_elem {K V} `{EqDecision K} (d : list (K * V)) k v k' :
  k' ∈ dict_keys (dict_set d k v) ↔ k' = k ∨ k' ∈ dict_keys d.
Proof.
  rewrite dict_keys_set. case_decide.
  - split; [by right|]. by intros [->|?].
  - rewrite elem_of_app, list_elem_of_singleton. tauto.
Qed.

Lemma dict_keys_append_elem {K A} `{EqDecision K} (d : list (K * list A)) k x k' :
  k' ∈ dict_keys (dict_append d k x) ↔ k' = k ∨ k' ∈ dict_keys d.
Proof. unfold dict_append. destruct (dict_get d k); apply dict_keys_set_elem. Qed.

Lemma sum_counts_set (d : list (JsonType * Z)) (t : JsonType) :
  sum_counts (dict_set d t (default 0 (dict_get d t) + 1)) = sum_counts d + 1.
Proof.
  unfold sum_counts. induction d as [|[t' c] d IH]; simpl; [lia|].
  case_decide; simpl; lia.
Qed.

Lemma counts_ok_step (doc : Doc) (self self' : Node) :
  counts_ok self → _extend doc self = Ok self' → counts_ok self'.
Proof.
  intros (Hkeys & Hpos & Hint & Hvals) Hext.
  destruct (_extend_frame _ _ _ Hext)
    as (t & Ht & _ & _ & Hty & Hc & Hv & _).
  destruct (typeof_shape _ _ Ht) as (_ & _ & HtI).
  unfold counts_ok. rewrite Hty, Hc, Hv. split_and!.
  - intros t'. rewrite dict_keys_set_elem, elem_of_union, elem_of_singleton, Hkeys. tauto.
  - intros t' c. rewrite dict_get_set. destruct (decide (t = t')); [|apply Hpos].
    intros [= <-]. destruct (dict_get (counts self) t) as [c|] eqn:Hget; simpl; [|lia].
    specialize (Hpos _ _ Hget). lia.
  - rewrite elem_of_union, elem_of_singleton. intros [?|?]; [congruence|done].
  - intros t'. destruct (bool_decide (t ≠ OBJECT)) eqn:HO;
      [destruct (bool_decide (t ≠ ARRAY)) eqn:HA;
       [destruct (bool_decide (t ≠ JNULL)) eqn:HN|]|]; simpl;
      try (intros (? & ? & ? & ?)%Hvals; split_and!; [set_solver|done..]).
    apply bool_decide_eq_true in HO, HA, HN.
    rewrite dict_keys_append_elem. intros [->|(? & ? & ? & ?)%Hvals];
      (split_and!; [set_solver|done..]).
Qed.

Lemma structure_ok_step (doc : Doc) (self self' : Node) :
  structure_ok self → _extend doc self = Ok self' → structure_ok self'.
Proof.
  intros (Hreq & Hsub & Hprops & Hitems & Hone) Hext.
  pose proof (_extend_required _ _ _ Hext) as Hr.
  destruct (_extend_frame _ _ _ Hext)
    as (t & Ht & _ & Hti & Hty & _ & _ & _ & _ & _ & _ & _ & Hk & Hlen).
  destruct (typeof_shape _ _ Ht) as (HO & HA & _).
  assert (∀ k, k ∈ doc_keys doc → py_type doc = dict_t) as Hdk
    by (intros k; destruct doc; simpl; by rewrite ?elem_of_empty).
  unfold structure_ok. rewrite Hty, Hti.
  destruct (decide (py_type doc = dict_t)) as [Hd|Hd]; split_and!.
  - rewrite Hr, elem_of_union, elem_of_singleton.
    split; [intros _; left; symmetry; by apply HO|by eexists].
  - intros req k. rewrite Hr, Hk. intros [= <-].
    destruct (required self); [intros [_ ?]%elem_of_intersection|]; by right.
  - shelve.
  - shelve.
  - shelve.
  - rewrite Hr, elem_of_union, elem_of_singleton, Hreq.
    split; [by right|]. intros [Heq|?]; [|done]. destruct Hd. by apply HO.
  - intros req k. rewrite Hr, Hk. intros Hsome Hin. left. by eapply Hsub.
  - shelve.
  - shelve.
  - shelve.
  Unshelve.
  all: clear Hr.
  1,4: intros Hne; rewrite elem_of_union, elem_of_singleton;
    destruct (properties self') as [|[k c] props] eqn:Hp; [done|];
    assert (k ∈ dict_keys ((k, c) :: props)) as [Hold|Hnew]%Hk by left;
    [right; apply Hprops; intros He; rewrite He in Hold; by apply elem_of_nil in Hold
    |left; symmetry; by apply HO, (Hdk k)].
  1,3: intros Hne; rewrite elem_of_union, elem_of_singleton;
    destruct doc; try (right; apply Hitems; intros He; rewrite He in Hlen;
                       by destruct (items self'));
    left; symmetry; by apply HA.
  all: intros Hfalse; specialize (Hone Hfalse); rewrite Hfalse in Hlen;
    destruct doc; lia.
Qed.

(** X9: every document is counted once at the node [extend] is called on:
    the sum of its counts grows by the number of documents, and the count
    of each type by the number of documents of that type. *)
Theorem extend_counts (self : Node) (docs : list Doc) (self' : Node) :
  extend self docs = Ok self' →
  sum_counts (counts self') = sum_counts (counts self) + Z.of_nat (length docs)
  ∧ ∀ t, default 0 (dict_get (counts self') t)
         = default 0 (dict_get (counts self) t)
           + Z.of_nat (count_of_type VERSION strptime_ok t docs).
Proof.
  revert self. induction docs as [|doc docs IH]; intros self; simpl.
  - intros [= <-]. split; [lia|]. intros t. unfold count_of_type. simpl. lia.
  - intros (self1 & Hdoc & Hrest)%bind_Ok.
    destruct (IH _ Hrest) as [Hsum Hper].
    destruct (_extend_frame _ _ _ Hdoc) as (t0 & Ht0 & _ & _ & _ & Hc & _).
    rewrite Hc, sum_counts_set in Hsum. split; [lia|].
    intros t. rewrite Hper, Hc, dict_get_set. unfold count_of_type.
    rewrite filter_cons. rewrite Ht0.
    destruct (decide (t0 = t)) as [->|Hne].
    + rewrite decide_True by done. simpl. lia.
    + rewrite decide_False by congruence. lia.
Qed.

(** X10: in a tree built by [extend] from a new root, at every node the
    types are exactly the keys of [counts], every count is at least 1, the
    integer type does not occur, and samples are kept only for types of the
    node other than object, array and null. *)
Theorem extend_counts_ok (tuple_mode : bool) (docs : list Doc) (root0 root : Node) :
  init empty_repr [SegStr "root"] tuple_mode = Ok root0 →
  extend root0 docs = Ok root →
  all_nodes counts_ok root.
Proof.
  intros Hinit Hroot. rewrite init_empty in Hinit. injection Hinit as <-.
  assert (∀ p ti, counts_ok (mkNode (Vectorizer:=Vectorizer) p ti ∅ None [] [] [] 0 [] [] [] 0))
    as Hfresh.
  { intros p ti. unfold counts_ok. simpl. split_and!; try done.
    - intros t. rewrite elem_of_empty, elem_of_nil. tauto.
    - intros t ?%elem_of_nil. done. }
  refine (extend_all_nodes counts_ok Hfresh counts_ok_step docs _ _ _ Hroot).
  apply all_nodes_children; [apply Hfresh|simpl; constructor..].
Qed.

(** X11: in a tree built by [extend] from a new root, at every node
    [required] is set exactly when the object type is among the types, and
    it lists property names only; a node has properties only under the
    object type and items only under the array type; with shared arrays
    it has at most one item. *)
Theorem extend_structure_ok (tuple_mode : bool) (docs : list Doc) (root0 root : Node) :
  init empty_repr [SegStr "root"] tuple_mode = Ok root0 →
  extend root0 docs = Ok root →
  all_nodes structure_ok root.
Proof.
  intros Hinit Hroot. rewrite init_empty in Hinit. injection Hinit as <-.
  assert (∀ p ti,
            structure_ok (mkNode (Vectorizer:=Vectorizer) p ti ∅ None [] [] [] 0 [] [] [] 0))
    as Hfresh.
  { intros p ti. unfold structure_ok. simpl. split_and!; try done. lia. }
  refine (extend_all_nodes structure_ok Hfresh structure_ok_step docs _ _ _ Hroot).
  apply all_nodes_children; [apply Hfresh|simpl; constructor..].
Qed.

(** X12: the items [extend] leaves at the node it is called on: in tuple
    mode as many as the longest array among the documents (and those it had
    if they were more), with shared arrays one as soon as a document is an
    array. *)
Theorem extend_items_length (self : Node) (docs : list Doc) (self' : Node) :
  extend self docs = Ok self' →
  length (items self')
  = if tuple_items self
    then (length (items self) `max` max_list (array_lengths docs))%nat
    else if decide (array_lengths docs = []) then length (items self)
         else (length (items self) `max` 1)%nat.
Proof.
  revert self. induction docs as [|doc docs IH]; intros self; simpl.
  - intros [= <-]. destruct (tuple_items self); simpl; [lia|done].
  - intros (self1 & Hdoc & Hrest)%bind_Ok.
    rewrite (IH _ Hrest).
    destruct (_extend_frame _ _ _ Hdoc)
      as (t0 & _ & _ & Hti & _ & _ & _ & _ & _ & _ & _ & _ & _ & Hlen).
    rewrite Hti, Hlen. unfold array_lengths. csimpl.
    destruct (tuple_items self); destruct doc; csimpl;
      try done; try lia; repeat case_decide; try done; lia.
Qed.

(** X13: the property names [extend] leaves at the node it is called on
    are those it had, in their order, followed by new ones, and a name is
    among them exactly when it was already or is a key of one of the object
    documents. *)
Theorem extend_property_names (self : Node) (docs : list Doc) (self' : Node) :
  extend self docs = Ok self' →
  (∃ new, dict_keys (properties self') = dict_keys (properties self) ++ new)
  ∧ ∀ k, k ∈ dict_keys (properties self')
         ↔ k ∈ dict_keys (properties self) ∨ ∃ doc, doc ∈ docs ∧ k ∈ doc_keys doc.
Proof.
  revert self. induction docs as [|doc docs IH]; intros self; simpl.
  - intros [= <-]. split; [by exists []; rewrite app_nil_r|].
    intros k. split; [by left|]. intros [?|(? & ?%elem_of_nil & _)]; done.
  - intros (self1 & Hdoc & Hrest)%bind_Ok.
    destruct (IH _ Hrest) as [[new Hnew] Hk].
    destruct (_extend_frame _ _ _ Hdoc)
      as (t0 & _ & _ & _ & _ & _ & _ & _ & _ & _ & _ & [new1 Hnew1] & Hk1 & _).
    split; [exists (new1 ++ new); by rewrite Hnew, Hnew1, <- app_assoc|].
    intros k. rewrite Hk, Hk1. split.
    + intros [[?|?]|(d & ? & ?)]; [by left|right..].
      * exists doc. split; [left|done].
      * exists d. split; [by right|done].
    + intros [?|(d & [->|?]%elem_of_cons & ?)]; [by left; left|by left; right|].
      right. by exists d.
Qed.

(** *** [find_nodes] *)

Lemma mapM_outcome {A B} (g : A → result B) (ok : A → bool) (F : A → B) (e : exn)
    (l : list A) :
  Forall (λ a, g a = if ok a then Ok (F a) else Raise e) l →
  mapM g l = if forallb ok l then Ok (F <$> l) else Raise e.
Proof.
  induction 1 as [|a l Ha _ IH]; simpl; [done|].
  rewrite Ha. destruct (ok a); simpl; [|done]. rewrite IH. by destruct (forallb ok l).
Qed.

Lemma join_path_outcome (p : list Seg) :
  join_path p
  = if str_path p
    then Ok (join ":" (map (λ seg, match seg with SegStr s => s | SegInt _ => "" end) p))
    else Raise TypeError.
Proof.
  unfold join_path, str_path.
  rewrite (mapM_outcome _ (λ seg, match seg with SegStr _ => true | SegInt _ => false end)
             (λ seg, match seg with SegStr s => s | SegInt _ => "" end) TypeError).
  - by destruct (forallb _ p).
  - apply Forall_forall. by intros [s|i] _.
Qed.

Lemma find_self_outcome (p : list Seg) (patterns : list string) :
  patterns ≠ [] →
  find_self re_search p patterns
  = if str_path p then Ok (path_matches re_search patterns p) else Raise TypeError.
Proof.
  intros Hne. unfold path_matches. rewrite join_path_outcome.
  destruct (str_path p) eqn:Hp.
  - clear Hne. induction patterns as [|pattern patterns IH]; simpl; [done|].
    rewrite join_path_outcome, Hp. simpl. by destruct (re_search pattern _).
  - destruct patterns as [|pattern patterns]; [done|]. simpl.
    by rewrite join_path_outcome, Hp.
Qed.

Lemma find_properties_mapM (g : Node → result (list (list Seg)))
    (props : list (string * Node)) (names : list string) (paths : list (list Seg)) :
  (∀ name, name ∈ names → is_Some (dict_get props name)) →
  find_properties g props names paths
  = rs ← mapM g (omap (λ name, dict_get props name) names); Ok (paths ++ concat rs).
Proof.
  tidy. revert paths. induction names as [|name names IH]; intros paths Hin; csimpl.
  - by rewrite app_nil_r.
  - destruct (Hin name) as [c Hc]; [left|]. rewrite get_property_with_get, Hc. csimpl.
    destruct (g c) as [r|e]; simpl; [|done].
    rewrite IH by (intros; apply Hin; by right).
    destruct (mapM g _); simpl; [|done]. by rewrite <- app_assoc.
Qed.

Lemma find_items_mapM (g : Node → result (list (list Seg))) (its : list Node)
    (k : nat) (paths : list (list Seg)) :
  find_items g its (seq k (length its - k)) paths
  = rs ← mapM g (drop k its); Ok (paths ++ concat rs).
Proof.
  tidy. remember (length its - k)%nat as m eqn:Hm. revert k paths Hm.
  induction m as [|m IH]; intros k paths Hm; csimpl.
  - rewrite drop_ge by lia. simpl. by rewrite app_nil_r.
  - destruct (lookup_lt_is_Some_2 its k) as [c Hc]; [lia|].
    rewrite get_item_with_lookup, Hc, (drop_S _ _ _ Hc). csimpl.
    destruct (g c) as [r|e]; simpl; [|done].
    rewrite IH by lia. destruct (mapM g _); simpl; [|done]. by rewrite <- app_assoc.
Qed.

Lemma find_nodes_unfold (n : Node) (patterns : list string) :
  find_nodes re_search n patterns
  = here ← find_self re_search (path n) patterns;
    rs ← mapM (λ c, find_nodes re_search c patterns) (ordered_children n);
    Ok ((if here : bool then [path n] else []) ++ concat rs).
Proof.
  destruct n as [p ti ty req props its vz ps fn cn vl nf]. simpl.
  destruct (find_self re_search p patterns) as [here|e]; simpl; [|done].
  unfold ordered_children. simpl. rewrite find_properties_mapM.
  2:{ intros name Hin. apply dict_get_Some_keys. exact (proj1 (sorted_elem _ _) Hin). }
  pose proof (find_items_mapM (λ c, find_nodes re_search c patterns) its 0) as Hi.
  rewrite Nat.sub_0_r, drop_0 in Hi.
  set (g := λ c, find_nodes re_search c patterns) in *.
  assert (∀ (l1 l2 : list Node), mapM g (l1 ++ l2)
            = r1 ← mapM g l1; r2 ← mapM g l2; Ok (r1 ++ r2)) as Happ.
  { intros l1 l2. induction l1 as [|c l1 IH]; simpl.
    - by destruct (mapM g l2).
    - destruct (g c); simpl; [|done]. rewrite IH.
      destruct (mapM g l1); simpl; [|done]. by destruct (mapM g l2). }
  rewrite Happ. destruct (mapM g (omap _ _)) as [r1|]; simpl; [|done].
  rewrite Hi. destruct (mapM g its) as [r2|]; simpl; [|done].
  by rewrite concat_app, app_assoc.
Qed.

(** X14: without patterns [find_nodes] returns the empty list on every
    tree, tuple mode included: no path is joined. *)
Theorem find_nodes_no_patterns (n : Node) : find_nodes re_search n [] = Ok [].
Proof.
  induction n as [n IHp IHi] using Node_ind'. rewrite find_nodes_unfold. simpl.
  rewrite (mapM_outcome _ (λ _, true) (λ _, []) TypeError).
  - assert (forallb (λ _ : Node, true) (ordered_children n) = true) as ->
      by (by induction (ordered_children n)).
    simpl. f_equal. by induction (ordered_children n).
  - apply Forall_forall. intros c Hc%ordered_children_children.
    unfold children in Hc. apply elem_of_app in Hc as [Hc|Hc].
    + apply list_elem_of_fmap in Hc as ([k c'] & -> & Hin).
      rewrite Forall_forall in IHp. apply (IHp _ Hin).
    + rewrite Forall_forall in IHi. by apply IHi.
Qed.

(** X15: with at least one pattern, [find_nodes] returns the paths of the
    nodes whose joined path has a match, in the order of the traversal
    (the node, its properties by sorted name, its items by index), when
    every path of the tree is made of strings; it raises TypeError when
    some path has an int element, as the paths of tuple items do. *)
Theorem find_nodes_spec (n : Node) (patterns : list string) :
  patterns ≠ [] →
  find_nodes re_search n patterns
  = if forallb (λ m, str_path (path m)) (preorder n)
    then Ok (path <$> filter (λ m, path_matches re_search patterns (path m) = true)
                        (preorder n))
    else Raise TypeError.
Proof.
  intros Hne. induction n as [n IHp IHi] using Node_ind'.
  rewrite find_nodes_unfold, preorder_unfold, find_self_outcome by done. simpl.
  destruct (str_path (path n)); simpl; [|done].
  rewrite (mapM_outcome _ (λ c, forallb (λ m, str_path (path m)) (preorder c))
             (λ c, path <$> filter (λ m, path_matches re_search patterns (path m) = true)
                              (preorder c)) TypeError).
  2:{ apply Forall_forall. intros c Hc%ordered_children_children.
      unfold children in Hc. apply elem_of_app in Hc as [Hc|Hc].
      - apply list_elem_of_fmap in Hc as ([k c'] & -> & Hin).
        rewrite Forall_forall in IHp. apply (IHp _ Hin).
      - rewrite Forall_forall in IHi. by apply IHi. }
  assert (∀ cs : list Node,
            forallb (λ m, str_path (path m)) (concat (preorder <$> cs))
            = forallb (λ c, forallb (λ m, str_path (path m)) (preorder c)) cs) as Hall.
  { induction cs as [|c cs IH]; csimpl; [done|]. by rewrite forallb_app, IH. }
  assert (∀ cs : list Node,
            concat ((λ c, path <$> filter (λ m, path_matches re_search patterns (path m) = true)
                                     (preorder c)) <$> cs)
            = path <$> filter (λ m, path_matches re_search patterns (path m) = true)
                         (concat (preorder <$> cs))) as Hfil.
  { induction cs as [|c cs IH]; csimpl; [done|]. by rewrite filter_app, fmap_app, IH. }
  rewrite Hall. destruct (forallb _ (ordered_children n)); simpl; [|done].
  rewrite Hfil, filter_cons. f_equal.
  by destruct (path_matches re_search patterns (path n)) eqn:Hm;
    [rewrite decide_True|rewrite decide_False].
Qed.

(** *** Pruning: what is left *)

Lemma _prune_self_path (n : Node) (min_f : Z) (paths : list string) (n1 : Node) :
  _prune_self n min_f = Ok (paths, n1) →
  path n1 = path n ∧ str_path (path n) = true.
Proof.
  tidy. unfold _prune_self. intros (s & Hs & Hrest)%bind_Ok.
  apply bind_Ok in Hrest as ([paths' st] & Hfold & Hret).
  assert (st = n1) as -> by (by case_decide; simplify_eq).
  split.
  - change (path (paths', n1).2 = path n).
    apply (foldl_result_inv (_prune_self_step s min_f)
             (λ _ (ps : list string * Node), path ps.2 = path n)
             (sorted_types (type n)) ([], n) (paths', n1) eq_refl); [|exact Hfold].
    clear. intros _ t [ps st] [ps' st'] Hpath Hstep. simpl in *.
    unfold _prune_self_step in Hstep. apply bind_Ok in Hstep as (c & _ & Hstep).
    destruct (decide (c < min_f)); [|by injection Hstep as <- <-].
    destruct (decide (t = OBJECT)).
    + destruct (required _); [|done]. injection Hstep as <- <-.
      by destruct (dict_in (values _) t).
    + destruct (decide (t = ARRAY)); injection Hstep as <- <-;
        by destruct (dict_in (values _) t).
  - rewrite join_path_outcome in Hs. by destruct (str_path (path n)).
Qed.

Lemma prune_properties_path (f : list string → Node → result (list string * bool * Node))
    (props0 : list (string * Node)) (names : list string) (paths : list string)
    (self : Node) (r : list string * Node) :
  prune_properties f props0 names paths self = Ok r → path r.2 = path self.
Proof.
  tidy. revert paths self. induction names as [|name names IH]; intros paths self; simpl.
  - by intros [= <-].
  - intros (r0 & _ & ([[ps drop] c] & _ & Hrest)%bind_Ok)%bind_Ok. simpl in Hrest.
    destruct drop.
    + destruct (required _) as [req|]; [|done]. simpl in Hrest.
      destruct (decide (name ∈ req)); by apply IH in Hrest.
    + by apply IH in Hrest.
Qed.

Lemma prune_items_path (f : list string → Node → result (list string * bool * Node))
    (items0 : list Node) (indices : list nat) (paths : list string)
    (self : Node) (r : list string * Node) :
  prune_items f items0 indices paths self = Ok r → path r.2 = path self.
Proof.
  tidy. revert paths self. induction indices as [|i indices IH]; intros paths self; simpl.
  - by intros [= <-].
  - intros (r0 & _ & ([[ps drop] c] & _ & Hrest)%bind_Ok)%bind_Ok. simpl in Hrest.
    destruct drop; by apply IH in Hrest.
Qed.

Lemma _prune_path (n : Node) (patterns : list string) (k : Z) (paths : list string)
    (n' : Node) :
  _prune n patterns k = Ok (paths, n') → path n' = path n ∧ str_path (path n) = true.
Proof.
  rewrite _prune_unfold. cbv zeta.
  intros ([p0 n1] & Hself & Hrest)%bind_Ok. simpl in Hrest.
  apply bind_Ok in Hrest as ([p1 n2] & Hprops & Hitems). simpl in Hitems.
  apply _prune_self_path in Hself as [Hp1 Hstr].
  apply prune_properties_path in Hprops. apply prune_items_path in Hitems.
  simpl in *. split; [congruence|done].
Qed.

Lemma child_outcome_kept_facts (patterns : list string) (k : Z) (child : Node)
    (ps : list string) (child' : Node) :
  child_outcome patterns k child = Ok (ps, Some child') →
  path_matches re_search patterns (path child) = false ∧ type child' ≠ ∅
  ∧ _prune child patterns k = Ok (ps, child').
Proof.
  intros Hout. split_and!; [| |by eapply child_outcome_kept].
  - unfold child_outcome in Hout. unfold path_matches.
    apply bind_Ok in Hout as (s & -> & Hrest). by destruct (hasmatch s patterns).
  - unfold child_outcome in Hout. apply bind_Ok in Hout as (s & _ & Hrest).
    destruct (hasmatch s patterns); [done|].
    apply bind_Ok in Hrest as ([ps0 c0] & _ & Hret). simpl in Hret.
    case_bool_decide; [done|]. by injection Hret as _ <-.
Qed.

(** The children [_prune] leaves are children the node had, each as its
    own pruning left it. *)
Lemma _prune_children (patterns : list string) (k : Z) (n : Node)
    (paths : list string) (n' : Node) :
  valid n → _prune n patterns k = Ok (paths, n') →
  count_reaches k n'
  ∧ Forall (λ c', ∃ c ps, c ∈ children n
                          ∧ child_outcome patterns k c = Ok (ps, Some c')) (children n').
Proof.
  intros Hvalid Hprune.
  rewrite _prune_unfold in Hprune. cbv zeta in Hprune.
  change (λ child : Node, prune_entry (counts child) (MInt k) (_prune child patterns))
    with (λ c : Node, prune c patterns (MInt k)) in Hprune.
  apply bind_Ok in Hprune as ([p0 n1] & Hself & Hrest). simpl in Hrest.
  apply bind_Ok in Hrest as ([p1 n2] & Hprops & Hitems). simpl in Hitems.
  destruct (_prune_self_spec _ _ _ _ Hself) as (Hp & Hi & Hcount & _).
  pose proof (all_nodes_here _ _ Hvalid) as [Hnd _].
  assert (NoDup (dict_keys (properties n1))) as Hnd1
    by (destruct Hp as [->| ->]; [done|constructor]).
  destruct (prune_properties_outcomes _ _ _ _ _ _ _ Hprops) as (pouts & Hpouts & Hex).
  destruct (prune_properties_spec patterns k (properties n)
              (sorted (dict_keys (properties n1))) pouts p0 n1)
    as (n2' & Hprops' & Hlook & Hother & Hnd2 & Hi2 & Ht2 & Hc2);
    [by rewrite sorted_Permutation|done|done|].
  rewrite Hprops in Hprops'. injection Hprops' as _ <-.
  assert (length (items n2) ≤ length (items n))%nat as Hlen
    by (rewrite Hi2; destruct Hi as [->| ->]; simpl; lia).
  assert (items n2 = take (length (items n2)) (items n)) as Htake.
  { rewrite Hi2. destruct Hi as [->| ->]; [by rewrite firstn_all|done]. }
  pose proof (prune_items_outcomes _ _ _ _ _ _ _ Hitems) as Hiouts.
  rewrite Forall_forall in Hiouts.
  destruct (Forall_exists_Forall2
              (λ child o, child_outcome patterns k child = Ok o)
              (take (length (items n2)) (items n))) as [iouts Hiouts'].
  { apply Forall_lookup_2. intros i child [Hchild Hlt]%lookup_take_Some.
    destruct (Hiouts i) as (child' & o & Hchild' & Ho); [|by exists o; congruence].
    apply elem_of_reverse, elem_of_seq. lia. }
  destruct (prune_items_spec patterns k (items n) (length (items n2)) iouts p1 n2 [])
    as (n'' & Hitems' & Hin' & Hpn' & Htn' & Hcn'); [done| |by rewrite app_nil_r|].
  { rewrite <- (Forall2_length _ _ _ Hiouts'), length_take. lia. }
  rewrite Hitems in Hitems'. injection Hitems' as _ <-.
  rewrite app_nil_r in Hin'.
  split.
  - unfold count_reaches. rewrite Htn', Hcn', Ht2, Hc2. exact Hcount.
  - unfold children. apply Forall_app. split.
    + rewrite Hpn'. apply Forall_forall.
      intros ? ([name c'] & -> & Hin)%list_elem_of_fmap. simpl.
      assert (dict_get (properties n2) name = Some c') as Hget
        by (apply dict_get_elem_NoDup; auto).
      destruct (decide (name ∈ sorted (dict_keys (properties n1)))) as [Hname|Hname].
      * apply list_elem_of_lookup in Hname as [j Hj].
        destruct (Forall2_lookup_l _ _ _ _ _ Hpouts Hj)
          as ([ps oc] & Ho & child & Hchild & Hout).
        pose proof (Forall2_lookup_lr _ _ _ _ _ _ Hlook Hj Ho) as Hl.
        simpl in Hl. rewrite Hget in Hl. subst oc.
        exists child, ps. split; [|done]. apply elem_of_app. left.
        apply list_elem_of_fmap. exists (name, child).
        split; [done|by apply dict_get_Some_elem].
      * rewrite (Hother name Hname) in Hget.
        destruct Hname. apply sorted_elem, dict_get_Some_keys. eauto.
    + rewrite Hin'. apply Forall_forall.
      intros c' ([ps oc] & Ho & Hoc)%list_elem_of_omap. simpl in Hoc. subst oc.
      apply list_elem_of_lookup in Ho as [j Hj].
      destruct (Forall2_lookup_r _ _ _ _ _ Hiouts' Hj) as (child & Hchild & Hout).
      apply lookup_take_Some in Hchild as [Hchild _].
      exists child, ps. split; [|done]. apply elem_of_app. right.
      by eapply list_elem_of_lookup_2.
Qed.

Lemma _prune_pruned_ok (patterns : list string) (k : Z) (n : Node) :
  valid n → ∀ paths n', _prune n patterns k = Ok (paths, n') →
  all_nodes (pruned_ok re_search patterns k) n'.
Proof.
  induction n as [n IHp IHi] using Node_ind'. intros Hvalid paths n' Hprune.
  destruct (_prune_children _ _ _ _ _ Hvalid Hprune) as [Hcount Hkids].
  destruct (_prune_path _ _ _ _ _ Hprune) as [Hpath Hstr].
  assert (∀ c, c ∈ children n →
            valid c ∧ ∀ ps c', _prune c patterns k = Ok (ps, c') →
                               all_nodes (pruned_ok re_search patterns k) c') as Hrec.
  { intros c Hc. destruct Hvalid as [_ Hv]. rewrite Forall_forall in Hv.
    split; [by apply Hv|]. unfold children in Hc. apply elem_of_app in Hc as [Hc|Hc].
    - apply list_elem_of_fmap in Hc as ([name c0] & -> & Hin).
      rewrite Forall_forall in IHp. apply (IHp _ Hin). apply Hv.
      apply elem_of_app. left. apply list_elem_of_fmap. by exists (name, c0).
    - rewrite Forall_forall in IHi. apply (IHi _ Hc). apply Hv.
      apply elem_of_app. by right. }
  rewrite Forall_forall in Hkids.
  constructor.
  - split_and!; [done|by rewrite Hpath|]. apply Forall_forall. intros c' Hc'.
    destruct (Hkids c' Hc') as (c & ps & Hc & Hout).
    apply child_outcome_kept_facts in Hout as (Hm & Hne & Hpr).
    destruct (_prune_path _ _ _ _ _ Hpr) as [-> _]. done.
  - apply Forall_forall. intros c' Hc'.
    destruct (Hkids c' Hc') as (c & ps & Hc & Hout).
    apply child_outcome_kept_facts in Hout as (_ & _ & Hpr).
    destruct (Hrec c Hc) as [_ Hall]. by eapply Hall.
Qed.

(** X16: what [prune] with an int threshold leaves: at every node only
    types whose count reaches the threshold and a path made of strings,
    and below the root no node with an empty type set or with a path in
    which a pattern is found. *)
Theorem prune_leaves (n : Node) (patterns : list string) (k : Z)
    (paths : list string) (n' : Node) :
  valid n → prune n patterns (MInt k) = Ok (paths, n') →
  all_nodes (pruned_ok re_search patterns k) n'.
Proof.
  intros Hvalid Hprune. unfold prune, prune_entry in Hprune.
  apply bind_Ok in Hprune as (k' & Hk & Hprune).
  unfold to_cint in Hk. case_bool_decide; [|done]. injection Hk as <-.
  by eapply _prune_pruned_ok.
Qed.

Lemma prune_child_fixed (child_prune : Node → result (list string * Node))
    (patterns : list string) (paths : list string) (child : Node) :
  str_path (path child) = true → path_matches re_search patterns (path child) = false →
  type child ≠ ∅ → child_prune child = Ok ([], child) →
  prune_child child_prune patterns paths child = Ok (paths, false, child).
Proof.
  intros Hstr Hm Hne Hrec. unfold prune_child. unfold path_matches in Hm.
  rewrite join_path_outcome, Hstr in Hm |- *. simpl. rewrite Hm.
  rewrite Hrec. simpl. rewrite app_nil_r. by rewrite bool_decide_eq_false_2.
Qed.

(** A tree as [prune] leaves it, with a root that has a type, is left as
    it is by the same pruning. *)
Lemma _prune_fixed (patterns : list string) (k : Z) (n : Node) :
  - 2 ^ 31 ≤ k < 2 ^ 31 →
  all_nodes (pruned_ok re_search patterns k) n → type n ≠ ∅ →
  _prune n patterns k = Ok ([], n).
Proof.
  intros Hrange. induction n as [n IHp IHi] using Node_ind'. intros Hall Hne.
  rewrite _prune_unfold. cbv zeta.
  pose proof (all_nodes_here _ _ Hall) as (Hcount & Hstr & Hkids).
  rewrite _prune_self_keeps_all.
  2:{ split_and!; [done|exact Hcount|]. rewrite join_path_outcome, Hstr. by eexists. }
  simpl.
  set (child_prune := λ child : Node,
    prune_entry (counts child) (MInt k) (_prune child patterns)).
  assert (∀ child, child ∈ children n →
    prune_child child_prune patterns [] child = Ok ([], false, child)) as Hchild.
  { intros child Hin. destruct Hall as [_ Hall]. rewrite Forall_forall in Hall, Hkids.
    destruct (Hkids _ Hin) as [Hcne Hcm].
    pose proof (all_nodes_here _ _ (Hall _ Hin)) as (_ & Hcstr & _).
    apply prune_child_fixed; [done..|].
    unfold child_prune, prune_entry, to_cint.
    rewrite bool_decide_eq_true_2 by done. simpl.
    unfold children in Hin. apply elem_of_app in Hin as [Hin|Hin].
    - apply list_elem_of_fmap in Hin as ([name c] & -> & Hin).
      rewrite Forall_forall in IHp. apply (IHp _ Hin); [|done]. apply Hall.
      apply elem_of_app. left. apply list_elem_of_fmap. by exists (name, c).
    - rewrite Forall_forall in IHi. apply (IHi _ Hin); [|done]. apply Hall.
      apply elem_of_app. by right. }
  assert (∀ names, (∀ name, name ∈ names → name ∈ dict_keys (properties n)) →
    prune_properties (prune_child child_prune patterns) (properties n) names [] n
    = Ok ([], n)) as ->.
  { induction names as [|name names IH]; intros Hnames; simpl; [done|].
    destruct (proj2 (dict_get_Some_keys (properties n) name)) as [child Hget];
      [apply Hnames; left|].
    rewrite get_property_with_get, Hget. simpl.
    rewrite Hchild. 2:{ apply elem_of_app. left. apply list_elem_of_fmap.
                        exists (name, child). split; [done|by apply dict_get_Some_elem]. }
    simpl. rewrite dict_set_id, set_properties_id by done.
    apply IH. intros; apply Hnames. by right. }
  2:{ intros name. apply sorted_elem. }
  simpl.
  assert (∀ indices, (∀ i, i ∈ indices → (i < length (items n))%nat) →
    prune_items (prune_child child_prune patterns) (items n) indices [] n
    = Ok ([], n)) as ->; [|done|].
  { induction indices as [|i indices IH]; intros Hind; simpl; [done|].
    destruct (lookup_lt_is_Some_2 (items n) i) as [child Hget]; [apply Hind; left|].
    rewrite get_item_with_lookup, Hget. simpl.
    rewrite Hchild. 2:{ apply elem_of_app. right. by eapply list_elem_of_lookup_2. }
    simpl. rewrite list_insert_id, set_items_id by done.
    apply IH. intros; apply Hind. by right. }
  intros i Hi%elem_of_reverse%elem_of_seq. lia.
Qed.

(** X17: [prune] with an int threshold is idempotent: on the tree it
    returned, if the root kept a type, the same call drops nothing and
    leaves the tree as it is. *)
Theorem prune_idempotent (n : Node) (patterns : list string) (k : Z)
    (paths : list string) (n' : Node) :
  valid n → prune n patterns (MInt k) = Ok (paths, n') → type n' ≠ ∅ →
  prune n' patterns (MInt k) = Ok ([], n').
Proof.
  intros Hvalid Hprune Hne. unfold prune, prune_entry in *.
  apply bind_Ok in Hprune as (k' & Hk & Hprune). rewrite Hk. simpl.
  unfold to_cint in Hk. case_bool_decide; [|done]. injection Hk as <-.
  apply _prune_fixed; [done| |done]. by eapply _prune_pruned_ok.
Qed.

(** **** The paths of the children *)

Lemma add_missing_properties_linked (self : Node) (keys : list string) (self' : Node) :
  add_missing_properties self keys = Ok self' →
  Forall (λ kv, path kv.2 = path self ++ [SegStr kv.1]
                ∧ tuple_items kv.2 = tuple_items self) (properties self) →
  Forall (λ kv, path kv.2 = path self ++ [SegStr kv.1]
                ∧ tuple_items kv.2 = tuple_items self) (properties self').
Proof.
  tidy. revert self. induction keys as [|key keys IH]; intros self; simpl.
  - by intros [= <-].
  - destruct (dict_in (properties self) key); simpl; [apply IH|].
    unfold add_property. cbv zeta. rewrite ?init_empty. simpl.
    intros Hrest Hp. apply IH in Hrest; [done|]. simpl.
    by apply Forall_dict_set_entry.
Qed.

Lemma add_items_while_linked (turns : nat) (self self' : Node) :
  add_items_while turns self = Ok self' → tuple_items self = true →
  (∀ i c, items self !! i = Some c →
          path c = path self ++ [SegInt i] ∧ tuple_items c = true) →
  ∀ i c, items self' !! i = Some c →
         path c = path self ++ [SegInt i] ∧ tuple_items c = true.
Proof.
  tidy. revert self. induction turns as [|turns IH]; intros self; simpl.
  - by intros [= <-].
  - unfold add_item. cbv zeta. rewrite ?init_empty. simpl.
    intros Hrest Hti Hi. apply (IH _ Hrest); [done|]. simpl.
    intros i c. rewrite Hti. intros [Hc|[Hlen Hc]]%lookup_app_Some; [by apply Hi|].
    destruct (i - length (items self))%nat eqn:Hd; [|done]. injection Hc as <-. simpl.
    split; [|done]. do 3 f_equal. lia.
Qed.

Lemma extend_properties_linked (P : string → Node → Prop) (f : Doc → Node → result Node)
    (kvs : list (string * Doc)) (self self' : Node) :
  (∀ v k c c', P k c → f v c = Ok c' → P k c') →
  extend_properties f kvs self = Ok self' →
  Forall (λ kv, P kv.1 kv.2) (properties self) →
  Forall (λ kv, P kv.1 kv.2) (properties self').
Proof.
  tidy. intros Hf. revert self. induction kvs as [|[key value] kvs IH]; intros self; simpl.
  - by intros [= <-].
  - intros (child & Hget & (child' & Hext & Hrest)%bind_Ok)%bind_Ok Hp.
    apply IH in Hrest; [done|]. simpl. apply Forall_dict_set_entry; [done|]. simpl.
    apply (Hf value key child); [|done].
    unfold get_property in Hget. rewrite get_property_with_get in Hget.
    destruct (dict_get (properties self) key) as [c|] eqn:Hc; [|done].
    injection Hget as <-. rewrite Forall_forall in Hp.
    apply (Hp (key, c)). by apply dict_get_Some_elem.
Qed.

Lemma extend_items_linked (P : nat → Node → Prop) (f : Doc → Node → result Node)
    (l : list Doc) (i : nat) (self self' : Node) :
  (∀ v k c c', P k c → f v c = Ok c' → P k c') →
  extend_items f l i self = Ok self' →
  (∀ k c, items self !! k = Some c → P k c) →
  ∀ k c, items self' !! k = Some c → P k c.
Proof.
  tidy. intros Hf. revert i self. induction l as [|item l IH]; intros i self; simpl.
  - by intros [= <-].
  - intros (child & Hget & (child' & Hext & Hrest)%bind_Ok)%bind_Ok Hi.
    apply (IH _ _ Hrest). simpl. intros k c Hk.
    unfold get_item in Hget. rewrite get_item_with_lookup in Hget.
    destruct (items self !! _) as [c0|] eqn:Hc0; [|done]. injection Hget as <-.
    apply list_lookup_insert_Some in Hk as [(<- & <- & _)|[_ Hk]]; [|by apply Hi].
    apply (Hf item _ c0); [|done]. by apply Hi.
Qed.

Lemma linked_step (doc : Doc) (self self' : Node) :
  linked self → _extend doc self = Ok self' → linked self'.
Proof.
  intros [Hp Hi] Hext.
  destruct (_extend_frame _ _ _ Hext) as (t & _ & Hpath & Hti & _).
  unfold linked. rewrite Hpath, Hti.
  rewrite _extend_unfold in Hext.
  apply bind_Ok in Hext as (t' & Ht & (self1 & Hself & Hrest)%bind_Ok).
  assert (∀ v (c c' : Node) (p : list Seg) (ti : bool),
            path c = p ∧ tuple_items c = ti → _extend v c = Ok c' →
            path c' = p ∧ tuple_items c' = ti) as Hkeep.
  { intros v c c' p ti [<- <-] Hc.
    destruct (_extend_frame _ _ _ Hc) as (? & _ & -> & -> & _). done. }
  assert (Forall (λ kv, path kv.2 = path self ++ [SegStr kv.1]
                        ∧ tuple_items kv.2 = tuple_items self) (properties self1)
          ∧ ∀ i c, items self1 !! i = Some c →
              path c = path self ++ [if tuple_items self then SegInt i else SegStr "any"]
              ∧ tuple_items c = tuple_items self) as [Hp1 Hi1].
  { unfold _extend_self in Hself. apply bind_Ok in Hself as (self0 & Hschema & Hself).
    assert (properties self1 = properties self0 ∧ items self1 = items self0) as [-> ->]
      by (by destruct (_ && _); injection Hself as <-).
    clear Hself. unfold Schema_extend_self in Hschema.
    destruct (decide (t' = OBJECT)).
    - apply bind_Ok in Hschema as (kvs & _ & Hschema).
      apply bind_Ok in Hschema as (self2 & Hmiss & Hret).
      pose proof (add_missing_properties_frame _ _ _ Hmiss) as (Hfr & _).
      apply add_missing_properties_linked in Hmiss; [|done]. simpl in Hmiss.
      assert (items self2 = items self) as Hi2 by (by rewrite Hfr).
      destruct (required self2); injection Hret as <-; simpl; by rewrite Hi2.
    - destruct (decide (t' = ARRAY)); [|by injection Hschema as <-].
      apply bind_Ok in Hschema as (l & _ & Hschema).
      destruct (tuple_items self) eqn:Htuple; simpl in Hschema; rewrite ?Htuple in Hschema.
      + pose proof (add_items_while_frame _ _ _ Hschema) as (Hfr & _).
        assert (properties self0 = properties self) as -> by (by rewrite Hfr).
        split; [done|]. by apply (add_items_while_linked _ _ _ Hschema).
      + destruct (decide (items self = [])) as [He|Hne]; [|by injection Hschema as <-].
        unfold add_item in Hschema. cbv zeta in Hschema.
        rewrite ?init_empty in Hschema. simpl in Hschema. injection Hschema as <-.
        simpl. rewrite Htuple, He. split; [done|].
        intros [|i] c; simpl; [|done]. by intros [= <-]. }
  destruct (decide (t' = OBJECT)); [|destruct (decide (t' = ARRAY))].
  - destruct doc; try done.
    pose proof (extend_properties_frame _ _ _ _ Hrest) as (Hfr & _).
    assert (items self' = items self1) as -> by (by rewrite Hfr).
    split; [|done].
    eapply (extend_properties_linked
              (λ k c, path c = path self ++ [SegStr k] ∧ tuple_items c = tuple_items self));
      [|exact Hrest|done].
    intros v k c c'. apply Hkeep.
  - destruct doc; try done.
    pose proof (extend_items_frame _ _ _ _ _ Hrest) as (Hfr & _).
    assert (properties self' = properties self1) as -> by (by rewrite Hfr).
    split; [done|].
    eapply (extend_items_linked
              (λ k c, path c = path self
                                 ++ [if tuple_items self then SegInt k else SegStr "any"]
                      ∧ tuple_items c = tuple_items self));
      [|exact Hrest|done].
    intros v k c c'. apply Hkeep.
  - by injection Hrest as <-.
Qed.

Lemma linked_fresh (p : list Seg) (ti : bool) :
  linked (mkNode (Vectorizer:=Vectorizer) p ti ∅ None [] [] [] 0 [] [] [] 0).
Proof. tidy. split; simpl; [constructor|]. by intros i c ?. Qed.

(** With shared arrays, below a root whose path is made of strings every
    path is made of strings. *)
Lemma linked_str_path (n : Node) :
  all_nodes linked n → tuple_items n = false → str_path (path n) = true →
  all_nodes (λ m, str_path (path m) = true ∧ tuple_items m = false) n.
Proof.
  tidy. induction n as [n IHp IHi] using Node_ind'. intros Hall Hti Hstr.
  apply all_nodes_inv in Hall as ([Hlp Hli] & Hp & Hi).
  apply all_nodes_children; [done|..].
  - rewrite Forall_forall in IHp, Hp, Hlp. apply Forall_forall. intros kv Hin.
    destruct (Hlp kv Hin) as [Hpath Htuple].
    apply (IHp kv Hin (Hp kv Hin)); [congruence|].
    rewrite Hpath. unfold str_path in *. by rewrite forallb_app, Hstr.
  - rewrite Forall_forall in IHi, Hi. apply Forall_forall. intros c Hin.
    pose proof Hin as [i Hc]%list_elem_of_lookup.
    destruct (Hli i c Hc) as [Hpath Htuple].
    apply (IHi c Hin (Hi c Hin)); [congruence|].
    rewrite Hpath, Hti. unfold str_path in *. by rewrite forallb_app, Hstr.
Qed.

(** **** When [prune] returns *)

Lemma sorted_types_NoDup (s : gset JsonType) : NoDup (sorted_types s).
Proof.
  unfold sorted_types. apply NoDup_filter. unfold all_types.
  repeat (apply NoDup_cons; split; [tidy; set_solver|]). apply NoDup_nil. done.
Qed.

Lemma _prune_self_step_total (s : string) (min_f : Z) (t : JsonType)
    (ps : list string) (st : Node) :
  is_Some (dict_get (counts st) t) → (t = OBJECT → is_Some (required st)) →
  ∃ ps' st', _prune_self_step s min_f t (ps, st) = Ok (ps', st')
             ∧ (∀ t', t' ≠ t → dict_get (counts st') t' = dict_get (counts st) t')
             ∧ (t ≠ OBJECT → required st' = required st).
Proof.
  tidy. intros [c Hc] Hreq. unfold _prune_self_step. rewrite Hc. simpl.
  destruct (decide (c < min_f)); [|by eexists _, _].
  set (st1 := if dict_in (values _) t then _ else _).
  assert (counts st1 = dict_del (counts st) t ∧ required st1 = required st) as [Hc1 Hr1]
    by (unfold st1; by destruct (dict_in (values _) t)).
  clearbody st1.
  assert (∀ t', t' ≠ t → dict_get (dict_del (counts st) t) t' = dict_get (counts st) t')
    as Hdel by (intros t' Hne; by rewrite dict_get_del, decide_False).
  destruct (decide (t = OBJECT)) as [->|HnO].
  - simpl. rewrite Hr1. destruct (Hreq eq_refl) as [req ->].
    eexists _, _. split_and!; [done| |done]. simpl. by rewrite Hc1.
  - destruct (decide (t = ARRAY)); eexists _, _; (split_and!; [done| |done]); simpl;
      by rewrite Hc1.
Qed.

Lemma _prune_self_total (n : Node) (min_f : Z) :
  (∀ t, t ∈ type n → is_Some (dict_get (counts n) t)) →
  (OBJECT ∈ type n → is_Some (required n)) →
  str_path (path n) = true →
  ∃ ps n1, _prune_self n min_f = Ok (ps, n1).
Proof.
  tidy. intros Hcounts Hreq Hstr. unfold _prune_self.
  rewrite join_path_outcome, Hstr. simpl.
  set (s := join ":" _). clearbody s.
  assert (∀ ts ps (st : Node), NoDup ts →
            (∀ t, t ∈ ts → is_Some (dict_get (counts st) t)) →
            (OBJECT ∈ ts → is_Some (required st)) →
            ∃ r, foldl (λ st t, st ← st; _prune_self_step s min_f t st) (Ok (ps, st)) ts
                 = Ok r) as Hfold.
  { induction ts as [|t ts IH]; intros ps st Hnd Hc Hr; [by eexists|].
    apply NoDup_cons in Hnd as [Hnt Hnd].
    change (foldl ?f ?a (t :: ts)) with (foldl f (_prune_self_step s min_f t (ps, st)) ts).
    destruct (_prune_self_step_total s min_f t ps st) as (ps' & st' & -> & Hc' & Hr');
      [apply Hc; left|intros ->; apply Hr; left|].
    apply IH; [done| |].
    - intros t' Ht'. rewrite Hc' by (by intros ->). apply Hc. by right.
    - intros HO. rewrite Hr' by (by intros ->). apply Hr. by right. }
  destruct (Hfold (sorted_types (type n)) [] n) as [[ps n1] ->].
  - apply sorted_types_NoDup.
  - intros t Ht%sorted_types_elem. by apply Hcounts.
  - intros Ht%sorted_types_elem. by apply Hreq.
  - simpl. case_decide; by eexists _, _.
Qed.

(** The array type stays, and the items with it, when its count reaches
    the threshold. *)
Lemma _prune_self_items_kept (n : Node) (min_f : Z) (ps : list string) (n1 : Node) (c : Z) :
  _prune_self n min_f = Ok (ps, n1) →
  dict_get (counts n) ARRAY = Some c → min_f ≤ c → items n1 = items n.
Proof.
  tidy. unfold _prune_self. intros (s & Hs & Hrest)%bind_Ok Hc Hle.
  apply bind_Ok in Hrest as ([paths' st] & Hfold & Hret).
  assert (st = n1) as -> by (by case_decide; simplify_eq).
  assert (items (paths', n1).2 = items n
          ∧ dict_get (counts (paths', n1).2) ARRAY = Some c) as [Hi _]; [|done].
  apply (foldl_result_inv (_prune_self_step s min_f)
           (λ _ (r : list string * Node),
              items r.2 = items n ∧ dict_get (counts r.2) ARRAY = Some c)
           (sorted_types (type n)) ([], n) (paths', n1)); [done| |exact Hfold].
  clear Hfold Hret. intros _ t [ps0 st] [ps' st'] [Hi Hcount] Hstep. simpl in *.
  unfold _prune_self_step in Hstep. apply bind_Ok in Hstep as (c' & Hget & Hstep).
  destruct (decide (c' < min_f)) as [Hlt|]; [|by injection Hstep as <- <-].
  assert (t ≠ ARRAY) as HnA.
  { intros ->. rewrite Hcount in Hget. injection Hget as <-. lia. }
  set (st1 := if dict_in (values _) t then _ else _) in Hstep.
  assert (counts st1 = dict_del (counts st) t ∧ items st1 = items st) as [Hc1 Hi1]
    by (unfold st1; by destruct (dict_in (values _) t)).
  clearbody st1.
  assert (dict_get (dict_del (counts st) t) ARRAY = Some c) as Hdel
    by (by rewrite dict_get_del, decide_False).
  destruct (decide (t = OBJECT)).
  - destruct (required _); [|done]. injection Hstep as <- <-. simpl.
    by rewrite Hc1, Hi1.
  - rewrite decide_False in Hstep by done. injection Hstep as <- <-.
    by rewrite Hc1, Hi1.
Qed.

Lemma all_nodes_impl (P Q : Node → Prop) (n : Node) :
  (∀ m, P m → Q m) → all_nodes P n → all_nodes Q n.
Proof.
  tidy. intros HPQ. induction n as [n IHp IHi] using Node_ind'.
  intros (H & Hp & Hi)%all_nodes_inv. apply all_nodes_children; [by apply HPQ|..].
  - rewrite Forall_forall in IHp, Hp |- *. intros kv Hin. by apply IHp, Hp.
  - rewrite Forall_forall in IHi, Hi |- *. intros c Hin. by apply IHi, Hi.
Qed.

Lemma extend_root_frame (docs : list Doc) (self self' : Node) :
  extend self docs = Ok self' →
  path self' = path self ∧ tuple_items self' = tuple_items self.
Proof.
  revert self. induction docs as [|doc docs IH]; intros self; simpl.
  - by intros [= <-].
  - intros (self1 & Hdoc & Hrest)%bind_Ok.
    destruct (_extend_frame _ _ _ Hdoc) as (_ & _ & Hpath & Hti & _).
    destruct (IH _ Hrest) as [-> ->]. done.
Qed.

(** What holds at every node of a tree that [extend] built from a new
    root. *)
Lemma extend_new_invariants (p : list Seg) (ti : bool) (docs : list Doc)
    (root0 root : Node) :
  init empty_repr p ti = Ok root0 →
  extend root0 docs = Ok root →
  all_nodes (λ m, counts_ok m ∧ structure_ok m ∧ linked m) root
  ∧ path root = p ∧ tuple_items root = ti.
Proof.
  intros Hinit Hroot. rewrite init_empty in Hinit. injection Hinit as <-.
  split; [|by apply extend_root_frame in Hroot].
  assert (∀ p ti, let m := mkNode (Vectorizer:=Vectorizer) p ti ∅ None [] [] [] 0 [] [] [] 0 in
                  counts_ok m ∧ structure_ok m ∧ linked m) as Hfresh.
  { intros p' ti'. split_and!; [| |apply linked_fresh].
    - unfold counts_ok. simpl. split_and!; try done.
      + intros t. rewrite elem_of_empty, elem_of_nil. tauto.
      + intros t ?%elem_of_nil. done.
    - unfold structure_ok. simpl. split_and!; try done. lia. }
  refine (extend_all_nodes _ Hfresh _ docs _ _ _ Hroot).
  - intros doc self self' (? & ? & ?) Hext.
    split_and!; [by eapply counts_ok_step|by eapply structure_ok_step|by eapply linked_step].
  - apply all_nodes_children; [apply Hfresh|simpl; constructor..].
Qed.

Lemma prune_properties_items (f : list string → Node → result (list string * bool * Node))
    (props0 : list (string * Node)) (names : list string) (paths : list string)
    (self : Node) (paths' : list string) (self' : Node) :
  prune_properties f props0 names paths self = Ok (paths', self') →
  items self' = items self.
Proof.
  tidy. revert paths self. induction names as [|name names IH]; intros paths self; simpl.
  - by intros [= _ <-].
  - intros (r & _ & Hrest)%bind_Ok. destruct r as [[[ps drop] c]|e]; [|done]. simpl in Hrest.
    destruct drop.
    + simpl in Hrest. destruct (required self); [|done].
      destruct (decide _); by apply IH in Hrest.
    + by apply IH in Hrest.
Qed.

(** One child's turn returns, or raises [TypeError] because of a path. *)
Lemma prune_child_total (child_prune : Node → result (list string * Node))
    (patterns : list string) (child : Node) :
  (∃ r, child_prune child = Ok r)
  ∨ (child_prune child = Raise TypeError
     ∧ ¬ all_nodes (λ m, str_path (path m) = true) child) →
  (∀ paths, ∃ r, prune_child child_prune patterns paths child = Ok r)
  ∨ ((∀ paths, prune_child child_prune patterns paths child = Raise TypeError)
     ∧ ¬ all_nodes (λ m, str_path (path m) = true) child).
Proof.
  tidy. intros Hrec. unfold prune_child. rewrite join_path_outcome.
  destruct (str_path (path child)) eqn:Hstr; simpl.
  - destruct (hasmatch _ patterns); [left; by eexists|].
    destruct Hrec as [[[ps c'] ->]|[-> Hbad]]; [left; by eexists|by right].
  - right. split; [done|]. intros Hall%all_nodes_here. congruence.
Qed.

Lemma prune_properties_total (f : list string → Node → result (list string * bool * Node))
    (B : Node → Prop) (props0 : list (string * Node)) (names : list string)
    (paths : list string) (self : Node) :
  (∀ name, name ∈ names →
     ∃ child, dict_get props0 name = Some child
              ∧ ((∀ paths, ∃ r, f paths child = Ok r)
                 ∨ ((∀ paths, f paths child = Raise TypeError) ∧ B child))) →
  (names ≠ [] → is_Some (required self)) →
  (∃ r, prune_properties f props0 names paths self = Ok r)
  ∨ (prune_properties f props0 names paths self = Raise TypeError
     ∧ ∃ name child, dict_get props0 name = Some child ∧ B child).
Proof.
  tidy. revert paths self. induction names as [|name names IH]; intros paths self Hkids Hreq.
  { left. by eexists. }
  destruct (Hkids name) as (child & Hget & Hchild); [left|].
  assert (∀ paths self, is_Some (required self) →
    (∃ r, prune_properties f props0 names paths self = Ok r)
    ∨ (prune_properties f props0 names paths self = Raise TypeError
       ∧ ∃ name child, dict_get props0 name = Some child ∧ B child)) as IH'.
  { intros paths' self' Hr. apply IH; [|done]. intros name' Hin. apply Hkids. by right. }
  simpl. rewrite get_property_with_get, Hget. simpl.
  destruct Hchild as [Hok|[Hbad HB]].
  - destruct (Hok paths) as [[[ps drop] c] ->]. simpl.
    destruct (Hreq ltac:(done)) as [req Hr]. destruct drop.
    + simpl. rewrite Hr. destruct (decide _); apply IH'; by eexists.
    + apply IH'. by eexists.
  - rewrite Hbad. simpl. right. split; [done|]. by exists name, child.
Qed.

Lemma prune_items_total (f : list string → Node → result (list string * bool * Node))
    (B : Node → Prop) (items0 : list Node) (indices : list nat)
    (paths : list string) (self : Node) :
  (∀ i, i ∈ indices →
     ∃ child, items0 !! i = Some child
              ∧ ((∀ paths, ∃ r, f paths child = Ok r)
                 ∨ ((∀ paths, f paths child = Raise TypeError) ∧ B child))) →
  (∃ r, prune_items f items0 indices paths self = Ok r)
  ∨ (prune_items f items0 indices paths self = Raise TypeError
     ∧ ∃ i child, items0 !! i = Some child ∧ B child).
Proof.
  tidy. revert paths self. induction indices as [|i indices IH]; intros paths self Hkids.
  { left. by eexists. }
  destruct (Hkids i) as (child & Hget & Hchild); [left|].
  assert (∀ paths self,
    (∃ r, prune_items f items0 indices paths self = Ok r)
    ∨ (prune_items f items0 indices paths self = Raise TypeError
       ∧ ∃ i child, items0 !! i = Some child ∧ B child)) as IH'.
  { intros paths' self'. apply IH. intros i' Hin. apply Hkids. by right. }
  simpl. rewrite get_item_with_lookup, Hget. simpl.
  destruct Hchild as [Hok|[Hbad HB]].
  - destruct (Hok paths) as [[[ps drop] c] ->]. simpl. destruct drop; apply IH'.
  - rewrite Hbad. simpl. right. split; [done|]. by exists i, child.
Qed.

(** On a tree with the bookkeeping of [extend], [_prune] returns, or raises
    [TypeError] because a path has an int element. *)
Lemma _prune_outcome (patterns : list string) (k : Z) (n : Node) :
  - 2 ^ 31 ≤ k < 2 ^ 31 →
  all_nodes (λ m, counts_ok m ∧ structure_ok m) n →
  (∃ r, _prune n patterns k = Ok r)
  ∨ (_prune n patterns k = Raise TypeError
     ∧ ¬ all_nodes (λ m, str_path (path m) = true) n).
Proof.
  intros Hrange. induction n as [n IHp IHi] using Node_ind'. intros Hall.
  apply all_nodes_inv in Hall as ([Hcounts Hstruct] & Hp & Hi).
  destruct Hcounts as (Hkeys & _). destruct Hstruct as (Hreq & _ & Hprops & _).
  rewrite _prune_unfold. cbv zeta.
  destruct (str_path (path n)) eqn:Hstr.
  2:{ right. unfold _prune_self. rewrite join_path_outcome, Hstr. simpl.
      split; [done|]. intros Hall%all_nodes_here. congruence. }
  destruct (_prune_self_total n k) as (p0 & n1 & Hself); [| |done|].
  { intros t Ht. apply dict_get_Some_keys. by apply Hkeys. }
  { intros HO. by apply Hreq. }
  rewrite Hself. simpl.
  destruct (_prune_self_spec _ _ _ _ Hself) as (Hp1 & Hi1 & _ & Hr1).
  set (child_prune := λ child : Node,
    prune_entry (counts child) (MInt k) (_prune child patterns)).
  set (A := all_nodes (λ m : Node, str_path (path m) = true)).
  assert (∀ child, child ∈ children n →
    ((∃ r, _prune child patterns k = Ok r)
     ∨ (_prune child patterns k = Raise TypeError ∧ ¬ A child)) →
    (∀ paths, ∃ r, prune_child child_prune patterns paths child = Ok r)
    ∨ ((∀ paths, prune_child child_prune patterns paths child = Raise TypeError)
       ∧ ¬ A child)) as Hchild.
  { intros child _ Hrec. apply prune_child_total.
    unfold child_prune, prune_entry, to_cint.
    rewrite bool_decide_eq_true_2 by done. exact Hrec. }
  assert (∀ child, child ∈ children n → ¬ A child → ¬ A n) as Hbad.
  { intros child Hin Hc [_ Hkids]. rewrite Forall_forall in Hkids. by apply Hc, Hkids. }
  destruct (prune_properties_total (prune_child child_prune patterns) (λ c, ¬ A n)
              (properties n) (sorted (dict_keys (properties n1))) p0 n1)
    as [[[p2 n2] Hloop]|[Hloop (_ & _ & _ & HB)]].
  - intros name Hin. apply (proj1 (sorted_elem _ _)) in Hin.
    assert (properties n1 = properties n) as Heq.
    { destruct Hp1 as [?|Hnil]; [done|]. rewrite Hnil in Hin. by apply elem_of_nil in Hin. }
    rewrite Heq in Hin. apply dict_get_Some_keys in Hin as [child Hget].
    exists child. split; [done|].
    assert (child ∈ children n) as Hin'.
    { apply elem_of_app. left. apply list_elem_of_fmap. exists (name, child).
      split; [done|by apply dict_get_Some_elem]. }
    rewrite Forall_forall in IHp, Hp.
    destruct (Hchild child Hin') as [?|[? ?]]; [|by left|right; split; [done|by eapply Hbad]].
    apply (IHp (name, child)); [by apply dict_get_Some_elem|].
    apply (Hp (name, child)). by apply dict_get_Some_elem.
  - intros Hne. apply Hr1.
    + intros Hnil. rewrite Hnil in Hne. by apply Hne.
    + apply Hreq, Hprops. destruct Hp1 as [<-|Hnil]; [|rewrite Hnil in Hne; by destruct Hne].
      intros Hnil. rewrite Hnil in Hne. by apply Hne.
  - rewrite Hloop. simpl. apply prune_properties_items in Hloop.
    destruct (prune_items_total (prune_child child_prune patterns) (λ c, ¬ A n)
                (items n) (reverse (seq 0 (length (items n2)))) p2 n2)
      as [[r Hitems]|[Hitems (_ & _ & _ & HB)]].
    + intros i Hin%elem_of_reverse%elem_of_seq. rewrite Hloop in Hin.
      assert (items n1 = items n) as Heq.
      { destruct Hi1 as [?|Hnil]; [done|]. rewrite Hnil in Hin. simpl in Hin. lia. }
      rewrite Heq in Hin.
      destruct (lookup_lt_is_Some_2 (items n) i) as [child Hget]; [lia|].
      exists child. split; [done|].
      assert (child ∈ children n) as Hin'.
      { apply elem_of_app. right. by eapply list_elem_of_lookup_2. }
      assert (child ∈ items n) as Hin'' by (by eapply list_elem_of_lookup_2).
      rewrite Forall_forall in IHi, Hi.
      destruct (Hchild child Hin') as [?|[? ?]]; [|by left|right; split; [done|by eapply Hbad]].
      by apply IHi, Hi.
    + left. by exists r.
    + right. by split.
  - right. rewrite Hloop. by split.
Qed.

Lemma prune_items_first (f : list string → Node → result (list string * bool * Node))
    (items0 : list Node) (i : nat) (indices : list nat) (paths : list string)
    (self : Node) (r : list string * Node) :
  prune_items f items0 (i :: indices) paths self = Ok r →
  ∃ child r', items0 !! i = Some child ∧ f paths child = Ok r'.
Proof.
  tidy. simpl. intros (o & Hget & Hrest)%bind_Ok.
  rewrite get_item_with_lookup in Hget. destruct (items0 !! i) as [child|]; [|done]. simpl in Hget.
  injection Hget as <-. destruct (f paths child) as [r'|] eqn:Hf; [|done].
  by exists child, r'.
Qed.

(** X18: a schema that [extend] built from a new root with shared arrays
    and a path of strings can be pruned: with an int threshold that fits a
    C int, [prune] returns. *)
Theorem prune_shared_returns (p : list Seg) (docs : list Doc) (root0 root : Node)
    (patterns : list string) (k : Z) :
  init empty_repr p false = Ok root0 →
  extend root0 docs = Ok root →
  str_path p = true →
  - 2 ^ 31 ≤ k < 2 ^ 31 →
  ∃ paths root', prune root patterns (MInt k) = Ok (paths, root').
Proof.
  intros Hinit Hroot Hstr Hrange.
  destruct (extend_new_invariants _ _ _ _ _ Hinit Hroot) as (Hall & Hpath & Hti).
  unfold prune, prune_entry, to_cint. rewrite bool_decide_eq_true_2 by done. simpl.
  destruct (_prune_outcome patterns k root Hrange) as [[[paths root'] ->]|[_ Hbad]].
  - revert Hall. apply all_nodes_impl. tauto.
  - by eexists _, _.
  - destruct Hbad.
    assert (all_nodes linked root) as Hl by (revert Hall; apply all_nodes_impl; tauto).
    apply linked_str_path in Hl; [|done|by rewrite Hpath].
    revert Hl. apply all_nodes_impl. tauto.
Qed.

(** X19: in tuple mode the path of an item ends with its index, an int,
    and [prune] joins the path of every child it visits.  So on a schema
    that [extend] built from a new root in tuple mode, when the root has an
    item and its array type reaches the threshold, [prune] raises
    [TypeError]. *)
Theorem prune_tuple_raises (p : list Seg) (docs : list Doc) (root0 root : Node)
    (patterns : list string) (k c : Z) :
  init empty_repr p true = Ok root0 →
  extend root0 docs = Ok root →
  - 2 ^ 31 ≤ k < 2 ^ 31 →
  items root ≠ [] →
  dict_get (counts root) ARRAY = Some c → k ≤ c →
  prune root patterns (MInt k) = Raise TypeError.
Proof.
  intros Hinit Hroot Hrange Hitems Hcount Hle.
  destruct (extend_new_invariants _ _ _ _ _ Hinit Hroot) as (Hall & Hpath & Hti).
  unfold prune, prune_entry, to_cint. rewrite bool_decide_eq_true_2 by done. simpl.
  destruct (_prune_outcome patterns k root Hrange) as [[r Hok]|[-> _]]; [| |done].
  { revert Hall. apply all_nodes_impl. tauto. }
  exfalso. rewrite _prune_unfold in Hok. cbv zeta in Hok.
  apply bind_Ok in Hok as ([p0 n1] & Hself & Hok).
  apply bind_Ok in Hok as ([p2 n2] & Hloop & Hok).
  apply prune_properties_items in Hloop.
  rewrite Hloop, (_prune_self_items_kept _ _ _ _ _ Hself Hcount Hle) in Hok.
  destruct (items root) as [|item0 rest] eqn:Hit using rev_ind; [done|]. clear IHrest.
  rewrite length_app, Nat.add_comm in Hok.
  change (length [item0] + length rest)%nat with (S (length rest)) in Hok.
  rewrite seq_S, reverse_app in Hok.
  change (reverse [(0 + length rest)%nat] ++ ?l) with (length rest :: l) in Hok.
  apply prune_items_first in Hok as (child & r' & Hget & Hchild).
  apply all_nodes_here in Hall as (_ & _ & _ & Hli).
  destruct (Hli _ _ ltac:(rewrite Hit; exact Hget)) as [Hcp _].
  unfold prune_child in Hchild. apply bind_Ok in Hchild as (s & Hs & _).
  rewrite join_path_outcome, Hcp, Hti in Hs.
  unfold str_path in Hs. rewrite forallb_app in Hs. simpl in Hs.
  by rewrite andb_false_r in Hs.
Qed.

(** X20: on a schema that [extend] built from a new root, in either array
    mode, [prune] with an int threshold that fits a C int returns or raises
    [TypeError]; it raises nothing else: no count, [required] set, property
    or item it looks up is missing. *)
Theorem prune_raises_TypeError_only (p : list Seg) (tuple_mode : bool) (docs : list Doc)
    (root0 root : Node) (patterns : list string) (k : Z) :
  init empty_repr p tuple_mode = Ok root0 →
  extend root0 docs = Ok root →
  - 2 ^ 31 ≤ k < 2 ^ 31 →
  (∃ paths root', prune root patterns (MInt k) = Ok (paths, root'))
  ∨ prune root patterns (MInt k) = Raise TypeError.
Proof.
  intros Hinit Hroot Hrange.
  destruct (extend_new_invariants _ _ _ _ _ Hinit Hroot) as (Hall & _).
  unfold prune, prune_entry, to_cint. rewrite bool_decide_eq_true_2 by done. simpl.
  destruct (_prune_outcome patterns k root Hrange) as [[[paths root'] ->]|[-> _]].
  - revert Hall. apply all_nodes_impl. tauto.
  - left. by eexists _, _.
  - by right.
Qed.

(** **** Deletion from a dict, and the sorted types *)

Lemma dict_del_absent {K V} `{EqDecision K} (d : list (K * V)) (k : K) :
  dict_in d k = false → dict_del d k = d.
Proof.
  unfold dict_in, dict_del. induction d as [|[k' v] d IH]; simpl; [done|].
  destruct (decide (k' = k)) as [->|Hne]; [done|]. intros Hd.
  rewrite filter_cons. simpl. rewrite decide_True by done. by rewrite IH.
Qed.

Lemma dict_keys_del {K V} `{EqDecision K} (d : list (K * V)) (k k' : K) :
  k' ∈ dict_keys (dict_del d k) ↔ k' ∈ dict_keys d ∧ k' ≠ k.
Proof.
  unfold dict_keys, dict_del. rewrite !list_elem_of_fmap. split.
  - intros ([k0 v] & -> & [Hne Hin]%list_elem_of_filter). split; [by exists (k0, v)|done].
  - intros [([k0 v] & -> & Hin) Hne]. exists (k0, v). split; [done|].
    by apply list_elem_of_filter.
Qed.

Lemma sorted_types_complete (s : gset JsonType) (t : JsonType) :
  t ∈ s → t ∈ sorted_types s.
Proof.
  intros Ht. unfold sorted_types. apply list_elem_of_filter. split; [done|].
  unfold all_types. destruct t; set_solver.
Qed.

(** **** The one threshold of [prune] *)

Lemma elem_of_types_reaching (k : Z) (n : Node) (t : JsonType) :
  t ∈ types_reaching k n ↔ t ∈ type n ∧ reaches k n t = true.
Proof.
  tidy. unfold types_reaching. rewrite elem_of_filter, Is_true_true. naive_solver.
Qed.

Lemma reaches_count (k : Z) (n : Node) (t : JsonType) :
  reaches k n t = true ↔ ∃ c, dict_get (counts n) t = Some c ∧ k ≤ c.
Proof.
  tidy. unfold reaches. destruct (dict_get (counts n) t) as [c|].
  - rewrite bool_decide_eq_true. naive_solver.
  - naive_solver.
Qed.

(** What the self step of [_prune] does, exactly: the types whose count
    reaches [min_f] stay with their counts, [properties] and [items] are
    cleared with their container type, and an empty report means that a type
    is left. *)
Lemma _prune_self_exact (n : Node) (min_f : Z) (paths : list string) (n1 : Node) :
  _prune_self n min_f = Ok (paths, n1) →
  type n1 = types_reaching min_f n
  ∧ (∀ t, t ∈ type n1 → dict_get (counts n1) t = dict_get (counts n) t)
  ∧ properties n1 = (if cleared min_f n OBJECT then [] else properties n)
  ∧ items n1 = (if cleared min_f n ARRAY then [] else items n)
  ∧ (paths = [] → type n1 ≠ ∅).
Proof.
  tidy. unfold _prune_self. intros (s & Hs & Hrest)%bind_Ok.
  apply bind_Ok in Hrest as ([paths' st] & Hfold & Hret).
  set (I := λ (done : list JsonType) (ps : list string * Node),
    (∀ t, t ∈ type ps.2 ↔ t ∈ type n ∧ (t ∈ done → reaches min_f n t = true))
    ∧ (∀ t, t ∉ done → dict_get (counts ps.2) t = dict_get (counts n) t)
    ∧ (∀ t, t ∈ type ps.2 → dict_get (counts ps.2) t = dict_get (counts n) t)
    ∧ properties ps.2
      = (if bool_decide (OBJECT ∈ done) && cleared min_f n OBJECT then [] else properties n)
    ∧ items ps.2
      = (if bool_decide (ARRAY ∈ done) && cleared min_f n ARRAY then [] else items n)).
  assert (I (sorted_types (type n)) (paths', st)) as (Ht & _ & Hc & Hp & Hi).
  { apply (foldl_result_inv_split (_prune_self_step s min_f) I _ ([], n)); [| |done].
    - unfold I. simpl. split_and!; try done.
      intros t. split; [intros ?; split; [done|by intros ?%elem_of_nil]|by intros [? _]].
    - clear Hfold Hret. intros done t rest [ps st0] [ps' st'] Hts (Ht & Hn & Hc & Hp & Hi) Hstep.
      simpl in Ht, Hn, Hc, Hp, Hi.
      assert (t ∉ done) as Hfresh.
      { pose proof (sorted_types_NoDup (type n)) as Hnd. rewrite Hts in Hnd.
        apply NoDup_app in Hnd as (_ & Hnd & _). intros Hin. apply (Hnd t Hin). by left. }
      assert (t ∈ type n) as Htn.
      { apply sorted_types_elem. rewrite Hts. apply elem_of_app. right. by left. }
      unfold _prune_self_step in Hstep. simpl in Hstep.
      apply bind_Ok in Hstep as (c & Hget & Hstep).
      destruct (dict_get (counts st0) t) as [c'|] eqn:Hcount; [|done].
      injection Hget as ->. rewrite (Hn t Hfresh) in Hcount.
      assert (reaches min_f n t = bool_decide (min_f ≤ c)) as Hreach
        by (unfold reaches; by rewrite Hcount).
      assert (∀ t0 : JsonType, t0 ≠ t →
                bool_decide (t0 ∈ done ++ [t]) = bool_decide (t0 ∈ done)) as Hother.
      { intros t0 Hne. apply bool_decide_ext. rewrite elem_of_app, list_elem_of_singleton.
        naive_solver. }
      destruct (decide (c < min_f)) as [Hlt|Hge].
      + rewrite bool_decide_eq_false_2 in Hreach by lia.
        set (st1 := if dict_in (values st0) t
                    then set_values (set_counts (set_type st0 (type st0 ∖ {[t]}))
                                       (dict_del (counts st0) t))
                           (dict_del (values st0) t)
                    else set_counts (set_type st0 (type st0 ∖ {[t]}))
                           (dict_del (counts st0) t)) in *.
        assert (type st1 = type st0 ∖ {[t]} ∧ counts st1 = dict_del (counts st0) t
                ∧ properties st1 = properties st0 ∧ items st1 = items st0
                ∧ required st1 = required st0) as (Ht1 & Hc1 & Hp1 & Hi1 & Hr1)
          by (unfold st1; by destruct (dict_in (values st0) t)).
        clearbody st1.
        assert ((∀ t0, t0 ∈ type st1
                       ↔ t0 ∈ type n ∧ (t0 ∈ done ++ [t] → reaches min_f n t0 = true))
                ∧ (∀ t0, t0 ∉ done ++ [t] → dict_get (counts st1) t0 = dict_get (counts n) t0)
                ∧ (∀ t0, t0 ∈ type st1 → dict_get (counts st1) t0 = dict_get (counts n) t0))
          as (Ht' & Hn' & Hc').
        { split_and!.
          - intros t0. rewrite Ht1, elem_of_difference, Ht, elem_of_app,
              list_elem_of_singleton, elem_of_singleton.
            split.
            + intros [[? Hd] Hne]. split; [done|]. intros [?|?]; [auto|done].
            + intros [? Hd]. assert (t0 ≠ t) as Hne.
              { intros Heq. subst t0. rewrite Hd in Hreach; [done|by right]. }
              split; [|done]. split; [done|]. auto.
          - intros t0. rewrite not_elem_of_app, list_elem_of_singleton. intros [Hd Hne].
            rewrite Hc1, dict_get_del, decide_False by done. by apply Hn.
          - intros t0. rewrite Ht1, elem_of_difference, elem_of_singleton.
            intros [Hin Hne]. rewrite Hc1, dict_get_del, decide_False by done.
            by apply Hc. }
        assert (cleared min_f n t = true) as Hcl.
        { unfold cleared. by rewrite bool_decide_eq_true_2, Hreach. }
        destruct (decide (t = OBJECT)) as [->|HnO].
        * destruct (required st1) eqn:Hreq; [|done]. injection Hstep as <- <-.
          unfold I. simpl. rewrite Hi1, Hi, (Hother ARRAY) by done.
          split_and!; try done.
          rewrite Hcl, bool_decide_eq_true_2; [done|]. apply elem_of_app. right. by left.
        * destruct (decide (t = ARRAY)) as [->|HnA]; injection Hstep as <- <-;
            unfold I; simpl; rewrite ?Hp1, ?Hi1, ?Hp, ?Hi, (Hother OBJECT) by done.
          -- split_and!; try done.
             rewrite Hcl, bool_decide_eq_true_2; [done|]. apply elem_of_app. right. by left.
          -- rewrite (Hother ARRAY) by done. split_and!; done.
      + injection Hstep as <- <-. rewrite bool_decide_eq_true_2 in Hreach by lia.
        assert (cleared min_f n t = false) as Hcl.
        { unfold cleared. rewrite Hreach. by rewrite andb_false_r. }
        unfold I. simpl. split_and!.
        * intros t0. rewrite Ht, elem_of_app, list_elem_of_singleton. split.
          -- intros [? Hd]. split; [done|]. intros [?| ->]; auto.
          -- intros [? Hd]. split; [done|]. auto.
        * intros t0 [Hd _]%not_elem_of_app. by apply Hn.
        * done.
        * rewrite Hp. destruct (decide (t = OBJECT)) as [->|HnO].
          -- by rewrite Hcl, !andb_false_r.
          -- by rewrite (Hother OBJECT).
        * rewrite Hi. destruct (decide (t = ARRAY)) as [->|HnA].
          -- by rewrite Hcl, !andb_false_r.
          -- by rewrite (Hother ARRAY). }
  simpl in Ht, Hc, Hp, Hi.
  assert (∀ t, cleared min_f n t = true → bool_decide (t ∈ sorted_types (type n)) = true)
    as Hdone.
  { intros t [Hin _]%andb_true_iff. apply bool_decide_eq_true in Hin.
    by apply bool_decide_eq_true, sorted_types_complete. }
  assert (∀ {A} (t : JsonType) (x y : A),
    (if bool_decide (t ∈ sorted_types (type n)) && cleared min_f n t then x else y)
    = if cleared min_f n t then x else y) as Hif.
  { intros A t x y. destruct (cleared min_f n t) eqn:Hcl; [|by rewrite andb_false_r].
    by rewrite (Hdone t Hcl). }
  rewrite Hif in Hp, Hi.
  assert (type st = types_reaching min_f n) as Htype.
  { apply set_eq. intros t. rewrite Ht, elem_of_types_reaching. split.
    - intros [Hin Hd]. split; [done|]. by apply Hd, sorted_types_complete.
    - intros [? ?]. by split. }
  case_decide as Hne; injection Hret as <- <-; split_and!; done.
Qed.

(** [_prune] that returns, taken apart: the self step, then one outcome per
    property of what the self step left, by sorted name, and one per item;
    the result records and keeps what the outcomes say. *)
Lemma _prune_inv (patterns : list string) (k : Z) (n : Node) (paths : list string)
    (n' : Node) :
  NoDup (dict_keys (properties n)) →
  _prune n patterns k = Ok (paths, n') →
  ∃ p0 n1 pouts iouts,
    _prune_self n k = Ok (p0, n1)
    ∧ Forall2 (λ name o, ∃ child, dict_get (properties n) name = Some child
                                  ∧ child_outcome patterns k child = Ok o)
        (sorted (dict_keys (properties n1))) pouts
    ∧ Forall2 (λ child o, child_outcome patterns k child = Ok o) (items n1) iouts
    ∧ paths = (p0 ++ concat pouts.*1) ++ concat (reverse iouts).*1
    ∧ Forall2 (λ name o, dict_get (properties n') name = o.2)
        (sorted (dict_keys (properties n1))) pouts
    ∧ (∀ name, name ∉ dict_keys (properties n1) → dict_get (properties n') name = None)
    ∧ items n' = omap snd iouts
    ∧ type n' = type n1 ∧ counts n' = counts n1.
Proof.
  intros Hnd Hprune.
  rewrite _prune_unfold in Hprune. cbv zeta in Hprune.
  change (λ child : Node, prune_entry (counts child) (MInt k) (_prune child patterns))
    with (λ c : Node, prune c patterns (MInt k)) in Hprune.
  apply bind_Ok in Hprune as ([p0 n1] & Hself & Hrest). simpl in Hrest.
  apply bind_Ok in Hrest as ([p1 n2] & Hprops & Hitems). simpl in Hitems.
  destruct (_prune_self_spec _ _ _ _ Hself) as (Hp & Hi & _ & _).
  assert (NoDup (dict_keys (properties n1))) as Hnd1
    by (destruct Hp as [->| ->]; [done|constructor]).
  destruct (prune_properties_outcomes _ _ _ _ _ _ _ Hprops) as (pouts & Hpouts & Hex).
  destruct (prune_properties_spec patterns k (properties n)
              (sorted (dict_keys (properties n1))) pouts p0 n1)
    as (n2' & Hprops' & Hlook & Hother & Hnd2 & Hi2 & Ht2 & Hc2);
    [by rewrite sorted_Permutation|done|done|].
  rewrite Hprops in Hprops'. injection Hprops' as -> <-.
  assert (length (items n2) ≤ length (items n))%nat as Hlen
    by (rewrite Hi2; destruct Hi as [->| ->]; simpl; lia).
  assert (items n2 = take (length (items n2)) (items n)) as Htake.
  { rewrite Hi2. destruct Hi as [->| ->]; [by rewrite firstn_all|done]. }
  pose proof (prune_items_outcomes _ _ _ _ _ _ _ Hitems) as Hiouts.
  rewrite Forall_forall in Hiouts.
  destruct (Forall_exists_Forall2
              (λ child o, child_outcome patterns k child = Ok o)
              (take (length (items n2)) (items n))) as [iouts Hiouts'].
  { apply Forall_lookup_2. intros i child [Hchild Hlt]%lookup_take_Some.
    destruct (Hiouts i) as (child' & o & Hchild' & Ho); [|by exists o; congruence].
    apply elem_of_reverse, elem_of_seq. lia. }
  destruct (prune_items_spec patterns k (items n) (length (items n2)) iouts
              (p0 ++ concat pouts.*1) n2 [])
    as (n'' & Hitems' & Hin' & Hpn' & Htn' & Hcn'); [done| |by rewrite app_nil_r|].
  { rewrite <- (Forall2_length _ _ _ Hiouts'), length_take. lia. }
  rewrite Hitems in Hitems'. injection Hitems' as -> <-.
  rewrite app_nil_r in Hin'. rewrite <- Htake, Hi2 in Hiouts'.
  exists p0, n1, pouts, iouts. rewrite Hpn'. split_and!; try done; try congruence.
  intros name Hname. rewrite Hother by (by rewrite sorted_elem).
  destruct (dict_get (properties n1) name) eqn:Hget; [|done].
  destruct Hname. apply dict_get_Some_keys. eauto.
Qed.

Lemma prune_to__prune (patterns : list string) (k : Z) (c : Node) r :
  prune c patterns (MInt k) = Ok r → _prune c patterns k = Ok r.
Proof.
  unfold prune, prune_entry, to_cint. by case_bool_decide.
Qed.

(** One child's turn, read with the threshold: the child is kept exactly
    when it [stays], and then comes back with [k] applied. *)
Lemma child_outcome_stays (patterns : list string) (k : Z) (c : Node)
    (o : list string * option Node) :
  (∀ ps c', _prune c patterns k = Ok (ps, c') → pruned_with re_search patterns k c c') →
  child_outcome patterns k c = Ok o →
  match o.2 with
  | Some c' => stays re_search patterns k c = true ∧ pruned_with re_search patterns k c c'
  | None => stays re_search patterns k c = false
  end.
Proof.
  intros IH. unfold child_outcome, stays, path_matches.
  intros (s & -> & Hrest)%bind_Ok.
  destruct (hasmatch s patterns); [by injection Hrest as <-|].
  apply bind_Ok in Hrest as ([ps c'] & Hprune%prune_to__prune & [= <-]). simpl.
  pose proof (IH _ _ Hprune) as Hc'. destruct Hc' as [c c' Htype _ _ _ _].
  rewrite <- Htype. case_bool_decide as Hempty.
  - by rewrite bool_decide_eq_false_2 by (intros Hne; by apply Hne).
  - rewrite bool_decide_eq_true_2 by done. split; [done|]. by apply IH in Hprune.
Qed.

Lemma outcomes_stay (patterns : list string) (k : Z) (l : list Node)
    (outs : list (list string * option Node)) :
  Forall2 (λ c (o : list string * option Node),
    match o.2 with
    | Some c' => stays re_search patterns k c = true ∧ pruned_with re_search patterns k c c'
    | None => stays re_search patterns k c = false
    end) l outs →
  Forall2 (pruned_with re_search patterns k)
    (filter (λ c, stays re_search patterns k c) l) (omap snd outs).
Proof.
  induction 1 as [|c [ps [c'|]] l outs Ho _ IH]; csimpl in *; [constructor| |].
  - destruct Ho as [Hs Hc]. rewrite filter_cons_True by (by rewrite Hs).
    by constructor.
  - rewrite filter_cons_False by (rewrite Ho; intros []). done.
Qed.

(** [_prune] applies its one threshold at the node and at every node below. *)
Lemma _prune_pruned_with (patterns : list string) (k : Z) (n : Node) :
  valid n → ∀ paths n', _prune n patterns k = Ok (paths, n') →
  pruned_with re_search patterns k n n'.
Proof.
  induction n as [n IHp IHi] using Node_ind'. intros Hvalid paths n' Hprune.
  pose proof (all_nodes_here _ _ Hvalid) as [Hnd _].
  destruct (_prune_inv _ _ _ _ _ Hnd Hprune)
    as (p0 & n1 & pouts & iouts & Hself & Hpouts & Hiouts & _ & Hlook & Hnone & Hitems'
        & Htype & Hcounts).
  destruct (_prune_self_exact _ _ _ _ Hself) as (Ht1 & Hc1 & Hp1 & Hi1 & _).
  assert (∀ name c, dict_get (properties n) name = Some c →
            ∀ ps c', _prune c patterns k = Ok (ps, c') →
                     pruned_with re_search patterns k c c') as IHprop.
  { intros name c Hget. rewrite Forall_forall in IHp.
    apply (IHp (name, c) (dict_get_Some_elem _ _ _ Hget)).
    by eapply all_nodes_property. }
  assert (∀ name, name ∈ dict_keys (properties n1) →
            ∃ c o, dict_get (properties n) name = Some c
                   ∧ child_outcome patterns k c = Ok o
                   ∧ dict_get (properties n') name = o.2) as Hturn.
  { intros name Hname%sorted_elem. apply list_elem_of_lookup in Hname as [j Hj].
    destruct (Forall2_lookup_l _ _ _ _ _ Hpouts Hj) as (o & Ho & c & Hc & Hout).
    pose proof (Forall2_lookup_lr _ _ _ _ _ _ Hlook Hj Ho) as Hl. by exists c, o. }
  constructor.
  - by rewrite Htype.
  - intros t Ht. rewrite Hcounts. apply Hc1. by rewrite <- Htype.
  - intros name c Hget. destruct (cleared k n OBJECT) eqn:Hcl.
    + rewrite Hnone by (rewrite Hp1; apply not_elem_of_nil).
      split; [by intros [? ?]|by intros [? _]].
    + destruct (Hturn name) as (c0 & o & Hc0 & Hout & Hl).
      { rewrite Hp1. apply dict_get_Some_keys. eauto. }
      assert (c0 = c) as -> by congruence.
      pose proof (child_outcome_stays _ _ _ _ (IHprop _ _ Hget) Hout) as Hstays.
      rewrite Hl. destruct (o.2) as [c'|].
      * destruct Hstays as [-> _]. split; [done|eauto].
      * rewrite Hstays. split; [by intros [? ?]|by intros [_ ?]].
  - intros name c' Hget.
    destruct (decide (name ∈ dict_keys (properties n1))) as [Hname|Hname];
      [|by rewrite Hnone in Hget].
    destruct (Hturn name Hname) as (c & o & Hc & Hout & Hl).
    pose proof (child_outcome_stays _ _ _ _ (IHprop _ _ Hc) Hout) as Hstays.
    rewrite Hget in Hl. rewrite <- Hl in Hstays. exists c. by destruct Hstays.
  - rewrite Hitems'.
    assert ((if cleared k n ARRAY then []
             else filter (λ c, stays re_search patterns k c) (items n))
            = filter (λ c, stays re_search patterns k c) (items n1)) as ->
      by (rewrite Hi1; by destruct (cleared k n ARRAY)).
    apply outcomes_stay, Forall2_same_length_lookup.
    split; [by eapply Forall2_length|].
    intros i c o Hc Ho. pose proof (Forall2_lookup_lr _ _ _ _ _ _ Hiouts Hc Ho) as Hout.
    simpl in Hout. apply child_outcome_stays; [|done].
    assert (items n !! i = Some c) as Hin
      by (rewrite Hi1 in Hc; by destruct (cleared k n ARRAY)).
    rewrite Forall_forall in IHi. apply (IHi c (list_elem_of_lookup_2 _ _ _ Hin)).
    by eapply all_nodes_item.
Qed.

(** C5 (amended): [prune] with a float [min_f] converts it once, at the
    node it is called on, to [int(min_f * sum(self.counts.values()))]; the
    call then is the call with that int, and the same int is the threshold
    at that node and at every node below it, none being computed from a
    descendant's own counts ([pruned_with]): every node that is left has
    exactly the types it had whose count is at least that int, and, where
    the container was not cleared, a child is left exactly when no pattern
    is found in its path and one of its types has such a count. *)
Theorem prune_float_threshold (n : Node) (patterns : list string) (x : Q)
    (paths : list string) (n' : Node) :
  valid n →
  prune n patterns (MFloat x) = Ok (paths, n') →
  prune n patterns (MInt (int_of_float_times x (sum_counts (counts n)))) = Ok (paths, n')
  ∧ all_nodes (count_reaches (int_of_float_times x (sum_counts (counts n)))) n'
  ∧ pruned_with re_search patterns (int_of_float_times x (sum_counts (counts n))) n n'.
Proof.
  intros Hvalid Hprune. split; [exact Hprune|].
  unfold prune, prune_entry in Hprune.
  apply bind_Ok in Hprune as (k & Hk & Hprune).
  unfold to_cint in Hk. case_bool_decide; [|done]. injection Hk as <-.
  split; [by eapply _prune_threshold|by eapply _prune_pruned_with].
Qed.

(** **** When [prune] changes nothing *)

Lemma concat_nil_elem {A} (l : list (list A)) (x : list A) :
  concat l = [] → x ∈ l → x = [].
Proof.
  induction l as [|y l IH]; simpl; [by intros _ ?%elem_of_nil|].
  intros [-> Hl]%app_eq_nil [->|Hin]%elem_of_cons; auto.
Qed.

Lemma omap_full {A B} (f : A → option B) (l : list A) (l' : list B) :
  omap f l = l' → length l = length l' → Forall2 (λ x y, f x = Some y) l l'.
Proof.
  assert (∀ l0 : list A, (length (omap f l0) ≤ length l0)%nat) as Hle.
  { induction l0 as [|x l0 IH]; csimpl; [lia|]. destruct (f x); simpl; lia. }
  revert l'. induction l as [|x l IH]; intros l'; csimpl.
  - intros <- _. constructor.
  - destruct (f x) as [y|] eqn:Hfx.
    + intros <- [= Hlen]. constructor; [done|]. by apply IH.
    + intros <- Hlen. specialize (Hle l). simpl in Hlen. lia.
Qed.

(** With no pattern, [_prune] that records nothing and hands the tree back
    has found nothing to drop at any node. *)
Lemma _prune_noop_keeps_all (k : Z) (n : Node) :
  valid n → _prune n [] k = Ok ([], n) → all_nodes (keeps_all k) n.
Proof.
  induction n as [n IHp IHi] using Node_ind'. intros Hvalid Hprune.
  pose proof (all_nodes_here _ _ Hvalid) as [Hnd _].
  destruct (_prune_inv _ _ _ _ _ Hnd Hprune)
    as (p0 & n1 & pouts & iouts & Hself & Hpouts & Hiouts & Hpaths & Hlook & _ & Hitems'
        & Htype & _).
  symmetry in Hpaths. apply app_eq_nil in Hpaths as [[-> Hpp]%app_eq_nil Hip].
  destruct (_prune_self_exact _ _ _ _ Hself) as (Ht1 & _ & Hp1 & Hi1 & Hne).
  destruct (_prune_self_path _ _ _ _ Hself) as [_ Hstr].
  assert (∀ t, t ∈ type n → reaches k n t = true) as Hreach.
  { intros t Ht. rewrite Htype, Ht1 in Ht. by apply elem_of_types_reaching in Ht as [_ ?]. }
  assert (∀ t, cleared k n t = false) as Hcl.
  { intros t. unfold cleared. case_bool_decide; [|done]. by rewrite Hreach. }
  rewrite Hcl in Hp1, Hi1. rewrite Hp1 in Hpouts, Hlook. rewrite Hi1 in Hiouts.
  apply all_nodes_children.
  - split_and!.
    + rewrite Htype. by apply Hne.
    + intros t Ht. by apply reaches_count, Hreach.
    + rewrite join_path_outcome, Hstr. eauto.
  - apply Forall_forall. intros [name c] Hin. simpl.
    pose proof (dict_get_elem_NoDup _ _ _ Hnd Hin) as Hget.
    assert (name ∈ sorted (dict_keys (properties n))) as Hname
      by (apply sorted_elem, dict_get_Some_keys; eauto).
    apply list_elem_of_lookup in Hname as [j Hj].
    destruct (Forall2_lookup_l _ _ _ _ _ Hpouts Hj) as ([ps oc] & Ho & c0 & Hc0 & Hout).
    pose proof (Forall2_lookup_lr _ _ _ _ _ _ Hlook Hj Ho) as Hl. simpl in Hl.
    assert (c0 = c) as -> by congruence. rewrite Hget in Hl. subst oc.
    assert (ps = []) as ->.
    { apply (concat_nil_elem _ _ Hpp), list_elem_of_fmap. exists (ps, Some c).
      split; [done|by eapply list_elem_of_lookup_2]. }
    apply child_outcome_kept in Hout.
    rewrite Forall_forall in IHp. apply (IHp (name, c) Hin); [|done].
    by eapply all_nodes_property.
  - assert (Forall2 (λ (o : list string * option Node) c, o.2 = Some c) iouts (items n))
      as Hfull.
    { apply omap_full; [done|]. symmetry. by eapply Forall2_length. }
    apply Forall_lookup_2. intros i c Hc.
    destruct (Forall2_lookup_l _ _ _ _ _ Hiouts Hc) as ([ps oc] & Ho & Hout).
    pose proof (Forall2_lookup_lr _ _ _ _ _ _ Hfull Ho Hc) as Hl. simpl in Hl. subst oc.
    assert (ps = []) as ->.
    { apply (concat_nil_elem _ _ Hip), list_elem_of_fmap. exists (ps, Some c).
      split; [done|]. apply elem_of_reverse. by eapply list_elem_of_lookup_2. }
    apply child_outcome_kept in Hout.
    rewrite Forall_forall in IHi. apply (IHi c (list_elem_of_lookup_2 _ _ _ Hc)); [|done].
    by eapply all_nodes_item.
Qed.

(** C7 (amended): [prune(node, [], 0)] returns the empty list and leaves
    the tree as it is when every node of the tree has a type set that is
    not empty, a recorded count that is not negative for each of its types,
    and a path without int elements; and, each dict holding a key once,
    only then: on any other tree the call raises, records a path or changes
    the tree. *)
Theorem prune_nothing_noop (n : Node) :
  (all_nodes (keeps_all 0) n → prune n [] (MInt 0) = Ok ([], n))
  ∧ (valid n → prune n [] (MInt 0) = Ok ([], n) → all_nodes (keeps_all 0) n).
Proof.
  split.
  - intros Hall. unfold prune, prune_entry. simpl. by apply _prune_keeps_all.
  - intros Hvalid Hprune%prune_to__prune. by apply _prune_noop_keeps_all.
Qed.

(** **** What [fit] keeps and what it drops *)

Lemma _fit_self_step_frame (spath : string) (n_total : Z)
    (vectorizers_ : list (JsonType * Factory)) (ign : list string)
    (t : JsonType) (st st' : Node) :
  _fit_self_step spath n_total vectorizers_ ign t st = Ok st' →
  path st' = path st ∧ tuple_items st' = tuple_items st ∧ type st' = type st
  ∧ counts st' = counts st ∧ required st' = required st
  ∧ properties st' = properties st ∧ items st' = items st ∧ pos st' = pos st
  ∧ values st' = dict_del (values st) t
  ∧ feature_names st `prefix_of` feature_names st'.
Proof.
  unfold _fit_self_step. intros (st1 & Hobj & Hstep)%bind_Ok.
  set (F := λ a b : Node,
    path b = path a ∧ tuple_items b = tuple_items a ∧ type b = type a
    ∧ counts b = counts a ∧ required b = required a
    ∧ properties b = properties a ∧ items b = items a ∧ pos b = pos a
    ∧ values b = values a
    ∧ feature_names a `prefix_of` feature_names b).
  assert (∀ a, F a a) as Frefl by (intros a; unfold F; by split_and!).
  assert (∀ a l, F a (set_feature_names a (feature_names a ++ l))) as Fnames.
  { intros a l. unfold F. destruct a. simpl. split_and!; try done. by apply prefix_app_r. }
  assert (∀ a b c, F a b → F b c → F a c) as Ftrans.
  { unfold F. intros a b c (?&?&?&?&?&?&?&?&?&?) (?&?&?&?&?&?&?&?&?&?).
    split_and!; try congruence. by etrans. }
  set (st0 := if decide (1 < size (type st))%nat then _ else st) in Hobj.
  assert (F st st0) as H0 by (unfold st0; destruct (decide _); auto).
  clearbody st0.
  assert (F st0 st1) as H1.
  { destruct (decide (t = OBJECT)); [|injection Hobj as <-; auto].
    apply bind_Ok in Hobj as (fns & _ & [= <-]). auto. }
  set (st2 := if negb _ then _ else st1) in Hstep.
  assert (F st1 st2) as H2.
  { unfold st2. destruct (negb _); [|auto].
    destruct (dict_get vectorizers_ t) as [factory|]; [|auto].
    destruct (dict_get (values st1) t) as [vals|]; [|auto].
    destruct (vec_fit _ _ _ _) as [v|]; [|auto].
    eapply Ftrans; [|apply Fnames].
    unfold F. destruct st1. simpl. by split_and!. }
  clearbody st2.
  pose proof (Ftrans _ _ _ H0 (Ftrans _ _ _ H1 H2)) as (?&?&?&?&?&?&?&?&Hv&?).
  destruct (dict_in (values st2) t) eqn:Hin; injection Hstep as <-.
  - destruct st2. simpl in *. split_and!; try done. by rewrite Hv.
  - split_and!; try done. rewrite <- Hv. by rewrite dict_del_absent.
Qed.

Lemma _fit_self_frame (n : Node) (p n_total : Z) (rules : list (Rule Factory))
    (ign : list string) (ret : Z) (n1 : Node) :
  _fit_self n p n_total rules ign = Ok (ret, n1) →
  path n1 = path n ∧ tuple_items n1 = tuple_items n ∧ type n1 = type n
  ∧ counts n1 = counts n ∧ required n1 = required n
  ∧ (∀ t, t ∈ dict_keys (values n1) → t ∈ dict_keys (values n) ∧ t ∉ type n)
  ∧ feature_names n `prefix_of` feature_names n1.
Proof.
  unfold _fit_self. cbv zeta. intros (st & Hfold & [= _ <-])%bind_Ok.
  set (I := λ (done : list JsonType) (st : Node),
    path st = path n ∧ tuple_items st = tuple_items n ∧ type st = type n
    ∧ counts st = counts n ∧ required st = required n
    ∧ (∀ t, t ∈ dict_keys (values st) → t ∈ dict_keys (values n) ∧ t ∉ done)
    ∧ feature_names n `prefix_of` feature_names st).
  assert (I (sorted_types (type n)) st) as (?&?&?&?&?&Hv&?).
  { apply (foldl_result_inv _ I) in Hfold; [done| |].
    - unfold I. destruct n. simpl. split_and!; try done.
      intros t Ht. split; [done|]. by intros ?%elem_of_nil.
    - clear. intros done t st st' (?&?&?&?&?&Hv&?) Hstep.
      apply _fit_self_step_frame in Hstep as (?&?&?&?&?&_&_&_&Hv'&?).
      unfold I. split_and!; try congruence; [|by etrans].
      intros t0. rewrite Hv', dict_keys_del. intros [[? ?]%Hv ?]. split; [done|].
      rewrite elem_of_app, list_elem_of_singleton. tauto. }
  split_and!; try done. intros t [? Hnot]%Hv. split; [done|].
  intros Ht. by apply Hnot, sorted_types_complete.
Qed.

Lemma fit_properties_related (f : Z → Node → result (Z * Node))
    (R : Node → Node → Prop) (props0 : list (string * Node)) (names : list string)
    (p : Z) (self : Node) (ret : Z) (self' : Node) (vis : list string) :
  NoDup (dict_keys props0) →
  (∀ name c q q' c', dict_get props0 name = Some c → f q c = Ok (q', c') → R c c') →
  Forall2 (λ kv kv', kv.1 = kv'.1 ∧ (kv.1 ∈ vis → R kv.2 kv'.2)) props0 (properties self) →
  fit_properties f props0 names p self = Ok (ret, self') →
  Forall2 (λ kv kv', kv.1 = kv'.1 ∧ (kv.1 ∈ vis ++ names → R kv.2 kv'.2))
    props0 (properties self').
Proof.
  tidy. intros Hnd HR. revert p self vis.
  induction names as [|name names IH]; intros p self vis Hrel; simpl.
  - intros [= _ <-]. by rewrite app_nil_r.
  - intros (r & Hget & Hrest)%bind_Ok. rewrite get_property_with_get in Hget.
    destruct (dict_get props0 name) as [c|] eqn:Hc; [|done]. simpl in Hget.
    injection Hget as <-. destruct (f p c) as [[q' c']|] eqn:Hf; [|done]. simpl in Hrest.
    rewrite cons_middle, app_assoc. apply (IH _ _ (vis ++ [name])) in Hrest; [done|]. simpl.
    pose proof (HR _ _ _ _ _ Hc Hf) as Hcc. clear -Hrel Hc Hcc Hnd.
    revert Hc Hnd. unfold dict_keys.
    induction Hrel as [|[k v] [k' v'] d d' [Hk Hv] Hrel IHr]; simpl; [done|].
    simpl in Hk, Hv. subst k'. intros Hget [Hnotin Hnd]%NoDup_cons.
    destruct (decide (k = name)) as [->|Hne].
    + injection Hget as ->. constructor; [by simpl|].
      apply Forall2_same_length_lookup. split; [by eapply Forall2_length|].
      intros i [k1 v1] [k2 v2] H1 H2.
      destruct (Forall2_lookup_lr _ _ _ _ _ _ Hrel H1 H2) as [Hk12 Hv12]. simpl in *.
      split; [done|]. intros [?| ->%list_elem_of_singleton]%elem_of_app; [auto|].
      destruct Hnotin. apply list_elem_of_fmap. exists (name, v1). split; [done|].
      by eapply list_elem_of_lookup_2.
    + constructor; [|by apply IHr]. simpl. split; [done|].
      intros [?| ->%list_elem_of_singleton]%elem_of_app; [auto|done].
Qed.

Lemma fit_properties_frame (f : Z → Node → result (Z * Node))
    (props0 : list (string * Node)) (names : list string) (p : Z) (self : Node)
    (ret : Z) (self' : Node) :
  fit_properties f props0 names p self = Ok (ret, self') →
  path self' = path self ∧ tuple_items self' = tuple_items self ∧ type self' = type self
  ∧ counts self' = counts self ∧ required self' = required self
  ∧ values self' = values self ∧ feature_names self' = feature_names self
  ∧ items self' = items self.
Proof.
  tidy. revert p self. induction names as [|name names IH]; intros p self; simpl.
  - intros [= _ <-]. by split_and!.
  - intros (r & _ & Hrest)%bind_Ok. destruct r as [[q c]|]; [|done]. simpl in Hrest.
    apply IH in Hrest. by destruct self.
Qed.

Lemma fit_items_frame (f : Z → Node → result (Z * Node))
    (items0 : list Node) (indices : list nat) (p : Z) (self : Node)
    (ret : Z) (self' : Node) :
  fit_items f items0 indices p self = Ok (ret, self') →
  path self' = path self ∧ tuple_items self' = tuple_items self ∧ type self' = type self
  ∧ counts self' = counts self ∧ required self' = required self
  ∧ values self' = values self ∧ feature_names self' = feature_names self
  ∧ properties self' = properties self.
Proof.
  tidy. revert p self. induction indices as [|i indices IH]; intros p self; simpl.
  - intros [= _ <-]. by split_and!.
  - intros (r & _ & Hrest)%bind_Ok. destruct r as [[q c]|]; [|done]. simpl in Hrest.
    apply IH in Hrest. by destruct self.
Qed.

Lemma fit_chain_Forall2 (f : Z → Node → result (Z * Node)) (p : Z) (cs cs' : list Node)
    (r : Z) :
  fit_chain f p cs cs' r → Forall2 (λ c c', ∃ q q', f q c = Ok (q', c')) cs cs'.
Proof. tidy. induction 1; constructor; [by eexists _, _|done]. Qed.

Lemma _fit_fitted_of (n_total : Z) (rules : list (Rule Factory)) (ign : list string)
    (n : Node) :
  valid n → ∀ p ret n', _fit n p n_total rules ign = Ok (ret, n') → fitted_of n n'.
Proof.
  induction n as [n IHp IHi] using Node_ind'. intros Hvalid p ret n' Hfit.
  rewrite _fit_unfold in Hfit. cbv zeta in Hfit.
  apply bind_Ok in Hfit as ([q0 n1] & Hself & Hfit). simpl in Hfit.
  apply bind_Ok in Hfit as ([q1 n2] & Hprops & Hfit). simpl in Hfit.
  apply bind_Ok in Hfit as ([q2 n3] & Hitems & Hfit). simpl in Hfit.
  injection Hfit as <- <-.
  destruct (_fit_self_spec _ _ _ _ _ _ _ Hself) as (_ & Hprops1 & Hitems1 & _).
  destruct (_fit_self_frame _ _ _ _ _ _ _ Hself) as (Hpa & Hti & Hty & Hco & Hre & Hva & Hfn).
  pose proof (all_nodes_here _ _ Hvalid) as [Hnd _].
  destruct (fit_properties_frame _ _ _ _ _ _ _ Hprops)
    as (Hpa2 & Hti2 & Hty2 & Hco2 & Hre2 & Hva2 & Hfn2 & Hit2).
  destruct (fit_items_frame _ _ _ _ _ _ _ Hitems)
    as (Hpa3 & Hti3 & Hty3 & Hco3 & Hre3 & Hva3 & Hfn3 & Hpr3).
  apply (fit_properties_related _ fitted_of _ _ _ _ _ _ []) in Hprops; [|done| |].
  2:{ intros name c q q' c' Hget Hf. rewrite Forall_forall in IHp.
      exact (IHp (name, c) (dict_get_Some_elem _ _ _ Hget)
               (all_nodes_property _ _ _ _ Hvalid Hget) _ _ _ Hf). }
  2:{ rewrite Hprops1. apply Forall2_same_length_lookup. split; [done|].
      intros i x y Hx Hy. rewrite Hx in Hy. injection Hy as <-.
      split; [done|]. by intros ?%elem_of_nil. }
  apply (fit_items_spec _ _ _ 0 _ _ []) in Hitems
    as (is' & Hchain & Hitems3 & _);
    [|done|by rewrite Hit2, Hitems1|by rewrite drop_0, Hit2, Hitems1].
  rewrite drop_0 in Hchain. simpl in Hitems3. apply fit_chain_Forall2 in Hchain.
  constructor; simpl; try congruence.
  - intros t Ht. apply Hva. congruence.
  - rewrite Hpr3. apply Forall2_same_length_lookup. split; [by eapply Forall2_length|].
    intros i [k v] [k' v'] Hkv Hkv'.
    destruct (Forall2_lookup_lr _ _ _ _ _ _ Hprops Hkv Hkv') as [Hk Hv].
    split; [done|]. apply Hv. simpl. apply sorted_elem. rewrite Hprops1.
    apply list_elem_of_fmap. exists (k, v). split; [done|].
    by eapply list_elem_of_lookup_2.
  - rewrite Hitems3. apply Forall2_same_length_lookup. split; [by eapply Forall2_length|].
    intros i c c' Hc Hc'.
    destruct (Forall2_lookup_lr _ _ _ _ _ _ Hchain Hc Hc') as (q & q' & Hf).
    rewrite Forall_forall in IHi.
    exact (IHi c (list_elem_of_lookup_2 _ _ _ Hc) (all_nodes_item _ _ _ _ Hvalid Hc) _ _ _ Hf).
Qed.

(** A loop written as a fold over [result] returns when each step does,
    under an invariant. *)
Lemma foldl_result_total {S T} (step : T → S → result S) (I : S → Prop)
    (ts : list T) (st0 : S) :
  I st0 →
  (∀ t st, t ∈ ts → I st → ∃ st', step t st = Ok st' ∧ I st') →
  ∃ st', foldl (λ st t, st ← st; step t st) (Ok st0) ts = Ok st' ∧ I st'.
Proof.
  intros H0 Hstep. revert st0 H0. induction ts as [|t ts IH]; intros st0 H0.
  - by exists st0.
  - destruct (Hstep t st0 ltac:(left) H0) as (st1 & Hst1 & H1).
    change (foldl ?f ?a (t :: ts)) with (foldl f (step t st0) ts).
    rewrite Hst1. apply IH; [|done]. intros t' st Hin. apply Hstep. by right.
Qed.

Lemma property_feature_names_total (spath : string) (req : gset string)
    (names : list string) :
  ∃ fns, property_feature_names spath (Some req) names = Ok fns.
Proof.
  induction names as [|name names [fns IH]]; simpl; [by eexists|].
  rewrite IH. simpl. destruct (decide _); by eexists.
Qed.

Lemma _fit_self_step_total (spath : string) (n_total : Z)
    (vectorizers_ : list (JsonType * Factory)) (ign : list string)
    (t : JsonType) (st : Node) :
  (t = OBJECT → is_Some (required st)) →
  ∃ st', _fit_self_step spath n_total vectorizers_ ign t st = Ok st'.
Proof.
  intros Hreq. unfold _fit_self_step.
  set (st0 := if decide (1 < size (type st))%nat then _ else st).
  assert (required st0 = required st) as Hr0 by (unfold st0; by destruct (decide _), st).
  clearbody st0.
  destruct (decide (t = OBJECT)) as [Ht|].
  - destruct (Hreq Ht) as [req Hr]. rewrite Hr0, Hr.
    destruct (property_feature_names_total spath req
                (sorted (dict_keys (properties st0)))) as [fns ->].
    simpl. destruct (dict_in _ _); by eexists.
  - simpl. destruct (dict_in _ _); by eexists.
Qed.

Lemma _fit_self_total (n : Node) (p n_total : Z) (rules : list (Rule Factory))
    (ign : list string) :
  (OBJECT ∈ type n → is_Some (required n)) →
  ∃ ret n1, _fit_self n p n_total rules ign = Ok (ret, n1).
Proof.
  intros Hreq. unfold _fit_self. cbv zeta.
  match goal with
  | |- context [foldl (λ st t, st ≫= λ self, _fit_self_step ?sp ?nt ?vs ?ig t self)
                  (Ok ?s0) ?ts] =>
      destruct (foldl_result_total (_fit_self_step sp nt vs ig)
                  (λ st, type st = type n ∧ required st = required n) ts s0)
        as (st & Hst & _)
  end.
  - by destruct n.
  - intros t st Hin [Hty Hre].
    destruct (_fit_self_step_total (join_path_str (path n)) n_total
                (omap (λ json_type,
                         (json_type,.) <$> get_vectorizer re_search rules json_type
                                             (join_path_str (path n)))
                   (sorted_types (type (set_pos n p)))) ign t st) as [st' Hst'].
    { intros ->. rewrite Hre. apply Hreq. apply sorted_types_elem in Hin. by destruct n. }
    exists st'. split; [done|].
    apply _fit_self_step_frame in Hst' as (_ & _ & -> & _ & -> & _). done.
  - rewrite Hst. simpl. by eexists _, _.
Qed.

Lemma fit_properties_total (f : Z → Node → result (Z * Node))
    (props0 : list (string * Node)) (names : list string) (p : Z) (self : Node) :
  (∀ name, name ∈ names →
     ∃ c, dict_get props0 name = Some c ∧ ∀ q, ∃ r, f q c = Ok r) →
  ∃ r, fit_properties f props0 names p self = Ok r.
Proof.
  tidy. revert p self. induction names as [|name names IH]; intros p self Hkids; simpl.
  - by eexists.
  - destruct (Hkids name) as (c & Hc & Hf); [left|].
    rewrite get_property_with_get, Hc. simpl. destruct (Hf p) as [[q c'] ->]. simpl.
    apply IH. intros name' Hin. apply Hkids. by right.
Qed.

Lemma fit_items_total (f : Z → Node → result (Z * Node))
    (items0 : list Node) (indices : list nat) (p : Z) (self : Node) :
  (∀ i, i ∈ indices → ∃ c, items0 !! i = Some c ∧ ∀ q, ∃ r, f q c = Ok r) →
  ∃ r, fit_items f items0 indices p self = Ok r.
Proof.
  tidy. revert p self. induction indices as [|i indices IH]; intros p self Hkids; simpl.
  - by eexists.
  - destruct (Hkids i) as (c & Hc & Hf); [left|].
    rewrite get_item_with_lookup, Hc. simpl. destruct (Hf p) as [[q c'] ->]. simpl.
    apply IH. intros i' Hin. apply Hkids. by right.
Qed.

(** [_fit] returns on a tree in which every node that has the object type
    has its [required] set. *)
Lemma _fit_total (n_total : Z) (rules : list (Rule Factory)) (ign : list string)
    (n : Node) :
  all_nodes (λ m, OBJECT ∈ type m → is_Some (required m)) n →
  ∀ p, ∃ r, _fit n p n_total rules ign = Ok r.
Proof.
  induction n as [n IHp IHi] using Node_ind'. intros Hall p.
  apply all_nodes_inv in Hall as (Hreq & Hp & Hi).
  rewrite _fit_unfold. cbv zeta.
  destruct (_fit_self_total n p n_total rules ign Hreq) as (q0 & n1 & Hself).
  rewrite Hself. simpl.
  destruct (_fit_self_spec _ _ _ _ _ _ _ Hself) as (_ & Hprops1 & Hitems1 & _).
  edestruct (fit_properties_total
               (λ pos child, _fit child pos n_total rules ign)
               (properties n) (sorted (dict_keys (properties n1))) q0 n1)
    as [[q1 n2] Hprops].
  { intros name Hin. apply (proj1 (sorted_elem _ _)) in Hin. rewrite Hprops1 in Hin.
    apply dict_get_Some_keys in Hin as [c Hc]. exists c. split; [done|].
    rewrite Forall_forall in IHp, Hp.
    apply (IHp (name, c) (dict_get_Some_elem _ _ _ Hc)).
    apply (Hp (name, c) (dict_get_Some_elem _ _ _ Hc)). }
  rewrite Hprops. simpl.
  destruct (fit_properties_frame _ _ _ _ _ _ _ Hprops) as (_ & _ & _ & _ & _ & _ & _ & Hit2).
  edestruct (fit_items_total
               (λ pos child, _fit child pos n_total rules ign)
               (items n) (seq 0 (length (items n2))) q1 n2)
    as [[q2 n3] Hitems].
  { intros i Hin%elem_of_seq. rewrite Hit2, Hitems1 in Hin.
    destruct (lookup_lt_is_Some_2 (items n) i) as [c Hc]; [lia|]. exists c. split; [done|].
    rewrite Forall_forall in IHi, Hi.
    apply (IHi c (list_elem_of_lookup_2 _ _ _ Hc)), Hi.
    by eapply list_elem_of_lookup_2. }
  rewrite Hitems. simpl. by eexists.
Qed.

Lemma extend_outcome (self : Node) (docs : list Doc) :
  if forallb (classifiable VERSION strptime_ok) docs
  then ∃ self', extend self docs = Ok self'
  else extend self docs = Raise TypeError.
Proof.
  revert self. induction docs as [|doc docs IH]; intros self; simpl; [by eexists|].
  pose proof (_extend_outcome doc self) as Hdoc.
  destruct (classifiable VERSION strptime_ok doc); simpl.
  - destruct Hdoc as [self1 ->]. simpl. apply IH.
  - by rewrite Hdoc.
Qed.

Lemma fitted_of_same_shape (n n' : Node) : fitted_of n n' → same_shape n n'.
Proof.
  tidy. revert n'. induction n as [n IHp IHi] using Node_ind'.
  intros n' [_ _ Hty Hco Hre _ _ Hprops Hitems].
  constructor; try done.
  - unfold dict_keys. symmetry. apply list_eq_Forall2, Forall2_fmap.
    eapply Forall2_impl; [exact Hprops|]. by intros kv kv' [? _].
  - symmetry. by eapply Forall2_length.
  - apply Forall2_fmap. apply Forall2_same_length_lookup.
    split; [by eapply Forall2_length|]. intros i kv kv' Hkv Hkv'.
    destruct (Forall2_lookup_lr _ _ _ _ _ _ Hprops Hkv Hkv') as [_ Hf].
    rewrite Forall_forall in IHp. apply (IHp kv); [|done]. by eapply list_elem_of_lookup_2.
  - apply Forall2_same_length_lookup.
    split; [by eapply Forall2_length|]. intros i c c' Hc Hc'.
    pose proof (Forall2_lookup_lr _ _ _ _ _ _ Hitems Hc Hc') as Hf.
    rewrite Forall_forall in IHi. apply (IHi c); [|done]. by eapply list_elem_of_lookup_2.
Qed.

Lemma fitted_of_no_values (n n' : Node) :
  all_nodes counts_ok n → fitted_of n n' → all_nodes (λ m, values m = []) n'.
Proof.
  tidy. revert n'. induction n as [n IHp IHi] using Node_ind'.
  intros n' (Hcounts & Hp & Hi)%all_nodes_inv [_ _ _ _ _ Hva _ Hprops Hitems].
  apply all_nodes_children.
  - destruct Hcounts as (_ & _ & _ & Hvals).
    destruct (values n') as [|[t v] rest] eqn:Hv; [done|].
    destruct (Hva t) as [Hin Hnot]; [left|]. by destruct Hnot, (Hvals t Hin).
  - apply Forall_forall. intros kv' [i Hkv']%list_elem_of_lookup.
    destruct (Forall2_lookup_r _ _ _ _ _ Hprops Hkv') as (kv & Hkv & _ & Hf).
    rewrite Forall_forall in IHp, Hp.
    apply (IHp kv (list_elem_of_lookup_2 _ _ _ Hkv)); [|done].
    apply Hp. by eapply list_elem_of_lookup_2.
  - apply Forall_forall. intros c' [i Hc']%list_elem_of_lookup.
    destruct (Forall2_lookup_r _ _ _ _ _ Hitems Hc') as (c & Hc & Hf).
    rewrite Forall_forall in IHi, Hi.
    apply (IHi c (list_elem_of_lookup_2 _ _ _ Hc)); [|done].
    apply Hi. by eapply list_elem_of_lookup_2.
Qed.

(** X21: [fit] on a new vectorizer returns exactly when every value of
    every document, nested ones included, has a JSON type, whatever the
    rules and the patterns; otherwise it raises TypeError.  In tuple mode
    too: the fit step writes the path with [map(str, ...)]. *)
Theorem fit_returns (p : list Seg) (tuple_mode : bool) (docs : list Doc)
    (rules : list (Rule Factory)) (ign : list string) (root0 : Node) :
  init empty_repr p tuple_mode = Ok root0 →
  if forallb (classifiable VERSION strptime_ok) docs
  then ∃ root', fit root0 docs rules ign = Ok root'
  else fit root0 docs rules ign = Raise TypeError.
Proof.
  intros Hinit. unfold fit. pose proof (extend_outcome root0 docs) as Hext.
  destruct (forallb _ docs).
  - destruct Hext as [root Hroot]. rewrite Hroot. simpl.
    destruct (extend_new_invariants _ _ _ _ _ Hinit Hroot) as (Hall & _).
    destruct (_fit_total (sum_counts (counts root)) rules ign root) with (p := 0)
      as [[ret root'] ->].
    + revert Hall. apply all_nodes_impl. intros m (_ & (Hreq & _) & _). apply Hreq.
    + simpl. by eexists.
  - by rewrite Hext.
Qed.

(** X22: [fit] leaves the learned schema as [extend] built it: at every
    node the path, the array mode, the types, the counts and the required
    set are unchanged and the children are the same, under the same names
    and at the same indices; the feature names a node already had stay in
    front of the new ones, and the samples that are left belong to no type
    of the node. *)
Theorem fit_keeps_schema (self : Node) (docs : list Doc) (rules : list (Rule Factory))
    (ign : list string) (learned self' : Node) :
  valid self →
  extend self docs = Ok learned →
  fit self docs rules ign = Ok self' →
  fitted_of learned self' ∧ same_shape learned self'.
Proof.
  intros Hvalid Hext Hfit. unfold fit in Hfit. rewrite Hext in Hfit. simpl in Hfit.
  apply bind_Ok in Hfit as ([ret n'] & Hfit & [= <-]).
  assert (fitted_of learned n') as Hf.
  { eapply _fit_fitted_of; [|exact Hfit]. by eapply extend_valid. }
  split; [done|by apply fitted_of_same_shape].
Qed.

(** X23: after [fit] on a new vectorizer no node holds samples: the values
    collected by [extend] are deleted type by type. *)
Theorem fit_drops_values (p : list Seg) (tuple_mode : bool) (docs : list Doc)
    (rules : list (Rule Factory)) (ign : list string) (root0 root' : Node) :
  init empty_repr p tuple_mode = Ok root0 →
  fit root0 docs rules ign = Ok root' →
  all_nodes (λ m, values m = []) root'.
Proof.
  intros Hinit Hfit. unfold fit in Hfit.
  apply bind_Ok in Hfit as (root & Hroot & Hfit).
  apply bind_Ok in Hfit as ([ret n'] & Hfit & [= <-]).
  destruct (extend_new_invariants _ _ _ _ _ Hinit Hroot) as (Hall & _).
  apply (fitted_of_no_values root).
  - revert Hall. apply all_nodes_impl. tauto.
  - eapply _fit_fitted_of; [|exact Hfit]. eapply extend_valid; [|exact Hroot].
    rewrite init_empty in Hinit. injection Hinit as <-. apply valid_fresh.
Qed.

(** **** The matrix under [transform] *)

Lemma grows_within_refl (P : nat → Prop) (X : Matrix) : grows_within P X X.
Proof. tidy. split; [done|]. intros r row Hr. exists row. by split_and!. Qed.

Lemma grows_within_trans (P : nat → Prop) (X Y Z : Matrix) :
  grows_within P X Y → grows_within P Y Z → grows_within P X Z.
Proof.
  tidy. intros [Hl1 H1] [Hl2 H2]. split; [congruence|]. intros r row Hr.
  destruct (H1 r row Hr) as (row1 & Hr1 & Hc1 & Hs1).
  destruct (H2 r row1 Hr1) as (row2 & Hr2 & Hc2 & Hs2).
  exists row2. split_and!; [done|auto|]. intros HP. by rewrite Hs2, Hs1.
Qed.

Lemma grows_within_mono (P Q : nat → Prop) (X Y : Matrix) :
  (∀ r, P r → Q r) → grows_within P X Y → grows_within Q X Y.
Proof.
  tidy. intros HPQ [Hl H]. split; [done|]. intros r row Hr.
  destruct (H r row Hr) as (row' & Hr' & Hc & Hs). exists row'. split_and!; auto.
Qed.

Lemma rows_extended_grows (rows rows' : list (list Z)) (datas datas' : list (list bool))
    (entries : list (nat * Z)) :
  Forall2 row_ok rows datas → Forall2 row_ok rows' datas' →
  rows_extended rows rows' entries →
  grows_within (λ r, r ∈ entries.*1) (rows, datas) (rows', datas').
Proof.
  tidy. intros Hok Hok' [Hlen Hext]. split; [done|]. simpl. intros r row Hr.
  destruct (Hext r row Hr) as (row' & Hr' & Hc). exists row'. split_and!; [done| |].
  - intros c Hin. apply Hc. by left.
  - intros Hnot.
    destruct (Forall2_lookup_l _ _ _ _ _ Hok Hr) as (data & _ & [Hs _]).
    destruct (Forall2_lookup_l _ _ _ _ _ Hok' Hr') as (data' & _ & [Hs' _]).
    apply StronglySorted_elem_eq; [done..|]. intros c. rewrite Hc. split; [|by left].
    intros [?|Hin]; [done|]. destruct Hnot. apply list_elem_of_fmap. by exists (r, c).
Qed.

Lemma lil_set_col_all_true (rows : list (list Z)) (datas : list (list bool))
    (rs : list nat) (col : Z) (X' : Matrix) :
  Lil.lil_set_col rows datas rs col = Ok X' →
  Forall (Forall (λ b, b = true)) datas → Forall (Forall (λ b, b = true)) X'.2.
Proof.
  tidy. revert rows datas. induction rs as [|r rs IH]; intros rows datas; simpl.
  - by intros [= <-].
  - intros ([rows1 datas1] & Hins & Hrest)%bind_Ok Hall.
    apply (IH _ _ Hrest). by eapply lil_insert_all_true.
Qed.

Lemma lil_set_all_true (rows : list (list Z)) (datas : list (list bool))
    (rs : list nat) (cols : list Z) (X' : Matrix) :
  Lil.lil_set rows datas rs cols = Ok X' →
  Forall (Forall (λ b, b = true)) datas → Forall (Forall (λ b, b = true)) X'.2.
Proof.
  tidy. revert rows datas cols. induction rs as [|r rs IH]; intros rows datas cols; simpl.
  - by intros [= <-].
  - destruct cols as [|c cols]; [done|].
    intros ([rows1 datas1] & Hins & Hrest)%bind_Ok Hall.
    apply (IH _ _ _ Hrest). by eapply lil_insert_all_true.
Qed.

Lemma lil_set_col_grows (X : Matrix) (rs : list nat) (col : Z) (X' : Matrix) :
  matrix_ok X → Lil.lil_set_col X.1 X.2 rs col = Ok X' →
  matrix_ok X' ∧ grows_within (λ r, r ∈ rs) X X'.
Proof.
  tidy. destruct X as [rows datas], X' as [rows' datas']. simpl. intros [Hok Htrue] Hset.
  destruct (lil_set_col_inv _ _ _ _ _ _ Hok Hset) as (Hok' & Hext & _).
  split; [split; [done|by apply (lil_set_col_all_true _ _ _ _ _ Hset)]|].
  eapply grows_within_mono; [|by apply (rows_extended_grows _ _ _ _ _ Hok Hok' Hext)].
  intros r ([r0 c] & -> & Hin)%list_elem_of_fmap.
  by apply list_elem_of_fmap in Hin as (r1 & [= -> ->] & Hin).
Qed.

Lemma lil_set_grows (X : Matrix) (rs : list nat) (cols : list Z) (X' : Matrix) :
  matrix_ok X → Lil.lil_set X.1 X.2 rs cols = Ok X' →
  matrix_ok X' ∧ grows_within (λ r, r ∈ rs) X X'.
Proof.
  tidy. destruct X as [rows datas], X' as [rows' datas']. simpl. intros [Hok Htrue] Hset.
  destruct (lil_set_inv _ _ _ _ _ _ Hok Hset) as (Hok' & Hext & _).
  split; [split; [done|by apply (lil_set_all_true _ _ _ _ _ Hset)]|].
  eapply grows_within_mono; [|by apply (rows_extended_grows _ _ _ _ _ Hok Hok' Hext)].
  intros r ([r0 c] & -> & Hin)%list_elem_of_fmap. simpl.
  apply elem_of_zip_l in Hin. done.
Qed.

Lemma mapM_Ok_Forall2 {A B} (g : A → result B) (l : list A) (l' : list B) :
  mapM g l = Ok l' → Forall2 (λ a b, g a = Ok b) l l'.
Proof.
  revert l'. induction l as [|a l IH]; intros l'; simpl.
  - intros [= <-]. constructor.
  - intros (b & Hb & (k & Hk & [= <-])%bind_Ok)%bind_Ok. constructor; auto.
Qed.

Lemma take_indices_elem {A} (indices : list A) (indices_ : list nat) (rs : list A) :
  take_indices indices indices_ = Ok rs →
  ∀ r, r ∈ rs → ∃ i, i ∈ indices_ ∧ indices !! i = Some r.
Proof.
  tidy. unfold take_indices. intros H%mapM_Ok_Forall2 r [k Hk]%list_elem_of_lookup.
  destruct (Forall2_lookup_r _ _ _ _ _ H Hk) as (i & Hi & Hget).
  exists i. split; [by eapply list_elem_of_lookup_2|].
  destruct (indices !! i); [|done]. by injection Hget as ->.
Qed.

Lemma set_col_if_in_grows {K} `{EqDecision K} (X : Matrix) (indices : list nat)
    (d : list (K * list nat)) (key : K) (p : Z) (X' : Matrix) :
  matrix_ok X → set_col_if_in X indices d key p = Ok X' →
  matrix_ok X'
  ∧ grows_within (λ r, ∃ l i, dict_get d key = Some l ∧ i ∈ l ∧ indices !! i = Some r) X X'.
Proof.
  tidy. intros Hok. unfold set_col_if_in.
  destruct (dict_get d key) as [l|] eqn:Hget.
  - intros (rs & Hrs & Hset)%bind_Ok.
    destruct (lil_set_col_grows _ _ _ _ Hok Hset) as [Hok' Hg]. split; [done|].
    eapply grows_within_mono; [|exact Hg]. intros r Hr.
    destruct (take_indices_elem _ _ _ Hrs r Hr) as (i & Hi & Hri). by exists l, i.
  - intros [= <-]. split; [done|apply grows_within_refl].
Qed.

Lemma transform_properties_grows (req : option (gset string)) (indices : list nat)
    (ibp : list (string * list nat)) (names : list string) (p : Z) (X : Matrix)
    (p' : Z) (X' : Matrix) :
  matrix_ok X →
  transform_properties req indices ibp names (p, X) = Ok (p', X') →
  matrix_ok X'
  ∧ grows_within
      (λ r, ∃ name l i, dict_get ibp name = Some l ∧ i ∈ l ∧ indices !! i = Some r) X X'.
Proof.
  tidy. revert p X. induction names as [|name names IH]; intros p X Hok; simpl.
  - intros [= _ <-]. split; [done|apply grows_within_refl].
  - intros (r & _ & Hrest)%bind_Ok. destruct (decide (name ∉ r)); [|exact (IH _ _ Hok Hrest)].
    apply bind_Ok in Hrest as (X1 & Hset & Hrest).
    destruct (set_col_if_in_grows _ _ _ _ _ _ Hok Hset) as [Hok1 Hg1].
    destruct (IH _ _ Hok1 Hrest) as [Hok' Hg']. split; [done|].
    eapply grows_within_trans; [|exact Hg'].
    eapply grows_within_mono; [|exact Hg1]. intros r0 (l & i & ? & ? & ?). by exists name, l, i.
Qed.

(** The rows [_transform_self] may write: those of the documents listed
    under a type or under a property. *)
Lemma _transform_self_step_grows (self : Node) (docs : list Doc) (indices : list nat)
    (ibt : list (JsonType * list nat)) (ibp : list (string * list nat))
    (t : JsonType) (p : Z) (X : Matrix) (p' : Z) (X' : Matrix) :
  matrix_ok X →
  _transform_self_step vec_feature_names vec_transform self docs indices ibt ibp t (p, X)
  = Ok (p', X') →
  matrix_ok X'
  ∧ grows_within
      (λ r, (∃ t l i, dict_get ibt t = Some l ∧ i ∈ l ∧ indices !! i = Some r)
            ∨ (∃ name l i, dict_get ibp name = Some l ∧ i ∈ l ∧ indices !! i = Some r))
      X X'.
Proof.
  intros Hok. unfold _transform_self_step.
  intros ([p1 X1] & H1 & ([p2 X2] & H2 & H3)%bind_Ok)%bind_Ok.
  set (W := λ r, (∃ t l i, dict_get ibt t = Some l ∧ i ∈ l ∧ indices !! i = Some r)
                 ∨ (∃ name l i, dict_get ibp name = Some l ∧ i ∈ l ∧ indices !! i = Some r)).
  assert (matrix_ok X1 ∧ grows_within W X X1) as [Hok1 Hg1].
  { destruct (decide (1 < size (type self))%nat);
      [|injection H1 as <- <-; split; [done|apply grows_within_refl]].
    apply bind_Ok in H1 as (X0 & Hset & [= <- <-]).
    destruct (set_col_if_in_grows _ _ _ _ _ _ Hok Hset) as [Hok0 Hg0]. split; [done|].
    eapply grows_within_mono; [|exact Hg0]. intros r (l0 & i & ? & ? & ?). left.
    by exists t, l0, i. }
  assert (matrix_ok X2 ∧ grows_within W X1 X2) as [Hok2 Hg2].
  { destruct (decide (t = OBJECT));
      [|injection H2 as <- <-; split; [done|apply grows_within_refl]].
    destruct (transform_properties_grows _ _ _ _ _ _ _ _ Hok1 H2) as [Hok0 Hg0].
    split; [done|]. eapply grows_within_mono; [|exact Hg0]. intros r ?. by right. }
  assert (matrix_ok X' ∧ grows_within W X2 X') as [Hok3 Hg3].
  { destruct (dict_get (vectorizers self) t) as [v|];
      [|injection H3 as <- <-; split; [done|apply grows_within_refl]].
    apply bind_Ok in H3 as (X3 & H3 & [= _ <-]).
    destruct (dict_get ibt t) as [l|] eqn:Hl;
      [|injection H3 as <-; split; [done|apply grows_within_refl]].
    apply bind_Ok in H3 as (docs_ & _ & (rows1 & Hrows1 & (rows2 & Hrows2 & Hset)%bind_Ok)%bind_Ok).
    destruct (lil_set_grows _ _ _ _ Hok2 Hset) as [Hok0 Hg0]. split; [done|].
    eapply grows_within_mono; [|exact Hg0]. intros r Hr. left.
    destruct (take_indices_elem _ _ _ Hrows2 r Hr) as (k & _ & Hk).
    destruct (take_indices_elem _ _ _ Hrows1 r (list_elem_of_lookup_2 _ _ _ Hk))
      as (i & Hi & Hri).
    by exists t, l, i. }
  split; [done|].
  exact (grows_within_trans _ _ _ _ Hg1 (grows_within_trans _ _ _ _ Hg2 Hg3)).
Qed.

Lemma _transform_self_grows (self : Node) (docs : list Doc) (X : Matrix)
    (indices : list nat) (ibt : list (JsonType * list nat))
    (ibp : list (string * list nat)) (X' : Matrix) :
  matrix_ok X →
  _transform_self vec_feature_names vec_transform self docs X indices ibt ibp = Ok X' →
  matrix_ok X'
  ∧ grows_within
      (λ r, (∃ t l i, dict_get ibt t = Some l ∧ i ∈ l ∧ indices !! i = Some r)
            ∨ (∃ name l i, dict_get ibp name = Some l ∧ i ∈ l ∧ indices !! i = Some r))
      X X'.
Proof.
  intros Hok. unfold _transform_self. intros ([p' X1] & Hfold & [= <-])%bind_Ok.
  set (W := λ r, (∃ t l i, dict_get ibt t = Some l ∧ i ∈ l ∧ indices !! i = Some r)
                 ∨ (∃ name l i, dict_get ibp name = Some l ∧ i ∈ l ∧ indices !! i = Some r)).
  apply (foldl_result_inv
           (_transform_self_step vec_feature_names vec_transform self docs indices ibt ibp)
           (λ _ (st : Z * Matrix), matrix_ok st.2 ∧ grows_within W X st.2)
           (sorted_types (type self)) (pos self, X) (p', X1)); [|clear Hfold|exact Hfold].
  - split; [done|apply grows_within_refl].
  - intros _ t [p0 X0] [p1 X2] [Hok0 Hg0] Hstep. simpl in *.
    destruct (_transform_self_step_grows _ _ _ _ _ _ _ _ _ _ Hok0 Hstep) as [Hok1 Hg1].
    split; [done|]. by eapply grows_within_trans.
Qed.

(** **** The three partitions of [_transform] *)

Lemma dict_get_append {K A} `{EqDecision K} (d : list (K * list A)) (k k' : K) (x : A) :
  dict_get (dict_append d k x) k'
  = if decide (k = k') then Some (default [] (dict_get d k) ++ [x]) else dict_get d k'.
Proof.
  unfold dict_append. destruct (dict_get d k) as [l|] eqn:Hl; rewrite dict_get_set;
    by destruct (decide (k = k')).
Qed.

(** Every index [partition_by_type] lists under a type is that of a
    document of this type, and the type is one of the node's. *)
Lemma partition_by_type_spec (ty : gset JsonType) (rest : list Doc) (pre : list Doc)
    (acc d : list (JsonType * list nat)) :
  partition_by_type VERSION strptime_ok ty rest (length pre) acc = Ok d →
  (∀ t l i, dict_get acc t = Some l → i ∈ l →
     ∃ doc, (pre ++ rest) !! i = Some doc ∧ typeof doc = Ok t ∧ t ∈ ty) →
  ∀ t l i, dict_get d t = Some l → i ∈ l →
    ∃ doc, (pre ++ rest) !! i = Some doc ∧ typeof doc = Ok t ∧ t ∈ ty.
Proof.
  revert pre acc. induction rest as [|doc rest IH]; intros pre acc; simpl.
  - by intros [= <-].
  - intros (t0 & Ht0 & Hrest)%bind_Ok Hacc.
    replace (S (length pre)) with (length (pre ++ [doc])) in Hrest
      by (rewrite length_app; simpl; lia).
    rewrite cons_middle, app_assoc. apply (IH _ _ Hrest).
    rewrite <- app_assoc, <- cons_middle.
    destruct (decide (t0 ∈ ty)) as [Hin|]; [|done].
    intros t l i. rewrite dict_get_append. destruct (decide (t0 = t)) as [<-|]; [|by apply Hacc].
    intros [= <-] [Hi| ->%list_elem_of_singleton]%elem_of_app.
    + destruct (dict_get acc t0) as [l0|] eqn:Hl0; [by eapply Hacc|].
      by apply elem_of_nil in Hi.
    + exists doc. by rewrite list_lookup_middle.
Qed.

Lemma partition_by_property_spec (Q : nat → Prop) (self : Node) (docs : list Doc)
    (ois : list nat) (acc d : list (string * list nat)) :
  partition_by_property self docs ois acc = Ok d →
  Forall Q ois →
  (∀ name l i, dict_get acc name = Some l → i ∈ l → Q i) →
  ∀ name l i, dict_get d name = Some l → i ∈ l → Q i.
Proof.
  tidy. revert acc. induction ois as [|i0 ois IH]; intros acc; simpl.
  - by intros [= <-].
  - intros (doc & _ & (kvs & _ & Hrest)%bind_Ok)%bind_Ok [Hi0 Hois]%Forall_cons Hacc.
    apply (IH _ Hrest Hois). clear Hrest. generalize (dict_keys kvs). intros keys.
    revert acc Hacc. induction keys as [|key keys IHk]; intros acc Hacc; simpl; [done|].
    apply IHk. destruct (dict_in _ key); [|done].
    intros name l i. rewrite dict_get_append. destruct (decide (key = name)); [|by apply Hacc].
    intros [= <-] [Hi| ->%list_elem_of_singleton]%elem_of_app; [|done].
    destruct (dict_get acc key) as [l0|] eqn:Hl0; [by eapply Hacc|].
    by apply elem_of_nil in Hi.
Qed.

Lemma partition_by_item_spec (Q : nat → Prop) (self : Node) (docs : list Doc)
    (ais : list nat) (acc d : list (list nat)) :
  partition_by_item self docs ais acc = Ok d →
  Forall Q ais →
  Forall (Forall Q) acc → Forall (Forall Q) d.
Proof.
  tidy. revert acc. induction ais as [|i0 ais IH]; intros acc; simpl.
  - by intros [= <-].
  - intros (doc & _ & (l & _ & Hrest)%bind_Ok)%bind_Ok [Hi0 Hais]%Forall_cons Hacc.
    apply (IH _ Hrest Hais). clear Hrest. generalize (seq 0 (length l)). intros js.
    revert acc Hacc. induction js as [|j js IHj]; intros acc Hacc; simpl; [done|].
    apply IHj. destruct (decide _); [|done]. destruct (decide _).
    + apply Forall_alter; [done|]. intros ind Hind HQ.
      apply Forall_app. split; [done|by constructor].
    + apply Forall_app. split; [done|]. by repeat constructor.
Qed.

Lemma sorted_items_elem {V} (d : list (string * V)) (name : string) (v : V) :
  (name, v) ∈ sorted_items d → dict_get d name = Some v.
Proof.
  unfold sorted_items. intros (k & _ & Hk)%list_elem_of_omap.
  destruct (dict_get d k) as [v'|] eqn:Hv; [|done]. simpl in Hk. by injection Hk as <- <-.
Qed.

Lemma _transform_unfold (self : Node) (docs : list Doc) (X : Matrix) (indices : list nat) :
  _transform VERSION strptime_ok vec_feature_names vec_transform comprehension_leaks
    self docs X indices
  = let child_transform := λ docs_ X rows_ (child : Node),
      _transform VERSION strptime_ok vec_feature_names vec_transform comprehension_leaks
        child docs_ X rows_ in
    let i := 0%nat in
    indices_by_type ← partition_by_type VERSION strptime_ok (type self) docs 0 [];
    let i := after_for i (seq 0 (length docs)) in
    '(indices_by_property, i) ←
      match dict_get indices_by_type OBJECT with
      | Some object_indices =>
          d ← partition_by_property self docs object_indices [];
          Ok (d, after_for i object_indices)
      | None => Ok ([], i)
      end;
    '(indices_by_item, i) ←
      match dict_get indices_by_type ARRAY with
      | Some array_indices =>
          d ← partition_by_item self docs array_indices [];
          Ok (d, after_for i array_indices)
      | None => Ok ([], i)
      end;
    X ← _transform_self vec_feature_names vec_transform self docs X indices
           indices_by_type indices_by_property;
    '(i, X) ←
      (if dict_in indices_by_type OBJECT then
         transform_children_by_property comprehension_leaks child_transform self docs
           indices (sorted_items indices_by_property) i X
       else Ok (i, X));
    if dict_in indices_by_type ARRAY then
      transform_children_by_item comprehension_leaks child_transform self docs indices
        indices_by_item 0%nat i X
    else Ok X.
Proof. by destruct self. Qed.

Lemma transform_children_by_property_grows
    (f : list Doc → Matrix → list nat → Node → result Matrix) (Q : nat → Prop)
    (self : Node) (docs : list Doc) (indices : list nat) (l : list (string * list nat))
    (i : nat) (X : Matrix) (i' : nat) (X' : Matrix) :
  matrix_ok X →
  (∀ name child docs_ X0 rows_ X1,
     dict_get (properties self) name = Some child → matrix_ok X0 →
     f docs_ X0 rows_ child = Ok X1 →
     matrix_ok X1 ∧ grows_within (λ r, r ∈ rows_) X0 X1) →
  Forall (λ kv, Forall Q kv.2) l →
  transform_children_by_property comprehension_leaks f self docs indices l i X
  = Ok (i', X') →
  matrix_ok X' ∧ grows_within (λ r, ∃ i, Q i ∧ indices !! i = Some r) X X'.
Proof.
  intros Hok Hf. revert i X Hok. induction l as [|[name indices_] l IH]; intros i X Hok; simpl.
  - intros _ [= _ <-]. split; [done|apply grows_within_refl].
  - intros [HQ Hl]%Forall_cons (docs_ & _ & Hrest)%bind_Ok.
    apply bind_Ok in Hrest as (rows_ & Hrows & Hrest).
    apply bind_Ok in Hrest as (r & Hget & Hrest).
    apply bind_Ok in Hrest as (X1 & Hr & Hrest).
    rewrite get_property_with_get in Hget.
    destruct (dict_get (properties self) name) as [child|] eqn:Hchild; [|done].
    simpl in Hget. injection Hget as <-.
    destruct (Hf _ _ _ _ _ _ Hchild Hok Hr) as [Hok1 Hg1].
    destruct (IH _ _ Hok1 Hl Hrest) as [Hok' Hg']. split; [done|].
    eapply grows_within_trans; [|exact Hg'].
    eapply grows_within_mono; [|exact Hg1]. intros r0 Hr0. simpl in HQ.
    destruct (take_indices_elem _ _ _ Hrows r0 Hr0) as (k & Hk & Hk').
    exists k. split; [|done]. rewrite Forall_forall in HQ. by apply HQ.
Qed.

Lemma transform_children_by_item_grows
    (f : list Doc → Matrix → list nat → Node → result Matrix) (Q : nat → Prop)
    (self : Node) (docs : list Doc) (indices : list nat) (l : list (list nat))
    (j i : nat) (X : Matrix) (X' : Matrix) :
  matrix_ok X →
  (∀ child docs_ X0 rows_ X1,
     child ∈ items self → matrix_ok X0 →
     f docs_ X0 rows_ child = Ok X1 →
     matrix_ok X1 ∧ grows_within (λ r, r ∈ rows_) X0 X1) →
  Forall (Forall Q) l →
  transform_children_by_item comprehension_leaks f self docs indices l j i X = Ok X' →
  matrix_ok X' ∧ grows_within (λ r, ∃ i, Q i ∧ indices !! i = Some r) X X'.
Proof.
  intros Hok Hf. revert j i X Hok. induction l as [|indices_ l IH]; intros j i X Hok; simpl.
  - intros _ [= <-]. split; [done|apply grows_within_refl].
  - intros [HQ Hl]%Forall_cons ([[[docs_ i1] index] rows_] & Hcall & Hrest)%bind_Ok.
    apply bind_Ok in Hrest as (r & Hget & Hrest).
    apply bind_Ok in Hrest as (X1 & Hr & Hrest).
    rewrite get_item_with_lookup in Hget.
    destruct (items self !! index) as [child|] eqn:Hchild; [|done].
    simpl in Hget. injection Hget as <-.
    unfold item_call in Hcall. apply bind_Ok in Hcall as (docs0 & _ & Hcall).
    apply bind_Ok in Hcall as (rows0 & Hrows & [= <- <- <- <-]).
    destruct (Hf _ _ _ _ _ (list_elem_of_lookup_2 _ _ _ Hchild) Hok Hr) as [Hok1 Hg1].
    destruct (IH _ _ _ Hok1 Hl Hrest) as [Hok' Hg']. split; [done|].
    eapply grows_within_trans; [|exact Hg'].
    eapply grows_within_mono; [|exact Hg1]. intros r0 Hr0.
    destruct (take_indices_elem _ _ _ Hrows r0 Hr0) as (k & Hk & Hk').
    exists k. split; [|done]. rewrite Forall_forall in HQ. by apply HQ.
Qed.

(** [_transform] keeps the matrix well formed and writes only in the rows
    of the documents whose type is one of the node's. *)
Lemma _transform_grows (self : Node) :
  ∀ docs X indices X',
    matrix_ok X →
    _transform VERSION strptime_ok vec_feature_names vec_transform comprehension_leaks
      self docs X indices = Ok X' →
    matrix_ok X'
    ∧ grows_within
        (λ r, ∃ i, (∃ doc t, docs !! i = Some doc ∧ typeof doc = Ok t ∧ t ∈ type self)
                   ∧ indices !! i = Some r) X X'.
Proof.
  induction self as [self IHp IHi] using Node_ind'. intros docs X indices X' Hok.
  rewrite _transform_unfold. cbv zeta.
  intros (ibt & Hibt & Hrest)%bind_Ok.
  apply bind_Ok in Hrest as ([ibp i1] & Hibp & Hrest).
  apply bind_Ok in Hrest as ([ibi i2] & Hibi & Hrest).
  apply bind_Ok in Hrest as (X1 & Hself & Hrest).
  apply bind_Ok in Hrest as ([i3 X2] & Hprops & Hitems).
  set (Q := λ i, ∃ doc t, docs !! i = Some doc ∧ typeof doc = Ok t ∧ t ∈ type self).
  assert (∀ t l i, dict_get ibt t = Some l → i ∈ l → Q i) as HQt.
  { intros t l i Hl Hi.
    destruct (partition_by_type_spec _ _ [] _ _ Hibt ltac:(done) t l i Hl Hi)
      as (doc & Hdoc & Ht & Hin).
    by exists doc, t. }
  assert (∀ name l i, dict_get ibp name = Some l → i ∈ l → Q i) as HQp.
  { destruct (dict_get ibt OBJECT) as [ois|] eqn:Hois; [|by injection Hibp as <- _].
    apply bind_Ok in Hibp as (d & Hd & [= <- _]).
    apply (partition_by_property_spec Q _ _ _ _ _ Hd); [|done].
    apply Forall_forall. intros i Hi. by eapply HQt. }
  assert (Forall (Forall Q) ibi) as HQi.
  { destruct (dict_get ibt ARRAY) as [ais|] eqn:Hais; [|by injection Hibi as <- _].
    apply bind_Ok in Hibi as (d & Hd & [= <- _]).
    apply (partition_by_item_spec Q _ _ _ _ _ Hd); [|done].
    apply Forall_forall. intros i Hi. by eapply HQt. }
  clear Hibt Hibp Hibi.
  set (P := λ r, ∃ i, Q i ∧ indices !! i = Some r).
  assert (∀ child docs_ X0 rows_ X3,
    child ∈ children self → matrix_ok X0 →
    _transform VERSION strptime_ok vec_feature_names vec_transform comprehension_leaks
      child docs_ X0 rows_ = Ok X3 →
    matrix_ok X3 ∧ grows_within (λ r, r ∈ rows_) X0 X3) as Hchild.
  { intros child docs_ X0 rows_ X3 Hin Hok0 Hc.
    assert (matrix_ok X3 ∧ grows_within
              (λ r, ∃ i, (∃ doc t, docs_ !! i = Some doc ∧ typeof doc = Ok t
                                   ∧ t ∈ type child) ∧ rows_ !! i = Some r) X0 X3)
      as [Hok3 Hg3].
    { unfold children in Hin. apply elem_of_app in Hin as [Hin|Hin].
      - apply list_elem_of_fmap in Hin as (kv & -> & Hin).
        rewrite Forall_forall in IHp. by apply (IHp kv Hin).
      - rewrite Forall_forall in IHi. by apply (IHi child Hin). }
    split; [done|]. eapply grows_within_mono; [|exact Hg3].
    intros r (i & _ & Hi). by eapply list_elem_of_lookup_2. }
  destruct (_transform_self_grows _ _ _ _ _ _ _ Hok Hself) as [Hok1 Hg1].
  assert (matrix_ok X2 ∧ grows_within P X1 X2) as [Hok2 Hg2].
  { destruct (dict_in ibt OBJECT);
      [|injection Hprops as _ <-; split; [done|apply grows_within_refl]].
    apply (transform_children_by_property_grows _ Q _ _ _ _ _ _ _ _ Hok1) in Hprops;
      [done| |].
    - intros name child docs_ X0 rows_ X3 Hget. apply Hchild.
      apply elem_of_app. left. apply list_elem_of_fmap. exists (name, child).
      split; [done|by apply dict_get_Some_elem].
    - apply Forall_forall. intros [name l] Hin%sorted_items_elem. simpl.
      apply Forall_forall. intros i Hi. by eapply HQp. }
  assert (matrix_ok X' ∧ grows_within P X2 X') as [Hok3 Hg3].
  { destruct (dict_in ibt ARRAY);
      [|injection Hitems as <-; split; [done|apply grows_within_refl]].
    apply (transform_children_by_item_grows _ Q _ _ _ _ _ _ _ _ Hok2) in Hitems;
      [done| |done].
    intros child docs_ X0 rows_ X3 Hin. apply Hchild. apply elem_of_app. by right. }
  split; [done|].
  refine (grows_within_trans _ _ _ _ _ (grows_within_trans _ _ _ _ Hg2 Hg3)).
  eapply grows_within_mono; [|exact Hg1].
  intros r [(t & l & i & Hl & Hi & Hr)|(name & l & i & Hl & Hi & Hr)];
    exists i; (split; [|done]); [by eapply HQt|by eapply HQp].
Qed.

(** X24: the matrix [transform] returns has one row per document; every
    row lists its columns in strictly ascending order, without repetition,
    with one value per column, and every value is [True]. *)
Theorem transform_matrix (self : Node) (docs : list Doc) (X : Matrix) :
  transform VERSION strptime_ok vec_feature_names vec_transform comprehension_leaks
    self docs = Ok X →
  length X.1 = length docs ∧ length X.2 = length docs
  ∧ Forall2 row_ok X.1 X.2 ∧ Forall (Forall (λ b, b = true)) X.2.
Proof.
  unfold transform. cbv zeta. intros Ht.
  apply _transform_grows in Ht as [[Hok Htrue] [Hlen _]].
  - simpl in Hlen. rewrite length_replicate in Hlen.
    split_and!; [done| |done|done]. apply Forall2_length in Hok. congruence.
  - split; simpl.
    + apply Forall2_same_length_lookup. rewrite !length_replicate. split; [done|].
      intros i row data [-> _]%lookup_replicate [-> _]%lookup_replicate.
      split; [constructor|done].
    + apply Forall_forall. intros data [-> _]%elem_of_replicate. constructor.
Qed.

(** X25: a document whose type is none of the types of the node
    [transform] is called on gets an empty row: no feature, of the node or
    of a node below it, is set for it. *)
Theorem transform_unseen_type_row (self : Node) (docs : list Doc) (X : Matrix)
    (i : nat) (doc : Doc) (t : JsonType) :
  transform VERSION strptime_ok vec_feature_names vec_transform comprehension_leaks
    self docs = Ok X →
  docs !! i = Some doc → typeof doc = Ok t → t ∉ type self →
  X.1 !! i = Some [] ∧ X.2 !! i = Some [].
Proof.
  unfold transform. cbv zeta. intros Ht Hdoc Htype Hnot.
  apply _transform_grows in Ht as [[Hok Htrue] [Hlen Hrows]].
  - destruct (Hrows i []) as (row' & Hrow' & _ & Hsame).
    { simpl. apply lookup_replicate. split; [done|]. by eapply lookup_lt_Some. }
    rewrite Hsame in Hrow'.
    + split; [done|].
      destruct (Forall2_lookup_l _ _ _ _ _ Hok Hrow') as (data & Hdata & _ & Hl).
      rewrite Hdata. by destruct data.
    + intros (i' & (doc' & t' & Hdoc' & Ht' & Hin) & Hi').
      apply lookup_seq in Hi' as [-> _]. simpl in Hdoc. congruence.
  - split; simpl.
    + apply Forall2_same_length_lookup. rewrite !length_replicate. split; [done|].
      intros k row data [-> _]%lookup_replicate [-> _]%lookup_replicate.
      split; [constructor|done].
    + apply Forall_forall. intros data [-> _]%elem_of_replicate. constructor.
Qed.

(** **** The exact round trip through [to_dict] *)

Lemma add_properties_exact (cs : list (string * Node)) (self : Node) :
  Forall (λ c, path c.2 = path self ++ [SegStr c.1]
               ∧ ∀ ti, init (to_dict c.2) (path c.2) ti = Ok c.2) cs →
  NoDup (dict_keys (properties self) ++ dict_keys cs) →
  add_properties init ((λ kv, (kv.1, to_dict kv.2)) <$> cs) self
  = Ok (set_properties self (properties self ++ cs)).
Proof.
  tidy. revert self. induction cs as [|[k c] cs IH]; intros self Hcs Hnd; simpl.
  - by rewrite app_nil_r, set_properties_id.
  - apply Forall_cons in Hcs as [[Hpath Hinit] Hcs]. simpl in Hpath, Hinit.
    unfold add_property. cbv zeta. rewrite <- Hpath, Hinit. simpl.
    rewrite dict_set_fresh.
    2:{ apply NoDup_app in Hnd as (_ & Hd & _). intros Hin. apply (Hd _ Hin). left. }
    rewrite IH.
    + simpl. by rewrite <- app_assoc.
    + exact Hcs.
    + simpl. unfold dict_keys in *. rewrite fmap_app, <- app_assoc. exact Hnd.
Qed.

Lemma add_items_exact (cs : list Node) (self : Node) :
  (∀ i c, cs !! i = Some c →
     path c = path self ++ [if tuple_items self then SegInt (length (items self) + i)
                            else SegStr "any"]
     ∧ ∀ ti, init (to_dict c) (path c) ti = Ok c) →
  add_items init (to_dict <$> cs) self = Ok (set_items self (items self ++ cs)).
Proof.
  tidy. revert self. induction cs as [|c cs IH]; intros self Hcs; simpl.
  - by rewrite app_nil_r, set_items_id.
  - destruct (Hcs 0%nat c eq_refl) as [Hpath Hinit]. rewrite Nat.add_0_r in Hpath.
    unfold add_item. cbv zeta.
    assert (path self ++ (if tuple_items self then [SegInt (length (items self))]
                          else [SegStr "any"]) = path c) as ->
      by (rewrite Hpath; by destruct (tuple_items self)).
    rewrite Hinit. simpl. rewrite IH.
    + simpl. by rewrite <- app_assoc.
    + intros i c' Hc'. simpl. destruct (Hcs (S i) c' Hc') as [Hp Hi]. split; [|done].
      rewrite Hp, length_app. simpl.
      by replace (length (items self) + 1 + i)%nat with (length (items self) + S i)%nat by lia.
Qed.

(** The constructor called on [to_dict] of a tree, with the path of the
    tree, returns the tree. *)
Lemma init_to_dict_exact (n : Node) :
  all_nodes storable n → ∀ ti, init (to_dict n) (path n) ti = Ok n.
Proof.
  induction n as [n IHp IHi] using Node_ind'. intros Hall ti.
  apply all_nodes_inv in Hall as ((Hnd & Hcnt & Hvals & Hvecs & [Hpos Hnf] & [Hlp Hli])
                                    & Hsp & Hsi).
  rewrite init_to_dict_eq.
  set (self0 := mkNode (path n) false ∅ None [] [] [] 0 [] [] [] 0).
  assert (Schema_from_dict init self0 (to_dict n)
          = Ok (mkNode (path n) (tuple_items n) (type n) (required n) (properties n)
                  (items n) [] 0 [] [] [] 0)) as HS.
  { unfold Schema_from_dict. rewrite to_dict_unfold.
    cbn [r_tuple_items r_type r_required r_properties r_items of_option mbind result_bind].
    rewrite restore_type by done. cbn [mbind result_bind].
    rewrite restore_properties by done.
    match goal with
    | |- context [add_properties init _ ?S] =>
        assert (S = mkNode (path n) (tuple_items n) (type n) (required n) [] [] [] 0
                      [] [] [] 0) as -> by (by destruct (required n))
    end.
    rewrite add_properties_exact; simpl; [| |done].
    2:{ rewrite Forall_forall in IHp, Hsp, Hlp |- *. intros kv Hin.
        destruct (Hlp kv Hin) as [Hpath _]. split; [done|].
        intros ti'. by apply IHp, Hsp. }
    rewrite restore_items. rewrite add_items_exact; [done|].
    intros i c Hc. simpl. destruct (Hli i c Hc) as [Hpath _]. split; [done|].
    intros ti'. rewrite Forall_forall in IHi, Hsi.
    apply IHi, Hsi; by eapply list_elem_of_lookup_2. }
  unfold from_dict. rewrite HS. cbn [mbind result_bind].
  rewrite to_dict_unfold.
  cbn [r_counts r_values r_pos r_vectorizers r_feature_names r_n_features].
  rewrite restore_counts by done. cbn [mbind result_bind].
  unfold to_cint. rewrite !bool_decide_eq_true_2 by done.
  destruct (decide (values n ≠ [])) as [|Hv%dec_stable];
    [rewrite (str2type_keys_type2str_keys (values n)) by done|];
    (destruct (decide (vectorizers n ≠ [])) as [|Hz%dec_stable];
     [rewrite (str2type_keys_type2str_keys (vectorizers n)) by done|]);
    destruct (decide (feature_names n ≠ [])) as [|Hf%dec_stable];
    cbn [mbind result_bind]; f_equal; destruct n; simpl in *; by subst.
Qed.

Lemma dict_append_NoDup {K A} `{EqDecision K} (d : list (K * list A)) (k : K) (x : A) :
  NoDup (dict_keys d) → NoDup (dict_keys (dict_append d k x)).
Proof. unfold dict_append. destruct (dict_get d k); apply dict_keys_set_NoDup. Qed.

(** [extend] keeps the samples one entry per type and fits nothing. *)
Lemma extend_new_unfitted (p : list Seg) (ti : bool) (docs : list Doc) (root0 root : Node) :
  init empty_repr p ti = Ok root0 →
  extend root0 docs = Ok root →
  all_nodes (λ m, NoDup (dict_keys (values m)) ∧ vectorizers m = []
                  ∧ feature_names m = []) root.
Proof.
  intros Hinit Hroot. rewrite init_empty in Hinit. injection Hinit as <-.
  assert (∀ p ti, let m := mkNode (Vectorizer:=Vectorizer) p ti ∅ None [] [] [] 0 [] [] [] 0 in
                  NoDup (dict_keys (values m)) ∧ vectorizers m = [] ∧ feature_names m = [])
    as Hfresh by (intros p' ti'; simpl; split_and!; [constructor|done..]).
  refine (extend_all_nodes _ Hfresh _ docs _ _ _ Hroot).
  - intros doc self self' (Hnd & Hv & Hf) Hext.
    destruct (_extend_frame _ _ _ Hext)
      as (t & _ & _ & _ & _ & _ & Hvals & Hvec & _ & Hfn & _).
    split_and!; [|congruence..]. rewrite Hvals.
    destruct (_ && _); [by apply dict_append_NoDup|done].
  - apply all_nodes_children; [apply Hfresh|simpl; constructor..].
Qed.

Lemma all_nodes_and (P Q : Node → Prop) (n : Node) :
  all_nodes P n → all_nodes Q n → all_nodes (λ m, P m ∧ Q m) n.
Proof.
  tidy. induction n as [n IHp IHi] using Node_ind'.
  intros (HP & HPp & HPi)%all_nodes_inv (HQ & HQp & HQi)%all_nodes_inv.
  apply all_nodes_children; [done|..].
  - rewrite Forall_forall in IHp, HPp, HQp |- *. intros kv Hin. by apply IHp; auto.
  - rewrite Forall_forall in IHi, HPi, HQi |- *. intros c Hin. by apply IHi; auto.
Qed.

(** X26: pickling a learned schema loses nothing: the constructor called
    on [to_dict] of a tree that [extend] built from a new root, with the
    path of the root (the arguments [__reduce__] gives), returns the very
    same tree: paths, types, counts, required sets, children and samples,
    whatever [tuple_items] argument comes with the dict. *)
Theorem to_dict_round_trip (p : list Seg) (tuple_mode : bool) (docs : list Doc)
    (root0 root : Node) (ti : bool) :
  init empty_repr p tuple_mode = Ok root0 →
  extend root0 docs = Ok root →
  init (to_dict root) p ti = Ok root.
Proof.
  intros Hinit Hroot.
  destruct (extend_new_invariants _ _ _ _ _ Hinit Hroot) as (Hall & <- & _).
  pose proof (extend_new_unfitted _ _ _ _ _ Hinit Hroot) as Hun.
  assert (valid root ∧ all_nodes cints root) as [Hvalid Hcints].
  { rewrite init_empty in Hinit. injection Hinit as <-. split.
    - eapply extend_valid; [|exact Hroot]. apply valid_fresh.
    - eapply extend_cints; [|exact Hroot]. apply cints_fresh. }
  apply init_to_dict_exact.
  pose proof (all_nodes_and _ _ _ (all_nodes_and _ _ _ Hall Hun)
                (all_nodes_and _ _ _ Hvalid Hcints)) as H.
  revert H. apply all_nodes_impl.
  intros m (((_ & _ & Hl) & (Hv & Hz & _)) & ([Hp Hc] & Hci)).
  unfold storable. rewrite Hz. split_and!; try done. constructor.
Qed.

Lemma wrap32_in_cint (z : Z) : in_cint (wrap32 z).
Proof.
  unfold in_cint, wrap32.
  pose proof (Z.mod_pos_bound (z + 2 ^ 31) (2 ^ 32) ltac:(lia)). lia.
Qed.

Lemma _fit_self_vectorizers (n : Node) (p n_total : Z) (rules : list (Rule Factory))
    (ign : list string) (ret : Z) (n1 : Node) :
  _fit_self n p n_total rules ign = Ok (ret, n1) →
  NoDup (dict_keys (vectorizers n)) → NoDup (dict_keys (vectorizers n1)).
Proof.
  unfold _fit_self. cbv zeta. intros (st & Hfold & [= _ <-])%bind_Ok Hnd.
  apply (foldl_result_inv _ (λ _ st, NoDup (dict_keys (vectorizers st)))) in Hfold;
    [done|by destruct n|].
  clear. intros _ t st st' Hnd Hstep. unfold _fit_self_step in Hstep.
  apply bind_Ok in Hstep as (st1 & Hobj & Hstep).
  set (st0 := if decide (1 < size (type st))%nat then _ else st) in Hobj.
  assert (vectorizers st0 = vectorizers st) as H0
    by (unfold st0; by destruct (decide _), st).
  clearbody st0.
  assert (vectorizers st1 = vectorizers st0) as H1.
  { destruct (decide (t = OBJECT)); [|by injection Hobj as <-].
    apply bind_Ok in Hobj as (fns & _ & [= <-]). by destruct st0. }
  set (st2 := if negb _ then _ else st1) in Hstep.
  assert (NoDup (dict_keys (vectorizers st2))) as H2.
  { unfold st2. rewrite <- H0, <- H1 in Hnd. destruct (negb _); [|done].
    destruct (dict_get _ t) as [factory|]; [|done].
    destruct (dict_get (values st1) t) as [vals|]; [|done].
    destruct (vec_fit _ _ _ _) as [v|]; [|done].
    destruct st1. simpl in *. by apply dict_keys_set_NoDup. }
  clearbody st2.
  destruct (dict_in (values st2) t); injection Hstep as <-; by destruct st2.
Qed.

Lemma fit_properties_vectorizers (f : Z → Node → result (Z * Node))
    (props0 : list (string * Node)) (names : list string) (p : Z) (self : Node)
    (ret : Z) (self' : Node) :
  fit_properties f props0 names p self = Ok (ret, self') →
  vectorizers self' = vectorizers self ∧ pos self' = pos self.
Proof.
  tidy. revert p self. induction names as [|name names IH]; intros p self; simpl.
  - by intros [= _ <-].
  - intros (r & _ & Hrest)%bind_Ok. destruct r as [[q c]|]; [|done]. simpl in Hrest.
    apply IH in Hrest. by destruct self.
Qed.

Lemma fit_items_vectorizers (f : Z → Node → result (Z * Node))
    (items0 : list Node) (indices : list nat) (p : Z) (self : Node)
    (ret : Z) (self' : Node) :
  fit_items f items0 indices p self = Ok (ret, self') →
  vectorizers self' = vectorizers self ∧ pos self' = pos self.
Proof.
  tidy. revert p self. induction indices as [|i indices IH]; intros p self; simpl.
  - by intros [= _ <-].
  - intros (r & _ & Hrest)%bind_Ok. destruct r as [[q c]|]; [|done]. simpl in Hrest.
    apply IH in Hrest. by destruct self.
Qed.

(** The children of the tree [_fit] returns are the children of the tree
    it was given, fitted one after the other from the position the fit step
    of the node returned. *)
Lemma _fit_children (n_total : Z) (rules : list (Rule Factory)) (ign : list string)
    (n : Node) (p ret : Z) (n' : Node) :
  NoDup (dict_keys (properties n)) →
  _fit n p n_total rules ign = Ok (ret, n') →
  ∃ q0 n1 cs',
    _fit_self n p n_total rules ign = Ok (q0, n1)
    ∧ vectorizers n' = vectorizers n1 ∧ pos n' = pos n1
    ∧ (feature_names n' = feature_names n1 ∧ type n' = type n1
       ∧ required n' = required n1)
    ∧ in_cint (n_features n')
    ∧ dict_keys (properties n') = dict_keys (properties n)
    ∧ fit_chain (λ q c, _fit c q n_total rules ign) q0 (ordered_children n) cs' ret
    ∧ ordered_children n' = cs'.
Proof.
  intros Hnd Hfit. rewrite _fit_unfold in Hfit. cbv zeta in Hfit.
  apply bind_Ok in Hfit as ([q0 n1] & Hself & Hfit). simpl in Hfit.
  apply bind_Ok in Hfit as ([q1 n2] & Hprops & Hfit). simpl in Hfit.
  apply bind_Ok in Hfit as ([q2 n3] & Hitems & Hfit). simpl in Hfit.
  injection Hfit as <- <-.
  destruct (_fit_self_spec _ _ _ _ _ _ _ Hself) as (_ & Hprops1 & Hitems1 & _).
  destruct (fit_properties_vectorizers _ _ _ _ _ _ _ Hprops) as [Hv2 Hp2].
  destruct (fit_items_vectorizers _ _ _ _ _ _ _ Hitems) as [Hv3 Hp3].
  destruct (fit_properties_frame _ _ _ _ _ _ _ Hprops) as (_&_& Hty2 &_& Hre2 &_& Hfn2 & Hit2).
  destruct (fit_items_frame _ _ _ _ _ _ _ Hitems) as (_&_& Hty3 &_& Hre3 &_& Hfn3 &_).
  apply fit_properties_spec in Hprops
    as (cs & cs' & Hcs & Hchain1 & Hcs' & _ & Hkeys2 & _);
    [|by rewrite sorted_Permutation, Hprops1
     |intros name Hn; exact (proj1 (sorted_elem _ _) Hn)].
  apply (fit_items_spec _ _ _ 0 _ _ []) in Hitems
    as (is' & Hchain2 & Hitems3 & Hprops3 & _);
    [|done|by rewrite Hit2, Hitems1|by rewrite drop_0, Hit2, Hitems1].
  rewrite drop_0 in Hchain2. simpl in Hitems3.
  exists q0, n1, (cs' ++ is'). split_and!; simpl; try congruence.
  - apply wrap32_in_cint.
  - assert (ordered_children n = cs ++ items n) as ->.
    { unfold ordered_children. f_equal. rewrite Hprops1 in Hcs.
      by apply omap_Forall2_Some. }
    by eapply fit_chain_app.
  - change (ordered_children (set_n_features n3 _)) with (ordered_children n3).
    unfold ordered_children. rewrite Hprops3, Hkeys2, Hitems3. f_equal.
    by apply omap_Forall2_Some.
Qed.

Lemma children_ordered_children (n c : Node) :
  NoDup (dict_keys (properties n)) → c ∈ children n → c ∈ ordered_children n.
Proof.
  tidy. intros Hnd. unfold ordered_children, children. rewrite !elem_of_app.
  intros [([k c'] & -> & Hin)%list_elem_of_fmap|?]; [left|by right].
  apply list_elem_of_omap. exists k. split.
  - apply sorted_elem, list_elem_of_fmap. by exists (k, c').
  - by apply dict_get_elem_NoDup.
Qed.

Lemma all_nodes_ordered_children (P : Node → Prop) (n : Node) :
  NoDup (dict_keys (properties n)) →
  P n → Forall (all_nodes P) (ordered_children n) → all_nodes P n.
Proof.
  tidy. intros Hnd HP Hkids. constructor; [done|]. rewrite Forall_forall in Hkids |- *.
  intros c Hc. by apply Hkids, children_ordered_children.
Qed.

Lemma fit_chain_all (f : Z → Node → result (Z * Node)) (P : Node → Prop) (p : Z)
    (cs cs' : list Node) (r : Z) :
  fit_chain f p cs cs' r →
  Forall (λ c, ∀ p r c', in_cint p → f p c = Ok (r, c') → in_cint r ∧ all_nodes P c') cs →
  in_cint p → in_cint r ∧ Forall (all_nodes P) cs'.
Proof.
  tidy. induction 1 as [p|p c cs q c' cs' r Hf Hchain IH]; intros Hall Hp.
  - by split.
  - apply Forall_cons in Hall as [Hc Hcs]. destruct (Hc _ _ _ Hp Hf) as [Hq Hc'].
    destruct (IH Hcs Hq) as [Hr Hcs']. split; [done|by constructor].
Qed.

(** What [_fit] leaves of its own at every node: one extractor per type at
    most, and C ints for [pos] and [n_features]. *)
Lemma _fit_local (n_total : Z) (rules : list (Rule Factory)) (ign : list string)
    (n : Node) :
  valid n → all_nodes (λ m, NoDup (dict_keys (vectorizers m))) n →
  ∀ p ret n', in_cint p → _fit n p n_total rules ign = Ok (ret, n') →
  in_cint ret ∧ all_nodes (λ m, NoDup (dict_keys (vectorizers m)) ∧ cints m) n'.
Proof.
  induction n as [n IHp IHi] using Node_ind'. intros Hvalid Hvec p ret n' Hp Hfit.
  pose proof (all_nodes_here _ _ Hvalid) as [Hnd _].
  destruct (_fit_children _ _ _ _ _ _ _ Hnd Hfit)
    as (q0 & n1 & cs' & Hself & Hv & Hpos & _ & Hnf & Hkeys & Hchain & Hoc).
  destruct (_fit_self_spec _ _ _ _ _ _ _ Hself) as (Hpos1 & _ & _ & ->).
  apply (fit_chain_all _ (λ m, NoDup (dict_keys (vectorizers m)) ∧ cints m)) in Hchain
    as [Hret Hkids]; [| |apply wrap32_in_cint].
  - split; [done|]. apply all_nodes_ordered_children; [by rewrite Hkeys| |by rewrite Hoc].
    split; [|split; [congruence|done]]. rewrite Hv.
    apply (_fit_self_vectorizers _ _ _ _ _ _ _ Hself). by apply all_nodes_here in Hvec.
  - apply Forall_forall. intros c Hc%ordered_children_children q r c' Hq Hf.
    destruct Hvalid as [_ Hvk], Hvec as [_ Hveck]. rewrite Forall_forall in Hvk, Hveck.
    unfold children in Hc. apply elem_of_app in Hc as [Hin|Hin].
    + pose proof Hin as (kv & -> & Hkv)%list_elem_of_fmap.
      rewrite Forall_forall in IHp.
      apply (IHp kv Hkv) with (p := q); [apply Hvk|apply Hveck|done..];
        apply elem_of_app; by left.
    + rewrite Forall_forall in IHi.
      apply (IHi c Hin) with (p := q); [apply Hvk|apply Hveck|done..];
        apply elem_of_app; by right.
Qed.

Lemma fitted_of_structure (n n' : Node) :
  all_nodes (λ m, valid_dicts m ∧ linked m) n → fitted_of n n' →
  all_nodes (λ m, valid_dicts m ∧ linked m) n'.
Proof.
  tidy. revert n'. induction n as [n IHp IHi] using Node_ind'.
  intros n' (([Hnd Hcnt] & [Hlp Hli]) & Hp & Hi)%all_nodes_inv
    [Hpa Hti _ Hco _ _ _ Hprops Hitems].
  apply all_nodes_children.
  - split; [split|split].
    + assert (dict_keys (properties n') = dict_keys (properties n)) as ->; [|done].
      unfold dict_keys. symmetry. apply list_eq_Forall2, Forall2_fmap.
      eapply Forall2_impl; [exact Hprops|]. by intros kv kv' [? _].
    + by rewrite Hco.
    + apply Forall_forall. intros kv' [i Hkv']%list_elem_of_lookup.
      destruct (Forall2_lookup_r _ _ _ _ _ Hprops Hkv') as (kv & Hkv & Hk & Hf).
      rewrite Forall_forall in Hlp.
      destruct (Hlp kv (list_elem_of_lookup_2 _ _ _ Hkv)) as [Hpk Htk].
      destruct Hf as [Hpa' Hti' _ _ _ _ _ _ _]. rewrite Hpa', Hti', Hpa, Hti, <- Hk. done.
    + intros i c' Hc'.
      destruct (Forall2_lookup_r _ _ _ _ _ Hitems Hc') as (c & Hc & Hf).
      destruct (Hli i c Hc) as [Hpc Htc].
      destruct Hf as [Hpa' Hti' _ _ _ _ _ _ _]. rewrite Hpa', Hti', Hpa, Hti. done.
  - apply Forall_forall. intros kv' [i Hkv']%list_elem_of_lookup.
    destruct (Forall2_lookup_r _ _ _ _ _ Hprops Hkv') as (kv & Hkv & _ & Hf).
    rewrite Forall_forall in IHp, Hp.
    apply (IHp kv (list_elem_of_lookup_2 _ _ _ Hkv)); [|done].
    apply Hp. by eapply list_elem_of_lookup_2.
  - apply Forall_forall. intros c' [i Hc']%list_elem_of_lookup.
    destruct (Forall2_lookup_r _ _ _ _ _ Hitems Hc') as (c & Hc & Hf).
    rewrite Forall_forall in IHi, Hi.
    apply (IHi c (list_elem_of_lookup_2 _ _ _ Hc)); [|done].
    apply Hi. by eapply list_elem_of_lookup_2.
Qed.

(** X27: pickling a fitted vectorizer loses nothing either: the
    constructor called on [to_dict] of the tree [fit] returned on a new
    vectorizer, with the path of the root, returns the very same tree, its
    positions, feature names and fitted extractors included. *)
Theorem to_dict_round_trip_fitted (p : list Seg) (tuple_mode : bool) (docs : list Doc)
    (rules : list (Rule Factory)) (ign : list string) (root0 root' : Node) (ti : bool) :
  init empty_repr p tuple_mode = Ok root0 →
  fit root0 docs rules ign = Ok root' →
  init (to_dict root') p ti = Ok root'.
Proof.
  intros Hinit Hfit. unfold fit in Hfit.
  apply bind_Ok in Hfit as (root & Hroot & Hfit).
  apply bind_Ok in Hfit as ([ret n'] & Hfit & [= <-]).
  destruct (extend_new_invariants _ _ _ _ _ Hinit Hroot) as (Hall & <- & _).
  pose proof (extend_new_unfitted _ _ _ _ _ Hinit Hroot) as Hun.
  assert (valid root) as Hvalid.
  { rewrite init_empty in Hinit. injection Hinit as <-.
    eapply extend_valid; [|exact Hroot]. apply valid_fresh. }
  pose proof (_fit_fitted_of _ _ _ _ Hvalid _ _ _ Hfit) as Hfitted.
  assert (path n' = path root) as <- by (by destruct Hfitted).
  apply init_to_dict_exact.
  assert (all_nodes (λ m, valid_dicts m ∧ linked m) n') as Hstruct.
  { apply (fitted_of_structure root); [|done].
    apply all_nodes_and; [done|]. revert Hall. apply all_nodes_impl. tauto. }
  assert (all_nodes (λ m, values m = []) n') as Hvals.
  { apply (fitted_of_no_values root); [|done]. revert Hall. apply all_nodes_impl. tauto. }
  destruct (_fit_local _ _ _ _ Hvalid
              ltac:(revert Hun; apply all_nodes_impl; intros m (_ & -> & _); constructor)
              0 ret n' ltac:(unfold in_cint; lia) Hfit) as [_ Hlocal].
  pose proof (all_nodes_and _ _ _ (all_nodes_and _ _ _ Hstruct Hvals) Hlocal) as H.
  revert H. apply all_nodes_impl.
  intros m ((([Hp Hc] & Hl) & Hv) & (Hz & Hci)).
  unfold storable. rewrite Hv. split_and!; try done. constructor.
Qed.

(** **** The columns of a node: [fit] and [transform] agree *)

Lemma sumZ_app (l1 l2 : list Z) : sumZ (l1 ++ l2) = sumZ l1 + sumZ l2.
Proof. induction l1 as [|z l1 IH]; simpl; [done|]. rewrite IH. lia. Qed.

Lemma property_feature_names_length (spath : string) (req : option (gset string))
    (names fns : list string) :
  property_feature_names spath req names = Ok fns →
  length fns = length (filter (λ name, name ∉ default ∅ req) names).
Proof.
  revert fns. induction names as [|name names IH]; intros fns; simpl.
  - by intros [= <-].
  - intros (r & Hr & (fns0 & Hfns & Hrest)%bind_Ok)%bind_Ok.
    destruct req as [req|]; [|done]. injection Hr as <-. simpl in *.
    rewrite filter_cons. destruct (decide (name ∉ req)); injection Hrest as <-; simpl;
      by rewrite (IH _ Hfns).
Qed.

Lemma _fit_self_step_layout (spath : string) (n_total : Z)
    (vectorizers_ : list (JsonType * Factory)) (ign : list string)
    (t : JsonType) (st st' : Node) :
  _fit_self_step spath n_total vectorizers_ ign t st = Ok st' →
  dict_get (vectorizers st) t = None →
  Z.of_nat (length (feature_names st'))
  = Z.of_nat (length (feature_names st)) + step_width vec_feature_names st' t
  ∧ ∀ t0, t0 ≠ t → dict_get (vectorizers st') t0 = dict_get (vectorizers st) t0.
Proof.
  intros Hstep Hnone.
  pose proof (_fit_self_step_frame _ _ _ _ _ _ _ Hstep)
    as (_ & _ & Hty & _ & Hre & Hpr & _).
  unfold step_width. rewrite Hty, Hre, Hpr. clear Hty Hre Hpr.
  unfold _fit_self_step in Hstep. apply bind_Ok in Hstep as (st1 & Hobj & Hstep).
  set (st0 := if decide (1 < size (type st))%nat then _ else st) in Hobj.
  assert (Z.of_nat (length (feature_names st0))
          = Z.of_nat (length (feature_names st))
            + (if decide (1 < size (type st))%nat then 1 else 0)
          ∧ vectorizers st0 = vectorizers st ∧ required st0 = required st
          ∧ properties st0 = properties st) as (Hn0 & Hv0 & Hr0 & Hp0).
  { unfold st0. destruct (decide _); destruct st; simpl; [|by split_and!; try lia].
    rewrite length_app. simpl. split_and!; try done. lia. }
  clearbody st0.
  assert (Z.of_nat (length (feature_names st1))
          = Z.of_nat (length (feature_names st0))
            + (if decide (t = OBJECT)
               then Z.of_nat (length (filter (λ name, name ∉ default ∅ (required st))
                                        (sorted (dict_keys (properties st)))))
               else 0)
          ∧ vectorizers st1 = vectorizers st0) as (Hn1 & Hv1).
  { destruct (decide (t = OBJECT)); [|injection Hobj as <-; split; [lia|done]].
    apply bind_Ok in Hobj as (fns & Hfns & [= <-]).
    apply property_feature_names_length in Hfns. rewrite Hr0, Hp0 in Hfns.
    destruct st0. simpl in *. rewrite length_app, Hfns. split; [lia|done]. }
  set (st2 := if negb _ then _ else st1) in Hstep.
  assert (Z.of_nat (length (feature_names st2))
          = Z.of_nat (length (feature_names st1))
            + match dict_get (vectorizers st2) t with
              | Some v => Z.of_nat (length (vec_feature_names v))
              | None => 0
              end
          ∧ ∀ t0, t0 ≠ t → dict_get (vectorizers st2) t0 = dict_get (vectorizers st1) t0)
    as (Hn2 & Hv2).
  { assert (dict_get (vectorizers st1) t = None) as Hnone1 by congruence.
    unfold st2. destruct (negb _); [|rewrite Hnone1; split; [lia|done]].
    destruct (dict_get vectorizers_ t) as [factory|]; [|rewrite Hnone1; split; [lia|done]].
    destruct (dict_get (values st1) t) as [vals|]; [|rewrite Hnone1; split; [lia|done]].
    destruct (vec_fit _ _ _ _) as [v|]; [|rewrite Hnone1; split; [lia|done]].
    destruct st1. simpl in *. rewrite dict_get_set, decide_True by done.
    rewrite length_app, length_map. split; [lia|].
    intros t0 Hne. rewrite dict_get_set. by rewrite decide_False. }
  clearbody st2.
  assert (feature_names st' = feature_names st2 ∧ vectorizers st' = vectorizers st2)
    as [-> ->] by (destruct (dict_in _ _); injection Hstep as <-; by destruct st2).
  split; [lia|]. intros t0 Hne. rewrite (Hv2 t0 Hne). congruence.
Qed.

(** The fit step on a node that has no feature names and no extractors
    yet leaves as many feature names as [transform] passes columns. *)
Lemma _fit_self_layout (n : Node) (p n_total : Z) (rules : list (Rule Factory))
    (ign : list string) (ret : Z) (n1 : Node) :
  feature_names n = [] → vectorizers n = [] →
  _fit_self n p n_total rules ign = Ok (ret, n1) →
  Z.of_nat (length (feature_names n1)) = local_width vec_feature_names n1.
Proof.
  intros Hfn Hvec Hself.
  pose proof (_fit_self_frame _ _ _ _ _ _ _ Hself) as (_ & _ & Hty & _).
  unfold local_width. rewrite Hty. clear Hty.
  unfold _fit_self in Hself. cbv zeta in Hself.
  apply bind_Ok in Hself as (st & Hfold & [= _ <-]).
  change (type (set_pos n p)) with (type n) in Hfold.
  set (I := λ (done : list JsonType) (st : Node),
    type st = type n ∧ required st = required n ∧ properties st = properties n
    ∧ Z.of_nat (length (feature_names st)) = sumZ (step_width vec_feature_names st <$> done)
    ∧ ∀ t0, t0 ∉ done → dict_get (vectorizers st) t0 = None).
  assert (I (sorted_types (type n)) st) as (_ & _ & _ & H & _); [|done].
  apply (foldl_result_inv_split _ I) in Hfold; [done| |].
  - unfold I. destruct n. simpl in *. subst. by split_and!.
  - clear Hfold. intros done t rest st0 st1 Hsplit (Hty & Hre & Hpr & Hlen & Hnone) Hstep.
    assert (t ∉ done) as Hnew.
    { pose proof (sorted_types_NoDup (type n)) as Hnd. rewrite Hsplit in Hnd.
      apply NoDup_app in Hnd as (_ & Hd & _). intros Hin. apply (Hd _ Hin). left. }
    pose proof (_fit_self_step_frame _ _ _ _ _ _ _ Hstep)
      as (_ & _ & Hty1 & _ & Hre1 & Hpr1 & _).
    destruct (_fit_self_step_layout _ _ _ _ _ _ _ Hstep (Hnone t Hnew)) as [Hlen1 Hvec1].
    unfold I. split_and!; try congruence.
    + rewrite fmap_app, sumZ_app. simpl. rewrite Hlen1, Hlen.
      assert (step_width vec_feature_names st1 <$> done
              = step_width vec_feature_names st0 <$> done) as ->; [|lia].
      apply Forall_fmap_ext, Forall_forall. intros t0 Ht0. unfold step_width.
      rewrite Hty1, Hre1, Hpr1, Hvec1; [done|]. by intros ->.
    + intros t0 Hnot. rewrite Hvec1.
      * apply Hnone. intros Hin. apply Hnot. apply elem_of_app. by left.
      * intros ->. apply Hnot. apply elem_of_app. right. by left.
Qed.

(** After [_fit] on a tree without feature names and extractors, every
    node has as many feature names as [transform] passes columns at it. *)
Lemma _fit_layout (n_total : Z) (rules : list (Rule Factory)) (ign : list string)
    (n : Node) :
  valid n → all_nodes (λ m, feature_names m = [] ∧ vectorizers m = []) n →
  ∀ p ret n', in_cint p → _fit n p n_total rules ign = Ok (ret, n') →
  in_cint ret
  ∧ all_nodes (λ m, Z.of_nat (length (feature_names m)) = local_width vec_feature_names m) n'.
Proof.
  induction n as [n IHp IHi] using Node_ind'. intros Hvalid Hun p ret n' Hp Hfit.
  pose proof (all_nodes_here _ _ Hvalid) as [Hnd _].
  destruct (_fit_children _ _ _ _ _ _ _ Hnd Hfit)
    as (q0 & n1 & cs' & Hself & Hv & Hpos & (Hfn & Hty & Hre) & Hnf & Hkeys & Hchain & Hoc).
  destruct (_fit_self_spec _ _ _ _ _ _ _ Hself) as (Hpos1 & Hprops1 & _ & ->).
  apply (fit_chain_all _ (λ m, Z.of_nat (length (feature_names m))
                               = local_width vec_feature_names m)) in Hchain
    as [Hret Hkids]; [| |apply wrap32_in_cint].
  - split; [done|]. apply all_nodes_ordered_children; [by rewrite Hkeys| |by rewrite Hoc].
    pose proof (all_nodes_here _ _ Hun) as [Hfn0 Hv0].
    rewrite Hfn, (_fit_self_layout _ _ _ _ _ _ _ Hfn0 Hv0 Hself).
    unfold local_width, step_width. by rewrite Hty, Hre, Hv, Hkeys, Hprops1.
  - apply Forall_forall. intros c Hc%ordered_children_children q r c' Hq Hf.
    destruct Hvalid as [_ Hvk], Hun as [_ Hunk]. rewrite Forall_forall in Hvk, Hunk.
    unfold children in Hc. apply elem_of_app in Hc as [Hin|Hin].
    + pose proof Hin as (kv & -> & Hkv)%list_elem_of_fmap.
      rewrite Forall_forall in IHp.
      apply (IHp kv Hkv) with (p := q); [apply Hvk|apply Hunk|done..];
        apply elem_of_app; by left.
    + rewrite Forall_forall in IHi.
      apply (IHi c Hin) with (p := q); [apply Hvk|apply Hunk|done..];
        apply elem_of_app; by right.
Qed.

Lemma elem_of_concat {A} (x : A) (ls : list (list A)) :
  x ∈ concat ls ↔ ∃ l, x ∈ l ∧ l ∈ ls.
Proof.
  induction ls as [|l ls IH]; simpl.
  - split; [by intros ?%elem_of_nil|]. by intros (l & _ & ?%elem_of_nil).
  - rewrite elem_of_app, IH. split.
    + intros [?|(l' & ? & ?)]; [exists l; split; [done|left]|exists l'; split; [done|by right]].
    + intros (l' & Hx & [->|?]%elem_of_cons); [by left|right; by exists l'].
Qed.

Lemma all_nodes_preorder (P : Node → Prop) (n : Node) :
  valid n → (∀ m, m ∈ preorder n → P m) → all_nodes P n.
Proof.
  tidy. induction n as [n IHp IHi] using Node_ind'. intros Hvalid Hall.
  rewrite preorder_unfold in Hall.
  assert (∀ c, c ∈ children n → ∀ m, m ∈ preorder c → P m) as Hkids.
  { intros c Hc m Hm. apply Hall. right. apply elem_of_concat.
    exists (preorder c). split; [done|]. apply list_elem_of_fmap. exists c. split; [done|].
    apply children_ordered_children; [|done]. by apply all_nodes_here in Hvalid as [? _]. }
  apply all_nodes_inv in Hvalid as (_ & Hvp & Hvi).
  apply all_nodes_children; [apply Hall; left|..].
  - rewrite Forall_forall in IHp, Hvp |- *. intros kv Hin.
    apply (IHp kv Hin (Hvp kv Hin)). apply Hkids. apply elem_of_app. left.
    apply list_elem_of_fmap. by exists kv.
  - rewrite Forall_forall in IHi, Hvi |- *. intros c Hin.
    apply (IHi c Hin (Hvi c Hin)). apply Hkids. apply elem_of_app. by right.
Qed.

(** The local block of every node lies within the feature names of the
    tree. *)
Lemma positioned_range (l : list Node) (p : Z) (i : nat) (m : Node) :
  positioned p l → l !! i = Some m →
  p ≤ pos m
  ∧ pos m + Z.of_nat (length (feature_names m))
    ≤ p + Z.of_nat (length (concat (feature_names <$> l))).
Proof.
  tidy. intros Hpos Hm. destruct (Hpos i m Hm) as (-> & _).
  pose proof (take_drop_middle l i m Hm) as Heq.
  assert (length (concat (feature_names <$> l))
          = length (concat (feature_names <$> take i l)) + length (feature_names m)
            + length (concat (feature_names <$> drop (S i) l)))%nat as Hlen.
  { rewrite <- Heq at 1. rewrite fmap_app, concat_app, length_app. csimpl.
    rewrite length_app. lia. }
  lia.
Qed.

(** **** The columns [transform] sets *)

Lemma rows_extended_cols (Pc : Z → Prop) (rows rows' : list (list Z))
    (entries : list (nat * Z)) :
  rows_extended rows rows' entries →
  Forall (Forall Pc) rows → Forall (λ e, Pc e.2) entries → Forall (Forall Pc) rows'.
Proof.
  tidy. intros [Hlen Hext] Hrows Hent. apply Forall_lookup. intros r row' Hr'.
  destruct (lookup_lt_is_Some_2 rows r) as [row Hr];
    [rewrite <- Hlen; by eapply lookup_lt_Some|].
  destruct (Hext r row Hr) as (row'' & Hr'' & Hc). rewrite Hr' in Hr''. injection Hr'' as <-.
  apply Forall_forall. intros c [Hin|Hin]%Hc.
  - rewrite Forall_lookup in Hrows. specialize (Hrows r row Hr).
    rewrite Forall_forall in Hrows. by apply Hrows.
  - rewrite Forall_forall in Hent. by apply (Hent (r, c)).
Qed.

Lemma lil_set_col_cols (lo hi : Z) (X : Matrix) (rs : list nat) (col : Z) (X' : Matrix) :
  matrix_ok X → cols_in lo hi X → lo ≤ col < hi →
  Lil.lil_set_col X.1 X.2 rs col = Ok X' → cols_in lo hi X'.
Proof.
  tidy. destruct X as [rows datas], X' as [rows' datas']. unfold cols_in. simpl.
  intros [Hok _] Hcols Hcol Hset.
  destruct (lil_set_col_inv _ _ _ _ _ _ Hok Hset) as (_ & Hext & _).
  apply (rows_extended_cols _ _ _ _ Hext Hcols).
  apply Forall_forall. by intros e (r & -> & _)%list_elem_of_fmap.
Qed.

Lemma lil_set_cols (lo hi : Z) (X : Matrix) (rs : list nat) (cols : list Z) (X' : Matrix) :
  matrix_ok X → cols_in lo hi X → Forall (λ c, lo ≤ c < hi) cols →
  Lil.lil_set X.1 X.2 rs cols = Ok X' → cols_in lo hi X'.
Proof.
  tidy. destruct X as [rows datas], X' as [rows' datas']. unfold cols_in. simpl.
  intros [Hok _] Hcols Hcs Hset.
  destruct (lil_set_inv _ _ _ _ _ _ Hok Hset) as (_ & Hext & _).
  apply (rows_extended_cols _ _ _ _ Hext Hcols).
  apply Forall_forall. intros [r c] Hin%elem_of_zip_r. rewrite Forall_forall in Hcs.
  by apply Hcs.
Qed.

Lemma set_col_if_in_cols {K} `{EqDecision K} (lo hi : Z) (X : Matrix) (indices : list nat)
    (d : list (K * list nat)) (key : K) (p : Z) (X' : Matrix) :
  matrix_ok X → cols_in lo hi X → lo ≤ p < hi →
  set_col_if_in X indices d key p = Ok X' → matrix_ok X' ∧ cols_in lo hi X'.
Proof.
  tidy. intros Hok Hcols Hp Hset.
  split; [by destruct (set_col_if_in_grows _ _ _ _ _ _ Hok Hset)|].
  unfold set_col_if_in in Hset. destruct (dict_get d key) as [l|].
  - apply bind_Ok in Hset as (rs & _ & Hset). by eapply lil_set_col_cols.
  - by injection Hset as <-.
Qed.

Lemma transform_properties_cols (lo hi : Z) (req : option (gset string))
    (indices : list nat) (ibp : list (string * list nat)) (names : list string)
    (p : Z) (X : Matrix) (p' : Z) (X' : Matrix) :
  - 2 ^ 31 ≤ lo → hi < 2 ^ 31 →
  matrix_ok X → cols_in lo hi X →
  lo ≤ p → p + Z.of_nat (length (filter (λ name, name ∉ default ∅ req) names)) ≤ hi →
  transform_properties req indices ibp names (p, X) = Ok (p', X') →
  p' = p + Z.of_nat (length (filter (λ name, name ∉ default ∅ req) names))
  ∧ matrix_ok X' ∧ cols_in lo hi X'.
Proof.
  tidy. intros Hlo Hhi. revert p X.
  induction names as [|name names IH]; intros p X Hok Hcols Hp Hbound; simpl.
  - intros [= <- <-]. split; [lia|done].
  - intros (r & Hr & Hrest)%bind_Ok. destruct req as [req|]; [|done].
    injection Hr as <-. simpl in *. rewrite filter_cons in Hbound |- *.
    destruct (decide (name ∉ req)); simpl in *.
    + apply bind_Ok in Hrest as (X1 & Hset & Hrest).
      assert (lo ≤ p < hi) as Hrange by lia.
      destruct (set_col_if_in_cols lo hi _ _ _ _ _ _ Hok Hcols Hrange Hset)
        as [Hok1 Hcols1].
      rewrite wrap32_small in Hrest by lia.
      apply IH in Hrest as (-> & ? & ?); [|done|done|lia|lia].
      split; [lia|done].
    + by apply (IH p X).
Qed.

Lemma step_width_nonneg (self : Node) (t : JsonType) :
  0 ≤ step_width vec_feature_names self t.
Proof.
  unfold step_width. destruct (decide _), (decide _), (dict_get _ _); lia.
Qed.

Lemma sumZ_nonneg (l : list Z) : Forall (λ z, 0 ≤ z) l → 0 ≤ sumZ l.
Proof. induction 1; simpl; lia. Qed.

Section Columns.
(** The columns an extractor reports are indices into its feature names. *)
Hypothesis vec_transform_columns :
  ∀ v ds rc, rc ∈ vec_transform v ds → 0 ≤ rc.2 < Z.of_nat (length (vec_feature_names v)).

Lemma _transform_self_step_cols (lo hi : Z) (self : Node) (docs : list Doc)
    (indices : list nat) (ibt : list (JsonType * list nat))
    (ibp : list (string * list nat)) (t : JsonType) (p : Z) (X : Matrix)
    (p' : Z) (X' : Matrix) :
  0 ≤ lo → hi < 2 ^ 31 →
  matrix_ok X → cols_in lo hi X →
  lo ≤ p → p + step_width vec_feature_names self t ≤ hi →
  _transform_self_step vec_feature_names vec_transform self docs indices ibt ibp t (p, X)
  = Ok (p', X') →
  p' = p + step_width vec_feature_names self t ∧ matrix_ok X' ∧ cols_in lo hi X'.
Proof using vec_transform_columns.
  intros Hlo Hhi Hok Hcols Hp Hbound Hstep.
  assert (matrix_ok X') as Hok'
    by (by destruct (_transform_self_step_grows _ _ _ _ _ _ _ _ _ _ Hok Hstep)).
  enough (p' = p + step_width vec_feature_names self t ∧ cols_in lo hi X') by tauto.
  unfold step_width in *. unfold _transform_self_step in Hstep.
  apply bind_Ok in Hstep as ([p1 X1] & H1 & ([p2 X2] & H2 & H3)%bind_Ok).
  set (w1 := if decide (1 < size (type self))%nat then 1 else 0) in *.
  set (w2 := if decide (t = OBJECT) then _ else 0) in *.
  assert (0 ≤ w1) as Hw1 by (unfold w1; destruct (decide _); lia).
  assert (0 ≤ w2) as Hw2 by (unfold w2; destruct (decide (t = OBJECT)); lia).
  assert (0 ≤ match dict_get (vectorizers self) t with
              | Some v => Z.of_nat (length (vec_feature_names v))
              | None => 0
              end) as Hw3 by (destruct (dict_get _ _); lia).
  assert (p1 = p + w1 ∧ matrix_ok X1 ∧ cols_in lo hi X1) as (-> & Hok1 & Hcols1).
  { clear Hw1. unfold w1 in *. destruct (decide (1 < size (type self))%nat);
      [|injection H1 as <- <-; split; [lia|done]].
    apply bind_Ok in H1 as (X0 & Hset & [= <- <-]).
    assert (lo ≤ p < hi) as Hrange by lia.
    rewrite wrap32_small by lia. split; [done|].
    by apply (set_col_if_in_cols lo hi _ _ _ _ _ _ Hok Hcols Hrange Hset). }
  assert (p2 = p + w1 + w2 ∧ matrix_ok X2 ∧ cols_in lo hi X2) as (-> & Hok2 & Hcols2).
  { unfold w2 in *. destruct (decide (t = OBJECT));
      [|injection H2 as <- <-; split; [lia|done]].
    apply (transform_properties_cols lo hi) in H2; [done|lia|done|done|done|lia|lia]. }
  destruct (dict_get (vectorizers self) t) as [v|]; [|injection H3 as <- <-; split; [lia|done]].
  apply bind_Ok in H3 as (X3 & H3 & [= <- <-]).
  split; [rewrite wrap32_small; lia|].
  destruct (dict_get ibt t) as [l|]; [|by injection H3 as <-].
  apply bind_Ok in H3 as (docs_ & _ & (rows1 & _ & (rows2 & _ & Hset)%bind_Ok)%bind_Ok).
  apply (lil_set_cols lo hi _ _ _ _ Hok2 Hcols2) in Hset; [done|].
  apply Forall_forall. intros c (c1 & -> & (c0 & -> & Hc0)%list_elem_of_fmap)%list_elem_of_fmap.
  apply list_elem_of_fmap in Hc0 as (rc & -> & Hrc).
  apply vec_transform_columns in Hrc.
  rewrite (wrap32_small rc.2) by lia. rewrite wrap32_small by lia. lia.
Qed.

Lemma _transform_self_cols (lo hi : Z) (self : Node) (docs : list Doc) (X : Matrix)
    (indices : list nat) (ibt : list (JsonType * list nat))
    (ibp : list (string * list nat)) (X' : Matrix) :
  0 ≤ lo → hi < 2 ^ 31 →
  matrix_ok X → cols_in lo hi X →
  lo ≤ pos self → pos self + local_width vec_feature_names self ≤ hi →
  _transform_self vec_feature_names vec_transform self docs X indices ibt ibp = Ok X' →
  matrix_ok X' ∧ cols_in lo hi X'.
Proof using vec_transform_columns.
  intros Hlo Hhi Hok Hcols Hpos Hbound. unfold _transform_self.
  intros ([p' X1] & Hfold & [= <-])%bind_Ok.
  set (I := λ (done : list JsonType) (st : Z * Matrix),
    st.1 = pos self + sumZ (step_width vec_feature_names self <$> done)
    ∧ matrix_ok st.2 ∧ cols_in lo hi st.2).
  assert (I (sorted_types (type self)) (p', X1)) as (_ & ? & ?); [|done].
  apply (foldl_result_inv_split _ I) in Hfold; [done| |].
  - unfold I. simpl. split; [lia|done].
  - clear Hfold. intros done t rest [p0 X0] [p1 X2] Hsplit (Hp0 & Hok0 & Hcols0) Hstep.
    simpl in Hp0, Hok0, Hcols0. unfold local_width in Hbound. rewrite Hsplit in Hbound.
    rewrite fmap_app, fmap_cons, sumZ_app in Hbound.
    change (sumZ (?a :: ?l)) with (a + sumZ l) in Hbound.
    assert (0 ≤ sumZ (step_width vec_feature_names self <$> done)
            ∧ 0 ≤ sumZ (step_width vec_feature_names self <$> rest)) as [Hd Hr].
    { split; apply sumZ_nonneg, Forall_fmap, Forall_forall; intros t0 _;
        apply step_width_nonneg. }
    assert (lo ≤ p0) as Hlo0 by lia.
    assert (p0 + step_width vec_feature_names self t ≤ hi) as Hhi0 by lia.
    destruct (_transform_self_step_cols lo hi _ _ _ _ _ _ _ _ _ _ Hlo Hhi Hok0 Hcols0
                Hlo0 Hhi0 Hstep) as (-> & ? & ?).
    unfold I. simpl. rewrite fmap_app, sumZ_app. simpl. split; [lia|done].
Qed.

Lemma transform_children_by_property_inv
    (f : list Doc → Matrix → list nat → Node → result Matrix) (J : Matrix → Prop)
    (self : Node) (docs : list Doc) (indices : list nat) (l : list (string * list nat))
    (i : nat) (X : Matrix) (i' : nat) (X' : Matrix) :
  J X →
  (∀ name child docs_ X0 rows_ X1,
     dict_get (properties self) name = Some child → J X0 →
     f docs_ X0 rows_ child = Ok X1 → J X1) →
  transform_children_by_property comprehension_leaks f self docs indices l i X
  = Ok (i', X') →
  J X'.
Proof using Type.
  clear vec_transform_columns. tidy.
  intros HJ Hf. revert i X HJ. induction l as [|[name indices_] l IH]; intros i X HJ; simpl.
  - by intros [= _ <-].
  - intros (docs_ & _ & Hrest)%bind_Ok.
    apply bind_Ok in Hrest as (rows_ & Hrows & Hrest).
    apply bind_Ok in Hrest as (r & Hget & Hrest).
    apply bind_Ok in Hrest as (X1 & Hr & Hrest).
    rewrite get_property_with_get in Hget.
    destruct (dict_get (properties self) name) as [child|] eqn:Hchild; [|done].
    simpl in Hget. injection Hget as <-.
    apply (IH _ _ (Hf _ _ _ _ _ _ Hchild HJ Hr) Hrest).
Qed.

Lemma transform_children_by_item_inv
    (f : list Doc → Matrix → list nat → Node → result Matrix) (J : Matrix → Prop)
    (self : Node) (docs : list Doc) (indices : list nat) (l : list (list nat))
    (j i : nat) (X : Matrix) (X' : Matrix) :
  J X →
  (∀ child docs_ X0 rows_ X1,
     child ∈ items self → J X0 → f docs_ X0 rows_ child = Ok X1 → J X1) →
  transform_children_by_item comprehension_leaks f self docs indices l j i X = Ok X' →
  J X'.
Proof using Type.
  clear vec_transform_columns. tidy.
  intros HJ Hf. revert j i X HJ. induction l as [|indices_ l IH]; intros j i X HJ; simpl.
  - by intros [= <-].
  - intros ([[[docs_ i1] index] rows_] & Hcall & Hrest)%bind_Ok.
    apply bind_Ok in Hrest as (r & Hget & Hrest).
    apply bind_Ok in Hrest as (X1 & Hr & Hrest).
    rewrite get_item_with_lookup in Hget.
    destruct (items self !! index) as [child|] eqn:Hchild; [|done].
    simpl in Hget. injection Hget as <-.
    apply (IH _ _ _ (Hf _ _ _ _ _ (list_elem_of_lookup_2 _ _ _ Hchild) HJ Hr) Hrest).
Qed.

(** With the block of every node inside [[0, N)], [_transform] sets columns
    in [[0, N)] only. *)
Lemma _transform_cols (N : Z) (self : Node) :
  N < 2 ^ 31 →
  all_nodes (λ m, 0 ≤ pos m ∧ pos m + local_width vec_feature_names m ≤ N) self →
  ∀ docs X indices X',
    matrix_ok X ∧ cols_in 0 N X →
    _transform VERSION strptime_ok vec_feature_names vec_transform comprehension_leaks
      self docs X indices = Ok X' →
    matrix_ok X' ∧ cols_in 0 N X'.
Proof using vec_transform_columns.
  intros HN. induction self as [self IHp IHi] using Node_ind'.
  intros Hall docs X indices X' [Hok Hcols].
  apply all_nodes_inv in Hall as ([Hpos Hwidth] & Hp & Hi).
  rewrite _transform_unfold. cbv zeta.
  intros (ibt & Hibt & Hrest)%bind_Ok.
  apply bind_Ok in Hrest as ([ibp i1] & Hibp & Hrest).
  apply bind_Ok in Hrest as ([ibi i2] & Hibi & Hrest).
  apply bind_Ok in Hrest as (X1 & Hself & Hrest).
  apply bind_Ok in Hrest as ([i3 X2] & Hprops & Hitems).
  apply (_transform_self_cols 0 N) in Hself as HJ1; [|lia|done..].
  assert (matrix_ok X2 ∧ cols_in 0 N X2) as HJ2.
  { destruct (dict_in ibt OBJECT); [|by injection Hprops as _ <-].
    apply (transform_children_by_property_inv _ (λ X, matrix_ok X ∧ cols_in 0 N X)) in Hprops;
      [done|done|].
    intros name child docs_ X0 rows_ X3 Hget. rewrite Forall_forall in IHp, Hp.
    apply (IHp (name, child) (dict_get_Some_elem _ _ _ Hget)).
    apply (Hp (name, child) (dict_get_Some_elem _ _ _ Hget)). }
  destruct (dict_in ibt ARRAY); [|by injection Hitems as <-].
  apply (transform_children_by_item_inv _ (λ X, matrix_ok X ∧ cols_in 0 N X)) in Hitems;
    [done|done|].
  intros child docs_ X0 rows_ X3 Hin. rewrite Forall_forall in IHi, Hi.
  apply (IHi child Hin), Hi, Hin.
Qed.

(** X28: every column [transform] sets is an index into [feature_names_]:
    on the tree [fit] returned on a new vectorizer, with fewer than 2^31
    feature names, and with extractors that report columns below their
    number of feature names, every column of the matrix is at least 0 and
    less than [n_features], the number of feature names.  In tuple mode
    too. *)
Theorem transform_columns (p : list Seg) (tuple_mode : bool) (docs : list Doc)
    (rules : list (Rule Factory)) (ign : list string) (root0 root' : Node)
    (docs' : list Doc) (X : Matrix) :
  init empty_repr p tuple_mode = Ok root0 →
  fit root0 docs rules ign = Ok root' →
  Z.of_nat (length (feature_names_ root')) < 2 ^ 31 →
  transform VERSION strptime_ok vec_feature_names vec_transform comprehension_leaks
    root' docs' = Ok X →
  n_features root' = Z.of_nat (length (feature_names_ root'))
  ∧ Forall (Forall (λ c, 0 ≤ c < n_features root')) X.1.
Proof using vec_transform_columns.
  intros Hinit Hfit Hbound Htrans. unfold fit in Hfit.
  apply bind_Ok in Hfit as (root & Hroot & Hfit).
  apply bind_Ok in Hfit as ([ret n'] & Hfit & [= <-]).
  destruct (extend_new_invariants _ _ _ _ _ Hinit Hroot) as (Hall & _).
  pose proof (extend_new_unfitted _ _ _ _ _ Hinit Hroot) as Hun.
  assert (valid root) as Hvalid.
  { rewrite init_empty in Hinit. injection Hinit as <-.
    eapply extend_valid; [|exact Hroot]. apply valid_fresh. }
  destruct (_fit_spec _ _ _ _ Hvalid _ _ _ Hfit) as [_ Hposd]; [done|lia|].
  assert (n_features n' = Z.of_nat (length (feature_names_ n'))) as Hnf.
  { destruct (Hposd 0%nat n') as (_ & ? & _); [by rewrite preorder_unfold|done]. }
  split; [done|]. rewrite Hnf.
  assert (valid n') as Hvalid'.
  { pose proof (_fit_fitted_of _ _ _ _ Hvalid _ _ _ Hfit) as Hfitted.
    assert (all_nodes (λ m, valid_dicts m ∧ linked m) n') as Hs.
    { apply (fitted_of_structure root); [|done].
      apply all_nodes_and; [done|]. revert Hall. apply all_nodes_impl. tauto. }
    revert Hs. apply all_nodes_impl. tauto. }
  destruct (_fit_layout _ _ _ _ Hvalid
              ltac:(revert Hun; apply all_nodes_impl; tauto)
              0 ret n' ltac:(unfold in_cint; lia) Hfit) as [_ Hlayout].
  unfold transform in Htrans. cbv zeta in Htrans.
  apply (_transform_cols (Z.of_nat (length (feature_names_ n')))) in Htrans
    as [_ Hcols]; [done|done| |].
  - apply all_nodes_preorder; [done|]. intros m [i Hm]%list_elem_of_lookup.
    destruct (positioned_range _ _ _ _ Hposd Hm) as [Hlo Hhi].
    rewrite <- feature_names__preorder in Hhi.
    assert (Z.of_nat (length (feature_names m)) = local_width vec_feature_names m) as <-; [|lia].
    clear -Hlayout Hm. apply list_elem_of_lookup_2 in Hm.
    revert m Hm. induction n' as [n' IHp IHi] using Node_ind'. intros m Hm.
    rewrite preorder_unfold in Hm. apply all_nodes_inv in Hlayout as (Hl & Hlp & Hli).
    apply elem_of_cons in Hm as [->|Hm]; [done|].
    apply elem_of_concat in Hm as (l & Hm & (c & -> & Hc)%list_elem_of_fmap).
    apply ordered_children_children in Hc. unfold children in Hc.
    apply elem_of_app in Hc as [Hc|Hc].
    + apply list_elem_of_fmap in Hc as (kv & -> & Hkv).
      rewrite Forall_forall in IHp, Hlp. by apply (IHp kv Hkv (Hlp kv Hkv)).
    + rewrite Forall_forall in IHi, Hli. by apply (IHi c Hc (Hli c Hc)).
  - split.
    + split; simpl.
      * apply Forall2_same_length_lookup. rewrite !length_replicate. split; [done|].
        intros k row data [-> _]%lookup_replicate [-> _]%lookup_replicate.
        split; [constructor|done].
      * apply Forall_forall. intros data [-> _]%elem_of_replicate. constructor.
    + unfold cols_in. simpl. apply Forall_forall.
      intros row [-> _]%elem_of_replicate. constructor.
Qed.

End Columns.

(** **** Rules for the integer type *)

Lemma get_vectorizer_skip_integer (pre post : list (Rule Factory)) (r : Rule Factory)
    (t : JsonType) (spath : string) :
  t ≠ INTEGER → rule_type r = Some (TypeStr "integer") →
  get_vectorizer re_search (pre ++ r :: post) t spath
  = get_vectorizer re_search (pre ++ post) t spath.
Proof.
  intros Ht Hr. induction pre as [|d pre IH]; simpl.
  - rewrite Hr. rewrite bool_decide_eq_false_2; [done|]. by destruct t.
  - by rewrite IH.
Qed.

Lemma fit_properties_ext (f g : Z → Node → result (Z * Node))
    (props0 : list (string * Node)) (names : list string) (p : Z) (self : Node) :
  (∀ name c q, dict_get props0 name = Some c → f q c = g q c) →
  fit_properties f props0 names p self = fit_properties g props0 names p self.
Proof.
  tidy. intros Hfg. revert p self. induction names as [|name names IH]; intros p self; simpl.
  - done.
  - rewrite !get_property_with_get. destruct (dict_get props0 name) as [c|] eqn:Hc; [|done].
    simpl. rewrite (Hfg _ _ _ Hc). destruct (g p c) as [[q c']|]; [|done]. simpl. apply IH.
Qed.

Lemma fit_items_ext (f g : Z → Node → result (Z * Node))
    (items0 : list Node) (indices : list nat) (p : Z) (self : Node) :
  (∀ c q, c ∈ items0 → f q c = g q c) →
  fit_items f items0 indices p self = fit_items g items0 indices p self.
Proof.
  tidy. intros Hfg. revert p self. induction indices as [|i indices IH]; intros p self; simpl.
  - done.
  - rewrite !get_item_with_lookup. destruct (items0 !! i) as [c|] eqn:Hc; [|done].
    simpl. rewrite (Hfg c p (list_elem_of_lookup_2 _ _ _ Hc)).
    destruct (g p c) as [[q c']|]; [|done]. simpl. apply IH.
Qed.

(** [_fit] looks rules up for the types of the nodes only. *)
Lemma _fit_rules_ext (n_total : Z) (rules rules' : list (Rule Factory))
    (ign : list string) (n : Node) :
  (∀ t spath, t ≠ INTEGER →
     get_vectorizer re_search rules t spath = get_vectorizer re_search rules' t spath) →
  all_nodes (λ m, INTEGER ∉ type m) n →
  ∀ p, _fit n p n_total rules ign = _fit n p n_total rules' ign.
Proof.
  intros Hrules. induction n as [n IHp IHi] using Node_ind'. intros Hall p.
  apply all_nodes_inv in Hall as (Hint & Hp & Hi).
  rewrite !_fit_unfold. cbv zeta.
  assert (_fit_self n p n_total rules ign = _fit_self n p n_total rules' ign) as ->.
  { unfold _fit_self. cbv zeta.
    assert (∀ l, (∀ t, t ∈ l → t ≠ INTEGER) →
      omap (λ json_type, (json_type,.) <$> get_vectorizer re_search rules json_type
                                             (join_path_str (path n))) l
      = omap (λ json_type, (json_type,.) <$> get_vectorizer re_search rules' json_type
                                               (join_path_str (path n))) l) as ->; [|done|].
    - induction l as [|t l IH]; intros Hl; csimpl; [done|].
      rewrite Hrules by (apply Hl; left). rewrite IH; [done|]. intros; apply Hl. by right.
    - intros t Ht%sorted_types_elem ->. by destruct n. }
  destruct (_fit_self n p n_total rules' ign) as [[q0 n1]|]; [|done]. simpl.
  rewrite (fit_properties_ext _ (λ pos child, _fit child pos n_total rules' ign)).
  2:{ intros name c q Hc. rewrite Forall_forall in IHp, Hp.
      apply (IHp (name, c) (dict_get_Some_elem _ _ _ Hc)).
      apply (Hp (name, c) (dict_get_Some_elem _ _ _ Hc)). }
  destruct (fit_properties _ _ _ _ _) as [[q1 n2]|]; [|done]. simpl.
  rewrite (fit_items_ext _ (λ pos child, _fit child pos n_total rules' ign)); [done|].
  intros c q Hc. rewrite Forall_forall in IHi, Hi. by apply IHi, Hi.
Qed.

(** X29: a rule for the type ['integer'] is never used: [typeof] gives
    ints the number type, so no node has the integer type, and [fit] on a
    new vectorizer returns the same with the rule as without it. *)
Theorem fit_integer_rule_unused (p : list Seg) (tuple_mode : bool) (docs : list Doc)
    (pre post : list (Rule Factory)) (r : Rule Factory) (ign : list string)
    (root0 : Node) :
  init empty_repr p tuple_mode = Ok root0 →
  rule_type r = Some (TypeStr "integer") →
  fit root0 docs (pre ++ r :: post) ign = fit root0 docs (pre ++ post) ign.
Proof.
  intros Hinit Hr. unfold fit. destruct (extend root0 docs) as [root|e] eqn:Hroot; [|done].
  simpl. destruct (extend_new_invariants _ _ _ _ _ Hinit Hroot) as (Hall & _).
  rewrite (_fit_rules_ext _ _ (pre ++ post)); [done| |].
  - intros t spath Ht. by apply get_vectorizer_skip_integer.
  - revert Hall. apply all_nodes_impl. by intros m ((_ & _ & Hint & _) & _).
Qed.

(** **** When [transform] returns *)

Lemma lil_set_col_total (X : Matrix) (rs : list nat) (col : Z) :
  matrix_ok X → Forall (λ r, (r < length X.1)%nat) rs →
  ∃ X', Lil.lil_set_col X.1 X.2 rs col = Ok X'.
Proof.
  tidy. destruct X as [rows datas]. simpl. intros [Hok _]. revert rows datas Hok.
  induction rs as [|r rs IH]; intros rows datas Hok Hrs; simpl; [by eexists|].
  apply Forall_cons in Hrs as [Hr Hrs].
  destruct (lil_insert_total rows datas r col Hok Hr) as [[rows1 datas1] Hins].
  rewrite Hins. simpl.
  destruct (lil_insert_inv _ _ _ _ _ _ Hok Hins) as (Hok1 & [Hl _] & _).
  apply IH; [done|]. by rewrite Hl.
Qed.

Lemma lil_set_total (X : Matrix) (rs : list nat) (cols : list Z) :
  matrix_ok X → Forall (λ r, (r < length X.1)%nat) rs → (length rs ≤ length cols)%nat →
  ∃ X', Lil.lil_set X.1 X.2 rs cols = Ok X'.
Proof.
  tidy. destruct X as [rows datas]. simpl. intros [Hok _]. revert rows datas cols Hok.
  induction rs as [|r rs IH]; intros rows datas cols Hok Hrs Hlen; simpl; [by eexists|].
  destruct cols as [|c cols]; [simpl in Hlen; lia|].
  apply Forall_cons in Hrs as [Hr Hrs].
  destruct (lil_insert_total rows datas r c Hok Hr) as [[rows1 datas1] Hins].
  rewrite Hins. simpl.
  destruct (lil_insert_inv _ _ _ _ _ _ Hok Hins) as (Hok1 & [Hl _] & _).
  apply IH; [done|by rewrite Hl|simpl in Hlen; lia].
Qed.

Lemma mapM_total {A B} (g : A → result B) (l : list A) :
  Forall (λ a, ∃ b, g a = Ok b) l →
  ∃ l', mapM g l = Ok l' ∧ Forall2 (λ a b, g a = Ok b) l l'.
Proof.
  induction 1 as [|a l [b Hb] _ (l' & IH & Hall)]; simpl.
  - exists []. split; [done|constructor].
  - rewrite Hb. simpl. rewrite IH. simpl. exists (b :: l'). split; [done|by constructor].
Qed.

Lemma take_indices_total {A} (indices : list A) (indices_ : list nat) :
  Forall (λ i, (i < length indices)%nat) indices_ →
  ∃ rs, take_indices indices indices_ = Ok rs
        ∧ length rs = length indices_ ∧ Forall (λ r, r ∈ indices) rs.
Proof.
  tidy. intros Hin. unfold take_indices.
  destruct (mapM_total (λ i, of_option IndexError (indices !! i)) indices_)
    as (rs & Hrs & Hall).
  { eapply Forall_impl; [exact Hin|]. intros i Hi. simpl in Hi.
    destruct (lookup_lt_is_Some_2 indices i Hi) as [r ->]. by exists r. }
  exists rs. split_and!; [done|symmetry; by eapply Forall2_length|].
  apply Forall_forall. intros r Hr.
  destruct (take_indices_elem _ _ _ Hrs r Hr) as (i & _ & Hi).
  by eapply list_elem_of_lookup_2.
Qed.

(** Setting a column for the documents listed under a key returns when
    the matrix is well formed, every row index is a row of the matrix, and
    the listed documents have a row index. *)
Lemma set_col_if_in_total {K} `{EqDecision K} (X : Matrix) (indices : list nat)
    (d : list (K * list nat)) (key : K) (p : Z) :
  matrix_ok X → Forall (λ r, (r < length X.1)%nat) indices →
  (∀ l i, dict_get d key = Some l → i ∈ l → (i < length indices)%nat) →
  ∃ X', set_col_if_in X indices d key p = Ok X'.
Proof.
  tidy. intros Hok Hrows Hd. unfold set_col_if_in.
  destruct (dict_get d key) as [l|]; [|by eexists].
  destruct (take_indices_total indices l) as (rs & -> & _ & Hrs).
  { apply Forall_forall. intros i Hi. by eapply Hd. }
  simpl. apply lil_set_col_total; [done|].
  rewrite Forall_forall in Hrows, Hrs |- *. intros r Hr. by apply Hrows, Hrs.
Qed.

Lemma transform_properties_total (req : gset string) (indices : list nat)
    (ibp : list (string * list nat)) (names : list string) (p : Z) (X : Matrix) :
  matrix_ok X → Forall (λ r, (r < length X.1)%nat) indices →
  (∀ name l i, dict_get ibp name = Some l → i ∈ l → (i < length indices)%nat) →
  ∃ r, transform_properties (Some req) indices ibp names (p, X) = Ok r.
Proof.
  tidy. intros Hok Hrows Hd. revert p X Hok Hrows.
  induction names as [|name names IH]; intros p X Hok Hrows; simpl; [by eexists|].
  destruct (decide (name ∉ req)); [|by apply IH].
  destruct (set_col_if_in_total X indices ibp name p Hok Hrows) as [X1 HX1];
    [by apply Hd|].
  rewrite HX1. simpl.
  destruct (set_col_if_in_grows _ _ _ _ _ _ Hok HX1) as [Hok1 [Hl _]].
  apply IH; [done|by rewrite Hl].
Qed.

Section Rows.
(** The rows an extractor reports are indices into the documents it was
    given. *)
Hypothesis vec_transform_rows :
  ∀ v ds rc, rc ∈ vec_transform v ds → (rc.1 < length ds)%nat.

Lemma _transform_self_step_total (self : Node) (docs : list Doc) (indices : list nat)
    (ibt : list (JsonType * list nat)) (ibp : list (string * list nat))
    (t : JsonType) (p : Z) (X : Matrix) :
  matrix_ok X → Forall (λ r, (r < length X.1)%nat) indices →
  length indices = length docs →
  (t = OBJECT → is_Some (required self)) →
  (∀ t l i, dict_get ibt t = Some l → i ∈ l → (i < length docs)%nat) →
  (∀ name l i, dict_get ibp name = Some l → i ∈ l → (i < length docs)%nat) →
  ∃ r, _transform_self_step vec_feature_names vec_transform self docs indices ibt ibp t
         (p, X) = Ok r.
Proof using vec_transform_rows.
  intros Hok Hrows Hlen Hreq Hibt Hibp. unfold _transform_self_step.
  assert (∃ p1 X1,
    (if decide (1 < size (type self))%nat then
       X ← set_col_if_in X indices ibt t p; Ok (wrap32 (p + 1), X)
     else Ok (p, X)) = Ok (p1, X1)
    ∧ matrix_ok X1 ∧ length X1.1 = length X.1) as (p1 & X1 & -> & Hok1 & Hl1).
  { destruct (decide _); [|by eexists _, _].
    destruct (set_col_if_in_total X indices ibt t p Hok Hrows) as [X1 HX1].
    { intros l0 i Hl0 Hi. rewrite Hlen. by eapply Hibt. }
    rewrite HX1. simpl. destruct (set_col_if_in_grows _ _ _ _ _ _ Hok HX1) as [? [? _]].
    by eexists _, _. }
  cbn [mbind result_bind].
  assert (Forall (λ r, (r < length X1.1)%nat) indices) as Hrows1 by (by rewrite Hl1).
  match goal with
  | |- ∃ r, ?m ≫= _ = Ok r =>
      assert (∃ p2 X2, m = Ok (p2, X2) ∧ matrix_ok X2 ∧ length X2.1 = length X1.1)
        as (p2 & X2 & -> & Hok2 & Hl2)
  end.
  { destruct (decide (t = OBJECT)) as [Ht|]; [|by eexists _, _].
    destruct (Hreq Ht) as [req ->].
    destruct (transform_properties_total req indices ibp
                (sorted (dict_keys (properties self))) p1 X1 Hok1 Hrows1)
      as [[p2 X2] HX2].
    { intros name l0 i Hl0 Hi. rewrite Hlen. by eapply Hibp. }
    rewrite HX2. destruct (transform_properties_grows _ _ _ _ _ _ _ _ Hok1 HX2) as [? [? _]].
    by eexists _, _. }
  cbn [mbind result_bind].
  assert (Forall (λ r, (r < length X2.1)%nat) indices) as Hrows2 by (by rewrite Hl2).
  destruct (dict_get (vectorizers self) t) as [v|]; [|by eexists].
  destruct (dict_get ibt t) as [l|] eqn:Hl; [|by eexists].
  assert (Forall (λ i, (i < length docs)%nat) l) as Hlt
    by (apply Forall_forall; intros i Hi; by eapply Hibt).
  destruct (take_indices_total docs l Hlt) as (docs_ & -> & Hld & _).
  destruct (take_indices_total indices l) as (rows1 & -> & Hlr & Hrows1');
    [by rewrite Hlen|].
  simpl.
  destruct (take_indices_total rows1 (vec_transform v docs_).*1) as (rows2 & -> & Hl2' & Hr2).
  { apply Forall_forall. intros r (rc & -> & Hrc)%list_elem_of_fmap.
    apply vec_transform_rows in Hrc. lia. }
  simpl.
  destruct (lil_set_total X2 rows2
              (map (λ c, wrap32 (p2 + c)) (map wrap32 (vec_transform v docs_).*2)) Hok2)
    as [X3 ->]; [| |by eexists].
  - rewrite Forall_forall in Hrows2, Hrows1', Hr2 |- *. intros r Hr.
    by apply Hrows2, Hrows1', Hr2.
  - rewrite !length_map, Hl2'. by rewrite !length_fmap.
Qed.

Lemma _transform_self_total (self : Node) (docs : list Doc) (X : Matrix)
    (indices : list nat) (ibt : list (JsonType * list nat))
    (ibp : list (string * list nat)) :
  matrix_ok X → Forall (λ r, (r < length X.1)%nat) indices →
  length indices = length docs →
  (OBJECT ∈ type self → is_Some (required self)) →
  (∀ t l i, dict_get ibt t = Some l → i ∈ l → (i < length docs)%nat) →
  (∀ name l i, dict_get ibp name = Some l → i ∈ l → (i < length docs)%nat) →
  ∃ X', _transform_self vec_feature_names vec_transform self docs X indices ibt ibp = Ok X'.
Proof using vec_transform_rows.
  intros Hok Hrows Hlen Hreq Hibt Hibp. unfold _transform_self.
  destruct (foldl_result_total
              (_transform_self_step vec_feature_names vec_transform self docs indices ibt ibp)
              (λ st : Z * Matrix, matrix_ok st.2 ∧ length st.2.1 = length X.1)
              (sorted_types (type self)) (pos self, X)) as ([p' X'] & -> & _).
  - by split.
  - intros t [p0 X0] Ht%sorted_types_elem [Hok0 Hl0]. simpl in Hok0, Hl0.
    destruct (_transform_self_step_total self docs indices ibt ibp t p0 X0)
      as [[p1 X1] Hstep]; [done|by rewrite Hl0|done|by intros ->; apply Hreq|done|done|].
    exists (p1, X1). split; [done|].
    destruct (_transform_self_step_grows _ _ _ _ _ _ _ _ _ _ Hok0 Hstep) as [? [Hl _]].
    split; [done|]. simpl in *. congruence.
  - simpl. by eexists.
Qed.

End Rows.

Lemma classifiable_typeof (doc : Doc) :
  classifiable VERSION strptime_ok doc = true → ∃ t, typeof doc = Ok t.
Proof.
  rewrite classifiable_unfold. destruct (typeof doc) as [t|]; [|done]. by exists t.
Qed.

Lemma typeof_OBJECT (doc : Doc) : typeof doc = Ok OBJECT → ∃ kvs, doc = DDict kvs.
Proof.
  intros Ht. destruct (typeof_shape _ _ Ht) as ([Hd _] & _).
  specialize (Hd eq_refl). destruct doc; try done. by eexists.
Qed.

Lemma typeof_ARRAY (doc : Doc) : typeof doc = Ok ARRAY → ∃ l, doc = DList l.
Proof.
  intros Ht. destruct (typeof_shape _ _ Ht) as (_ & [Hd _] & _).
  specialize (Hd eq_refl). destruct doc; try done. by eexists.
Qed.

Lemma partition_by_type_total (ty : gset JsonType) (docs : list Doc) (i : nat)
    (acc : list (JsonType * list nat)) :
  Forall (λ d, classifiable VERSION strptime_ok d = true) docs →
  ∃ d, partition_by_type VERSION strptime_ok ty docs i acc = Ok d.
Proof.
  intros Hall. revert i acc. induction Hall as [|doc docs Hdoc _ IH]; intros i acc; simpl.
  - by eexists.
  - destruct (classifiable_typeof doc Hdoc) as [t ->]. simpl. apply IH.
Qed.

Lemma partition_by_property_total (self : Node) (docs : list Doc) (ois : list nat)
    (acc : list (string * list nat)) :
  Forall (λ i, ∃ kvs, docs !! i = Some (DDict kvs)) ois →
  ∃ d, partition_by_property self docs ois acc = Ok d.
Proof.
  tidy. intros Hall. revert acc. induction Hall as [|i ois [kvs Hi] _ IH]; intros acc; simpl.
  - by eexists.
  - rewrite Hi. simpl. apply IH.
Qed.

Lemma partition_by_property_names (Q : string → nat → Prop) (self : Node)
    (docs : list Doc) (ois : list nat) (acc d : list (string * list nat)) :
  partition_by_property self docs ois acc = Ok d →
  (∀ i kvs key, i ∈ ois → docs !! i = Some (DDict kvs) → key ∈ dict_keys kvs →
     dict_in (properties self) key = true → Q key i) →
  (∀ name l i, dict_get acc name = Some l → i ∈ l → Q name i) →
  ∀ name l i, dict_get d name = Some l → i ∈ l → Q name i.
Proof.
  tidy. revert acc. induction ois as [|i0 ois IH]; intros acc; simpl.
  - by intros [= <-].
  - intros (doc & Hdoc & (kvs & Hkvs & Hrest)%bind_Ok)%bind_Ok HQ Hacc.
    destruct (docs !! i0) as [doc'|] eqn:Hi0; [|done]. injection Hdoc as ->.
    destruct doc; try done. injection Hkvs as ->.
    apply (IH _ Hrest); [intros i kvs' key Hi; apply HQ; by right|].
    clear Hrest IH.
    assert (∀ key, key ∈ dict_keys kvs → dict_in (properties self) key = true → Q key i0)
      as Hkeys by (intros key; apply HQ; [left|done]).
    clear HQ Hi0. revert acc Hacc Hkeys. generalize (dict_keys kvs). intros keys.
    induction keys as [|key keys IHk]; intros acc Hacc Hkeys; simpl; [done|].
    apply IHk; [|intros k Hk; apply Hkeys; by right].
    destruct (dict_in (properties self) key) eqn:Hin; [|done].
    intros name l i. rewrite dict_get_append. destruct (decide (key = name)) as [<-|];
      [|by apply Hacc].
    intros [= <-] [Hi| ->%list_elem_of_singleton]%elem_of_app.
    + destruct (dict_get acc key) as [l0|] eqn:Hl0; [by eapply Hacc|].
      by apply elem_of_nil in Hi.
    + apply Hkeys; [left|done].
Qed.

Lemma partition_by_item_total (self : Node) (docs : list Doc) (ais : list nat)
    (acc : list (list nat)) :
  Forall (λ i, ∃ l, docs !! i = Some (DList l)) ais →
  ∃ d, partition_by_item self docs ais acc = Ok d.
Proof.
  tidy. intros Hall. revert acc. induction Hall as [|i ais [l Hi] _ IH]; intros acc; simpl.
  - by eexists.
  - rewrite Hi. simpl. apply IH.
Qed.

(** With shared arrays, a document listed at position [j] is an array with
    more than [j] elements, and the node has an item. *)
Lemma partition_by_item_shared (self : Node) (docs : list Doc) (ais : list nat)
    (acc d : list (list nat)) :
  tuple_items self = false →
  partition_by_item self docs ais acc = Ok d →
  (∀ j l i, acc !! j = Some l → i ∈ l →
     ∃ lst, docs !! i = Some (DList lst) ∧ (j < length lst)%nat ∧ items self ≠ []) →
  ∀ j l i, d !! j = Some l → i ∈ l →
    ∃ lst, docs !! i = Some (DList lst) ∧ (j < length lst)%nat ∧ items self ≠ [].
Proof.
  tidy. intros Hti. revert acc. induction ais as [|i0 ais IH]; intros acc; simpl.
  - by intros [= <-].
  - intros (doc & Hdoc & (lst & Hlst & Hrest)%bind_Ok)%bind_Ok Hacc.
    destruct (docs !! i0) as [doc'|] eqn:Hi0; [|done]. injection Hdoc as ->.
    destruct doc; try done. injection Hlst as ->.
    apply (IH _ Hrest). clear Hrest IH.
    assert (∀ j, j ∈ seq 0 (length lst) → (j < length lst)%nat) as Hjs
      by (intros j Hj%elem_of_seq; lia).
    revert acc Hacc Hjs. generalize (seq 0 (length lst)). intros js.
    induction js as [|j js IHj]; intros acc Hacc Hjs; simpl; [done|].
    apply IHj; [|intros j' Hj'; apply Hjs; by right].
    rewrite Hti. destruct (decide _) as [Hroom|]; [|done].
    assert (items self ≠ []) as Hne by (destruct (items self); [simpl in Hroom; lia|done]).
    assert (j < length lst)%nat as Hj by (apply Hjs; left).
    destruct (decide (j < length acc)%nat) as [Hlt|Hge].
    + intros j' l i Hl Hi. destruct (decide (j' = j)) as [->|Hne'].
      * rewrite list_lookup_alter, decide_True in Hl by done.
        destruct (acc !! j) as [l0|] eqn:Hl0; [|done]. injection Hl as <-.
        apply elem_of_app in Hi as [Hi| ->%list_elem_of_singleton]; [by eapply Hacc|].
        by exists lst.
      * rewrite list_lookup_alter_ne in Hl by done. by eapply Hacc.
    + intros j' l i Hl Hi. apply lookup_app_Some in Hl as [Hl|[Hlen Hl]]; [by eapply Hacc|].
      destruct (j' - length acc)%nat eqn:Hsub; [|done]. injection Hl as <-.
      apply list_elem_of_singleton in Hi as ->. exists lst. split_and!; [done|lia|done].
Qed.

Lemma partition_by_property_keys (self : Node) (docs : list Doc) (ois : list nat)
    (acc d : list (string * list nat)) :
  partition_by_property self docs ois acc = Ok d →
  (∀ name, name ∈ dict_keys acc → dict_in (properties self) name = true) →
  ∀ name, name ∈ dict_keys d → dict_in (properties self) name = true.
Proof.
  tidy. revert acc. induction ois as [|i0 ois IH]; intros acc; simpl.
  - by intros [= <-].
  - intros (doc & _ & (kvs & _ & Hrest)%bind_Ok)%bind_Ok Hacc.
    apply (IH _ Hrest). clear Hrest IH. generalize (dict_keys kvs). intros keys.
    revert acc Hacc. induction keys as [|key keys IHk]; intros acc Hacc; simpl; [done|].
    apply IHk. destruct (dict_in (properties self) key) eqn:Hin; [|done].
    intros name [->|?]%dict_keys_append_elem; [done|by apply Hacc].
Qed.

Lemma partition_by_item_nonempty (self : Node) (docs : list Doc) (ais : list nat)
    (acc d : list (list nat)) :
  tuple_items self = false →
  partition_by_item self docs ais acc = Ok d →
  (acc ≠ [] → items self ≠ []) → d ≠ [] → items self ≠ [].
Proof.
  tidy. intros Hti. revert acc. induction ais as [|i0 ais IH]; intros acc; simpl.
  - by intros [= <-].
  - intros (doc & _ & (lst & _ & Hrest)%bind_Ok)%bind_Ok Hacc.
    apply (IH _ Hrest). clear Hrest IH. generalize (seq 0 (length lst)). intros js.
    revert acc Hacc. induction js as [|j js IHj]; intros acc Hacc; simpl; [done|].
    apply IHj. rewrite Hti. destruct (decide _) as [Hroom|]; [|done].
    intros _. destruct (items self); [simpl in Hroom; lia|done].
Qed.

Lemma transform_children_by_property_total
    (f : list Doc → Matrix → list nat → Node → result Matrix)
    (self : Node) (docs : list Doc) (indices : list nat) (l : list (string * list nat))
    (i : nat) (X : Matrix) :
  matrix_ok X → Forall (λ r, (r < length X.1)%nat) indices →
  length indices = length docs →
  Forall (λ kv, (∃ child, dict_get (properties self) kv.1 = Some child ∧ child_returns VERSION strptime_ok f child)
                ∧ Forall (λ i, ∃ kvs v, docs !! i = Some (DDict kvs)
                                        ∧ dict_get kvs kv.1 = Some v
                                        ∧ classifiable VERSION strptime_ok v = true) kv.2) l →
  ∃ r, transform_children_by_property comprehension_leaks f self docs indices l i X = Ok r
       ∧ matrix_ok r.2 ∧ length r.2.1 = length X.1.
Proof.
  intros Hok Hrows Hlen Hl. revert i X Hok Hrows.
  induction Hl as [|[name indices_] l [(child & Hchild & Hret) Hdocs] _ IH];
    intros i X Hok Hrows; simpl.
  - by eexists.
  - simpl in Hchild, Hdocs.
    destruct (mapM_total (λ i, doc ← of_option IndexError (docs !! i);
                               kvs ← doc_items doc;
                               of_option KeyError (dict_get kvs name)) indices_)
      as (docs_ & -> & Hdocs_).
    { eapply Forall_impl; [exact Hdocs|]. intros i0 (kvs & v & -> & Hv & _). simpl.
      rewrite Hv. by exists v. }
    simpl.
    destruct (take_indices_total indices indices_) as (rows_ & -> & Hlr & Hrs).
    { eapply Forall_impl; [exact Hdocs|]. intros i0 (kvs & v & Hi0 & _). simpl.
      rewrite Hlen. by eapply lookup_lt_Some. }
    simpl. rewrite get_property_with_get, Hchild. simpl.
    destruct (Hret docs_ X rows_) as (X1 & -> & Hok1 & Hl1); [|done| | |].
    + apply Forall_forall. intros v [k Hk]%list_elem_of_lookup.
      destruct (Forall2_lookup_r _ _ _ _ _ Hdocs_ Hk) as (i0 & Hi0 & Hv).
      rewrite Forall_forall in Hdocs.
      destruct (Hdocs i0 (list_elem_of_lookup_2 _ _ _ Hi0)) as (kvs & v' & Hd & Hg & Hc).
      rewrite Hd in Hv. simpl in Hv. rewrite Hg in Hv. simpl in Hv. by injection Hv as <-.
    + rewrite Hlr. by eapply Forall2_length.
    + rewrite Forall_forall in Hrows, Hrs |- *. intros r Hr. by apply Hrows, Hrs.
    + simpl. destruct (IH (after_comprehension comprehension_leaks i indices_) X1 Hok1)
        as (r & -> & ? & ?); [by rewrite Hl1|].
      exists r. split_and!; [done|done|congruence].
Qed.

Lemma transform_children_by_item_total
    (f : list Doc → Matrix → list nat → Node → result Matrix)
    (self : Node) (docs : list Doc) (indices : list nat) (l : list (list nat))
    (j i : nat) (X : Matrix) :
  tuple_items self = false →
  matrix_ok X → Forall (λ r, (r < length X.1)%nat) indices →
  length indices = length docs →
  Forall (child_returns VERSION strptime_ok f) (items self) →
  (l ≠ [] → items self ≠ []) →
  (∀ k indices_, l !! k = Some indices_ →
     Forall (λ i, ∃ lst v, docs !! i = Some (DList lst) ∧ lst !! (j + k)%nat = Some v
                           ∧ classifiable VERSION strptime_ok v = true) indices_) →
  ∃ X', transform_children_by_item comprehension_leaks f self docs indices l j i X = Ok X'
        ∧ matrix_ok X' ∧ length X'.1 = length X.1.
Proof.
  intros Hti Hok Hrows Hlen Hret. revert j i X Hok Hrows.
  induction l as [|indices_ l IH]; intros j i X Hok Hrows Hne Hl; simpl.
  - by eexists.
  - specialize (Hne ltac:(done)).
    pose proof (Hl 0%nat indices_ eq_refl) as Hdocs. rewrite Nat.add_0_r in Hdocs.
    unfold item_call.
    destruct (mapM_total (λ i, doc ← of_option IndexError (docs !! i);
                               l ← doc_list doc;
                               of_option IndexError (l !! j)) indices_)
      as (docs_ & -> & Hdocs_).
    { eapply Forall_impl; [exact Hdocs|]. intros i0 (lst & v & -> & Hv & _). simpl.
      rewrite Hv. by exists v. }
    simpl.
    destruct (take_indices_total indices indices_) as (rows_ & -> & Hlr & Hrs).
    { eapply Forall_impl; [exact Hdocs|]. intros i0 (lst & v & Hi0 & _). simpl.
      rewrite Hlen. by eapply lookup_lt_Some. }
    simpl. rewrite Hti. rewrite get_item_with_lookup.
    destruct (items self) as [|child rest] eqn:Hitems; [done|]. simpl.
    apply Forall_cons in Hret as [Hchild Hrest].
    destruct (Hchild docs_ X rows_) as (X1 & -> & Hok1 & Hl1); [|done| | |].
    + apply Forall_forall. intros v [k Hk]%list_elem_of_lookup.
      destruct (Forall2_lookup_r _ _ _ _ _ Hdocs_ Hk) as (i0 & Hi0 & Hv).
      rewrite Forall_forall in Hdocs.
      destruct (Hdocs i0 (list_elem_of_lookup_2 _ _ _ Hi0)) as (lst & v' & Hd & Hg & Hc).
      rewrite Hd in Hv. simpl in Hv. rewrite Hg in Hv. simpl in Hv. by injection Hv as <-.
    + rewrite Hlr. by eapply Forall2_length.
    + rewrite Forall_forall in Hrows, Hrs |- *. intros r Hr. by apply Hrows, Hrs.
    + simpl.
      destruct (IH (S j) (after_comprehension comprehension_leaks i indices_) X1 Hok1)
        as (X' & -> & ? & ?); [by rewrite Hl1|done| |].
      * intros k ind Hk. pose proof (Hl (S k) ind Hk) as Hd.
        by replace (S j + k)%nat with (j + S k)%nat by lia.
      * exists X'. split_and!; [done|done|congruence].
Qed.

Section Returns.
(** The rows an extractor reports are indices into the documents it was
    given. *)
Hypothesis vec_transform_rows :
  ∀ v ds rc, rc ∈ vec_transform v ds → (rc.1 < length ds)%nat.

(** With shared arrays, and [required] set wherever the object type is,
    [_transform] returns on documents that classify. *)
Lemma _transform_total (self : Node) :
  all_nodes (λ m, tuple_items m = false ∧ (OBJECT ∈ type m → is_Some (required m))) self →
  child_returns VERSION strptime_ok
    (λ docs_ X rows_ child,
       _transform VERSION strptime_ok vec_feature_names vec_transform comprehension_leaks
         child docs_ X rows_) self.
Proof using vec_transform_rows.
  induction self as [self IHp IHi] using Node_ind'. intros Hall docs X indices Hdocs Hok Hlen Hrows.
  apply all_nodes_inv in Hall as ([Hti Hreq] & Hp & Hi).
  enough (∃ X', _transform VERSION strptime_ok vec_feature_names vec_transform
                  comprehension_leaks self docs X indices = Ok X') as [X' HX'].
  { exists X'. split; [done|]. by destruct (_transform_grows _ _ _ _ _ Hok HX') as [? [? _]]. }
  rewrite _transform_unfold. cbv zeta.
  destruct (partition_by_type_total (type self) docs 0 [] Hdocs) as [ibt Hibt].
  rewrite Hibt. cbn [mbind result_bind].
  assert (∀ t l i, dict_get ibt t = Some l → i ∈ l →
            ∃ doc, docs !! i = Some doc ∧ typeof doc = Ok t ∧ t ∈ type self) as Htyped
    by (apply (partition_by_type_spec _ _ [] _ _ Hibt); done).
  assert (∀ i doc, docs !! i = Some doc → classifiable VERSION strptime_ok doc = true)
    as Hclass.
  { intros i doc Hd. rewrite Forall_forall in Hdocs. by eapply Hdocs, list_elem_of_lookup_2. }
  set (Qp := λ (name : string) (i : nat),
    ∃ kvs v, docs !! i = Some (DDict kvs) ∧ dict_get kvs name = Some v
             ∧ classifiable VERSION strptime_ok v = true
             ∧ dict_in (properties self) name = true).
  match goal with
  | |- ∃ X', ?m ≫= _ = Ok X' =>
      assert (∃ ibp i1, m = Ok (ibp, i1)
                ∧ (∀ name l i, dict_get ibp name = Some l → i ∈ l → Qp name i)
                ∧ ∀ name, name ∈ dict_keys ibp → dict_in (properties self) name = true)
        as (ibp & i1 & -> & Hibp & Hkeys)
  end.
  { destruct (dict_get ibt OBJECT) as [ois|] eqn:Hois;
      [|eexists [], _; split_and!; [reflexivity|done|by intros name ?%elem_of_nil]].
    assert (Forall (λ i, ∃ kvs, docs !! i = Some (DDict kvs)) ois) as Hobj.
    { apply Forall_forall. intros i Hin.
      destruct (Htyped _ _ _ Hois Hin) as (doc & Hdoc & Ht & _).
      destruct (typeof_OBJECT _ Ht) as [kvs ->]. by exists kvs. }
    destruct (partition_by_property_total self docs ois [] Hobj) as [d Hd].
    rewrite Hd. simpl. eexists _, _. split; [done|].
    split; [|apply (partition_by_property_keys _ _ _ _ _ Hd); by intros name ?%elem_of_nil].
    apply (partition_by_property_names Qp _ _ _ _ _ Hd); [|done].
    intros i kvs key _ Hdoc Hkey Hin.
    apply dict_get_Some_keys in Hkey as [v Hv]. exists kvs, v. split_and!; try done.
    pose proof (Hclass _ _ Hdoc) as Hc. rewrite classifiable_unfold in Hc.
    destruct (typeof (DDict kvs)); [|done].
    rewrite forallb_forall in Hc. apply (Hc (key, v)).
    apply list_elem_of_In. by apply dict_get_Some_elem. }
  cbn [mbind result_bind].
  set (Qi := λ (j i : nat),
    ∃ lst, docs !! i = Some (DList lst) ∧ (j < length lst)%nat ∧ items self ≠ []).
  match goal with
  | |- ∃ X', ?m ≫= _ = Ok X' =>
      assert (∃ ibi i2, m = Ok (ibi, i2)
                ∧ (∀ j l i, ibi !! j = Some l → i ∈ l → Qi j i)
                ∧ (ibi ≠ [] → items self ≠ []))
        as (ibi & i2 & -> & Hibi & Hne)
  end.
  { destruct (dict_get ibt ARRAY) as [ais|] eqn:Hais;
      [|eexists [], _; split_and!; [reflexivity|by intros j l i ?|done]].
    assert (Forall (λ i, ∃ l, docs !! i = Some (DList l)) ais) as Harr.
    { apply Forall_forall. intros i Hin.
      destruct (Htyped _ _ _ Hais Hin) as (doc & Hdoc & Ht & _).
      destruct (typeof_ARRAY _ Ht) as [l ->]. by exists l. }
    destruct (partition_by_item_total self docs ais [] Harr) as [d Hd].
    rewrite Hd. simpl. eexists _, _. split; [done|].
    split; [|by apply (partition_by_item_nonempty _ _ _ _ _ Hti Hd)].
    apply (partition_by_item_shared _ _ _ _ _ Hti Hd). by intros j l i ?. }
  cbn [mbind result_bind].
  destruct (_transform_self_total vec_transform_rows self docs X indices ibt ibp)
    as [X1 HX1]; [done..| | |].
  { intros t l i Hl Hin. destruct (Htyped _ _ _ Hl Hin) as (doc & Hdoc & _).
    by eapply lookup_lt_Some. }
  { intros name l i Hl Hin. destruct (Hibp _ _ _ Hl Hin) as (kvs & v & Hdoc & _).
    by eapply lookup_lt_Some. }
  rewrite HX1. cbn [mbind result_bind].
  destruct (_transform_self_grows _ _ _ _ _ _ _ Hok HX1) as [Hok1 [Hl1 _]].
  match goal with
  | |- ∃ X', ?m ≫= _ = Ok X' =>
      assert (∃ i3 X2, m = Ok (i3, X2) ∧ matrix_ok X2 ∧ length X2.1 = length X.1)
        as (i3 & X2 & -> & Hok2 & Hl2)
  end.
  { destruct (dict_in ibt OBJECT); [|by exists i2, X1].
    destruct (transform_children_by_property_total
                (λ docs_ X rows_ child,
                   _transform VERSION strptime_ok vec_feature_names vec_transform
                     comprehension_leaks child docs_ X rows_)
                self docs indices (sorted_items ibp) i2 X1 Hok1)
      as ([i3 X2] & -> & ? & ?); [by rewrite Hl1|done| |].
    - apply Forall_forall. intros [name l] Hin%sorted_items_elem. simpl. split.
      + assert (dict_in (properties self) name = true) as Hdin
          by (apply Hkeys, dict_get_Some_keys; by exists l).
        unfold dict_in in Hdin.
        destruct (dict_get (properties self) name) as [child|] eqn:Hchild; [|done].
        exists child. split; [done|]. rewrite Forall_forall in IHp, Hp.
        apply (IHp (name, child) (dict_get_Some_elem _ _ _ Hchild)).
        apply (Hp (name, child) (dict_get_Some_elem _ _ _ Hchild)).
      + apply Forall_forall. intros i Hil.
        destruct (Hibp name l i Hin Hil) as (kvs & v & ? & ? & ? & _). by exists kvs, v.
    - eexists _, _. split; [done|]. simpl in *. split; [done|congruence]. }
  cbn [mbind result_bind].
  destruct (dict_in ibt ARRAY); [|by eexists].
  destruct (transform_children_by_item_total
              (λ docs_ X rows_ child,
                 _transform VERSION strptime_ok vec_feature_names vec_transform
                   comprehension_leaks child docs_ X rows_)
              self docs indices ibi 0 i3 X2 Hti Hok2)
    as (X' & -> & _); [by rewrite Hl2|done| |done| |by eexists].
  - apply Forall_forall. intros c Hc. rewrite Forall_forall in IHi, Hi. by apply IHi, Hi.
  - intros k ind Hk. simpl. apply Forall_forall. intros i Hi'.
    destruct (Hibi k ind i Hk Hi') as (lst & Hdoc & Hlt & _).
    destruct (lookup_lt_is_Some_2 lst k Hlt) as [v Hv]. exists lst, v. split_and!; try done.
    pose proof (Hclass _ _ Hdoc) as Hc. rewrite classifiable_unfold in Hc.
    destruct (typeof (DList lst)); [|done].
    rewrite forallb_forall in Hc. apply Hc.
    apply list_elem_of_In. by eapply list_elem_of_lookup_2.
Qed.

End Returns.

Lemma linked_shared (n : Node) :
  all_nodes linked n → tuple_items n = false → all_nodes (λ m, tuple_items m = false) n.
Proof.
  tidy. induction n as [n IHp IHi] using Node_ind'. intros Hall Hti.
  apply all_nodes_inv in Hall as ([Hlp Hli] & Hp & Hi).
  apply all_nodes_children; [done|..].
  - rewrite Forall_forall in IHp, Hp, Hlp |- *. intros kv Hin.
    destruct (Hlp kv Hin) as [_ Htuple]. apply (IHp kv Hin (Hp kv Hin)). congruence.
  - rewrite Forall_forall in IHi, Hi |- *. intros c Hin.
    pose proof Hin as [i Hc]%list_elem_of_lookup.
    destruct (Hli i c Hc) as [_ Htuple]. apply (IHi c Hin (Hi c Hin)). congruence.
Qed.

Lemma fitted_of_all_nodes (Q Q' : Node → Prop) (n n' : Node) :
  (∀ a b, fitted_of a b → Q a → Q' b) →
  all_nodes Q n → fitted_of n n' → all_nodes Q' n'.
Proof.
  tidy. intros HQ. revert n'. induction n as [n IHp IHi] using Node_ind'.
  intros n' (Hn & Hp & Hi)%all_nodes_inv Hf.
  pose proof Hf as [_ _ _ _ _ _ _ Hprops Hitems].
  apply all_nodes_children; [by eapply HQ|..].
  - apply Forall_forall. intros kv' [i Hkv']%list_elem_of_lookup.
    destruct (Forall2_lookup_r _ _ _ _ _ Hprops Hkv') as (kv & Hkv & _ & Hfk).
    rewrite Forall_forall in IHp, Hp.
    apply (IHp kv (list_elem_of_lookup_2 _ _ _ Hkv)); [|done].
    apply Hp. by eapply list_elem_of_lookup_2.
  - apply Forall_forall. intros c' [i Hc']%list_elem_of_lookup.
    destruct (Forall2_lookup_r _ _ _ _ _ Hitems Hc') as (c & Hc & Hfc).
    rewrite Forall_forall in IHi, Hi.
    apply (IHi c (list_elem_of_lookup_2 _ _ _ Hc)); [|done].
    apply Hi. by eapply list_elem_of_lookup_2.
Qed.

(** X30: with shared arrays [transform] does not fail on documents that
    classify: on the tree [fit] returned on a new vectorizer with
    [tuple_items=False], with extractors that report rows among the
    documents they were given, [transform] returns a matrix for every list
    of documents whose values all have a JSON type, whatever their shape. *)
Theorem transform_shared_returns
    (vec_transform_rows :
       ∀ v ds rc, rc ∈ vec_transform v ds → (rc.1 < length ds)%nat)
    (p : list Seg) (docs : list Doc) (rules : list (Rule Factory)) (ign : list string)
    (root0 root' : Node) (docs' : list Doc) :
  init empty_repr p false = Ok root0 →
  fit root0 docs rules ign = Ok root' →
  forallb (classifiable VERSION strptime_ok) docs' = true →
  ∃ X, transform VERSION strptime_ok vec_feature_names vec_transform comprehension_leaks
         root' docs' = Ok X.
Proof.
  intros Hinit Hfit Hdocs. unfold fit in Hfit.
  apply bind_Ok in Hfit as (root & Hroot & Hfit).
  apply bind_Ok in Hfit as ([ret n'] & Hfit & [= <-]).
  destruct (extend_new_invariants _ _ _ _ _ Hinit Hroot) as (Hall & _ & Hti).
  assert (valid root) as Hvalid.
  { rewrite init_empty in Hinit. injection Hinit as <-.
    eapply extend_valid; [|exact Hroot]. apply valid_fresh. }
  pose proof (_fit_fitted_of _ _ _ _ Hvalid _ _ _ Hfit) as Hfitted.
  assert (all_nodes (λ m, tuple_items m = false ∧ (OBJECT ∈ type m → is_Some (required m)))
            n') as Hinv.
  { apply (fitted_of_all_nodes
             (λ m, tuple_items m = false ∧ (OBJECT ∈ type m → is_Some (required m)))
             _ root); [| |done].
    - intros a b [_ Hta Hty _ Hre _ _ _ _] [? ?]. rewrite Hta, Hty, Hre. by split.
    - apply all_nodes_and.
      + apply linked_shared; [|done]. revert Hall. apply all_nodes_impl. tauto.
      + revert Hall. apply all_nodes_impl. intros m (_ & (Hreq & _) & _). apply Hreq. }
  unfold transform. cbv zeta.
  destruct (_transform_total vec_transform_rows n' Hinv docs'
              (replicate (length docs') [], replicate (length docs') [])
              (seq 0 (length docs'))) as (X & HX & _).
  - apply Forall_forall. intros d Hd. rewrite forallb_forall in Hdocs.
    by apply Hdocs, list_elem_of_In.
  - split; simpl.
    + apply Forall2_same_length_lookup. rewrite !length_replicate. split; [done|].
      intros k row data [-> _]%lookup_replicate [-> _]%lookup_replicate.
      split; [constructor|done].
    + apply Forall_forall. intros data [-> _]%elem_of_replicate. constructor.
  - by rewrite length_seq.
  - simpl. rewrite length_replicate. apply Forall_forall. intros r Hr%elem_of_seq. lia.
  - by exists X.
Qed.

End Properties.

(** ** Witnesses and counterexamples *)

Lemma lil_insert_sorted_witness :
  ∃ row' data',
    Lil.lil_insert [[1; 5]; []] [[true; true]; []] 0 3
    = Ok (<[0%nat := row']> [[1; 5]; []], <[0%nat := data']> [[true; true]; []])
    ∧ StronglySorted Z.lt row'
    ∧ 3 ∈ row'
    ∧ (3 ∈ [1; 5] → row' = [1; 5])
    ∧ (3 ∉ [1; 5] → ∃ l1 l2, [1; 5] = l1 ++ l2 ∧ row' = l1 ++ 3 :: l2)
    ∧ (∀ v, last [1; 5] = Some v → v < 3 → row' = [1; 5] ++ [3])
    ∧ (∃ data'', Lil.lil_insert (<[0%nat := row']> [[1; 5]; []])
                   (<[0%nat := data']> [[true; true]; []]) 0 3
                 = Ok (<[0%nat := row']> [[1; 5]; []], <[0%nat := data'']> [[true; true]; []])).
Proof.
  apply (lil_insert_sorted [[1; 5]; []] [[true; true]; []] 0 3 [1; 5] [true; true]).
  - reflexivity.
  - reflexivity.
  - reflexivity.
  - repeat constructor; lia.
Defined.

(** [all_nodes P n] for a concrete tree [n], with [tac] for [P] at a node *)
Ltac all_nodes_by tac :=
  constructor;
  [tac
  |match goal with
   | |- Forall _ ?l => let l' := eval vm_compute in l in change l with l'
   end;
   repeat (apply Forall_cons; split; [all_nodes_by tac|]); by apply Forall_nil].

Ltac keeps_all_by_evaluation :=
  split_and!;
  [by vm_compute
  |intros [] Ht; apply (bool_decide_pack _) in Ht; vm_compute in Ht;
   try done; eexists; (split; [reflexivity|lia])
  |eexists; reflexivity].

Ltac valid_dicts_by_evaluation :=
  split; apply (bool_decide_unpack _); by vm_compute.

Lemma prune_nothing_noop_witness :
  (all_nodes (keeps_all 0) sample_objects
   ∧ prune no_match exact_int_of_float_times sample_objects [] (MInt 0)
     = Ok ([], sample_objects))
  ∧ (valid sample_objects
     ∧ prune no_match exact_int_of_float_times sample_objects [] (MInt 0)
       = Ok ([], sample_objects)
     ∧ all_nodes (keeps_all 0) sample_objects).
Proof.
  assert (all_nodes (keeps_all 0) sample_objects) as Hall.
  { all_nodes_by keeps_all_by_evaluation. }
  assert (valid sample_objects) as Hvalid.
  { all_nodes_by valid_dicts_by_evaluation. }
  assert (prune no_match exact_int_of_float_times sample_objects [] (MInt 0)
          = Ok ([], sample_objects)) as Hprune by (by vm_compute).
  destruct (prune_nothing_noop no_match exact_int_of_float_times sample_objects)
    as [Hif Honly].
  split; [split; [exact Hall|exact (Hif Hall)]|].
  split_and!; [exact Hvalid|exact Hprune|exact (Honly Hvalid Hprune)].
Defined.

(** C7, as stated, fails on the schema learned from the single document
    [[]]: the item schema has no type, so it is reported and dropped. *)
Lemma prune_nothing_counterexample :
  prune no_match exact_int_of_float_times sample_empty_array [] (MInt 0)
  = Ok (["root:any"], set_items sample_empty_array [])
  ∧ prune no_match exact_int_of_float_times sample_empty_array [] (MInt 0)
    ≠ Ok ([], sample_empty_array).
Proof. split; [by vm_compute|]. by vm_compute. Qed.

Lemma prune_children_order_witness :
  ∃ self',
    _prune no_match exact_int_of_float_times sample_two_items [] 2
    = Ok ([] ++ concat ([] : list (list string * option (Node Empty_set))).*1
             ++ concat (reverse two_items_outcomes).*1, self')
    ∧ Forall2 (λ name o, dict_get (properties self') name = o.2)
        (sorted (dict_keys (properties sample_two_items)))
        ([] : list (list string * option (Node Empty_set)))
    ∧ items self' = omap snd two_items_outcomes.
Proof.
  apply (prune_children_order no_match exact_int_of_float_times
           sample_two_items [] 2 [] sample_two_items [] two_items_outcomes).
  - constructor.
  - by vm_compute.
  - intros Hne. by destruct Hne.
  - constructor.
  - repeat constructor.
Defined.

(** C8, as stated, fails where a node has two items: what item 1 records
    comes before what item 0 records. *)
Lemma prune_items_order_counterexample :
  ∃ item0 item1 left0 left1 self',
    items sample_two_items = [item0; item1]
    ∧ prune no_match exact_int_of_float_times item0 [] (MInt 2)
      = Ok (["root:any -> string"], left0)
    ∧ prune no_match exact_int_of_float_times item1 [] (MInt 2)
      = Ok (["root:any -> number"], left1)
    ∧ prune no_match exact_int_of_float_times sample_two_items [] (MInt 2)
      = Ok (["root:any -> number"; "root:any -> string"], self').
Proof. repeat eexists; by vm_compute. Qed.

(** [prune(min_f=0.5)] on [sample_two_properties]: the threshold is
    [int(0.5 * 4) = 2] at the root and at both properties; [a], with two
    numbers, stays, and [b], with one number and one string, goes. *)
Lemma prune_float_threshold_witness :
  prune no_match exact_int_of_float_times sample_two_properties []
    (MInt (exact_int_of_float_times (1 # 2)
             (sum_counts (counts sample_two_properties))))
  = Ok (two_properties_pruned.1, two_properties_pruned.2)
  ∧ all_nodes (count_reaches (exact_int_of_float_times (1 # 2)
                                (sum_counts (counts sample_two_properties))))
      two_properties_pruned.2
  ∧ pruned_with no_match []
      (exact_int_of_float_times (1 # 2) (sum_counts (counts sample_two_properties)))
      sample_two_properties two_properties_pruned.2.
Proof.
  apply (prune_float_threshold no_match exact_int_of_float_times
           sample_two_properties [] (1 # 2)).
  - all_nodes_by valid_dicts_by_evaluation.
  - by vm_compute.
Defined.

(** C5, as stated, fails on [sample_sparse_property] with [min_f = 0.5]:
    the property [a] has two observations, so a threshold from its own total
    would be [int(0.5 * 2) = 1] and would leave it as it is; [prune] on the
    root applies the root's [int(0.5 * 4) = 2] to it and drops it. *)
Lemma prune_float_counterexample :
  ∃ child,
    dict_get (properties sample_sparse_property) "a" = Some child
    ∧ sum_counts (counts sample_sparse_property) = 4
    ∧ sum_counts (counts child) = 2
    ∧ prune no_match exact_int_of_float_times child [] (MFloat (1 # 2)) = Ok ([], child)
    ∧ prune no_match exact_int_of_float_times sample_sparse_property [] (MFloat (1 # 2))
      = Ok (["root:a"], set_required (set_properties sample_sparse_property []) (Some ∅)).
Proof. eexists. split; [reflexivity|]. split_and!; by vm_compute. Qed.



Lemma fit_positions_witness :
  feature_names_ sample_tuple_fitted
  = concat (feature_names <$> preorder sample_tuple_fitted)
  ∧ (∀ before m after, preorder sample_tuple_fitted = before ++ m :: after →
       pos m = Z.of_nat (length (concat (feature_names <$> before)))
       ∧ n_features m
         = Z.of_nat (length (feature_names m)) + sumZ (n_features <$> ordered_children m)
       ∧ n_features m = Z.of_nat (length (feature_names_ m)))
  ∧ (∀ u p n_total ret u',
       _fit_self no_match no_fit no_feature_names u p n_total [] [] = Ok (ret, u') →
       0 ≤ p → p + Z.of_nat (length (feature_names u')) < 2 ^ 31 →
       pos u' = p ∧ ret = p + Z.of_nat (length (feature_names u'))).
Proof.
  apply (fit_positions py3 no_timestamp no_match no_fit no_feature_names
           true [] sample_tuple_docs [] []
           (mkNode [SegStr "root"] true ∅ None [] [] [] 0 [] [] [] 0)
           (mkNode [SegStr "root"] true ∅ None [] [] [] 0 [] [] [] 0)
           sample_tuple_fitted).
  - reflexivity.
  - reflexivity.
  - by vm_compute.
  - by vm_compute.
Defined.

Lemma from_dict_to_dict_same_shape_witness :
  ∃ root',
    from_dict init (mkNode [SegStr "root"] false ∅ None [] [] [] 0 [] [] [] 0)
      (to_dict sample_objects) = Ok root'
    ∧ init (to_dict sample_objects) [SegStr "root"] false = Ok root'
    ∧ same_shape sample_objects root'.
Proof.
  apply (from_dict_to_dict_same_shape py3 no_timestamp false
           [DDict [("a", DInt 1); ("b", DStr "x")]; DDict [("a", DInt 2)]]
           (mkNode [SegStr "root"] false ∅ None [] [] [] 0 [] [] [] 0)
           sample_objects [SegStr "root"] false).
  - reflexivity.
  - by vm_compute.
Defined.

(** *** [transform] in tuple mode *)

(** The index a turn of the last loop of [_transform] hands to [get_item]
    is never taken from the position [j]: it is 0 when arrays are shared, and
    in tuple mode the value of [i], the number of a document. *)
Lemma item_call_index {Vectorizer} (leaks : bool) (self : Node Vectorizer)
    (docs : list Doc) (indices : list nat) (i j : nat) (indices_ : list nat)
    (docs_ : list Doc) (i' index : nat) (rows_ : list nat) :
  item_call leaks self docs indices i j indices_ = Ok (docs_, i', index, rows_) →
  i' = (if leaks then default i (last indices_) else i)
  ∧ index = (if tuple_items self then i' else 0%nat).
Proof.
  unfold item_call. intros (ds & _ & (rs & _ & [= _ <- <- _])%bind_Ok)%bind_Ok.
  by destruct leaks.
Qed.

(** C1, evaluated at [JsonVectorizer(tuple_items=True)] fitted on
    [[[1, "a"], ["b", 2]]] and transforming the same two documents, whichever
    way the comprehension variable is scoped: in the turn of the last loop
    for position [j = 0] the sub-batch is [[1, "b"]] with rows 0 and 1, and
    the index handed to [get_item] is 1, the number of the last document (the
    variable [i]), not the position.  Both sub-batches reach [items[1]], so
    each row gets columns 2 and 3 (["root:1 is number"], ["root:1 is
    string"]) and no column of [items[0]]; a single document [[1, "a"]] has
    both of its elements sent to [items[0]]. *)
Theorem transform_tuple_position_index (leaks : bool) :
  fitted true sample_tuple_docs = Ok sample_tuple_fitted
  ∧ feature_names_ sample_tuple_fitted
    = ["root:0 is number"; "root:0 is string"; "root:1 is number"; "root:1 is string"]
  ∧ item_call leaks sample_tuple_fitted sample_tuple_docs [0; 1]%nat 1%nat 0%nat [0; 1]%nat
    = Ok ([DInt 1; DStr "b"], 1%nat, 1%nat, [0; 1]%nat)
  ∧ transform py3 no_timestamp no_feature_names no_transform leaks
      sample_tuple_fitted sample_tuple_docs
    = Ok ([[2; 3]; [2; 3]], [[true; true]; [true; true]])
  ∧ transform py3 no_timestamp no_feature_names no_transform leaks
      sample_tuple_fitted [DList [DInt 1; DStr "a"]]
    = Ok ([[0; 1]], [[true; true]]).
Proof. destruct leaks; split_and!; by vm_compute. Qed.

(** C6, evaluated at [JsonVectorizer(tuple_items=True)] fitted on [[[1]]]:
    the two documents [[1]] and [[1]] are arrays, the type of the root, and
    their element is a number, the type of [items[0]]; [transform] of the
    batch raises IndexError, whichever way the comprehension variable is
    scoped, because [get_item] is called with the number of the last
    document, 1, and there is one item.  The batch of one such document is
    transformed. *)
Theorem transform_tuple_raises (leaks : bool) :
  fitted true [DList [DInt 1]] = Ok sample_tuple_one
  ∧ typeof py3 no_timestamp (DList [DInt 1]) = Ok ARRAY
  ∧ bool_decide (ARRAY ∈ type sample_tuple_one) = true
  ∧ (item ← get_item sample_tuple_one 0; Ok (type item)) = Ok {[NUMBER]}
  ∧ typeof py3 no_timestamp (DInt 1) = Ok NUMBER
  ∧ transform py3 no_timestamp no_feature_names no_transform leaks
      sample_tuple_one [DList [DInt 1]]
    = Ok ([[]], [[]])
  ∧ transform py3 no_timestamp no_feature_names no_transform leaks
      sample_tuple_one [DList [DInt 1]; DList [DInt 1]]
    = Raise IndexError.
Proof. destruct leaks; split_and!; by vm_compute. Qed.

(** *** The sparse matrix as a whole *)

Ltac rows_ok_by_evaluation :=
  repeat (apply Forall2_cons; split; [split; [repeat constructor; lia|reflexivity]|]);
  apply Forall2_nil; done.

Lemma bisect_left_leftmost_witness :
  ∃ p, Lil.bisect_left [1; 3; 5; 7] 4 = Ok p ∧ (p ≤ length [1; 3; 5; 7])%nat
       ∧ (∀ k v, [1; 3; 5; 7] !! k = Some v → (k < p)%nat → v < 4)
       ∧ (∀ k v, [1; 3; 5; 7] !! k = Some v → (p ≤ k)%nat → 4 ≤ v).
Proof. apply (bisect_left_leftmost [1; 3; 5; 7] 4). repeat constructor; lia. Defined.

Lemma lil_set_col_spec_witness :
  ∃ rows' datas',
    Lil.lil_set_col [[1; 5]; []; [2]] [[true; true]; []; [true]] [2; 0; 2]%nat 2
    = Ok (rows', datas')
    ∧ Forall2 row_ok rows' datas'
    ∧ length rows' = length [[1; 5]; []; [2]]
    ∧ ∀ r row, [[1; 5]; []; [2]] !! r = Some row →
        ∃ row', rows' !! r = Some row'
                ∧ ∀ c, c ∈ row' ↔ c ∈ row ∨ (c = 2 ∧ r ∈ [2; 0; 2]%nat).
Proof.
  apply (lil_set_col_spec [[1; 5]; []; [2]] [[true; true]; []; [true]] [2; 0; 2]%nat 2).
  - rows_ok_by_evaluation.
  - repeat constructor; simpl; lia.
Defined.

Lemma lil_set_spec_witness :
  ∃ rows' datas',
    Lil.lil_set [[1; 5]; []] [[true; true]; []] [1; 0; 1]%nat [4; 3; 0; 9]
    = Ok (rows', datas')
    ∧ Forall2 row_ok rows' datas'
    ∧ length rows' = length [[1; 5]; []]
    ∧ ∀ r row, [[1; 5]; []] !! r = Some row →
        ∃ row', rows' !! r = Some row'
                ∧ ∀ c, c ∈ row' ↔ c ∈ row ∨ (r, c) ∈ zip [1; 0; 1]%nat [4; 3; 0; 9].
Proof.
  apply (lil_set_spec [[1; 5]; []] [[true; true]; []] [1; 0; 1]%nat [4; 3; 0; 9]).
  - rows_ok_by_evaluation.
  - repeat constructor; simpl; lia.
  - simpl. lia.
Defined.

Lemma lil_set_bounds_witness :
  Lil.lil_set_col [[1; 5]; []] [[true; true]; []] [0; 2]%nat 3 = Raise IndexError
  ∧ Lil.lil_set [[1; 5]; []] [[true; true]; []] [0; 1]%nat [3] = Raise IndexError.
Proof.
  destruct (lil_set_bounds [[1; 5]; []] [[true; true]; []] [0; 2]%nat 3 [3])
    as [Hcol _]; [rows_ok_by_evaluation|].
  destruct (lil_set_bounds [[1; 5]; []] [[true; true]; []] [0; 1]%nat 3 [3])
    as [_ Hset]; [rows_ok_by_evaluation|].
  split.
  - apply Hcol. apply Exists_cons_tl, Exists_cons_hd. simpl. lia.
  - apply Hset; [repeat constructor; simpl; lia|simpl; lia].
Defined.

Lemma lil_insert_commute_witness :
  ('(rows1, datas1) ← Lil.lil_insert [[1; 5]; []] [[true; true]; []] 0 3;
   Lil.lil_insert rows1 datas1 0 2)
  = ('(rows2, datas2) ← Lil.lil_insert [[1; 5]; []] [[true; true]; []] 0 2;
     Lil.lil_insert rows2 datas2 0 3).
Proof.
  apply (lil_insert_commute [[1; 5]; []] [[true; true]; []] 0 0 3 2).
  - rows_ok_by_evaluation.
  - repeat constructor.
  - simpl. lia.
  - simpl. lia.
Defined.

(** *** Learning *)

Lemma extend_counts_witness :
  sum_counts (counts sample_objects)
  = sum_counts (counts (mkNode (Vectorizer:=Empty_set) [SegStr "root"] false ∅ None
                          [] [] [] 0 [] [] [] 0))
    + Z.of_nat (length sample_object_docs)
  ∧ ∀ t, default 0 (dict_get (counts sample_objects) t)
         = default 0 (dict_get [] t)
           + Z.of_nat (count_of_type py3 no_timestamp t sample_object_docs).
Proof.
  apply (extend_counts py3 no_timestamp
           (mkNode [SegStr "root"] false ∅ None [] [] [] 0 [] [] [] 0)
           sample_object_docs sample_objects).
  by vm_compute.
Defined.

Lemma extend_counts_ok_witness : all_nodes counts_ok sample_objects.
Proof.
  apply (extend_counts_ok py3 no_timestamp false sample_object_docs
           (mkNode [SegStr "root"] false ∅ None [] [] [] 0 [] [] [] 0) sample_objects).
  - reflexivity.
  - by vm_compute.
Defined.

Lemma extend_structure_ok_witness : all_nodes structure_ok sample_objects.
Proof.
  apply (extend_structure_ok py3 no_timestamp false sample_object_docs
           (mkNode [SegStr "root"] false ∅ None [] [] [] 0 [] [] [] 0) sample_objects).
  - reflexivity.
  - by vm_compute.
Defined.

Lemma extend_items_length_witness :
  length (items sample_tuple_learned)
  = (length ([] : list (Node Empty_set)) `max` max_list (array_lengths sample_tuple_docs))%nat.
Proof.
  apply (extend_items_length py3 no_timestamp
           (mkNode [SegStr "root"] true ∅ None [] [] [] 0 [] [] [] 0)
           sample_tuple_docs sample_tuple_learned).
  by vm_compute.
Defined.

Lemma extend_property_names_witness :
  (∃ new, dict_keys (properties sample_objects) = [] ++ new)
  ∧ ∀ k, k ∈ dict_keys (properties sample_objects)
         ↔ k ∈ ([] : list string) ∨ ∃ doc, doc ∈ sample_object_docs ∧ k ∈ doc_keys doc.
Proof.
  apply (extend_property_names py3 no_timestamp
           (mkNode [SegStr "root"] false ∅ None [] [] [] 0 [] [] [] 0)
           sample_object_docs sample_objects).
  by vm_compute.
Defined.

(** *** [find_nodes] *)

Lemma find_nodes_spec_witness :
  find_nodes whole_match sample_objects ["root:b"; "root"]
  = if forallb (λ m, str_path (path m)) (preorder sample_objects)
    then Ok (path <$> filter (λ m, path_matches whole_match ["root:b"; "root"] (path m) = true)
                        (preorder sample_objects))
    else Raise TypeError.
Proof. apply (find_nodes_spec whole_match sample_objects ["root:b"; "root"]). done. Defined.


Lemma prune_leaves_witness :
  all_nodes (pruned_ok no_match [] 2) sparse_property_pruned.2.
Proof.
  apply (prune_leaves no_match exact_int_of_float_times sample_sparse_property [] 2
           sparse_property_pruned.1 sparse_property_pruned.2).
  - all_nodes_by valid_dicts_by_evaluation.
  - by vm_compute.
Defined.

Lemma prune_idempotent_witness :
  prune no_match exact_int_of_float_times sparse_property_pruned.2 [] (MInt 2)
  = Ok ([], sparse_property_pruned.2).
Proof.
  apply (prune_idempotent no_match exact_int_of_float_times sample_sparse_property [] 2
           sparse_property_pruned.1 sparse_property_pruned.2).
  - all_nodes_by valid_dicts_by_evaluation.
  - by vm_compute.
  - apply (bool_decide_unpack _). by vm_compute.
Defined.

Lemma prune_shared_returns_witness :
  ∃ paths root',
    prune whole_match exact_int_of_float_times sample_objects ["root:b"] (MInt 2)
    = Ok (paths, root').
Proof.
  apply (prune_shared_returns py3 no_timestamp whole_match exact_int_of_float_times
           [SegStr "root"] sample_object_docs
           (mkNode [SegStr "root"] false ∅ None [] [] [] 0 [] [] [] 0) sample_objects
           ["root:b"] 2).
  - reflexivity.
  - by vm_compute.
  - reflexivity.
  - lia.
Defined.

Lemma prune_tuple_raises_witness :
  prune no_match exact_int_of_float_times sample_tuple_learned [] (MInt 1)
  = Raise TypeError.
Proof.
  apply (prune_tuple_raises py3 no_timestamp no_match exact_int_of_float_times
           [SegStr "root"] sample_tuple_docs
           (mkNode [SegStr "root"] true ∅ None [] [] [] 0 [] [] [] 0) sample_tuple_learned
           [] 1 2).
  - reflexivity.
  - by vm_compute.
  - lia.
  - by vm_compute.
  - by vm_compute.
  - lia.
Defined.

Lemma prune_raises_TypeError_only_witness :
  (∃ paths root',
     prune whole_match exact_int_of_float_times sample_tuple_learned ["root"] (MInt 1)
     = Ok (paths, root'))
  ∨ prune whole_match exact_int_of_float_times sample_tuple_learned ["root"] (MInt 1)
    = Raise TypeError.
Proof.
  apply (prune_raises_TypeError_only py3 no_timestamp whole_match exact_int_of_float_times
           [SegStr "root"] true sample_tuple_docs
           (mkNode [SegStr "root"] true ∅ None [] [] [] 0 [] [] [] 0) sample_tuple_learned
           ["root"] 1).
  - reflexivity.
  - by vm_compute.
  - lia.
Defined.


Lemma fit_returns_witness :
  ∃ root',
    fit py3 no_timestamp no_match no_fit no_feature_names
      (mkNode [SegStr "root"] true ∅ None [] [] [] 0 [] [] [] 0) sample_tuple_docs [] []
    = Ok root'.
Proof.
  apply (fit_returns py3 no_timestamp no_match no_fit no_feature_names
           [SegStr "root"] true sample_tuple_docs [] []
           (mkNode [SegStr "root"] true ∅ None [] [] [] 0 [] [] [] 0)).
  reflexivity.
Defined.

Lemma fit_keeps_schema_witness :
  fitted_of sample_tuple_learned sample_tuple_fitted
  ∧ same_shape sample_tuple_learned sample_tuple_fitted.
Proof.
  apply (fit_keeps_schema py3 no_timestamp no_match no_fit no_feature_names
           (mkNode [SegStr "root"] true ∅ None [] [] [] 0 [] [] [] 0)
           sample_tuple_docs [] [] sample_tuple_learned sample_tuple_fitted).
  - all_nodes_by valid_dicts_by_evaluation.
  - by vm_compute.
  - by vm_compute.
Defined.

Lemma fit_drops_values_witness :
  all_nodes (λ m, values m = []) sample_seen_fitted.
Proof.
  apply (fit_drops_values py3 no_timestamp no_match seen_fit seen_feature_names
           [SegStr "root"] false sample_seen_docs sample_seen_rules []
           (mkNode [SegStr "root"] false ∅ None [] [] [] 0 [] [] [] 0) sample_seen_fitted).
  - reflexivity.
  - by vm_compute.
Defined.


Lemma transform_matrix_witness :
  length ([[2]; [0; 1]; []] : list (list Z)) = length [DStr "x"; DInt 7; DNone]
  ∧ length [[true]; [true; true]; []] = length [DStr "x"; DInt 7; DNone]
  ∧ Forall2 row_ok [[2]; [0; 1]; []] [[true]; [true; true]; []]
  ∧ Forall (Forall (λ b, b = true)) [[true]; [true; true]; []].
Proof.
  apply (transform_matrix py3 no_timestamp seen_feature_names seen_transform true
           sample_seen_fitted [DStr "x"; DInt 7; DNone]
           ([[2]; [0; 1]; []], [[true]; [true; true]; []])).
  by vm_compute.
Defined.

Lemma transform_unseen_type_row_witness :
  ([[0; 1]; []] : list (list Z)) !! 1%nat = Some []
  ∧ ([[true; true]; []] : list (list bool)) !! 1%nat = Some [].
Proof.
  apply (transform_unseen_type_row py3 no_timestamp no_feature_names no_transform false
           sample_tuple_fitted [DList [DInt 1; DStr "a"]; DInt 5]
           ([[0; 1]; []], [[true; true]; []]) 1 (DInt 5) NUMBER).
  - by vm_compute.
  - reflexivity.
  - reflexivity.
  - apply (bool_decide_unpack _). by vm_compute.
Defined.


Lemma to_dict_round_trip_witness :
  init (to_dict sample_tuple_learned) [SegStr "root"] false = Ok sample_tuple_learned.
Proof.
  apply (to_dict_round_trip py3 no_timestamp [SegStr "root"] true sample_tuple_docs
           (mkNode [SegStr "root"] true ∅ None [] [] [] 0 [] [] [] 0)
           sample_tuple_learned false).
  - reflexivity.
  - by vm_compute.
Defined.


Lemma to_dict_round_trip_fitted_witness :
  init (to_dict sample_seen_fitted) [SegStr "root"] true = Ok sample_seen_fitted.
Proof.
  apply (to_dict_round_trip_fitted py3 no_timestamp no_match seen_fit seen_feature_names
           [SegStr "root"] false sample_seen_docs sample_seen_rules []
           (mkNode [SegStr "root"] false ∅ None [] [] [] 0 [] [] [] 0)
           sample_seen_fitted true).
  - reflexivity.
  - by vm_compute.
Defined.


Lemma transform_columns_witness :
  n_features sample_seen_fitted = Z.of_nat (length (feature_names_ sample_seen_fitted))
  ∧ Forall (Forall (λ c, 0 ≤ c < n_features sample_seen_fitted)) [[2]; [0; 1]; []].
Proof.
  apply (transform_columns py3 no_timestamp no_match seen_fit seen_feature_names
           seen_transform false
           ltac:(intros v ds rc (r & -> & _)%list_elem_of_fmap; simpl; lia)
           [SegStr "root"] false sample_seen_docs sample_seen_rules []
           (mkNode [SegStr "root"] false ∅ None [] [] [] 0 [] [] [] 0) sample_seen_fitted
           [DStr "x"; DInt 7; DNone] ([[2]; [0; 1]; []], [[true]; [true; true]; []])).
  - reflexivity.
  - by vm_compute.
  - by vm_compute.
  - by vm_compute.
Defined.


Lemma fit_integer_rule_unused_witness :
  fit py3 no_timestamp no_match seen_fit seen_feature_names
    (mkNode [SegStr "root"] false ∅ None [] [] [] 0 [] [] [] 0) sample_seen_docs
    ([] ++ mkRule (Some (TypeStr "integer")) None tt :: sample_seen_rules) []
  = fit py3 no_timestamp no_match seen_fit seen_feature_names
      (mkNode [SegStr "root"] false ∅ None [] [] [] 0 [] [] [] 0) sample_seen_docs
      ([] ++ sample_seen_rules) [].
Proof.
  apply (fit_integer_rule_unused py3 no_timestamp no_match seen_fit seen_feature_names
           [SegStr "root"] false sample_seen_docs [] sample_seen_rules
           (mkRule (Some (TypeStr "integer")) None tt) []
           (mkNode [SegStr "root"] false ∅ None [] [] [] 0 [] [] [] 0)).
  - reflexivity.
  - reflexivity.
Defined.


Lemma transform_shared_returns_witness :
  ∃ X, transform py3 no_timestamp seen_feature_names seen_transform true
         sample_seen_fitted [DStr "x"; DInt 7; DNone; DList [DDict [("k", DInt 1)]]]
       = Ok X.
Proof.
  apply (transform_shared_returns py3 no_timestamp no_match seen_fit seen_feature_names
           seen_transform true
           ltac:(intros v ds rc (r & -> & Hr%elem_of_seq)%list_elem_of_fmap; simpl; lia)
           [SegStr "root"] sample_seen_docs sample_seen_rules []
           (mkNode [SegStr "root"] false ∅ None [] [] [] 0 [] [] [] 0) sample_seen_fitted
           [DStr "x"; DInt 7; DNone; DList [DDict [("k", DInt 1)]]]).
  - reflexivity.
  - by vm_compute.
  - reflexivity.
Defined.
